(* ===== verification/_CoqProject ===== *)
-Q . S2P
Prelude.v
Capy.v
Charconv.v
Nghttp2.v
Stream.v
StreamRead.v
StreamWrite.v
StreamSys.v
StreamProps.v
Session.v
SessionSys.v
SessionProps.v
SessionHeaders.v
SessionTypes.v
Loops.v
LoopProps.v
Connection.v
ConnectionProps.v
ConnectionEnd.v
ConnectionDemo.v
TaskGroup.v
Log.v
LogTime.v
Endpoints.v
Server.v
Messages.v
Composed.v
Echo.v
EchoStream.v
EchoLive.v
EchoSafe.v
EchoEnd.v
SessionEcho.v
EchoCancel.v
EchoClosed.v
Wire.v
EchoConnection.v
EchoConnectionEnd.v
EchoConnectionStop.v
EchoConnectionClosed.v
ServerWorld.v
ServerDrain.v
EchoConnectionDemo.v
ServerWorldDemo.v
BodyRead.v
Lifetime.v
LifetimeProps.v
Refcount.v
RefcountProps.v
