(* ===== verification/Prelude.v ===== *)
(** * nghttp2-corosio: a verification of the HTTP/2 session library

    The program is a C++23 coroutine library that runs HTTP/2 sessions on top of
    libnghttp2 (framing, flow control) and of capy/corosio (coroutines, events,
    buffers, sockets, TLS).  Its own logic bridges nghttp2's synchronous callbacks and
    the coroutines of applications.

    ** Parts and files

    - Prelude: record update, bytes and machine integers, error codes, list lemmas,
      automation shared by all files.
    - Capy: the interface of capy the sources use ([CapyOps]), its documented laws
      ([CapyLaws]) and a reference instance ([capy_ref]).  Charconv: std::to_string
      and std::from_chars.  Nghttp2: frame types, header pairs, constants, and the
      calls made into nghttp2 (a [call] per function).
    - Stream (src/stream_impl.hpp, src/stream.cpp): record [Stream], one definition
      per member function.  A coroutine ([read_some], [write_impl], [status]) is two
      definitions, from the call to the suspension and from the resumption on; the
      loops of [read_some] and [producer_callback] are executable functions.
      StreamRead and StreamWrite hold the lemmas and invariants of the two sides,
      StreamSys the transition system of one stream (every interleaving of nghttp2's
      callbacks with one reader, one writer and one waiter for the status),
      StreamProps the theorems about all its reachable states.
    - Session (src/session.cpp, src/session_impl.hpp): record [Session] with the
      table [streams_] and a heap of stream objects (table, coroutines and nghttp2's
      data providers alias them); the callbacks, [dispatch_request],
      [submit_request], [submit_response], the closing loop of run().  SessionSys:
      sessions under any interleaving and the table invariant.  SessionProps:
      refinement to the stream system, isolation, flow control, closing.
      SessionHeaders: what header blocks leave in a stream, round trips.
      SessionTypes: the type invariant (ids, status, lengths and counter at their widths).
    - Loops (send_loop, recv_loop, start_write and the set-up of run() in
      src/session.cpp) over an abstract nghttp2 session ([NgSession]); LoopProps:
      conservation of bytes, wake-ups, batching, shutdown.
    - Connection (run() as a whole): both loops over a world that holds the session
      and an nghttp2 engine, which calls the session's callbacks while it receives and
      pulls body bytes through data_source_read_callback while it sends.
      ConnectionProps: every run of a connection is a run of the session system, and
      its output is never left behind.  ConnectionEnd: the end of run(), in every order of
      events, and what comes after it.  ConnectionDemo: an engine that satisfies the
      laws, with concrete connections.
    - TaskGroup (src/task_group.hpp and the destructor in src/server.cpp): the task
      counter and the drain loop, over an abstract io_context.
    - Log (logging.hpp, formatter.hpp, callbacks that only log), LogTime (log_timestamp
      with std::chrono's calendar, run_io_context.hpp),
      Endpoints (accept_loop of src/server.cpp, connect of src/client.cpp, the command
      line of server_main.cpp), Server (start, stop, and every coroutine the server
      keeps on its context), Messages (the classes of session.hpp and handle_request).
    - Composed (the body operations write_some, write, write_eof of Response and
      ClientRequest): coroutines over the stream's operations, with capy's composed
      write as a parameter ([CapyWrite], its laws, a reference instance).  BodyRead: the
      reading operations read_some and read of Request and ClientResponse, likewise.
    - Echo (echo_handler.cpp and main.cpp) on its own; EchoStream: the handler awaiting
      the operations of its stream; EchoLive: it comes to its end; EchoSafe: what it has
      sent at every moment before; EchoEnd, EchoClosed: it returns once its stream is
      closed, within ten turns whatever they are.
      SessionEcho: a session that runs this handler for every request, with all the
      handlers, callbacks and loops interleaved.  Wire: such a session connected to a
      client's.  EchoConnection: the handlers under run() with its loops and the nghttp2
      engine of Connection; EchoConnectionEnd, EchoConnectionClosed: the end of
      all of them, in every order of turns; EchoConnectionDemo: concrete runs.
      EchoCancel: a handler whose waits are
      cancelled; EchoConnectionStop: a connection whose coroutines all are.
    - ServerWorld: the whole server program, [Server] with a connection of EchoConnection
      per session it accepted, one of Connection per [Client] connected on its context,
      and a task per coroutine; ServerDrain: its destruction, the
      drain loop of TaskGroup over the cancelled coroutines, resumed in any order;
      ServerWorldDemo: a concrete server.
    - Lifetime (the constructors, moves and destructors of session.hpp, the shared
      pointers of src/session.cpp and src/stream_impl.hpp): who owns a stream and a
      session, and their destruction with the last owner; LifetimeProps: its theorems.
      Refcount: the same by reference counts, with the local pointers of the functions of
      src/session.cpp and with use after destruction as an outcome; RefcountProps: the
      counts are right and that outcome does not occur.

    ** How the parts interact

    nghttp2 calls back into a session, which routes events to streams; a stream's
    coroutine calls nghttp2 (consume_stream, resume_data) and start_write; both kinds
    of call are returned as a list of [call]s by the stream's operations and carried
    out by [Session.perform].  start_write sets the event the send loop sleeps on.  A
    handler coroutine is spawned through the task group when a request's headers are
    complete.  The layers are composed: Connection puts the loops, the engine and
    the session into one world, EchoStream a handler, the body operations and a stream,
    SessionEcho a session and all its handlers, EchoConnection these and the loops of
    run(), Wire two sessions, ServerWorld the accept loop, the task group and any number
    of connections.  The interfaces between them are classes: [HandlerInv] for what holds
    of every handler of a session, [IoContextLaws] for what the drain loop relies on (it
    is proved of the program's own coroutines in ServerDrain), [NgEngine] and the rest
    for the libraries.

    ** What is shown

    - Bodies are delivered and sent exactly: order, no loss, no duplication, end of
      body, for a stream ([read_fifo], [write_integrity], [eof_flag_exact], ...), for
      a session ([session_refines_streams], [session_fifo]), for the connection
      ([send_loop_conserves]), for the body operations of messages
      ([body_write_exact], [body_read_exact]), for the echo handler on its stream
      ([echo_end_to_end]), for a session of such handlers ([session_echoes]), for a
      whole server connection ([connection_echoes]), for a server with all its
      connections ([server_echoes]), and for the way from a client to
      the echo server and back ([echo_over_wire]).
    - Refinement: a session is its streams side by side ([session_refines_streams]),
      a connection runs like a session ([kreach_inv]), so that what is shown of all
      states of a stream holds in a running connection.
    - Memory: reference counts destroy exactly what has no owner and nothing is used
      afterwards ([no_use_after_free]); nothing is left of a session that is over
      ([session_reclaimed]); nghttp2's provider touches a caller's buffers only while that
      write is suspended ([write_offer_safe]).
    - No wake-up is lost: readers, writers, the send loop (which never sleeps over output
      nghttp2 has, [output_never_stranded]), and everything at the close of a stream, a
      session, a server.  Operations finish: body reads and writes
      ([body_read_completes], [body_write_completes]), the echo handlers
      ([echo_completes], [session_echo_completes]), a connection whose transport ended
      ([connection_ends]) with all its handlers ([connection_winds_down]), a server that
      is destroyed in whatever state ([server_shuts_down]; for an abstract context
      [server_drains]).
    - Headers, status and content-length survive the wire; error paths of
      submit_request, connect and accept_loop; the server's bookkeeping of its
      coroutines ([server_tracks], [server_world_refines]); machine widths ([session_typed]); the log
      ([one_line_per_message], [timestamp_sorts], [run_io_context_reports]).
    - Five behaviours that differ from what the comments say are proved as they are:
      [status_hangs_in_session], [write_eof_lost_on_close], [late_request_orphaned],
      [late_request_leaks] and [read_reorders_windows].

    ** Bounds and fuel

    [Stream.drain] runs with fuel one more than queued bytes plus chunks: each round
    copies a byte or pops a chunk.  [send_loop] runs with fuel one more than the room
    left in its buffer: each round but the last buffers a byte.  [TaskGroup.drain]
    runs with fuel one more than the handlers left; for a server that was asked to stop
    these are counted by [stopping_left] (at most 12 turns for a handler, 5 for the loops
    of a connection, 2 for the accept loop, and 12 more for every wait that had been
    satisfied).  Each is proved to be enough under
    the class laws.  A connection comes to its end within two more turns than the engine
    has output left ([eng_left]).  [to_string] has the binary length of its argument as
    fuel.  The other runs ([hrun], [lrun], [rrun], [rc_run], ...) recur on the sequence of events
    they are given.
    Reading theorems assume that a destination fits one window of capy's buffer_param
    (at most 16 buffers, [bp_one_window]); data copied past a window by on_data would
    otherwise be queued behind bytes still to be copied.  Where they speak of the results of
    reads, destinations are not empty either ([empty_read_ends] says why).

    What is assumed of nghttp2 is what it documents: the laws of [NgSession] and
    [NgEngine]; no DATA is delivered after END_STREAM ([outside], [polite]); receiving
    callbacks are not made while sending ([NgSendQuiet]); an engine that returned nothing
    has nothing to send until it is given something ([NgIdle]); it does not ask for the body
    of a stream it has closed ([lguard]); and, between two endpoints,
    DATA arrives in order and END_STREAM last ([linked]); the HEADERS of a request are
    completed once ([session_world]).  Of capy and corosio: once a stop was requested,
    every operation and wait completes with an error, or, for an event that had been set,
    without one ([wstop], [wlate]); the order in which coroutines are resumed is arbitrary
    ([Scheduler]).  A coroutine whose event is set is resumed some time: the comment on
    send_loop in src/session_impl.hpp reports that corosio has been seen not to, after
    the last start_write() of recv_loop; what is proved is that the event is set then and
    the wake-up possible ([connection_ends], [connection_winds_down]).

    ** What is not modelled

    Sockets, TLS, and printing itself; in EchoConnection and ServerWorld, handlers other
    than the echo handler server_main.cpp installs, and a spawned coroutine that starts
    within spawn (there it starts in a turn of its own); in ServerWorld, an exception out of a coroutine and
    what the coroutines that use a client's session do with it (each of their turns is any
    one that Connection allows); a session whose run() was never called and the empty
    Session handle; concurrent use from several threads (the library is
    single-threaded per io_context); the forwarding members of the pimpl classes;
    nghttp2's framing itself, which is the engine's. *)

From stdpp Require Export base list strings gmap.
From Stdlib Require Export ZArith Lia.
From Stdlib Require Import Strings.Byte.

(** ** Record update

    [set proj f r] applies [f] to the field [proj] of the record [r]; the
    notation [r <| proj := v |>] overwrites it.  A record type declares its
    fields once, as an [Eta] instance (the eta expansion of a record value), and
    the setter of each projection is computed from it. *)

Class Eta (R : Type) := { eta : R -> R }.
Class Setter {R T : Type} (proj : R -> T) := set : (T -> T) -> R -> R.
Arguments set {R T} proj {_} _ _.

Ltac solve_setter :=
  lazymatch goal with
  | |- @Setter ?R ?T ?proj =>
      let inst := constr:(_ : Eta R) in
      let body := eval hnf in (@eta R inst) in
      let body' := eval pattern proj in body in
      lazymatch body' with
      | ?mk _ => exact (fun (f : T -> T) (r : R) => mk (fun r' => f (proj r')) r)
      end
  end.

(** Setters come from [solve_setter] only. *)
#[global] Hint Opaque Setter : typeclass_instances.
#[export] Hint Extern 0 (Setter _) => solve_setter : typeclass_instances.

Declare Scope record_scope.
Delimit Scope record_scope with rec.
Notation "r <| proj := v |>" := (set proj (fun _ => v) r)
  (at level 1, left associativity, proj at level 0,
   format "r  <| proj  :=  v |>") : record_scope.
Open Scope record_scope.

(** ** Bytes and machine integers *)

(** A run of [std::uint8_t]s in memory. *)
Definition bytes := list Byte.byte.

(** Bytes of a C++ string literal or [std::string], for concrete inputs. *)
Definition bytes_of (s : string) : bytes := String.list_byte_of_string s.

(** Widths of the fixed-width integers the sources use. *)
Definition UINT16_MAX : N := 65535.
Definition UINT_MAX : N := 4294967295.
Definition SIZE_MAX : N := 18446744073709551615.
Definition INT_MAX : Z := 2147483647.

(** [static_cast<int>] of an [unsigned int] (two's complement wrap-around,
    as C++20 defines the conversion). *)
Definition int_of_uint (u : N) : Z :=
  let z := (Z.of_N u mod 4294967296)%Z in
  if (z <=? INT_MAX)%Z then z else (z - 4294967296)%Z.

(** [static_cast<unsigned int>] of an [int]. *)
Definition uint_of_int (i : Z) : N := Z.to_N (i mod 4294967296)%Z.

Lemma int_of_uint_small u :
  (Z.of_N u <= INT_MAX)%Z -> int_of_uint u = Z.of_N u.
Proof.
  unfold int_of_uint, INT_MAX; intros H.
  rewrite Z.mod_small by lia. destruct (Z.leb_spec (Z.of_N u) 2147483647); lia.
Qed.

Lemma uint_of_int_small i :
  (0 <= i <= INT_MAX)%Z -> uint_of_int i = Z.to_N i.
Proof. unfold uint_of_int, INT_MAX; intros H. rewrite Z.mod_small by lia. done. Qed.

(** ** Error codes and results

    [std::error_code]s the library produces or passes through: capy's stream
    errors, cancellation, the [std::errc] values it constructs itself, and any
    other code a lower layer reports. *)

Inductive error :=
| eof
| stream_truncated
| canceled
| invalid_argument
| operation_not_permitted
| protocol_not_supported
| other_error (value : Z).

#[export] Instance error_eq_dec : EqDecision error.
Proof. solve_decision. Defined.

(** [std::error_code]: [None] is the default-constructed, "no error" code. *)
Definition error_code := option error.

(** [capy::io_result<T>]: an error code and a payload, both always present. *)
Record io_result (A : Type) := IoResult { ec : error_code; value : A }.
Arguments IoResult {A} _ _.
Arguments ec {A} _.
Arguments value {A} _.

(** ** Lists *)

Section lists.
Context {A : Type}.
Implicit Types (l k : list A) (ls : list (list A)).

Lemma take_min_length l n : take (n `min` length l) l = take n l.
Proof.
  destruct (Nat.le_ge_cases n (length l)) as [H|H].
  - by rewrite Nat.min_l.
  - rewrite Nat.min_r by done. by rewrite !take_ge by lia.
Qed.

Lemma drop_take_split l n m : drop n l = take m (drop n l) ++ drop (n + m) l.
Proof.
  rewrite <-(take_drop m (drop n l)) at 1. by rewrite drop_drop.
Qed.

Lemma take_add_split l n m : take (n + m) l = take n l ++ take m (drop n l).
Proof.
  rewrite <-(take_drop n (take (n + m) l)).
  rewrite take_take, Nat.min_l by lia.
  rewrite <-take_drop_commute. done.
Qed.

Lemma drop_concat_cons l ls n :
  n <= length l -> drop n (concat (l :: ls)) = drop n l ++ concat ls.
Proof. intros H. simpl. rewrite drop_app_le by done. done. Qed.
End lists.

(** Sum of a list of sizes. *)
Fixpoint sum (l : list nat) : nat :=
  match l with [] => 0 | n :: l => n + sum l end.

Lemma sum_app l k : sum (l ++ k) = sum l + sum k.
Proof. induction l; simpl; lia. Qed.

Lemma length_concat_sum {A} (ls : list (list A)) :
  length (concat ls) = sum (map length ls).
Proof. induction ls; simpl; [done|]. rewrite length_app. lia. Qed.

(** ** Automation *)

Create HintDb corosio discriminated.
#[export] Hint Resolve sum_app length_concat_sum : corosio.

(** Case analysis on every [match] / [if] scrutinee of the goal or of a
    hypothesis, with injections and contradictions cleaned up. *)
Ltac break :=
  repeat match goal with
    | H : context [match ?x with _ => _ end] |- _ =>
        is_var x; destruct x; simpl in *; simplify_eq
    | |- context [match ?x with _ => _ end] =>
        is_var x; destruct x; simpl in *; simplify_eq
    | H : context [match ?x with _ => _ end] |- _ =>
        let E := fresh "E" in destruct x eqn:E; simpl in *; simplify_eq
    | |- context [match ?x with _ => _ end] =>
        let E := fresh "E" in destruct x eqn:E; simpl in *; simplify_eq
    end.

(** Boolean connectives into propositions. *)
Ltac bools :=
  repeat match goal with
    | H : (_ && _) = true |- _ => apply andb_true_iff in H as [? ?]
    | H : (_ || _) = false |- _ => apply orb_false_iff in H as [? ?]
    | H : negb _ = true |- _ => apply negb_true_iff in H
    | H : negb _ = false |- _ => apply negb_false_iff in H
    end.
