(* ===== verification/Capy.v ===== *)
(** * The capy interface

    capy is fetched by the build and is not part of the repository, so what the
    sources use of it is a parameter: [CapyOps] lists the operations, [CapyLaws]
    the documented behaviour the proofs rely on, and [capy_ref] is a concrete
    instance of both, on which every witness of the development is evaluated. *)

From S2P Require Import Prelude.

(** ** Operations *)

Class CapyOps := {
  (** [capy::async_event]: [set()], [clear()], and whether a [wait()] started
      now would complete at once. *)
  async_event : Type;
  event_new : async_event;
  event_set : async_event -> async_event;
  event_clear : async_event -> async_event;
  event_is_set : async_event -> bool;

  (** [capy::buffer_param<MB>]: the caller's destination buffers, with a read
      position.  [bp_empty p] is [p.data().empty()]; [bp_copy p src] is what
      [buffer_copy(p.data(), src)] returns (it copies that many leading bytes of
      [src]); [bp_consume p n] is [p.consume(n)].  [bp_room] (bytes of the
      destination not consumed yet) and [bp_one_window] (all of them are visible
      through one [data()] window) are observers used only in statements. *)
  buffer_param : Type;
  bp_empty : buffer_param -> bool;
  bp_copy : buffer_param -> bytes -> nat;
  bp_consume : buffer_param -> nat -> buffer_param;
  bp_room : buffer_param -> nat;
  bp_one_window : buffer_param -> bool;

  (** [capy::detail::const_buffer_array<max_iovec_>]: the descriptors of a
      buffer sequence, capped at [max_iovec_].  [array_bytes] observes the bytes
      described. *)
  const_buffer_array : Type;
  array_of : list bytes -> const_buffer_array;
  byte_size : const_buffer_array -> nat;
  array_bytes : const_buffer_array -> bytes;
  max_iovec_ : nat;

  (** [capy::consuming_buffers<...>]: a position in such an array.
      [cursor_copy length c] is the bytes that
      [buffer_copy(mutable_buffer(buf, length), c.data())] stores in [buf].
      [cursor_bytes] observes the bytes not consumed yet. *)
  consuming_buffers : Type;
  cursor_of : const_buffer_array -> consuming_buffers;
  cursor_copy : nat -> consuming_buffers -> bytes;
  cursor_consume : consuming_buffers -> nat -> consuming_buffers;
  cursor_bytes : consuming_buffers -> bytes;
}.

(** ** Laws *)

Class CapyLaws (C : CapyOps) : Prop := {
  event_set_is_set : forall e, event_is_set (event_set e) = true;
  event_clear_is_set : forall e, event_is_set (event_clear e) = false;
  event_new_is_set : event_is_set event_new = false;

  (** [buffer_copy] never copies more than it is given or than there is room for,
      makes progress while there is room, and stops short of both bounds only
      at the end of a window. *)
  bp_copy_le_src : forall p src, bp_copy p src <= length src;
  bp_copy_le_room : forall p src, bp_copy p src <= bp_room p;
  bp_copy_progress : forall p src,
    bp_empty p = false -> src <> [] -> 0 < bp_copy p src;
  bp_copy_window : forall p src,
    bp_one_window p = true -> bp_copy p src = bp_room p `min` length src;
  bp_empty_room : forall p, bp_empty p = true <-> bp_room p = 0;
  bp_consume_room : forall p n,
    n <= bp_room p -> bp_room (bp_consume p n) = bp_room p - n;
  bp_consume_window : forall p n,
    bp_one_window p = true -> n <= bp_room p ->
    bp_one_window (bp_consume p n) = true;

  array_bytes_of : forall bufs,
    length bufs <= max_iovec_ -> array_bytes (array_of bufs) = concat bufs;
  byte_size_bytes : forall a, byte_size a = length (array_bytes a);
  cursor_bytes_of : forall a, cursor_bytes (cursor_of a) = array_bytes a;
  cursor_copy_prefix : forall len c, cursor_copy len c `prefix_of` cursor_bytes c;
  cursor_copy_le : forall len c, length (cursor_copy len c) <= len;
  cursor_copy_progress : forall len c,
    0 < len -> cursor_bytes c <> [] -> cursor_copy len c <> [];
  cursor_consume_bytes : forall c n,
    n <= length (cursor_bytes c) ->
    cursor_bytes (cursor_consume c n) = drop n (cursor_bytes c);
}.

Create Rewrite HintDb corosio_ev.
#[export] Hint Rewrite @event_set_is_set @event_clear_is_set @event_new_is_set
  using typeclasses eauto : corosio_ev.

(** Copying out of a cursor and consuming what was copied splits its bytes. *)
Lemma cursor_step {C : CapyOps} {L : CapyLaws C} len c :
  cursor_bytes c
  = cursor_copy len c ++ cursor_bytes (cursor_consume c (length (cursor_copy len c))).
Proof.
  destruct (cursor_copy_prefix len c) as [k Hk].
  rewrite cursor_consume_bytes by (rewrite Hk, length_app; lia).
  rewrite Hk at 2. rewrite drop_app_length. done.
Qed.

(** ** A reference instance

    Events are booleans; a destination is the list of its remaining (non-empty)
    buffers, [k] standing for one of [S k] bytes, seen through windows of
    [max_iovec_] of them; a source is the list of its bytes. *)

Module Ref.
Definition iovec_cap : nat := 16.

Definition room (p : list nat) : nat := sum (map S p).

Definition copy (p : list nat) (src : bytes) : nat :=
  room (take iovec_cap p) `min` length src.

Fixpoint consume (p : list nat) (n : nat) : list nat :=
  match p with
  | [] => []
  | k :: p => if n <=? k then (k - n) :: p else consume p (n - S k)
  end.

Definition one_window (p : list nat) : bool := length p <=? iovec_cap.

Lemma room_take_le n p : room (take n p) <= room p.
Proof.
  unfold room. revert n; induction p as [|k p IH]; intros [|n]; simpl; try lia.
  specialize (IH n). lia.
Qed.

Lemma room_zero p : bool_decide (p = []) = true <-> room p = 0.
Proof. rewrite bool_decide_eq_true. destruct p; unfold room; simpl; split; naive_solver lia. Qed.

Lemma copy_progress p src : bool_decide (p = []) = false -> src <> [] -> 0 < copy p src.
Proof.
  rewrite bool_decide_eq_false. intros Hp Hs.
  destruct p as [|k p]; [done|]. destruct src; [done|]. unfold copy, room; simpl. lia.
Qed.

Lemma copy_window p src :
  one_window p = true -> copy p src = room p `min` length src.
Proof.
  unfold one_window, copy. rewrite Nat.leb_le. intros H. by rewrite take_ge.
Qed.

Lemma consume_room p n : n <= room p -> room (consume p n) = room p - n.
Proof.
  unfold room. revert n; induction p as [|k p IH]; intros n H; simpl in *; [lia|].
  destruct (Nat.leb_spec n k); cbn [map sum]; [lia|]. rewrite IH; lia.
Qed.

Lemma consume_length p n : length (consume p n) <= length p.
Proof.
  revert n; induction p as [|k p IH]; intros n; simpl; [lia|].
  destruct (n <=? k); simpl; [lia|]. specialize (IH (n - S k)). lia.
Qed.
End Ref.

Definition capy_ref : CapyOps := {|
  async_event := bool;
  event_new := false;
  event_set := fun _ => true;
  event_clear := fun _ => false;
  event_is_set := fun e => e;
  buffer_param := list nat;
  bp_empty := fun p => bool_decide (p = []);
  bp_copy := Ref.copy;
  bp_consume := Ref.consume;
  bp_room := Ref.room;
  bp_one_window := Ref.one_window;
  const_buffer_array := list bytes;
  array_of := take Ref.iovec_cap;
  byte_size := fun a => length (concat a);
  array_bytes := fun a => concat a;
  max_iovec_ := Ref.iovec_cap;
  consuming_buffers := bytes;
  cursor_of := fun a => concat a;
  cursor_copy := take;
  cursor_consume := fun c n => drop n c;
  cursor_bytes := fun c => c;
|}.

(** A destination of the given (positive) buffer sizes. *)
Definition dest (sizes : list nat) : @buffer_param capy_ref := map pred sizes.

(** The laws are satisfiable: the reference instance has them. *)
#[export] Instance capy_ref_laws : CapyLaws capy_ref.
Proof.
  constructor; cbn [capy_ref async_event event_new event_set event_clear event_is_set
    buffer_param bp_empty bp_copy bp_consume bp_room bp_one_window const_buffer_array
    array_of byte_size array_bytes max_iovec_ consuming_buffers cursor_of cursor_copy
    cursor_consume cursor_bytes]; try done.
  - intros p src. unfold Ref.copy. lia.
  - intros p src. unfold Ref.copy. pose proof (Ref.room_take_le Ref.iovec_cap p). lia.
  - exact Ref.copy_progress.
  - exact Ref.copy_window.
  - exact Ref.room_zero.
  - exact Ref.consume_room.
  - intros p n. unfold Ref.one_window. rewrite !Nat.leb_le.
    pose proof (Ref.consume_length p n). lia.
  - intros bufs H. by rewrite take_ge.
  - intros len c. apply prefix_take.
  - intros len c. rewrite length_take. lia.
  - intros [|len] [|x c] H1 H2; done || lia.
Qed.
