(* ===== verification/Charconv.v ===== *)
(** * Decimal conversion

    The parts of the C++ standard library through which numbers cross the header
    boundary: [std::to_string] of an unsigned value and of an [int],
    and [std::from_chars] into an unsigned value, with its three outcomes. *)

From S2P Require Import Prelude.
From Stdlib Require Import Ascii.

Open Scope N_scope.

(** ** [std::to_string] *)

Definition digit_char (d : N) : ascii := ascii_of_N (48 + d).

(** Decimal digits of [n] in front of [acc], most significant first. *)
Fixpoint to_string_fuel (fuel : nat) (n : N) (acc : string) : string :=
  match fuel with
  | O => acc
  | S fuel =>
      let acc' := String (digit_char (n mod 10)) acc in
      if n <? 10 then acc' else to_string_fuel fuel (n / 10) acc'
  end.

(** The binary length of [n] bounds the number of its decimal digits. *)
Definition to_string (n : N) : string :=
  to_string_fuel (S (N.to_nat (N.log2 n))) n "".

(** [std::to_string(int)] / [std::format("{}", int)]. *)
Definition int_to_string (z : Z) : string :=
  if (z <? 0)%Z then String.append "-" (to_string (Z.to_N (- z)))
  else to_string (Z.to_N z).

(** ** [std::from_chars] *)

Inductive errc := errc_invalid_argument | errc_result_out_of_range.

(** [fc_ptr] is [result.ptr - first]; [fc_value] is what was assigned to the
    output argument, [None] when it was left unmodified. *)
Record from_chars_result := FromChars {
  fc_ptr : nat;
  fc_ec : option errc;
  fc_value : option N;
}.

Definition digit_of (c : ascii) : option N :=
  let n := N_of_ascii c in
  if (48 <=? n) && (n <=? 57) then Some (n - 48) else None.

(** Longest run of digits: its value and its length. *)
Fixpoint scan_digits (s : string) (acc : N) (cnt : nat) : N * nat :=
  match s with
  | EmptyString => (acc, cnt)
  | String c s =>
      match digit_of c with
      | Some d => scan_digits s (acc * 10 + d) (S cnt)
      | None => (acc, cnt)
      end
  end.

(** [from_chars(first, last, value)] for an unsigned type whose greatest value
    is [max]: neither a sign nor leading white space is accepted. *)
Definition from_chars (max : N) (s : string) : from_chars_result :=
  let '(v, cnt) := scan_digits s 0 0 in
  if (cnt =? 0)%nat then FromChars 0 (Some errc_invalid_argument) None
  else if max <? v then FromChars cnt (Some errc_result_out_of_range) None
  else FromChars cnt None (Some v).

(** ** Lemmas *)

Lemma digit_of_char d : d < 10 -> digit_of (digit_char d) = Some d.
Proof.
  intros H. unfold digit_of, digit_char. rewrite N_ascii_embedding by lia.
  destruct (N.leb_spec 48 (48 + d)); [|lia].
  destruct (N.leb_spec (48 + d) 57); [|lia]. simpl. f_equal. lia.
Qed.

(** Scanning printed digits resumes at the accumulator with the value read in. *)
Lemma scan_to_string_fuel fuel n rest a c :
  n < 10 ^ N.of_nat fuel -> (0 < fuel)%nat ->
  exists k, (0 < k)%nat /\
    scan_digits (to_string_fuel fuel n rest) a c
    = scan_digits rest (a * 10 ^ N.of_nat k + n) (c + k)%nat.
Proof.
  revert n rest; induction fuel as [|fuel IH]; intros n rest Hn Hf; [lia|].
  assert (Hmod : n mod 10 < 10) by (apply N.mod_lt; lia).
  cbn [to_string_fuel]. destruct (N.ltb_spec n 10) as [Hs|Hl].
  - exists 1%nat. split; [lia|]. cbn [scan_digits].
    rewrite digit_of_char by done. rewrite N.mod_small by done.
    change (N.of_nat 1) with 1. rewrite N.pow_1_r. f_equal; lia.
  - destruct fuel as [|fuel].
    { change (N.of_nat 1) with 1 in Hn. lia. }
    destruct (IH (n / 10) (String (digit_char (n mod 10)) rest)) as (k & Hk & E);
      [|lia|].
    { apply N.Div0.div_lt_upper_bound.
      replace (N.of_nat (S (S fuel))) with (1 + N.of_nat (S fuel)) in Hn by lia.
      by rewrite N.pow_add_r in Hn. }
    exists (S k). split; [lia|]. rewrite E. cbn [scan_digits].
    rewrite digit_of_char by done.
    replace (N.of_nat (S k)) with (N.of_nat k + 1) by lia.
    rewrite N.pow_add_r, N.pow_1_r. pose proof (N.div_mod n 10). f_equal; lia.
Qed.

Lemma to_string_fuel_enough n : n < 10 ^ N.of_nat (S (N.to_nat (N.log2 n))).
Proof.
  destruct (N.eq_dec n 0) as [->|Hn]; [done|].
  apply N.lt_le_trans with (2 ^ N.succ (N.log2 n)).
  - apply N.log2_spec; lia.
  - replace (N.of_nat (S (N.to_nat (N.log2 n)))) with (N.succ (N.log2 n)) by lia.
    apply N.pow_le_mono_l; lia.
Qed.

Lemma scan_to_string n : exists k, (0 < k)%nat /\ scan_digits (to_string n) 0 0 = (n, k).
Proof.
  destruct (scan_to_string_fuel (S (N.to_nat (N.log2 n))) n "" 0 0) as (k & Hk & E).
  - apply to_string_fuel_enough.
  - lia.
  - exists k. split; [done|]. unfold to_string. rewrite E. cbn. f_equal; lia.
Qed.

(** The count never exceeds what there is, and equals it exactly when every
    character is a digit. *)
Fixpoint all_digits (s : string) : bool :=
  match s with
  | EmptyString => true
  | String c s => bool_decide (is_Some (digit_of c)) && all_digits s
  end.

Lemma scan_digits_count s acc cnt :
  ((scan_digits s acc cnt).2 <= cnt + String.length s)%nat /\
  ((scan_digits s acc cnt).2 = (cnt + String.length s)%nat <-> all_digits s = true).
Proof.
  revert acc cnt; induction s as [|c s IH]; intros acc cnt; simpl; [split; [lia|]; naive_solver lia|].
  destruct (digit_of c) as [d|] eqn:E; simpl.
  - destruct (IH (acc * 10 + d) (S cnt)) as [H1 H2].
    replace (cnt + S (String.length s))%nat with (S cnt + String.length s)%nat by lia.
    split; [lia|]. by rewrite H2.
  - split; [lia|]. split; [lia|done].
Qed.

Lemma all_digits_to_string_fuel fuel n acc :
  all_digits acc = true -> all_digits (to_string_fuel fuel n acc) = true.
Proof.
  revert n acc; induction fuel as [|fuel IH]; intros n acc H; simpl; [done|].
  assert (Hd : all_digits (String (digit_char (n mod 10)) acc) = true).
  { simpl. rewrite digit_of_char by (apply N.mod_lt; lia).
    done. }
  destruct (n <? 10); [exact Hd | by apply IH].
Qed.

(** Printing and reading back: the whole string is consumed and the value is the
    one printed, for every value of the target width. *)
Lemma from_chars_to_string max n :
  n <= max ->
  from_chars max (to_string n) = FromChars (String.length (to_string n)) None (Some n).
Proof.
  intros H. unfold from_chars.
  destruct (scan_to_string n) as (k & Hk & E).
  pose proof (scan_digits_count (to_string n) 0 0) as [_ Hc].
  rewrite E in Hc |- *. simpl in Hc.
  assert (Hd : all_digits (to_string n) = true) by (by apply all_digits_to_string_fuel).
  apply Hc in Hd. subst k.
  destruct (Nat.eqb_spec (String.length (to_string n)) 0); [lia|].
  destruct (N.ltb_spec max n); [lia|]. done.
Qed.

(** A full match happens exactly on non-empty digit strings in range. *)
Lemma from_chars_full max s v :
  from_chars max s = FromChars (String.length s) None (Some v) <->
  s <> ""%string /\ all_digits s = true /\ (scan_digits s 0 0).1 = v /\ v <= max.
Proof.
  unfold from_chars. pose proof (scan_digits_count s 0 0) as [_ Hc].
  destruct (scan_digits s 0 0) as [w cnt] eqn:E; simpl in *.
  destruct (Nat.eqb_spec cnt 0) as [->|Hc0].
  - split; [done|]. intros (Hs & Hd & _). apply Hc in Hd.
    destruct s; [done|]. simpl in Hd. lia.
  - destruct (N.ltb_spec max w).
    + split; [done|]. intros (_ & _ & -> & ?). lia.
    + rewrite <-Hc. split.
      * intros [= -> ->]. repeat split; [|lia]. intros ->. done.
      * intros (_ & -> & -> & _). done.
Qed.

Close Scope N_scope.
