(* ===== verification/Nghttp2.v ===== *)
(** * The nghttp2 interface

    libnghttp2 is a system library.  Its C types that the sources pattern-match
    on are data here; the numeric constants they compare with are parameters
    ([NgConsts], with the documented facts in [NgLaws]); the calls the
    library makes into nghttp2 are the constructors of [call], so that an
    operation's effect on nghttp2 is the list of calls it issues, in order.
    Callbacks nghttp2 makes into the library are operations of the session. *)

From S2P Require Import Prelude.

(** [nghttp2_frame_type], for the enumerators the sources name. *)
Inductive frame_type :=
| NGHTTP2_DATA | NGHTTP2_HEADERS | NGHTTP2_PRIORITY | NGHTTP2_RST_STREAM
| NGHTTP2_SETTINGS | NGHTTP2_PUSH_PROMISE | NGHTTP2_PING | NGHTTP2_GOAWAY
| NGHTTP2_WINDOW_UPDATE | NGHTTP2_CONTINUATION | NGHTTP2_ALTSVC | NGHTTP2_ORIGIN
| NGHTTP2_OTHER (type : Z).

#[export] Instance frame_type_eq_dec : EqDecision frame_type.
Proof. solve_decision. Defined.

(** [nghttp2_headers_category]. *)
Inductive headers_category :=
| NGHTTP2_HCAT_REQUEST | NGHTTP2_HCAT_RESPONSE
| NGHTTP2_HCAT_PUSH_RESPONSE | NGHTTP2_HCAT_HEADERS.

#[export] Instance headers_category_eq_dec : EqDecision headers_category.
Proof. solve_decision. Defined.

(** The members of [nghttp2_frame] the callbacks read; [cat] is meaningful for a
    HEADERS frame only. *)
Record frame := mkFrame {
  hd_type : frame_type;
  hd_stream_id : Z;
  hd_flags : Z;
  cat : headers_category;
}.

(** [nghttp2_nv] without the flags, which are always [NGHTTP2_NV_FLAG_NONE]. *)
Definition nv : Type := string * string.

(** Constants of [nghttp2.h]. *)
Class NgConsts := {
  NGHTTP2_ERR_DEFERRED : Z;
  NGHTTP2_DATA_FLAG_EOF : Z;
  NGHTTP2_FLAG_END_STREAM : Z;
  NGHTTP2_NO_ERROR : Z;
  NGHTTP2_PROTOCOL_ERROR : Z;
}.

Class NgLaws (G : NgConsts) : Prop := {
  (** Library error codes are negative, so that no byte count collides. *)
  err_deferred_neg : (NGHTTP2_ERR_DEFERRED < 0)%Z;
  (** The flags are bits. *)
  data_flag_eof_bit : NGHTTP2_DATA_FLAG_EOF <> 0%Z;
  flag_end_stream_bit : NGHTTP2_FLAG_END_STREAM <> 0%Z;
}.

(** Values of the released header, for concrete runs. *)
Definition ng_ref : NgConsts := {|
  NGHTTP2_ERR_DEFERRED := -508;
  NGHTTP2_DATA_FLAG_EOF := 1;
  NGHTTP2_FLAG_END_STREAM := 1;
  NGHTTP2_NO_ERROR := 0;
  NGHTTP2_PROTOCOL_ERROR := 1;
|}%Z.

#[export] Instance ng_ref_laws : NgLaws ng_ref.
Proof. constructor; simpl; lia. Qed.

(** Settings identifiers used by the session. *)
Inductive settings_id := NGHTTP2_SETTINGS_MAX_CONCURRENT_STREAMS
                       | NGHTTP2_SETTINGS_INITIAL_WINDOW_SIZE.

(** Calls made into nghttp2 and, through [Session::Impl::start_write()], to the
    send loop.  [source] is the address of the [Stream] registered as data
    provider. *)
Inductive call :=
| nghttp2_session_consume_stream (id : Z) (n : nat)
| nghttp2_session_consume_connection (n : nat)
| nghttp2_session_resume_data (id : Z)
| nghttp2_submit_response2 (id : Z) (nva : list nv) (source : nat)
| nghttp2_submit_request2 (nva : list nv) (source : nat)
| nghttp2_submit_settings (iv : list (settings_id * N))
| nghttp2_session_set_local_window_size (id : Z) (n : N)
| nghttp2_session_terminate_session (code : Z)
| start_write.

(** Bytes handed back to stream-level flow control by a list of calls. *)
Definition stream_consumed (cs : list call) : nat :=
  sum (map (fun c => match c with nghttp2_session_consume_stream _ n => n | _ => 0 end) cs).

(** Bytes handed back to connection-level flow control by a list of calls. *)
Definition connection_consumed (cs : list call) : nat :=
  sum (map (fun c => match c with nghttp2_session_consume_connection n => n | _ => 0 end) cs).

Lemma stream_consumed_app cs ds :
  stream_consumed (cs ++ ds) = stream_consumed cs + stream_consumed ds.
Proof. unfold stream_consumed. by rewrite map_app, sum_app. Qed.

Lemma connection_consumed_app cs ds :
  connection_consumed (cs ++ ds) = connection_consumed cs + connection_consumed ds.
Proof. unfold connection_consumed. by rewrite map_app, sum_app. Qed.
