(* ===== verification/Stream.v ===== *)
(** * Stream: one HTTP/2 stream

    [Stream] of src/stream_impl.hpp and src/stream.cpp, the bridge between
    nghttp2's synchronous callbacks and the coroutines that read and write a body.

    A coroutine of the class ([read_some], [write_impl], [status]) is split at
    its [co_await]: one definition runs from the call to the first suspension,
    another from the resumption to the next one or to [co_return].  What the
    frame keeps across the suspension is in the state ([read_sink_] holds the
    [Sink] of a parked [read_some]). *)

From S2P Require Import Prelude Capy Nghttp2 Charconv.

(** What a coroutine does between two suspension points: it completes, it is
    suspended at a [co_await], or (only if capy broke its laws) it loops for
    ever. *)
Inductive outcome (A : Type) :=
| Done (r : io_result A)
| Suspended
| Diverged.
Arguments Done {A} _.
Arguments Suspended {A}.
Arguments Diverged {A}.

(** What [read_some] gives its caller: the [std::size_t] and the bytes stored in
    the destination buffers. *)
Record read_out := Read { read_n : nat; read_mem : bytes }.

Definition Headers := list (string * string).

Section Stream.
Context {C : CapyOps} {G : NgConsts}.

(** ** State *)

(** [Sink], local to [read_some]: the caller's buffers, how many bytes were put
    there, and (observed) which ones. *)
Record Sink := mkSink { bp : buffer_param; copied : nat; out : bytes }.

(** [Sink::put]. *)
Definition put (k : Sink) (data : bytes) : nat * Sink :=
  let n := bp_copy (bp k) data in
  (n, mkSink (bp_consume (bp k) n) (copied k + n) (out k ++ take n data)).

Record Stream := mkStream {
  id_ : Z;
  closed_ : bool;
  path_ : string;
  content_length_ : option N;
  headers_ : Headers;
  log_prefix_ : string;
  (* response status (client sessions only) *)
  status_ : Z;
  status_ready_ : async_event;
  (* read side *)
  chunks_ : list bytes;
  front_offset_ : nat;
  read_sink_ : option Sink;
  read_eof_ : bool;
  read_ready_ : async_event;
  (* write side *)
  pending_ : const_buffer_array;
  pending_cursor_ : consuming_buffers;
  write_offset_ : nat;
  write_pending_ : bool;
  write_eof_requested_ : bool;
  write_deferred_ : bool;
  write_progress_ : async_event;
}.

#[export] Instance stream_eta : Eta Stream := {| eta := fun s =>
  mkStream (id_ s) (closed_ s) (path_ s) (content_length_ s) (headers_ s)
    (log_prefix_ s) (status_ s) (status_ready_ s) (chunks_ s) (front_offset_ s)
    (read_sink_ s) (read_eof_ s) (read_ready_ s) (pending_ s) (pending_cursor_ s)
    (write_offset_ s) (write_pending_ s) (write_eof_requested_ s)
    (write_deferred_ s) (write_progress_ s) |}.

(** The constructor; [session_log_prefix] is [session_->log_prefix(id)]. *)
Definition Stream_new (session_log_prefix : Z -> string) (id : Z) : Stream :=
  {| id_ := id; closed_ := false; path_ := ""; content_length_ := None;
     headers_ := []; log_prefix_ := session_log_prefix id;
     status_ := -1; status_ready_ := event_new;
     chunks_ := []; front_offset_ := 0; read_sink_ := None; read_eof_ := false;
     read_ready_ := event_new;
     pending_ := array_of []; pending_cursor_ := cursor_of (array_of []);
     write_offset_ := 0; write_pending_ := false; write_eof_requested_ := false;
     write_deferred_ := false; write_progress_ := event_new |}.

(** ** Accessors and header capture *)

Definition set_id (session_log_prefix : Z -> string) (id : Z) (s : Stream) : Stream :=
  s <| id_ := id |> <| log_prefix_ := session_log_prefix id |>.

Definition set_path (path : string) (s : Stream) : Stream := s <| path_ := path |>.

Definition set_content_length (n : N) (s : Stream) : Stream :=
  s <| content_length_ := Some n |>.

Definition add_header (name value : string) (s : Stream) : Stream :=
  s <| headers_ := headers_ s ++ [(name, value)] |>.

Definition set_status (status : N) (s : Stream) : Stream :=
  s <| status_ := int_of_uint status |>
    <| status_ready_ := event_set (status_ready_ s) |>.

Definition eof_error (s : Stream) : error_code :=
  Some (if read_eof_ s then eof else stream_truncated).

(** ** [status()] *)

Definition status (s : Stream) : Stream * outcome N :=
  if (status_ s <? 0)%Z
  then (s <| status_ready_ := event_clear (status_ready_ s) |>, Suspended)
  else (s, Done (IoResult None (uint_of_int (status_ s)))).

(** After [co_await status_ready_.wait()] returned [wait_ec]. *)
Definition status_resume (wait_ec : error_code) (s : Stream) : outcome N :=
  match wait_ec with
  | Some e => Done (IoResult (Some e) 0%N)
  | None =>
      if (status_ s <? 0)%Z then Done (IoResult (eof_error s) 0%N)
      else Done (IoResult None (uint_of_int (status_ s)))
  end.

(** ** Read side *)

Definition on_data (data : bytes) (s : Stream) : Stream :=
  let '(data, s) :=
    match read_sink_ s with
    | Some k => let '(n, k) := put k data in (drop n data, s <| read_sink_ := Some k |>)
    | None => (data, s)
    end in
  let s := if length data =? 0 then s else s <| chunks_ := chunks_ s ++ [data] |> in
  s <| read_ready_ := event_set (read_ready_ s) |>.

Definition on_read_eof (s : Stream) : Stream :=
  s <| read_eof_ := true |> <| read_ready_ := event_set (read_ready_ s) |>.

Definition on_close (s : Stream) : Stream :=
  s <| closed_ := true |>
    <| read_ready_ := event_set (read_ready_ s) |>
    <| write_progress_ := event_set (write_progress_ s) |>
    <| status_ready_ := event_set (status_ready_ s) |>.

(** [Stream::consume]. *)
Definition consume (n : nat) (s : Stream) : list call :=
  [nghttp2_session_consume_stream (id_ s) n; start_write].

(** The [while (!chunks_.empty())] loop of [read_some]: queue, offset into its
    front chunk, destination, [total], bytes stored so far. *)
Record drain_state := mkDrain {
  d_chunks : list bytes;
  d_front : nat;
  d_bp : buffer_param;
  d_total : nat;
  d_out : bytes;
}.

Fixpoint drain (fuel : nat) (d : drain_state) : option drain_state :=
  match fuel with
  | O => None
  | S fuel =>
      match d_chunks d with
      | [] => Some d
      | chunk :: rest =>
          if bp_empty (d_bp d) then Some d
          else
            let src := drop (d_front d) chunk in
            let n := bp_copy (d_bp d) src in
            let p := bp_consume (d_bp d) n in
            let front := d_front d + n in
            let total := d_total d + n in
            let o := d_out d ++ take n src in
            if front =? length chunk
            then drain fuel (mkDrain rest 0 p total o)
            else drain fuel (mkDrain (chunk :: rest) front p total o)
      end
  end.

(** Bytes queued and not handed out yet. *)
Definition buffered (s : Stream) : bytes := drop (front_offset_ s) (concat (chunks_ s)).

(** Every iteration copies a byte or pops a chunk. *)
Definition drain_fuel (s : Stream) : nat :=
  S (length (buffered s) + length (chunks_ s)).

(** [read_some(buffers)] up to its first suspension. *)
Definition read_some (p : buffer_param) (s : Stream)
  : Stream * list call * outcome read_out :=
  match drain (drain_fuel s) (mkDrain (chunks_ s) (front_offset_ s) p 0 []) with
  | None => (s, [], Diverged)
  | Some d =>
      let s := s <| chunks_ := d_chunks d |> <| front_offset_ := d_front d |> in
      if 0 <? d_total d
      then (s, consume (d_total d) s, Done (IoResult None (Read (d_total d) (d_out d))))
      else if read_eof_ s || closed_ s
      then (s, [], Done (IoResult (eof_error s) (Read 0 (d_out d))))
      else (s <| read_sink_ := Some (mkSink (d_bp d) 0 (d_out d)) |>
              <| read_ready_ := event_clear (read_ready_ s) |>, [], Suspended)
  end.

(** [read_some] after [co_await read_ready_.wait()] returned [wait_ec]: one turn
    of its [for (;;)] loop, [k] being the frame's [sink]. *)
Definition read_some_resume (wait_ec : error_code) (k : Sink) (s : Stream)
  : Stream * list call * outcome read_out :=
  let s := s <| read_sink_ := None |> in
  if 0 <? copied k
  then (s, consume (copied k) s, Done (IoResult None (Read (copied k) (out k))))
  else match wait_ec with
  | Some e => (s, [], Done (IoResult (Some e) (Read 0 (out k))))
  | None =>
      if read_eof_ s || closed_ s
      then (s, [], Done (IoResult (eof_error s) (Read 0 (out k))))
      else (s <| read_sink_ := Some k |>
              <| read_ready_ := event_clear (read_ready_ s) |>, [], Suspended)
  end.

(** ** Write side *)

(** [write_impl(buffers, eof)] up to its suspension ([fin] is the parameter
    [eof]); [write_some] passes [false], [write_eof] passes [true], and both
    build the capped descriptor array at the call. *)
Definition write_impl (buffers : const_buffer_array) (fin : bool) (s : Stream)
  : Stream * list call * outcome nat :=
  if closed_ s then (s, [], Done (IoResult (Some eof) 0))
  else
    let s := s <| pending_ := buffers |> <| pending_cursor_ := cursor_of buffers |>
               <| write_offset_ := 0 |> <| write_eof_requested_ := fin |>
               <| write_pending_ := true |> in
    let resume := if write_deferred_ s then [nghttp2_session_resume_data (id_ s)] else [] in
    let s := s <| write_deferred_ := false |> in
    (s <| write_progress_ := event_clear (write_progress_ s) |>,
     resume ++ [start_write], Suspended).

(** After [co_await write_progress_.wait()] returned [wait_ec]. *)
Definition write_impl_resume (wait_ec : error_code) (s : Stream)
  : Stream * outcome nat :=
  let s := s <| write_pending_ := false |> in
  (s, Done (IoResult wait_ec (write_offset_ s))).

Definition write_some (buffers : list bytes) (s : Stream) :=
  write_impl (array_of buffers) false s.

Definition write_eof (buffers : list bytes) (s : Stream) :=
  write_impl (array_of buffers) true s.

(** [producer_callback(buf, length, data_flags)]: new state, return value, new
    [*data_flags], and the bytes stored in [buf]. *)
Definition producer_callback (length : nat) (data_flags : Z) (s : Stream)
  : Stream * Z * Z * bytes :=
  if negb (write_pending_ s)
  then (s <| write_deferred_ := true |>, NGHTTP2_ERR_DEFERRED, data_flags, [])
  else
    let buf := cursor_copy length (pending_cursor_ s) in
    let copied := List.length buf in
    let s := s <| pending_cursor_ := cursor_consume (pending_cursor_ s) copied |>
               <| write_offset_ := write_offset_ s + copied |> in
    let fully_drained := write_offset_ s =? byte_size (pending_ s) in
    let data_flags :=
      if (fully_drained || negb (write_eof_requested_ s)) && write_eof_requested_ s
      then Z.lor data_flags NGHTTP2_DATA_FLAG_EOF else data_flags in
    let s :=
      if fully_drained || negb (write_eof_requested_ s)
      then s <| write_pending_ := false |>
             <| write_progress_ := event_set (write_progress_ s) |>
      else s in
    (s, Z.of_nat copied, data_flags, buf).

End Stream.
