(* ===== verification/StreamRead.v ===== *)
(** * The read side of a stream

    Well-formedness of the chunk queue, what each read-side operation does to it,
    and that [read_some]'s drain loop terminates and is a FIFO dequeue. *)

From S2P Require Import Prelude Capy Nghttp2 Stream.

Section StreamRead.
Context {C : CapyOps} {L : CapyLaws C}.

(** ** The queue *)

(** No chunk is empty, and the front offset is inside the front chunk. *)
Definition queue_wf (chunks : list bytes) (front : nat) : Prop :=
  Forall (fun c => c <> []) chunks /\
  match chunks with [] => front = 0 | c :: _ => front < length c end.

Definition queue_bytes (chunks : list bytes) (front : nat) : bytes :=
  drop front (concat chunks).

Lemma queue_wf_nil : queue_wf [] 0.
Proof. split; [constructor|done]. Qed.

Lemma queue_wf_snoc chunks front c :
  queue_wf chunks front -> c <> [] -> queue_wf (chunks ++ [c]) front.
Proof.
  intros [Hf Ho] Hc. split; [apply Forall_app; split; [done|by constructor]|].
  destruct chunks; simpl in *; [|done]. destruct c; [done|]. simpl. lia.
Qed.

Lemma queue_bytes_snoc chunks front c :
  queue_wf chunks front -> queue_bytes (chunks ++ [c]) front = queue_bytes chunks front ++ c.
Proof.
  intros [_ Ho]. unfold queue_bytes. rewrite concat_app. simpl. rewrite app_nil_r.
  destruct chunks as [|d chunks]; simpl in *; [by subst|].
  rewrite drop_app_le; [done|]. rewrite length_app. lia.
Qed.

Lemma queue_bytes_cons c chunks front :
  front <= length c -> queue_bytes (c :: chunks) front = drop front c ++ concat chunks.
Proof. apply drop_concat_cons. Qed.

Lemma queue_bytes_nil_iff chunks front :
  queue_wf chunks front -> queue_bytes chunks front = [] <-> chunks = [].
Proof.
  intros [_ Ho]. destruct chunks as [|c chunks]; [by rewrite Ho|].
  rewrite queue_bytes_cons by lia. split; [|done]. intros H.
  apply (f_equal length) in H. rewrite length_app, length_drop in H. simpl in H. lia.
Qed.

(** ** The drain loop *)

Definition drain_wf (d : drain_state) : Prop := queue_wf (d_chunks d) (d_front d).
Definition drain_bytes (d : drain_state) : bytes := queue_bytes (d_chunks d) (d_front d).

(** One iteration moves the front [n] bytes of the queue to the destination. *)
Definition drain_step (d : drain_state) (c : bytes) (rest : list bytes) : drain_state :=
  let src := drop (d_front d) c in
  let n := bp_copy (d_bp d) src in
  mkDrain (if d_front d + n =? length c then rest else c :: rest)
    (if d_front d + n =? length c then 0 else d_front d + n)
    (bp_consume (d_bp d) n) (d_total d + n) (d_out d ++ take n src).

Lemma drain_unfold fuel d c rest :
  d_chunks d = c :: rest -> bp_empty (d_bp d) = false ->
  drain (S fuel) d = drain fuel (drain_step d c rest).
Proof.
  intros Hc He. cbn [drain]. rewrite Hc, He. unfold drain_step.
  destruct (_ =? _); done.
Qed.

Lemma drain_step_ok d c rest :
  drain_wf d -> d_chunks d = c :: rest -> bp_empty (d_bp d) = false ->
  let d' := drain_step d c rest in
  let n := d_total d' - d_total d in
  drain_wf d' /\ 0 < n /\ n <= bp_room (d_bp d) /\ d_total d' = d_total d + n /\
  drain_bytes d = take n (drain_bytes d) ++ drain_bytes d' /\
  d_out d' = d_out d ++ take n (drain_bytes d) /\
  n <= length (drain_bytes d) /\
  bp_room (d_bp d') = bp_room (d_bp d) - n.
Proof.
  unfold drain_wf, drain_bytes, drain_step. intros Hwf Hc He. rewrite Hc in *. simpl.
  destruct Hwf as [Hf Ho]. set (src := drop (d_front d) c).
  assert (Hsrc : src <> []).
  { intros E. apply (f_equal length) in E. unfold src in E. rewrite length_drop in E.
    simpl in E. lia. }
  pose proof (bp_copy_le_src (d_bp d) src) as Hle.
  pose proof (bp_copy_le_room (d_bp d) src) as Hroom.
  pose proof (bp_copy_progress (d_bp d) src He Hsrc) as Hpos.
  set (n := bp_copy (d_bp d) src) in *.
  replace (d_total d + n - d_total d) with n by lia.
  assert (Hlen : length src = length c - d_front d) by apply length_drop.
  rewrite queue_bytes_cons by lia. fold src.
  rewrite take_app_le by done. rewrite length_app, bp_consume_room by done.
  repeat split; try lia; try (by apply Forall_inv_tail in Hf).
  - destruct (Nat.eqb_spec (d_front d + n) (length c)); [by apply Forall_inv_tail in Hf|done].
  - destruct (Nat.eqb_spec (d_front d + n) (length c)); [|lia].
    apply Forall_inv_tail in Hf. destruct rest as [|c' ?]; [done|].
    apply Forall_inv in Hf. destruct c'; [done|]. simpl. lia.
  - destruct (Nat.eqb_spec (d_front d + n) (length c)) as [E|E].
    + rewrite take_ge by lia. done.
    + rewrite queue_bytes_cons by lia. unfold src. rewrite app_assoc. f_equal.
      apply drop_take_split.
Qed.

(** The loop terminates with enough fuel, takes from the front of the queue as
    much as the destination holds, and leaves the rest queued. *)
Lemma drain_ok fuel d :
  drain_wf d -> length (drain_bytes d) < fuel ->
  exists d', drain fuel d = Some d' /\
    let n := bp_room (d_bp d) `min` length (drain_bytes d) in
    drain_wf d' /\
    drain_bytes d' = drop n (drain_bytes d) /\
    d_out d' = d_out d ++ take n (drain_bytes d) /\
    d_total d' = d_total d + n /\
    bp_room (d_bp d') = bp_room (d_bp d) - n.
Proof.
  revert d; induction fuel as [|fuel IH]; intros d Hwf Hfuel; [lia|].
  assert (Hstop : bp_room (d_bp d) `min` length (drain_bytes d) = 0 ->
    let n := bp_room (d_bp d) `min` length (drain_bytes d) in
    drain_wf d /\ drain_bytes d = drop n (drain_bytes d) /\
    d_out d = d_out d ++ take n (drain_bytes d) /\ d_total d = d_total d + n /\
    bp_room (d_bp d) = bp_room (d_bp d) - n).
  { intros ->. simpl. rewrite drop_0, app_nil_r. repeat split; try apply Hwf; lia. }
  destruct (d_chunks d) as [|c rest] eqn:Hc.
  { exists d. cbn [drain]. rewrite Hc. split; [done|]. apply Hstop.
    unfold drain_bytes, queue_bytes. rewrite Hc. cbn [concat]. rewrite drop_nil. simpl. lia. }
  destruct (bp_empty (d_bp d)) eqn:He.
  { exists d. cbn [drain]. rewrite Hc, He. split; [done|]. apply Hstop.
    apply bp_empty_room in He. lia. }
  rewrite (drain_unfold _ _ _ _ Hc He).
  destruct (drain_step_ok _ _ _ Hwf Hc He) as (Hwf' & Hpos & Hr & Ht & Hb & Ho & Hl & Hr').
  set (d1 := drain_step d c rest) in *. set (m := d_total d1 - d_total d) in *.
  assert (Hb' : drain_bytes d1 = drop m (drain_bytes d)).
  { rewrite Hb at 1. rewrite drop_app_length' by (rewrite length_take; lia). done. }
  destruct (IH d1) as (d' & E & Hw & Hd & Hout & Htot & Hroom); [done| |].
  { rewrite Hb', length_drop. lia. }
  exists d'. split; [done|]. cbn zeta.
  rewrite Hb', length_drop, Hr' in *.
  set (n := bp_room (d_bp d) `min` length (drain_bytes d)) in *.
  assert (En : (bp_room (d_bp d) - m) `min` (length (drain_bytes d) - m) = n - m) by lia.
  rewrite En in *. split; [done|]. rewrite Hd, Hout, Ho, Htot, Hroom, drop_drop.
  replace (m + (n - m)) with n by lia. repeat split; try lia.
  rewrite <-app_assoc. f_equal. rewrite <-take_add_split. f_equal. lia.
Qed.

(** With nothing queued or no room in the destination, nothing is touched. *)
Lemma drain_idle fuel d :
  drain_wf d -> bp_room (d_bp d) `min` length (drain_bytes d) = 0 ->
  drain (S fuel) d = Some d.
Proof.
  intros Hwf H0. cbn [drain]. destruct (d_chunks d) as [|c rest] eqn:Hc; [done|].
  destruct (bp_empty (d_bp d)) eqn:He; [done|]. exfalso.
  assert (Hr : bp_room (d_bp d) <> 0) by (rewrite <-bp_empty_room; congruence).
  assert (Hb : drain_bytes d <> []).
  { unfold drain_bytes. rewrite queue_bytes_nil_iff by done. by rewrite Hc. }
  destruct (drain_bytes d); [done|]. simpl in H0. lia.
Qed.

(** ** [read_some] *)

Context {G : NgConsts}.
Implicit Types s : Stream.

Definition stream_wf s : Prop := queue_wf (chunks_ s) (front_offset_ s).

(** Bytes already stored in the buffers of a parked [read_some]. *)
Definition in_sink s : bytes :=
  match read_sink_ s with Some k => out k | None => [] end.

(** How many bytes a [read_some] into [p] can take at once. *)
Definition available (p : buffer_param) s : nat := bp_room p `min` length (buffered s).

Lemma drain_buffered p s :
  drain_bytes (mkDrain (chunks_ s) (front_offset_ s) p 0 []) = buffered s.
Proof. done. Qed.

(** The branch that returns data. *)
Lemma read_some_data p s :
  stream_wf s -> 0 < available p s ->
  exists chunks front,
    let n := available p s in
    let s' := s <| chunks_ := chunks |> <| front_offset_ := front |> in
    read_some p s
    = (s', [nghttp2_session_consume_stream (id_ s) n; start_write],
       Done (IoResult None (Read n (take n (buffered s))))) /\
    queue_wf chunks front /\ queue_bytes chunks front = drop n (buffered s).
Proof.
  intros Hwf Hn. unfold read_some.
  destruct (drain_ok (drain_fuel s) (mkDrain (chunks_ s) (front_offset_ s) p 0 []))
    as (d & E & Hw & Hd & Ho & Ht & _); [done| |].
  { rewrite drain_buffered. unfold drain_fuel. lia. }
  rewrite drain_buffered in Hd, Ho, Ht. cbn [d_bp d_out d_total app] in Hd, Ho, Ht.
  fold (available p s) in Hd, Ho, Ht. rewrite E, Ht, Ho, Nat.add_0_l.
  destruct (Nat.ltb_spec 0 (available p s)) as [_|?]; [|lia].
  exists (d_chunks d), (d_front d). done.
Qed.

(** Nothing can be taken: end of body, or park. *)
Lemma read_some_empty p s :
  stream_wf s -> available p s = 0 ->
  read_some p s
  = if read_eof_ s || closed_ s
    then (s, [], Done (IoResult (eof_error s) (Read 0 [])))
    else (s <| read_sink_ := Some (mkSink p 0 []) |>
            <| read_ready_ := event_clear (read_ready_ s) |>, [], Suspended).
Proof.
  intros Hwf Hn. unfold read_some, drain_fuel.
  rewrite drain_idle; [|done|rewrite drain_buffered; exact Hn].
  cbn [d_chunks d_front d_bp d_total d_out].
  assert (Es : s <| chunks_ := chunks_ s |> <| front_offset_ := front_offset_ s |> = s)
    by (by destruct s).
  by rewrite Es.
Qed.

(** ** The read-side invariant *)

(** [copied] counts the bytes in the destination; while chunks are queued
    behind a parked read its destination is full; and a parked read that has
    not been woken has nothing to report. *)
Record rd_inv s : Prop := {
  rd_wf : stream_wf s;
  rd_sink : forall k, read_sink_ s = Some k ->
    copied k = length (out k) /\ bp_one_window (bp k) = true /\
    (chunks_ s <> [] -> bp_room (bp k) = 0);
  rd_wake : forall k, read_sink_ s = Some k -> event_is_set (read_ready_ s) = false ->
    out k = [] /\ read_eof_ s = false /\ closed_ s = false;
}.

(** The bytes a (completed) read stored in its caller's buffers. *)
Definition outcome_mem (o : outcome read_out) : bytes :=
  match o with Done r => read_mem (value r) | _ => [] end.

Lemma rd_inv_new pre id : rd_inv (Stream_new pre id).
Proof. split; [apply queue_wf_nil | done | done]. Qed.

Lemma put_window k data :
  bp_one_window (bp k) = true ->
  let '(n, k') := put k data in
  n = bp_room (bp k) `min` length data /\
  bp_one_window (bp k') = true /\ bp_room (bp k') = bp_room (bp k) - n /\
  copied k' = copied k + n /\ out k' = out k ++ take n data.
Proof.
  intros H. unfold put. cbn [bp copied out]. rewrite bp_copy_window by done.
  repeat split; [apply bp_consume_window | apply bp_consume_room]; try done; lia.
Qed.

(** Enqueueing a (possibly empty) rest at the back. *)
Lemma buffered_snoc s d :
  stream_wf s ->
  stream_wf (if length d =? 0 then s else s <| chunks_ := chunks_ s ++ [d] |>) /\
  buffered (if length d =? 0 then s else s <| chunks_ := chunks_ s ++ [d] |>)
  = buffered s ++ d.
Proof.
  intros Hwf. destruct d as [|x d]; simpl; [by rewrite app_nil_r|].
  split; [by apply queue_wf_snoc | by apply queue_bytes_snoc].
Qed.

Lemma on_data_inv d s :
  rd_inv s ->
  rd_inv (on_data d s) /\
  in_sink (on_data d s) ++ buffered (on_data d s) = in_sink s ++ buffered s ++ d.
Proof.
  intros [Hwf Hk Hw]. unfold on_data, in_sink.
  destruct (read_sink_ s) as [k|] eqn:Ek.
  - destruct (Hk k eq_refl) as (Hc & H1 & Hfull).
    pose proof (put_window k d H1) as Hput. destruct (put k d) as [n k'].
    destruct Hput as (Hn & H1' & Hr' & Hc' & Ho').
    set (s1 := s <| read_sink_ := Some k' |>).
    destruct (buffered_snoc s1 (drop n d)) as [Hwf' Hb']; [done|].
    assert (Hl : out k ++ buffered s ++ d = (out k ++ take n d) ++ buffered s ++ drop n d).
    { destruct (decide (n = 0)) as [->|Hn0].
      - by rewrite take_0, drop_0, app_nil_r.
      - assert (chunks_ s = []) as Hnil by (destruct (chunks_ s); [done|]; rewrite Hfull in Hn; [lia|done]).
        assert (buffered s = []) as -> by (apply queue_bytes_nil_iff; done).
        rewrite <-app_assoc. cbn [app]. by rewrite take_drop. }
    split; [split|].
    + destruct (length (drop n d) =? 0); exact Hwf'.
    + intros k0 Hk0.
      assert (k0 = k') as -> by (destruct (length (drop n d) =? 0); simpl in Hk0; congruence).
      split; [rewrite Hc', Ho', length_app, length_take; lia|]. split; [done|].
      intros Hne. rewrite Hr'. destruct (length (drop n d) =? 0) eqn:E0.
      * simpl in Hne. rewrite Hfull by done. lia.
      * apply Nat.eqb_neq in E0. rewrite length_drop in E0. lia.
    + intros k0 _ Hset. exfalso.
      destruct (length (drop n d) =? 0); simpl in Hset; by rewrite event_set_is_set in Hset.
    + destruct (length (drop n d) =? 0) eqn:E0; simpl; rewrite Hl, Ho'; f_equal; exact Hb'.
  - destruct (buffered_snoc s d Hwf) as [Hwf' Hb'].
    split; [split|].
    + destruct (length d =? 0); exact Hwf'.
    + intros k0 Hk0. exfalso. destruct (length d =? 0); simpl in Hk0; congruence.
    + intros k0 Hk0. exfalso. destruct (length d =? 0); simpl in Hk0; congruence.
    + destruct (length d =? 0) eqn:E0; simpl; rewrite Ek; exact Hb'.
Qed.

Lemma on_read_eof_inv s :
  rd_inv s -> rd_inv (on_read_eof s) /\
  in_sink (on_read_eof s) = in_sink s /\ buffered (on_read_eof s) = buffered s.
Proof.
  intros [Hwf Hk Hw]. split; [|done]. split; [exact Hwf | exact Hk |].
  intros k _ Hset. simpl in Hset. by rewrite event_set_is_set in Hset.
Qed.

Lemma on_close_inv s :
  rd_inv s -> rd_inv (on_close s) /\
  in_sink (on_close s) = in_sink s /\ buffered (on_close s) = buffered s.
Proof.
  intros [Hwf Hk Hw]. split; [|done]. split; [exact Hwf | exact Hk |].
  intros k _ Hset. simpl in Hset. by rewrite event_set_is_set in Hset.
Qed.

(** What a turn of [read_some] does to the bytes: those it returns, followed by
    those it leaves behind, are those there were, and exactly those it returns
    are handed back to the stream's flow-control window. *)
Definition turn_ok s (r : Stream * list call * outcome read_out) : Prop :=
  let '(s', cs, o) := r in
  rd_inv s' /\ o <> Diverged /\
  in_sink s ++ buffered s = outcome_mem o ++ in_sink s' ++ buffered s' /\
  stream_consumed cs = length (outcome_mem o) /\
  match o with
  | Done r => read_n (value r) = length (read_mem (value r)) /\ read_sink_ s' = None
  | _ => is_Some (read_sink_ s')
  end.

Lemma read_some_turn p s :
  rd_inv s -> read_sink_ s = None -> bp_one_window p = true ->
  turn_ok s (read_some p s).
Proof.
  intros [Hwf Hk Hw] Hn Hp. destruct (decide (available p s = 0)) as [H0|H0].
  - rewrite read_some_empty by done. unfold turn_ok, in_sink.
    destruct (read_eof_ s || closed_ s) eqn:E; simpl.
    + rewrite Hn. split; [by split|]. by repeat split.
    + rewrite Hn. split; [|by repeat split; eauto]. split; [done| |].
      * intros k [= <-]. simpl. split; [done|]. split; [done|]. intros Hne.
        assert (Hb : buffered s <> []) by (by rewrite (queue_bytes_nil_iff _ _ Hwf)).
        unfold available in H0. destruct (buffered s); [done|]. simpl in H0. lia.
      * intros k [= <-] _. by apply orb_false_iff in E.
  - destruct (read_some_data p s Hwf) as (chunks & front & -> & Hwf' & Hb'); [lia|].
    unfold turn_ok, in_sink. simpl. rewrite Hn. simpl.
    change (buffered (s <| chunks_ := chunks |> <| front_offset_ := front |>))
      with (queue_bytes chunks front).
    rewrite Hb', take_drop, length_take. unfold stream_consumed; simpl.
    assert (available p s <= length (buffered s)) by (unfold available; lia).
    split; [split; [done | |]; intros k Hk0; simpl in Hk0; congruence|].
    repeat split; try done; lia.
Qed.

Lemma read_some_resume_turn w k s :
  rd_inv s -> read_sink_ s = Some k -> turn_ok s (read_some_resume w k s).
Proof.
  intros [Hwf Hk Hw] Hs. destruct (Hk k Hs) as (Hc & H1 & Hfull).
  unfold read_some_resume, turn_ok, in_sink. rewrite Hs.
  destruct (Nat.ltb_spec 0 (copied k)) as [Hpos|Hz].
  { simpl. unfold stream_consumed; simpl. split; [by split|]. repeat split; try done; lia. }
  assert (out k = []) as Ho by (destruct (out k); [done | simpl in *; lia]).
  destruct w as [e|]; simpl; rewrite ?Ho; [split; [by split|]; by repeat split|].
  destruct (read_eof_ s || closed_ s) eqn:E; simpl; rewrite ?Ho;
    [split; [by split|]; by repeat split|].
  split; [|by repeat split; eauto]. split; [done| |].
  - intros k' [= <-]. done.
  - intros k' [= <-] _. split; [done|]. by apply orb_false_iff in E.
Qed.

End StreamRead.
