(* ===== verification/StreamWrite.v ===== *)
(** * The write side of a stream

    The hand-over of body bytes from a suspended [write_impl] to nghttp2's data
    provider callback. *)

From S2P Require Import Prelude Capy Nghttp2 Stream.

Section StreamWrite.
Context {C : CapyOps} {L : CapyLaws C} {G : NgConsts} {GL : NgLaws G}.
Implicit Types s : Stream.

(** The frame of a suspended [write_impl]: its two parameters. *)
Definition write_frame : Type := const_buffer_array * bool.

(** ** Invariant

    [w] is the suspended write, [deferred] whether nghttp2 put the data provider
    to sleep after [NGHTTP2_ERR_DEFERRED], [pulled_eof] whether it was given the
    EOF flag. *)
Record wr_inv s (w : option write_frame) (deferred pulled_eof : bool) : Prop := {
  (** the stream knows when the provider sleeps *)
  wi_deferred : deferred = write_deferred_ s;
  (** bytes are offered only while their owner is suspended, and only to an
      awake provider *)
  wi_pending : write_pending_ s = true ->
    is_Some w /\ write_deferred_ s = false;
  (** the descriptors and the position are those of the suspended write *)
  wi_frame : forall a e, w = Some (a, e) ->
    pending_ s = a /\ write_eof_requested_ s = e /\
    write_offset_ s <= length (array_bytes a) /\
    cursor_bytes (pending_cursor_ s) = drop (write_offset_ s) (array_bytes a);
  (** a suspended write is on offer or has been woken *)
  wi_wake : is_Some w -> write_pending_ s = false ->
    event_is_set (write_progress_ s) = true;
  (** on an open stream a woken write was served: it is off offer and, for
      [write_eof], complete *)
  wi_served : forall a e, w = Some (a, e) -> closed_ s = false ->
    event_is_set (write_progress_ s) = true ->
    write_pending_ s = false /\
    (e = true -> write_offset_ s = length (array_bytes a) /\ pulled_eof = true);
}.

(** Bytes of the suspended write that nghttp2 already took. *)
Definition in_transit s (w : option write_frame) : bytes :=
  match w with Some (a, _) => take (write_offset_ s) (array_bytes a) | None => [] end.

Lemma wr_inv_new pre id : wr_inv (Stream_new pre id) None false false.
Proof. by split. Qed.

(** ** Starting and finishing a write *)

(** The provider is awake again after the calls a write issues. *)
Definition resumes (cs : list call) : bool :=
  existsb (fun c => match c with nghttp2_session_resume_data _ => true | _ => false end) cs.

Lemma write_impl_open a e s d pe :
  closed_ s = false -> wr_inv s None d pe ->
  let '(s', cs, o) := write_impl a e s in
  o = Suspended /\ wr_inv s' (Some (a, e)) (d && negb (resumes cs)) pe /\
  in_transit s' (Some (a, e)) = [] /\ write_pending_ s' = true /\
  cs = (if d then [nghttp2_session_resume_data (id_ s)] else []) ++ [start_write].
Proof.
  intros Hc [Hd Hp Hf Hw Hs]. unfold write_impl. rewrite Hc. subst d. simpl.
  split; [done|]. split; [|done].
  split; simpl; try done.
  - by destruct (write_deferred_ s).
  - intros a' e' [= <- <-]. rewrite drop_0, cursor_bytes_of. repeat split; lia.
  - intros a' e' _ _ H. by rewrite event_clear_is_set in H.
Qed.

Lemma write_impl_closed a e s :
  closed_ s = true ->
  write_impl a e s = (s, [], Done (IoResult (Some eof) 0)).
Proof. unfold write_impl. by intros ->. Qed.

(** Completion ends the offer, whatever the reason for it. *)
Lemma write_impl_resume_inv wait_ec s w d pe :
  wr_inv s w d pe ->
  let '(s', o) := write_impl_resume wait_ec s in
  wr_inv s' None d pe /\ write_pending_ s' = false /\
  o = Done (IoResult wait_ec (write_offset_ s)).
Proof.
  intros [Hd Hp Hf Hw Hs]. simpl. split; [|done].
  by split.
Qed.

(** ** The data provider callback *)

Lemma producer_idle len flags s :
  write_pending_ s = false ->
  producer_callback len flags s
  = (s <| write_deferred_ := true |>, NGHTTP2_ERR_DEFERRED, flags, []).
Proof. unfold producer_callback. by intros ->. Qed.

(** Whether this call finishes the write on offer. *)
Definition finishes (len : nat) s : bool :=
  (write_offset_ s + length (cursor_copy len (pending_cursor_ s)) =? byte_size (pending_ s))
  || negb (write_eof_requested_ s).

Lemma producer_busy len flags s :
  write_pending_ s = true ->
  let buf := cursor_copy len (pending_cursor_ s) in
  let s1 := s <| pending_cursor_ := cursor_consume (pending_cursor_ s) (length buf) |>
              <| write_offset_ := write_offset_ s + length buf |> in
  producer_callback len flags s
  = (if finishes len s
     then s1 <| write_pending_ := false |>
             <| write_progress_ := event_set (write_progress_ s) |>
     else s1,
     Z.of_nat (length buf),
     if finishes len s && write_eof_requested_ s
     then Z.lor flags NGHTTP2_DATA_FLAG_EOF else flags,
     buf).
Proof. unfold producer_callback. by intros ->. Qed.

(** The EOF bit of a [data_flags] word. *)
Definition has_eof (flags : Z) : bool := negb (Z.land flags NGHTTP2_DATA_FLAG_EOF =? 0)%Z.

Lemma has_eof_lor : has_eof (Z.lor 0 NGHTTP2_DATA_FLAG_EOF) = true.
Proof.
  unfold has_eof. rewrite Z.lor_0_l, Z.land_diag.
  pose proof data_flag_eof_bit. by destruct (Z.eqb_spec NGHTTP2_DATA_FLAG_EOF 0).
Qed.

Lemma has_eof_zero : has_eof 0 = false.
Proof. done. Qed.

(** A byte count is not taken for the deferral code. *)
Lemma count_not_deferred n : (Z.of_nat n =? NGHTTP2_ERR_DEFERRED)%Z = false.
Proof. pose proof err_deferred_neg. apply Z.eqb_neq. lia. Qed.

Lemma in_transit_pull len s a e :
  wr_inv s (Some (a, e)) false false ->
  let buf := cursor_copy len (pending_cursor_ s) in
  write_offset_ s + length buf <= length (array_bytes a) /\
  cursor_bytes (cursor_consume (pending_cursor_ s) (length buf))
  = drop (write_offset_ s + length buf) (array_bytes a) /\
  take (write_offset_ s + length buf) (array_bytes a)
  = take (write_offset_ s) (array_bytes a) ++ buf.
Proof.
  intros [_ _ Hf _ _]. destruct (Hf a e eq_refl) as (_ & _ & Hle & Hcur). simpl.
  pose proof (cursor_step len (pending_cursor_ s)) as Hstep. rewrite Hcur in Hstep.
  set (buf := cursor_copy len (pending_cursor_ s)) in *.
  pose proof (f_equal length Hstep) as Hlen. rewrite length_app, length_drop in Hlen.
  split; [lia|]. rewrite take_add_split, Hstep.
  rewrite take_app_length. split; [|done].
  rewrite <-drop_drop, Hstep, drop_app_length. done.
Qed.

(** One pull: the invariant is kept, and what nghttp2 got is appended to what it
    had of this write. *)
Lemma producer_inv len s w :
  wr_inv s w false false ->
  let '(s', ret, flags, buf) := producer_callback len 0 s in
  wr_inv s' w (ret =? NGHTTP2_ERR_DEFERRED)%Z (has_eof flags) /\
  in_transit s' w = in_transit s w ++ buf /\ length buf <= len.
Proof.
  intros Hinv. destruct (write_pending_ s) eqn:Hp.
  - destruct (wi_pending _ _ _ _ Hinv Hp) as ([[a e] ->] & Hd).
    destruct (in_transit_pull len s a e Hinv) as (Hle & Hcur & Htake).
    rewrite producer_busy by done. cbn zeta.
    pose proof (cursor_copy_le len (pending_cursor_ s)) as Hlen.
    set (buf := cursor_copy len (pending_cursor_ s)) in *.
    destruct Hinv as [_ _ Hf Hw Hs]. destruct (Hf a e eq_refl) as (Ha & He & _ & _).
    assert (Hfin : finishes len s = ((write_offset_ s + length buf =? length (array_bytes a)) || negb e)).
    { unfold finishes. by rewrite byte_size_bytes, Ha, He. }
    split; [|by destruct (finishes len s)].
    rewrite count_not_deferred, Hfin, He.
    destruct (Nat.eqb_spec (write_offset_ s + length buf) (length (array_bytes a)));
      destruct e; cbn [orb andb negb]; rewrite ?has_eof_lor, ?has_eof_zero;
      split; simpl; try done;
      try (intros a' e' [= <- <-]; rewrite ?event_set_is_set; by repeat split);
      try (intros _ _; apply event_set_is_set); try (by eauto).
    intros a' e' [= <- <-] Hc Hset. destruct (Hs a true eq_refl Hc Hset); congruence.
  - rewrite producer_idle by done. destruct Hinv as [Hd Hpd Hf Hw Hs].
    rewrite has_eof_zero, app_nil_r. split; [|split; [done|simpl; lia]].
    rewrite Z.eqb_refl. split; simpl; try done. congruence.
Qed.

(** Closing wakes a suspended write and touches nothing else of it. *)
Lemma on_close_wr_inv s w d pe :
  wr_inv s w d pe -> wr_inv (on_close s) w d pe /\ in_transit (on_close s) w = in_transit s w.
Proof.
  intros [Hd Hp Hf Hw Hs]. split; [|done]. split; simpl; try done.
  intros _ _. apply event_set_is_set.
Qed.

End StreamWrite.
