(* ===== verification/StreamSys.v ===== *)
(** * A stream under arbitrary interleaving

    The callers of a [Stream] are nghttp2's callbacks, one coroutine reading,
    one writing, and one awaiting the status.  [step] is one turn of any of them,
    [reach] the states after any sequence of turns; the invariants of the read
    and write sides hold in all of them. *)

From S2P Require Import Prelude Capy Nghttp2 Stream StreamRead StreamWrite.

Section StreamSys.
Context {C : CapyOps} {G : NgConsts}.

(** ** Events and observations *)

(** Fields of a stream that no body operation reads. *)
Inductive meta :=
| MSetId (log_prefix : Z -> string) (id : Z)
| MSetPath (path : string)
| MSetContentLength (n : N)
| MAddHeader (name value : string).

Definition apply_meta (m : meta) (s : Stream) : Stream :=
  match m with
  | MSetId pre id => set_id pre id s
  | MSetPath path => set_path path s
  | MSetContentLength n => set_content_length n s
  | MAddHeader name value => add_header name value s
  end.

Inductive sev :=
| EMeta (m : meta)                             (* set_id, set_path, ... *)
| EData (data : bytes)                         (* on_data *)
| EReadEof                                     (* on_read_eof *)
| EClose                                       (* on_close *)
| ERead (p : buffer_param)                     (* read_some is called *)
| EReadWake (wait_ec : error_code)             (* read_ready_.wait() returns *)
| EWrite (a : const_buffer_array) (fin : bool) (* write_some / write_eof is called *)
| EWriteWake (wait_ec : error_code)            (* write_progress_.wait() returns *)
| EProduce (length : nat)                      (* nghttp2 pulls body bytes *)
| ESetStatus (status : N)                      (* :status arrived *)
| EStatus                                      (* status() is called *)
| EStatusWake (wait_ec : error_code).          (* status_ready_.wait() returns *)

Inductive obs :=
| ORead (r : io_result read_out)
| OWrite (a : const_buffer_array) (fin : bool) (r : io_result nat)
| OPull (ret flags : Z) (buf : bytes)
| OStatus (r : io_result N).

(** A stream with the frames of its suspended coroutines, nghttp2's view of its
    data provider, what was observed so far, and the calls issued. *)
Record sys := mkSys {
  st : Stream;
  writer : option write_frame;
  status_waiter : bool;
  provider_deferred : bool;
  provider_eof : bool;
  log : list obs;
  calls : list call;
}.

#[export] Instance sys_eta : Eta sys := {| eta := fun y =>
  mkSys (st y) (writer y) (status_waiter y) (provider_deferred y) (provider_eof y)
    (log y) (calls y) |}.

Definition sys_new (pre : Z -> string) (id : Z) : sys :=
  mkSys (Stream_new pre id) None false false false [] [].

(** An event's [wait()] returns without error only once the event is set, and
    with one (cancellation) at any time. *)
Definition completes (wait_ec : error_code) (e : async_event) : bool :=
  match wait_ec with Some _ => true | None => event_is_set e end.

Definition note {A} (mk : io_result A -> obs) (o : outcome A) (y : sys) : sys :=
  match o with Done r => y <| log := log y ++ [mk r] |> | _ => y end.

Definition suspended {A} (o : outcome A) : bool :=
  match o with Suspended => true | _ => false end.

(** ** One turn *)

Definition step (e : sev) (y : sys) : option sys :=
  match e with
  | EMeta m => Some (y <| st := apply_meta m (st y) |>)
  | EData d => Some (y <| st := on_data d (st y) |>)
  | EReadEof => Some (y <| st := on_read_eof (st y) |>)
  | EClose => Some (y <| st := on_close (st y) |>)
  | ERead p =>
      match read_sink_ (st y) with
      | Some _ => None (* one reader at a time *)
      | None =>
          let '(s, cs, o) := read_some p (st y) in
          Some (note ORead o (y <| st := s |> <| calls := calls y ++ cs |>))
      end
  | EReadWake w =>
      match read_sink_ (st y) with
      | Some k =>
          if completes w (read_ready_ (st y)) then
            let '(s, cs, o) := read_some_resume w k (st y) in
            Some (note ORead o (y <| st := s |> <| calls := calls y ++ cs |>))
          else None
      | None => None
      end
  | EWrite a fin =>
      match writer y with
      | Some _ => None (* one writer at a time *)
      | None =>
          let '(s, cs, o) := write_impl a fin (st y) in
          Some (note (OWrite a fin) o
            (y <| st := s |> <| calls := calls y ++ cs |>
               <| writer := if suspended o then Some (a, fin) else None |>
               <| provider_deferred := provider_deferred y && negb (resumes cs) |>))
      end
  | EWriteWake w =>
      match writer y with
      | Some (a, fin) =>
          if completes w (write_progress_ (st y)) then
            let '(s, o) := write_impl_resume w (st y) in
            Some (note (OWrite a fin) o (y <| st := s |> <| writer := None |>))
          else None
      | None => None
      end
  | EProduce len =>
      (* nghttp2 does not call a sleeping provider, nor one that signalled EOF *)
      if provider_deferred y || provider_eof y then None
      else
        let '(s, ret, flags, buf) := producer_callback len 0 (st y) in
        Some (y <| st := s |>
                <| provider_deferred := (ret =? NGHTTP2_ERR_DEFERRED)%Z |>
                <| provider_eof := has_eof flags |>
                <| log := log y ++ [OPull ret flags buf] |>)
  | ESetStatus n => Some (y <| st := set_status n (st y) |>)
  | EStatus =>
      if status_waiter y then None
      else
        let '(s, o) := status (st y) in
        Some (note OStatus o (y <| st := s |> <| status_waiter := suspended o |>))
  | EStatusWake w =>
      if status_waiter y && completes w (status_ready_ (st y))
      then Some (note OStatus (status_resume w (st y)) (y <| status_waiter := false |>))
      else None
  end.

(** The states after the events [evs], oldest first. *)
Inductive reach (pre : Z -> string) (id : Z) : list sev -> sys -> Prop :=
| reach_new : reach pre id [] (sys_new pre id)
| reach_step evs y e y' :
    reach pre id evs y -> step e y = Some y' -> reach pre id (evs ++ [e]) y'.

(** The same, executably. *)
Fixpoint run (evs : list sev) (y : sys) : option sys :=
  match evs with
  | [] => Some y
  | e :: evs => match step e y with Some y => run evs y | None => None end
  end.

Lemma run_snoc evs e y :
  run (evs ++ [e]) y = match run evs y with Some y => step e y | None => None end.
Proof.
  revert y; induction evs as [|e' evs IH]; intros y; simpl.
  - by destruct (step e y).
  - destruct (step e' y); [apply IH | done].
Qed.

Lemma run_reach pre id evs y : run evs (sys_new pre id) = Some y -> reach pre id evs y.
Proof.
  revert y; induction evs as [|e evs IH] using rev_ind; intros y H.
  - injection H as <-. constructor.
  - rewrite run_snoc in H. destruct (run evs _) eqn:E; [|done].
    econstructor; [by apply IH | done].
Qed.

(** ** What the trace and the log say *)

Definition data_of (evs : list sev) : bytes :=
  concat (map (fun e => match e with EData d => d | _ => [] end) evs).

Definition delivered (l : list obs) : bytes :=
  concat (map (fun o => match o with ORead r => read_mem (value r) | _ => [] end) l).

Definition pulled (l : list obs) : bytes :=
  concat (map (fun o => match o with OPull _ _ buf => buf | _ => [] end) l).

(** The bytes completed writes claim to have written. *)
Definition reported (l : list obs) : bytes :=
  concat (map (fun o => match o with
                        | OWrite a _ r => take (value r) (array_bytes a)
                        | _ => [] end) l).

(** Every destination passed to [read_some] fits one window. *)
Definition reads_fit (evs : list sev) : Prop :=
  Forall (fun e => match e with ERead p => bp_one_window p = true | _ => True end) evs.

(** ** Which fields an operation leaves alone *)

Definition read_side (s : Stream) :=
  (chunks_ s, front_offset_ s, read_sink_ s, read_eof_ s, closed_ s, read_ready_ s).

Definition write_side (s : Stream) :=
  (closed_ s, pending_ s, pending_cursor_ s, write_offset_ s, write_pending_ s,
   write_eof_requested_ s, write_deferred_ s, write_progress_ s).

Lemma rd_inv_same s s' :
  read_side s' = read_side s -> rd_inv s ->
  rd_inv s' /\ in_sink s' = in_sink s /\ buffered s' = buffered s.
Proof.
  unfold read_side, in_sink, buffered. intros [= E1 E2 E3 E4 E5 E6] [Hwf Hk Hw].
  split; [|by rewrite E1, E2, E3].
  split; unfold stream_wf in *; rewrite ?E1, ?E2, ?E3, ?E4, ?E5, ?E6; done.
Qed.

Lemma wr_inv_same s s' w d pe :
  write_side s' = write_side s -> wr_inv s w d pe ->
  wr_inv s' w d pe /\ in_transit s' w = in_transit s w.
Proof.
  unfold write_side, in_transit. intros [= E1 E2 E3 E4 E5 E6 E7 E8] [Hd Hp Hf Hw Hs].
  split; [|by rewrite E4].
  split; rewrite ?E1, ?E2, ?E3, ?E4, ?E5, ?E6, ?E7, ?E8; done.
Qed.

Lemma read_some_write_side p s : write_side (read_some p s).1.1 = write_side s.
Proof. unfold read_some. by break. Qed.

Lemma read_some_resume_write_side w k s :
  write_side (read_some_resume w k s).1.1 = write_side s.
Proof. unfold read_some_resume. by break. Qed.

Lemma on_data_write_side d s : write_side (on_data d s) = write_side s.
Proof. unfold on_data. by break. Qed.

Lemma apply_meta_sides m s :
  read_side (apply_meta m s) = read_side s /\ write_side (apply_meta m s) = write_side s /\
  status_ready_ (apply_meta m s) = status_ready_ s.
Proof. by destruct m. Qed.

Lemma write_impl_read_side a fin s : read_side (write_impl a fin s).1.1 = read_side s.
Proof. unfold write_impl. by break. Qed.

Lemma producer_read_side len f s : read_side (producer_callback len f s).1.1.1 = read_side s.
Proof. unfold producer_callback. by break. Qed.

Lemma status_sides s :
  read_side (status s).1 = read_side s /\ write_side (status s).1 = write_side s.
Proof. unfold status. by break. Qed.

(** ** What never goes back *)

Lemma step_closed e y y' : step e y = Some y' -> closed_ (st y) = true -> closed_ (st y') = true.
Proof.
  intros H Hc. destruct e as [m|d| | |p|w|a fin|w|len|n| |w]; simpl in H;
    unfold note, on_data, read_some, read_some_resume, write_impl, producer_callback, status in H;
    break; simplify_eq; try done.
  by destruct m.
Qed.

Lemma step_provider_eof e y y' :
  step e y = Some y' -> provider_eof y = true -> provider_eof y' = true.
Proof.
  intros H He. destruct e as [m|d| | |p|w|a fin|w|len|n| |w]; simpl in H;
    rewrite ?He, ?orb_true_r in H; unfold note in H; break; simplify_eq; done.
Qed.

(** ** Logs *)

Lemma data_of_snoc evs e :
  data_of (evs ++ [e]) = data_of evs ++ match e with EData d => d | _ => [] end.
Proof. unfold data_of. rewrite map_app, concat_app. simpl. by rewrite app_nil_r. Qed.

Lemma delivered_snoc l o :
  delivered (l ++ [o]) = delivered l ++ match o with ORead r => read_mem (value r) | _ => [] end.
Proof. unfold delivered. rewrite map_app, concat_app. simpl. by rewrite app_nil_r. Qed.

Lemma pulled_snoc l o :
  pulled (l ++ [o]) = pulled l ++ match o with OPull _ _ buf => buf | _ => [] end.
Proof. unfold pulled. rewrite map_app, concat_app. simpl. by rewrite app_nil_r. Qed.

Lemma reported_snoc l o :
  reported (l ++ [o])
  = reported l ++ match o with OWrite a _ r => take (value r) (array_bytes a) | _ => [] end.
Proof. unfold reported. rewrite map_app, concat_app. simpl. by rewrite app_nil_r. Qed.

End StreamSys.

Create Rewrite HintDb stream_log.
#[export] Hint Rewrite @data_of_snoc @delivered_snoc @pulled_snoc @reported_snoc
  @app_nil_r : stream_log.
