(* ===== verification/StreamProps.v ===== *)
(** * Properties of a stream

    Theorems about every state a stream can reach, whatever the order in which
    nghttp2's callbacks and the suspended coroutines take their turns. *)

From S2P Require Import Prelude Capy Nghttp2 Stream StreamRead StreamWrite StreamSys.

Section StreamProps.
Context {C : CapyOps} {L : CapyLaws C} {G : NgConsts} {GL : NgLaws G}.
Context (pre : Z -> string) (id : Z).

(** ** Reading *)

Record sys_read_inv (evs : list sev) (y : sys) : Prop := {
  sr_rd : rd_inv (st y);
  sr_fifo : data_of evs = delivered (log y) ++ in_sink (st y) ++ buffered (st y);
  sr_window : stream_consumed (calls y) = length (delivered (log y));
}.

(** A turn that neither reads nor brings data. *)
Lemma sys_read_inv_frame evs e y y' :
  read_side (st y') = read_side (st y) ->
  delivered (log y') = delivered (log y) ->
  stream_consumed (calls y') = stream_consumed (calls y) ->
  data_of (evs ++ [e]) = data_of evs ->
  sys_read_inv evs y -> sys_read_inv (evs ++ [e]) y'.
Proof.
  intros Hs Hl Hc He [Hr Hf Hw]. destruct (rd_inv_same _ _ Hs Hr) as (Hr' & Hk & Hb).
  split; [done | |]; rewrite ?He, ?Hl, ?Hc, ?Hk, ?Hb; done.
Qed.

(** A turn of [read_some]. *)
Lemma sys_read_inv_turn evs e y s cs o :
  turn_ok (st y) (s, cs, o) ->
  data_of (evs ++ [e]) = data_of evs ->
  sys_read_inv evs y ->
  sys_read_inv (evs ++ [e]) (note ORead o (y <| st := s |> <| calls := calls y ++ cs |>)).
Proof.
  intros (Hr & Ho & Hb & Hn & _) He [_ Hf Hw].
  destruct o as [r| |]; [| |done]; simpl in *; (split; simpl; [done| |]);
    rewrite ?delivered_snoc, ?stream_consumed_app, ?He, ?length_app, ?Hw, ?Hn; simpl.
  - by rewrite Hf, Hb, <-app_assoc.
  - done.
  - by rewrite Hf, Hb.
  - lia.
Qed.

(** A turn of a callback of the read side. *)
Lemma sys_read_inv_cb evs e y s d :
  rd_inv s /\ in_sink s ++ buffered s = in_sink (st y) ++ buffered (st y) ++ d ->
  data_of (evs ++ [e]) = data_of evs ++ d ->
  sys_read_inv evs y -> sys_read_inv (evs ++ [e]) (y <| st := s |>).
Proof.
  intros [Hr Hb] He [_ Hf Hw]. split; simpl; [done| |done].
  rewrite He, Hf, Hb. by rewrite <-!app_assoc.
Qed.

Lemma stream_consumed_write_impl a fin s : stream_consumed (write_impl a fin s).1.2 = 0.
Proof. unfold write_impl, stream_consumed. by break. Qed.

(** Closes a turn that leaves the read side alone. *)
Ltac frame y He Hc :=
  apply sys_read_inv_frame with y; simpl in *; autorewrite with stream_log;
  rewrite ?stream_consumed_app, ?Hc, ?Nat.add_0_r; try done; by apply He.

Lemma sys_read_inv_step evs e y y' :
  (forall p, e = ERead p -> bp_one_window p = true) ->
  step e y = Some y' -> sys_read_inv evs y -> sys_read_inv (evs ++ [e]) y'.
Proof.
  intros Hp Hstep Hinv. pose proof (sr_rd _ _ Hinv) as Hrd.
  assert (He : (forall d, e <> EData d) -> data_of (evs ++ [e]) = data_of evs)
    by (intros ?; rewrite data_of_snoc; destruct e; autorewrite with stream_log; naive_solver).
  destruct e as [m|d| | |p|w|a fin|w|len|n| |w]; simpl in Hstep.
  - destruct (apply_meta_sides m (st y)) as (? & _). injection Hstep as <-. frame y He He.
  - injection Hstep as <-. apply sys_read_inv_cb with d; [|by rewrite data_of_snoc|done].
    by apply on_data_inv.
  - injection Hstep as <-. apply sys_read_inv_cb with []; [|by rewrite data_of_snoc|done].
    destruct (on_read_eof_inv _ Hrd) as (? & -> & ->). by rewrite app_nil_r.
  - injection Hstep as <-. apply sys_read_inv_cb with []; [|by rewrite data_of_snoc|done].
    destruct (on_close_inv _ Hrd) as (? & -> & ->). by rewrite app_nil_r.
  - destruct (read_sink_ (st y)) eqn:Ek; [done|].
    pose proof (read_some_turn p _ Hrd Ek (Hp p eq_refl)) as Ht.
    destruct (read_some p (st y)) as [[s cs] o]. injection Hstep as <-.
    apply sys_read_inv_turn; [done|by apply He|done].
  - destruct (read_sink_ (st y)) as [k|] eqn:Ek; [|done].
    destruct (completes _ _); [|done].
    pose proof (read_some_resume_turn w k _ Hrd Ek) as Ht.
    destruct (read_some_resume w k (st y)) as [[s cs] o]. injection Hstep as <-.
    apply sys_read_inv_turn; [done|by apply He|done].
  - destruct (writer y); [done|].
    pose proof (write_impl_read_side a fin (st y)).
    pose proof (stream_consumed_write_impl a fin (st y)) as Hc.
    destruct (write_impl a fin (st y)) as [[s cs] o]. injection Hstep as <-.
    destruct o; frame y He Hc.
  - break. frame y He He.
  - pose proof (producer_read_side len 0 (st y)). destruct (_ || _); [done|].
    destruct (producer_callback len 0 (st y)) as [[[s ret] f] buf]. injection Hstep as <-.
    frame y He He.
  - injection Hstep as <-. frame y He He.
  - pose proof (proj1 (status_sides (st y))). destruct (status_waiter y); [done|].
    destruct (status (st y)) as [s o]. injection Hstep as <-. destruct o; frame y He He.
  - destruct (status_waiter y && _); [|done]. injection Hstep as <-.
    destruct (status_resume w (st y)); frame y He He.
Qed.

Lemma reach_read_inv evs y : reach pre id evs y -> reads_fit evs -> sys_read_inv evs y.
Proof.
  induction 1 as [|evs y e y' _ IH Hstep]; intros Hfit.
  - split; [apply rd_inv_new | done | done].
  - apply Forall_app in Hfit as [Hfit He].
    apply (sys_read_inv_step evs e y y'); [|done|by apply IH].
    intros p ->. by apply Forall_inv in He.
Qed.

(** ** Writing *)

Record sys_write_inv (y : sys) : Prop := {
  sw_wr : wr_inv (st y) (writer y) (provider_deferred y) (provider_eof y);
  sw_bytes : pulled (log y) = reported (log y) ++ in_transit (st y) (writer y);
}.

(** A turn that leaves the write side alone. *)
Lemma sys_write_inv_frame y y' :
  write_side (st y') = write_side (st y) -> writer y' = writer y ->
  provider_deferred y' = provider_deferred y -> provider_eof y' = provider_eof y ->
  pulled (log y') = pulled (log y) -> reported (log y') = reported (log y) ->
  sys_write_inv y -> sys_write_inv y'.
Proof.
  intros Hs Hw Hd He Hp Hr [Hi Hb].
  destruct (wr_inv_same (st y) (st y') _ _ _ Hs Hi) as [Hi' Ht].
  split; rewrite ?Hw, ?Hd, ?He, ?Hp, ?Hr, ?Ht; done.
Qed.

(** Closes a turn that leaves the write side alone. *)
Ltac wframe y :=
  apply sys_write_inv_frame with y; simpl in *; autorewrite with stream_log; done.

Lemma sys_write_inv_step e y y' :
  step e y = Some y' -> sys_write_inv y -> sys_write_inv y'.
Proof.
  intros Hstep Hinv. pose proof (sw_wr _ Hinv) as Hwr. pose proof (sw_bytes _ Hinv) as Hb.
  destruct e as [m|d| | |p|w|a fin|w|len|n| |w]; simpl in Hstep.
  - destruct (apply_meta_sides m (st y)) as (_ & ? & _). injection Hstep as <-. wframe y.
  - injection Hstep as <-. pose proof (on_data_write_side d (st y)). wframe y.
  - injection Hstep as <-. wframe y.
  - injection Hstep as <-. destruct (on_close_wr_inv _ _ _ _ Hwr) as [Hi Ht].
    split; [done|]. simpl. by rewrite Ht.
  - destruct (read_sink_ (st y)); [done|]. pose proof (read_some_write_side p (st y)).
    destruct (read_some p (st y)) as [[s cs] o]. injection Hstep as <-. destruct o; wframe y.
  - destruct (read_sink_ (st y)) as [k|]; [|done]. destruct (completes _ _); [|done].
    pose proof (read_some_resume_write_side w k (st y)).
    destruct (read_some_resume w k (st y)) as [[s cs] o]. injection Hstep as <-. destruct o; wframe y.
  - destruct (writer y) eqn:Ew; [done|]. destruct (closed_ (st y)) eqn:Ec.
    + rewrite write_impl_closed in Hstep by done. injection Hstep as <-. split; simpl.
      * by rewrite andb_true_r.
      * simpl in Hb. by autorewrite with stream_log in Hb |- *.
    + pose proof (write_impl_open a fin _ _ _ Ec Hwr) as Ho.
      destruct (write_impl a fin (st y)) as [[s cs] o]. injection Hstep as <-.
      destruct Ho as (-> & Hi & Ht & _). split; simpl; [done|].
      rewrite Hb. f_equal. symmetry. exact Ht.
  - destruct (writer y) as [[a fin]|] eqn:Ew; [|done]. destruct (completes _ _); [|done].
    pose proof (write_impl_resume_inv w _ _ _ _ Hwr) as (Hi & _ & _).
    injection Hstep as <-. split; simpl; [done|]. autorewrite with stream_log. exact Hb.
  - destruct (provider_deferred y) eqn:Ed; [done|]. destruct (provider_eof y) eqn:Ee; [done|].
    pose proof (producer_inv len _ _ Hwr) as Ho.
    destruct (producer_callback len 0 (st y)) as [[[s ret] f] buf]. injection Hstep as <-.
    destruct Ho as (Hi & Ht & _). split; simpl; [done|]. autorewrite with stream_log.
    by rewrite Hb, Ht, app_assoc.
  - injection Hstep as <-. wframe y.
  - pose proof (proj2 (status_sides (st y))). destruct (status_waiter y); [done|].
    destruct (status (st y)) as [s o]. injection Hstep as <-. destruct o; wframe y.
  - destruct (status_waiter y && _); [|done]. injection Hstep as <-.
    destruct (status_resume w (st y)); wframe y.
Qed.

Lemma reach_write_inv evs y : reach pre id evs y -> sys_write_inv y.
Proof.
  induction 1 as [|evs y e y' _ IH Hstep].
  - split; [apply wr_inv_new | done].
  - by apply (sys_write_inv_step e y y').
Qed.

(** ** Room *)

(** Every destination passed to [read_some] has room for at least a byte. *)
Definition reads_roomy (evs : list sev) : Prop :=
  Forall (fun e => match e with ERead p => 0 < bp_room p | _ => True end) evs.

(** A parked read that holds no byte yet still has room. *)
Definition sink_room (s : Stream) : Prop :=
  forall k, read_sink_ s = Some k -> 0 < bp_room (bp k) + copied k.

Lemma sink_room_data d s : sink_room s -> sink_room (on_data d s).
Proof.
  intros H. unfold on_data. destruct (read_sink_ s) as [k|] eqn:Ek.
  - intros k' Hk'. specialize (H k Ek).
    assert (k' = (put k d).2) as -> by (simpl in Hk'; break; congruence).
    simpl. pose proof (bp_copy_le_room (bp k) d). rewrite bp_consume_room by done. lia.
  - intros k' Hk'. exfalso. simpl in Hk'. break; congruence.
Qed.

Lemma sink_room_step e y y' :
  rd_inv (st y) -> (forall p, e = ERead p -> 0 < bp_room p) ->
  step e y = Some y' -> sink_room (st y) -> sink_room (st y').
Proof.
  intros Hrd Hp Hstep Hroom. destruct e as [m|d| | |p|w|a fin|w|len|n| |w]; simpl in Hstep;
    try (injection Hstep as <-; exact Hroom);
    try (unfold write_impl, producer_callback, status, status_resume in Hstep;
         break; exact Hroom).
  - injection Hstep as <-. by destruct m.
  - injection Hstep as <-. by apply sink_room_data.
  - destruct (read_sink_ (st y)) eqn:Ek; [done|].
    destruct (decide (available p (st y) = 0)) as [H0|H0].
    + rewrite read_some_empty in Hstep by (done || apply Hrd).
      destruct (_ || _); injection Hstep as <-; [exact Hroom|].
      intros k [= <-]. simpl. specialize (Hp p eq_refl). lia.
    + destruct (read_some_data p (st y) (rd_wf _ Hrd)) as (ch & fr & E & _); [lia|].
      rewrite E in Hstep. injection Hstep as <-. exact Hroom.
  - destruct (read_sink_ (st y)) as [k|] eqn:Ek; [|done]. specialize (Hroom k Ek).
    unfold read_some_resume in Hstep. break; intros k' Hk'; simpl in Hk'; congruence.
Qed.

Lemma reach_sink_room evs y :
  reach pre id evs y -> reads_fit evs -> reads_roomy evs -> sink_room (st y).
Proof.
  induction 1 as [|evs y e y' Hr IH Hstep]; intros Hf Hm; [done|].
  apply Forall_app in Hf as [Hf _]. apply Forall_app in Hm as [Hm He].
  apply (sink_room_step e y y'); [|..|done|by apply IH].
  - exact (sr_rd _ _ (reach_read_inv _ _ Hr Hf)).
  - intros p ->. by apply Forall_inv in He.
Qed.

(** Only the two turns of [read_some] report a read. *)
Lemma step_oread e y y' r :
  step e y = Some y' -> log y' = log y ++ [ORead r] ->
  (exists p s cs, e = ERead p /\ read_sink_ (st y) = None /\
     read_some p (st y) = (s, cs, Done r)) \/
  (exists w k s cs, e = EReadWake w /\ read_sink_ (st y) = Some k /\
     read_some_resume w k (st y) = (s, cs, Done r)).
Proof.
  intros Hstep Hlog.
  assert (Hno : log y' <> log y).
  { intros H1. rewrite H1 in Hlog. apply (f_equal length) in Hlog.
    rewrite length_app in Hlog. simpl in Hlog. lia. }
  destruct e as [m|d| | |p|w|a fin|w|len|n| |w]; simpl in Hstep; unfold note in Hstep;
    try (exfalso; simplify_eq; by apply Hno).
  - left. break; try (exfalso; by apply Hno). by eexists _, _, _.
  - right. break; try (exfalso; by apply Hno). by eexists _, _, _, _.
  - exfalso. break; simpl in *; simplify_eq; by apply Hno.
  - exfalso. break; simpl in *; simplify_eq; by apply Hno.
  - exfalso. break; simpl in *; simplify_eq; by apply Hno.
  - exfalso. break; simpl in *; simplify_eq; by apply Hno.
  - exfalso. break; simpl in *; simplify_eq; by apply Hno.
Qed.

(** A read that reports an error of its own (not a cancellation): the body has ended or
    the stream was closed, and all there was has been delivered. *)
Lemma read_end evs e y y' r :
  reach pre id evs y -> reads_fit (evs ++ [e]) -> reads_roomy (evs ++ [e]) ->
  (forall w, e <> EReadWake (Some w)) ->
  step e y = Some y' -> log y' = log y ++ [ORead r] -> is_Some (ec r) ->
  read_eof_ (st y) || closed_ (st y) = true /\ ec r = eof_error (st y) /\
  read_mem (value r) = [] /\ data_of evs = delivered (log y).
Proof.
  intros Hr Hf Hm He Hstep Hlog Herr.
  apply Forall_app in Hf as [Hf Hfe]. apply Forall_app in Hm as [Hm Hme].
  apply Forall_inv in Hfe, Hme.
  pose proof (reach_read_inv _ _ Hr Hf) as [[Hwf Hs Hw] Hfifo _].
  pose proof (reach_sink_room _ _ Hr Hf Hm) as Hroom. rewrite Hfifo.
  destruct (step_oread _ _ _ _ Hstep Hlog)
    as [(p & s & cs & -> & Hk & E)|(w & k & s & cs & -> & Hk & E)]; unfold in_sink; rewrite Hk; simpl.
  - destruct (decide (available p (st y) = 0)) as [H0|H0].
    2: { destruct (read_some_data p (st y) Hwf) as (? & ? & E' & _); [lia|].
         rewrite E' in E. injection E as <- <- <-. by destruct Herr. }
    rewrite read_some_empty in E by done. destruct (_ || _); [|done]. injection E as <- <- <-.
    assert (buffered (st y) = []) as ->; [|by rewrite app_nil_r].
    unfold available in H0. apply length_zero_iff_nil. lia.
  - destruct (Hs k Hk) as (Hc & _ & Hfull). specialize (Hroom k Hk).
    unfold read_some_resume in E. destruct (Nat.ltb_spec 0 (copied k)).
    { injection E as <- <- <-. by destruct Herr. }
    destruct w as [w|]; [by destruct (He w)|]. simpl in E. destruct (_ || _); [|done].
    injection E as <- <- <-. simpl.
    assert (Ho : out k = []) by (destruct (out k); [done | simpl in *; lia]).
    assert (chunks_ (st y) = []) as Hch.
    { destruct (chunks_ (st y)); [done|]. rewrite Hfull in Hroom by done. lia. }
    assert (buffered (st y) = []) as -> by (by apply queue_bytes_nil_iff).
    by rewrite Ho, app_nil_r.
Qed.

(** ** Theorems *)

(** C1 Nothing is lost, duplicated or reordered on the way from nghttp2 to the reader,
    provided that every destination passed to [read_some] fits one window of capy's
    buffer_param (without that, [read_reorders_windows] shows, it does not hold): at any
    moment the bytes given to [on_data] are, in order, those completed [read_some] calls
    stored in their callers' buffers, then those already stored in the buffers of a parked
    call, then those still queued. *)
Theorem read_fifo evs y :
  reach pre id evs y -> reads_fit evs ->
  data_of evs = delivered (log y) ++ in_sink (st y) ++ buffered (st y).
Proof. intros Hr Hf. exact (sr_fifo _ _ (reach_read_inv _ _ Hr Hf)). Qed.

(** Stream-level flow control follows the reader: the bytes returned to the
    stream's window through [nghttp2_session_consume_stream] are at any moment
    exactly as many as completed reads delivered. *)
Theorem read_replenishes_window evs y :
  reach pre id evs y -> reads_fit evs ->
  stream_consumed (calls y) = length (delivered (log y)).
Proof. intros Hr Hf. exact (sr_window _ _ (reach_read_inv _ _ Hr Hf)). Qed.

(** A parked read with something to report resumes. *)
Lemma parked_read_wakes evs y k :
  reach pre id evs y -> reads_fit evs -> read_sink_ (st y) = Some k ->
  out k <> [] \/ read_eof_ (st y) = true \/ closed_ (st y) = true ->
  exists y' r, step (EReadWake None) y = Some y' /\
    log y' = log y ++ [ORead r] /\ read_sink_ (st y') = None /\
    (out k <> [] -> r = IoResult None (Read (length (out k)) (out k))).
Proof.
  intros Hr Hf Hk Hwhy. destruct (sr_rd _ _ (reach_read_inv _ _ Hr Hf)) as [_ Hs Hw].
  destruct (Hs k Hk) as (Hc & _ & _).
  assert (Hset : event_is_set (read_ready_ (st y)) = true).
  { destruct (event_is_set _) eqn:E; [done|]. destruct (Hw k Hk eq_refl) as (? & ? & ?).
    destruct Hwhy as [?|[?|?]]; congruence. }
  simpl. rewrite Hk, Hset. unfold read_some_resume. rewrite Hc.
  destruct (out k) as [|x o] eqn:Eo; simpl.
  - assert (read_eof_ (st y) || closed_ (st y) = true) as ->.
    { destruct Hwhy as [?|[->| ->]]; [done|done|apply orb_true_r]. }
    by eexists _, _.
  - by eexists _, _.
Qed.

(** C7 No wake-up is lost on the read side: when a parked [read_some] has bytes
    in its destination, or END_STREAM or the close of the stream was seen, its
    [wait()] is ready, and resuming it completes it with a result. *)
Theorem parked_read_progress evs y k :
  reach pre id evs y -> reads_fit evs -> read_sink_ (st y) = Some k ->
  out k <> [] \/ read_eof_ (st y) = true \/ closed_ (st y) = true ->
  exists y' r, step (EReadWake None) y = Some y' /\
    log y' = log y ++ [ORead r] /\ read_sink_ (st y') = None /\
    (out k <> [] -> r = IoResult None (Read (length (out k)) (out k))).
Proof. apply parked_read_wakes. Qed.

(** A read never reports a clean end of body early: when reads have room for
    at least a byte and one returns [eof] (not as a cancellation code),
    END_STREAM has been received and every byte received has been delivered. *)
Theorem eof_means_complete evs e y y' v :
  reach pre id evs y -> reads_fit (evs ++ [e]) -> reads_roomy (evs ++ [e]) ->
  e <> EReadWake (Some eof) ->
  step e y = Some y' -> log y' = log y ++ [ORead (IoResult (Some eof) v)] ->
  read_eof_ (st y) = true /\ data_of evs = delivered (log y').
Proof.
  intros Hr Hf Hm He Hstep Hlog.
  destruct (read_end evs e y y' (IoResult (Some eof) v)) as (_ & Hec & Hmem & Hd); try done.
  - intros w ->. destruct (step_oread _ _ _ _ Hstep Hlog) as [(? & ? & ? & ? & _)|H]; [done|].
    destruct H as (w' & k & s & cs & [= <-] & _ & E). unfold read_some_resume in E.
    destruct (0 <? copied k); simplify_eq.
  - simpl in Hec, Hmem. unfold eof_error in Hec.
    destruct (read_eof_ (st y)); [|done]. by rewrite Hlog, delivered_snoc, Hd; simpl; rewrite Hmem, app_nil_r.
Qed.

(** C2 Nothing is lost, duplicated or reordered on the way from the writer to
    nghttp2: the bytes nghttp2 has pulled are, in order, the leading bytes each
    completed write reports as written, then those of the suspended write that
    were already taken. *)
Theorem write_integrity evs y :
  reach pre id evs y ->
  pulled (log y) = reported (log y) ++ in_transit (st y) (writer y).
Proof. intros Hr. exact (sw_bytes _ (reach_write_inv _ _ Hr)). Qed.

(** C8 The data provider callback reads a caller's buffers only while the write
    that passed them is suspended (so they are alive), and a write on offer never
    waits for a provider nghttp2 has put to sleep. *)
Theorem write_offer_safe evs y :
  reach pre id evs y -> write_pending_ (st y) = true ->
  exists a e, writer y = Some (a, e) /\ pending_ (st y) = a /\ provider_deferred y = false.
Proof.
  intros Hr Hp. destruct (sw_wr _ (reach_write_inv _ _ Hr)) as [Hd Hpd Hf _ _].
  destruct (Hpd Hp) as [[[a e] Ew] Hn]. exists a, e.
  destruct (Hf a e Ew) as (Ha & _). rewrite Hd. by repeat split.
Qed.

(** A suspended write that is off offer can be resumed. *)
Lemma served_write_wakes evs y a e :
  reach pre id evs y -> writer y = Some (a, e) -> write_pending_ (st y) = false ->
  exists y', step (EWriteWake None) y = Some y' /\ writer y' = None.
Proof.
  intros Hr Hw Hp. destruct (sw_wr _ (reach_write_inv _ _ Hr)) as [_ _ _ Hwk _].
  simpl. rewrite Hw, Hwk by (done || by rewrite Hw; eauto). by eexists.
Qed.

(** C9 No wake-up is lost on the write side: a suspended write is either on offer
    to a provider that is awake, or ready to be resumed. *)
Theorem suspended_write_progress evs y a e :
  reach pre id evs y -> writer y = Some (a, e) ->
  (write_pending_ (st y) = true /\ provider_deferred y = false) \/
  exists y', step (EWriteWake None) y = Some y' /\ writer y' = None.
Proof.
  intros Hr Hw. destruct (sw_wr _ (reach_write_inv _ _ Hr)) as [Hd Hpd _ _ _].
  destruct (write_pending_ (st y)) eqn:Hp.
  - left. split; [done|]. destruct (Hpd eq_refl) as [_ Hn]. by rewrite Hd.
  - right. by apply (served_write_wakes evs y a e).
Qed.

(** On an open stream, [write_eof] reports success only when it is true: the
    count is the size of the whole buffer sequence and nghttp2 was given the EOF
    flag. *)
Theorem write_eof_complete evs y y' a :
  reach pre id evs y -> writer y = Some (a, true) -> closed_ (st y) = false ->
  step (EWriteWake None) y = Some y' ->
  log y' = log y ++ [OWrite a true (IoResult None (length (array_bytes a)))] /\
  provider_eof y = true.
Proof.
  intros Hr Hw Hc Hstep. destruct (sw_wr _ (reach_write_inv _ _ Hr)) as [_ _ _ _ Hs].
  simpl in Hstep. rewrite Hw in Hstep.
  destruct (event_is_set (write_progress_ (st y))) eqn:Eset; [|done].
  destruct (Hs a true Hw Hc eq_refl) as [_ Hfin]. destruct (Hfin eq_refl) as [Ho Hpe].
  injection Hstep as <-. simpl. by rewrite Ho.
Qed.

(** The EOF flag is set by a pull exactly when the write on offer is a
    [write_eof] and this pull takes its last byte. *)
Theorem eof_flag_exact evs y len y' :
  reach pre id evs y -> step (EProduce len) y = Some y' ->
  provider_eof y' = true <->
  exists a, writer y = Some (a, true) /\ write_pending_ (st y) = true /\
    write_offset_ (st y') = length (array_bytes a).
Proof.
  intros Hr Hstep. pose proof (sw_wr _ (reach_write_inv _ _ Hr)) as [Hd Hpd Hf Hwk Hs].
  simpl in Hstep. destruct (provider_deferred y || provider_eof y); [done|].
  destruct (write_pending_ (st y)) eqn:Hp.
  - destruct (Hpd eq_refl) as [[[a e] Ew] _]. destruct (Hf a e Ew) as (Ha & He & _ & _).
    rewrite producer_busy in Hstep by done. cbn zeta in Hstep. injection Hstep as <-.
    assert (Ho : forall s1 : Stream, write_offset_ (if finishes len (st y) then
      s1 <| write_pending_ := false |> <| write_progress_ := event_set (write_progress_ (st y)) |>
      else s1) = write_offset_ s1) by (intros; by destruct (finishes len (st y))).
    simpl. rewrite Ho. simpl. unfold finishes. rewrite byte_size_bytes, Ha, He, Ew.
    destruct (Nat.eqb_spec (write_offset_ (st y) + length (cursor_copy len (pending_cursor_ (st y))))
      (length (array_bytes a))); destruct e; cbn [orb andb negb];
      rewrite ?has_eof_lor, ?has_eof_zero;
      (split; [first [done | intros _; by exists a] | intros (a' & [= <-] & _ & ?); done]).
  - rewrite producer_idle in Hstep by done. injection Hstep as <-. simpl.
    rewrite has_eof_zero. split; [done|]. intros (? & ? & ? & _). done.
Qed.

(** ** Draining a [write_eof] *)

(** Bytes of the write on offer nghttp2 has not taken yet. *)
Definition remaining (y : sys) (a : const_buffer_array) : nat :=
  length (array_bytes a) - write_offset_ (st y).

(** One pull either finishes the write or takes at least a byte of it. *)
Lemma pull_progress evs y a len :
  reach pre id evs y -> writer y = Some (a, true) -> write_pending_ (st y) = true ->
  provider_eof y = false -> 0 < len ->
  exists y', step (EProduce len) y = Some y' /\ writer y' = Some (a, true) /\
    ((write_pending_ (st y') = false /\ provider_eof y' = true) \/
     (write_pending_ (st y') = true /\ provider_eof y' = false /\
      0 < remaining y' a < remaining y a)).
Proof.
  intros Hr Hw Hp He Hlen. pose proof (sw_wr _ (reach_write_inv _ _ Hr)) as Hinv.
  destruct (wi_pending _ _ _ _ Hinv Hp) as [_ Hd].
  pose proof (wi_deferred _ _ _ _ Hinv) as Hd'. rewrite Hd in Hd'.
  rewrite Hw, Hd', He in Hinv.
  destruct (wi_frame _ _ _ _ Hinv a true eq_refl) as (Ha & Hfin & Hle & Hcur).
  destruct (in_transit_pull len _ _ _ Hinv) as (Hle' & _ & _).
  simpl. rewrite Hd', He. cbn [orb]. rewrite producer_busy by done. cbn zeta.
  eexists. split; [done|]. split; [done|]. simpl. rewrite Hfin, andb_true_r.
  unfold finishes, remaining. rewrite byte_size_bytes, Ha, Hfin, orb_false_r. simpl.
  set (buf := cursor_copy len (pending_cursor_ (st y))) in *.
  destruct (Nat.eqb_spec (write_offset_ (st y) + length buf) (length (array_bytes a))); simpl.
  - left. by rewrite has_eof_lor.
  - right. rewrite has_eof_zero. split; [done|]. split; [done|].
    assert (Hne : buf <> []).
    { apply cursor_copy_progress; [done|]. rewrite Hcur. intros E.
      apply (f_equal length) in E. rewrite length_drop in E. simpl in E. lia. }
    destruct buf; [done|]. simpl in *. lia.
Qed.

(** [write_eof] terminates however nghttp2 sizes its frames: if nghttp2 keeps
    asking for body bytes, each time for at least one, then within as many pulls as
    there are bytes left (one for an empty body) the write is off offer, EOF is
    signalled, and the writer can be resumed. *)
Theorem write_eof_drains evs y a lens :
  reach pre id evs y -> writer y = Some (a, true) -> write_pending_ (st y) = true ->
  provider_eof y = false -> Forall (fun l => 0 < l) lens ->
  1 `max` remaining y a <= length lens ->
  exists k y', k <= length lens /\ run (map EProduce (take k lens)) y = Some y' /\
    write_pending_ (st y') = false /\ provider_eof y' = true /\
    is_Some (step (EWriteWake None) y').
Proof.
  revert evs y; induction lens as [|len lens IH]; intros evs y Hr Hw Hp He Hl Hn.
  { simpl in Hn. lia. }
  inversion Hl as [|? ? Hlen Hl']; subst.
  destruct (pull_progress evs y a len Hr Hw Hp He Hlen) as (y1 & E & Hw1 & Hor).
  pose proof (reach_step _ _ _ _ _ _ Hr E) as Hr1.
  destruct Hor as [[Hp1 He1]|(Hp1 & He1 & Hlt)].
  - exists 1, y1. simpl take. cbn [map run]. rewrite E.
    assert (is_Some (step (EWriteWake None) y1)).
    { destruct (served_write_wakes _ _ _ _ Hr1 Hw1 Hp1) as (y2 & E2 & _). by exists y2. }
    cbn [length]. repeat split; try done. lia.
  - destruct (IH _ y1 Hr1 Hw1 Hp1 He1 Hl') as (k & y' & Hk & Hrun & Hrest).
    { simpl in Hn. lia. }
    exists (S k), y'. cbn [take map run length]. rewrite E. split; [lia|]. done.
Qed.

(** ** Every branch of [read_some] *)

(** [read_some] terminates and takes as much as both sides allow: it returns
    the first [n = min(room, buffered)] queued bytes and gives [n] bytes back to
    the stream window; with nothing to take it reports [eof] after END_STREAM,
    [stream_truncated] if the stream closed without it, and parks otherwise. *)
Theorem read_some_spec p s :
  stream_wf s ->
  let n := bp_room p `min` length (buffered s) in
  let '(s', cs, o) := read_some p s in
  (0 < n ->
     o = Done (IoResult None (Read n (take n (buffered s)))) /\
     buffered s' = drop n (buffered s) /\ stream_wf s' /\
     cs = [nghttp2_session_consume_stream (id_ s) n; start_write]) /\
  (n = 0 -> read_eof_ s = true ->
     o = Done (IoResult (Some eof) (Read 0 [])) /\ s' = s /\ cs = []) /\
  (n = 0 -> read_eof_ s = false -> closed_ s = true ->
     o = Done (IoResult (Some stream_truncated) (Read 0 [])) /\ s' = s /\ cs = []) /\
  (n = 0 -> read_eof_ s = false -> closed_ s = false ->
     o = Suspended /\ read_sink_ s' = Some (mkSink p 0 []) /\
     event_is_set (read_ready_ s') = false /\ buffered s' = buffered s /\ cs = []).
Proof.
  intros Hwf. fold (available p s). cbn zeta.
  destruct (decide (available p s = 0)) as [H0|H0].
  - rewrite read_some_empty by done. unfold eof_error.
    destruct (read_eof_ s) eqn:Ee, (closed_ s) eqn:Ec; simpl;
      (split; [lia|]); repeat split; try done; intros; congruence || apply event_clear_is_set.
  - destruct (read_some_data p s Hwf) as (ch & fr & -> & Hw & Hb); [lia|].
    split; [done|]. repeat split; lia.
Qed.

(** ** Status *)

(** A status that fits an [int] reaches the client: after [set_status(n)] a call
    of [status()] returns [n] at once, and a suspended one is ready and returns it. *)
Theorem status_delivery y n :
  (Z.of_N n <= INT_MAX)%Z ->
  let y1 := y <| st := set_status n (st y) |> in
  let res y2 := log y2 = log y ++ [OStatus (IoResult None n)] /\ status_waiter y2 = false in
  (status_waiter y = false -> exists y2, step EStatus y1 = Some y2 /\ res y2) /\
  (status_waiter y = true -> exists y2, step (EStatusWake None) y1 = Some y2 /\ res y2).
Proof.
  intros Hn. cbn zeta. unfold INT_MAX in *.
  assert (Hlt : (int_of_uint n <? 0)%Z = false)
    by (rewrite int_of_uint_small by done; lia).
  assert (Hv : uint_of_int (int_of_uint n) = n).
  { rewrite int_of_uint_small by done. rewrite uint_of_int_small by (unfold INT_MAX; lia). lia. }
  split; intros Hw; simpl; rewrite Hw; simpl.
  - unfold status. simpl. rewrite Hlt, Hv. by eexists.
  - rewrite event_set_is_set. simpl. rewrite Hlt, Hv. by eexists.
Qed.

(** Only the arrival of a status and the close of the stream set [status_ready_]. *)
Definition no_status_wake (e : sev) : Prop :=
  match e with ESetStatus _ | EClose | EStatusWake (Some _) => False | _ => True end.

Lemma status_quiet e y y' :
  no_status_wake e -> step e y = Some y' ->
  status_waiter y = true -> event_is_set (status_ready_ (st y)) = false ->
  status_waiter y' = true /\ event_is_set (status_ready_ (st y')) = false.
Proof.
  intros He Hstep Hw Hset.
  destruct e as [m|d| | |p|w|a fin|w|len|n| |w]; simpl in He, Hstep; try done;
    unfold note, on_data, read_some, read_some_resume, write_impl, producer_callback in Hstep;
    rewrite ?Hw, ?Hset in Hstep; break; simplify_eq; try done.
  destruct m; done.
Qed.

(** [status()] on a stream that is already closed without a status never
    returns: it clears the event the close had set, so that, short of another
    status or close (which a stream taken out of the session no longer gets) or
    cancellation, no sequence of turns lets its [wait()] complete. *)
Theorem status_after_close_hangs y :
  closed_ (st y) = true -> (status_ (st y) < 0)%Z -> status_waiter y = false ->
  exists y1, step EStatus y = Some y1 /\ status_waiter y1 = true /\
    forall evs y2, Forall no_status_wake evs -> run evs y1 = Some y2 ->
      status_waiter y2 = true /\ step (EStatusWake None) y2 = None.
Proof.
  intros _ Hneg Hw. simpl. rewrite Hw. unfold status.
  destruct (Z.ltb_spec (status_ (st y)) 0); [|lia].
  eexists. split; [done|]. split; [done|]. intros evs y2 Hq.
  match goal with |- run _ ?y1 = _ -> _ => set (y1' := y1) end.
  assert (H1 : status_waiter y1' = true) by done.
  assert (H2 : event_is_set (status_ready_ (st y1')) = false) by apply event_clear_is_set.
  clearbody y1'. revert y1' H1 H2.
  induction Hq as [|e evs He _ IH]; intros y1 H1 H2 Hrun; simpl in Hrun.
  - injection Hrun as <-. split; [done|]. simpl. by rewrite H1, H2.
  - destruct (step e y1) as [y3|] eqn:E; [|done].
    destruct (status_quiet e y1 y3 He E H1 H2). by apply (IH y3).
Qed.

(** C39 A [write_eof] that is still on offer when the stream closes completes
    without an error although nothing was sent: zero bytes are reported, no error
    code, and nghttp2 was not given the EOF flag. *)
Theorem write_eof_lost_on_close y a :
  writer y = None -> closed_ (st y) = false -> provider_eof y = false ->
  exists y', run [EWrite a true; EClose; EWriteWake None] y = Some y' /\
    log y' = log y ++ [OWrite a true (IoResult None 0)] /\ provider_eof y' = false.
Proof.
  intros Hw Hc He. simpl. rewrite Hw. unfold write_impl. rewrite Hc. simpl.
  rewrite event_set_is_set. eexists. split; [done|]. done.
Qed.

(** A read without room, once END_STREAM has arrived, is told [eof] although bytes are
    still queued, and leaves them there. *)
Lemma empty_read_ends p (s : Stream) :
  bp_empty p = true -> read_eof_ s = true ->
  exists s', read_some p s = (s', [], Done (IoResult (Some eof) (Read 0 []))) /\ chunks_ s' = chunks_ s.
Proof.
  intros Hp He. unfold read_some, drain_fuel. cbn [Stream.drain].
  destruct (chunks_ s) as [|chunk rest] eqn:Ec; cbn [d_chunks d_bp]; rewrite ?Hp; simpl; unfold eof_error;
    simpl; rewrite He; eexists; by split.
Qed.

(** An open stream with nothing queued parks its reader. *)
Lemma read_parks y p :
  read_sink_ (st y) = None -> chunks_ (st y) = [] ->
  read_eof_ (st y) = false -> closed_ (st y) = false ->
  exists y', step (ERead p) y = Some y' /\ read_sink_ (st y') = Some (mkSink p 0 []) /\
    chunks_ (st y') = [] /\ front_offset_ (st y') = front_offset_ (st y) /\ log y' = log y.
Proof.
  intros Hk Hc He Hcl. cbn [step]. rewrite Hk. unfold read_some. rewrite Hc. simpl.
  rewrite He, Hcl. by eexists.
Qed.

(** What [on_data] does for a parked read. *)
Lemma on_data_parked k d s :
  read_sink_ s = Some k ->
  read_sink_ (on_data d s) = Some (put k d).2 /\
  concat (chunks_ (on_data d s)) = concat (chunks_ s) ++ drop (put k d).1 d /\
  front_offset_ (on_data d s) = front_offset_ s /\
  event_is_set (read_ready_ (on_data d s)) = true.
Proof.
  intros Hk. unfold on_data. rewrite Hk. simpl.
  destruct (Nat.eqb_spec (length (drop (bp_copy (bp k) d) d)) 0) as [E|_]; simpl;
    rewrite event_set_is_set.
  - by rewrite (nil_length_inv _ E), app_nil_r.
  - by rewrite concat_app; simpl; rewrite app_nil_r.
Qed.

(** C38 A destination seen through more than one window reorders a body: when a read
    is parked on it, and two chunks arrive before it resumes, of which the first does
    not fit the first window, the second chunk is copied into the next window, ahead
    of the rest of the first one, which is queued. *)
Theorem read_reorders_windows y p d1 d2 :
  read_sink_ (st y) = None -> chunks_ (st y) = [] -> front_offset_ (st y) = 0 ->
  read_eof_ (st y) = false -> closed_ (st y) = false ->
  let n1 := bp_copy p d1 in
  let n2 := bp_copy (bp_consume p n1) d2 in
  n1 < length d1 -> 0 < n2 ->
  exists y', run [ERead p; EData d1; EData d2; EReadWake None] y = Some y' /\
    delivered (log y') = delivered (log y) ++ take n1 d1 ++ take n2 d2 /\
    buffered (st y') = drop n1 d1 ++ drop n2 d2.
Proof.
  intros Hk Hc Hf He Hcl n1 n2 H1 H2.
  destruct (read_parks y p Hk Hc He Hcl) as (y1 & Hy1 & Hk1 & Hc1 & Hf1 & Hl1).
  destruct (on_data_parked _ d1 _ Hk1) as (Hk2 & Hc2 & Hf2 & _).
  destruct (on_data_parked _ d2 _ Hk2) as (Hk3 & Hc3 & Hf3 & Hr3).
  cbn [run]. rewrite Hy1. simpl. rewrite Hk3, Hr3.
  unfold read_some_resume. simpl. fold n1. change (bp_copy (bp_consume p n1) d2) with n2.
  destruct (Nat.ltb_spec 0 (n1 + n2)); [|lia]. eexists. split; [done|]. simpl.
  rewrite delivered_snoc, Hl1. split; [done|].
  unfold buffered. cbn [chunks_ front_offset_ set]. simpl.
  rewrite Hc3, Hf3, Hc2, Hf2, Hc1, Hf1, Hf. done.
Qed.

End StreamProps.

(** ** Concrete runs *)

Module StreamDemo.
#[local] Existing Instance capy_ref.
#[local] Existing Instance ng_ref.

Definition pre (_ : Z) : string := "server.1".
Definition new : sys := sys_new pre 1.
Definition after (evs : list sev) : sys := default new (run evs new).

(** A read parks, is served partly from two chunks, the rest is queued, read, and
    the body ends. *)
Definition reading : list sev :=
  [ERead (dest [4; 1]); EData (bytes_of "abc"); EData (bytes_of "defg");
   EReadWake None; EReadEof].

(** The same, with the read still parked. *)
Definition parked : list sev := [ERead (dest [4]); EData (bytes_of "abc")].

(** A provider goes to sleep, is woken by a [write_eof] of two buffers, and takes
    two bytes. *)
Definition body : const_buffer_array := array_of [bytes_of "ab"; bytes_of "cde"].
Definition writing : list sev := [EProduce 10; EWrite body true; EProduce 2].
Definition written : list sev := writing ++ [EProduce 100].

Lemma reach_after evs :
  match run evs new with Some _ => true | None => false end = true ->
  reach pre 1 evs (after evs).
Proof. intros H. apply run_reach. unfold after, new in *. by destruct (run evs _). Qed.

Lemma fit_reading : reads_fit reading.
Proof. repeat constructor. Qed.

Lemma fit_parked : reads_fit parked.
Proof. repeat constructor. Qed.

Lemma read_fifo_witness :
  data_of reading = delivered (log (after reading)) ++ in_sink (st (after reading))
                    ++ buffered (st (after reading)) /\
  data_of reading = bytes_of "abcdefg" /\ buffered (st (after reading)) = bytes_of "fg".
Proof.
  split; [|by vm_compute].
  apply (read_fifo pre 1 reading); [by apply reach_after | exact fit_reading].
Defined.

Lemma read_replenishes_window_witness :
  stream_consumed (calls (after reading)) = length (delivered (log (after reading))) /\
  stream_consumed (calls (after reading)) = 5.
Proof.
  split; [|by vm_compute].
  apply (read_replenishes_window pre 1 reading); [by apply reach_after | exact fit_reading].
Defined.

Lemma parked_read_progress_witness :
  exists k y' r, read_sink_ (st (after parked)) = Some k /\
    step (EReadWake None) (after parked) = Some y' /\
    log y' = log (after parked) ++ [ORead r] /\ read_sink_ (st y') = None /\
    (out k <> [] -> r = IoResult None (Read (length (out k)) (out k))).
Proof.
  eexists. edestruct (parked_read_progress pre 1 parked (after parked)) as (y' & r & H);
    [by apply reach_after | exact fit_parked | by vm_compute | left; by vm_compute |].
  exists y', r. split; [by vm_compute | exact H].
Defined.

Lemma eof_means_complete_witness :
  exists y', step (ERead (dest [8])) (after (reading ++ [ERead (dest [8])])) = Some y' /\
    read_eof_ (st (after (reading ++ [ERead (dest [8])]))) = true /\
    data_of (reading ++ [ERead (dest [8])]) = delivered (log y').
Proof.
  eexists. split; [by vm_compute|].
  eapply (eof_means_complete pre 1 (reading ++ [ERead (dest [8])]) (ERead (dest [8])));
    [by apply reach_after | by repeat constructor | by repeat (constructor; try (vm_compute; lia))
    | done | by vm_compute | by vm_compute].
Defined.

Lemma write_integrity_witness :
  pulled (log (after writing))
  = reported (log (after writing)) ++ in_transit (st (after writing)) (writer (after writing)) /\
  pulled (log (after writing)) = bytes_of "ab".
Proof.
  split; [|by vm_compute]. apply (write_integrity pre 1 writing). by apply reach_after.
Defined.

Lemma write_offer_safe_witness :
  exists a e, writer (after writing) = Some (a, e) /\ pending_ (st (after writing)) = a /\
    provider_deferred (after writing) = false.
Proof.
  apply (write_offer_safe pre 1 writing); [by apply reach_after | by vm_compute].
Defined.

Lemma suspended_write_progress_witness :
  (write_pending_ (st (after written)) = true /\ provider_deferred (after written) = false) \/
  exists y', step (EWriteWake None) (after written) = Some y' /\ writer y' = None.
Proof.
  apply (suspended_write_progress pre 1 written (after written) body true);
    [by apply reach_after | by vm_compute].
Defined.

Lemma write_eof_complete_witness :
  exists y', step (EWriteWake None) (after written) = Some y' /\
    log y' = log (after written) ++ [OWrite body true (IoResult None 5)] /\
    provider_eof (after written) = true.
Proof.
  eexists. split; [by vm_compute|].
  apply (write_eof_complete pre 1 written (after written) _ body);
    [by apply reach_after | by vm_compute | by vm_compute | by vm_compute].
Defined.

Lemma eof_flag_exact_witness :
  exists y', step (EProduce 100) (after writing) = Some y' /\
  (provider_eof y' = true <->
   exists a, writer (after writing) = Some (a, true) /\
     write_pending_ (st (after writing)) = true /\
     write_offset_ (st y') = length (array_bytes a)).
Proof.
  eexists. split; [by vm_compute|].
  eapply (eof_flag_exact pre 1 writing (after writing) 100); [by apply reach_after | by vm_compute].
Defined.

Lemma write_eof_drains_witness :
  exists k y', k <= 3 /\ run (map EProduce (take k [1; 1; 1])) (after writing) = Some y' /\
    write_pending_ (st y') = false /\ provider_eof y' = true /\
    is_Some (step (EWriteWake None) y').
Proof.
  apply (write_eof_drains pre 1 writing (after writing) body [1; 1; 1]);
    [by apply reach_after | by vm_compute | by vm_compute | by vm_compute
    | by repeat constructor | vm_compute; lia].
Defined.

Lemma read_some_spec_witness :
  let s := st (after [EData (bytes_of "abc"); EData (bytes_of "de")]) in
  let p := dest [4] in
  stream_wf s /\
  (let n := bp_room p `min` length (buffered s) in
   let '(s', cs, o) := read_some p s in
   0 < n -> o = Done (IoResult None (Read n (take n (buffered s)))) /\
     buffered s' = drop n (buffered s)).
Proof.
  cbn zeta. assert (Hwf : stream_wf (st (after [EData (bytes_of "abc"); EData (bytes_of "de")]))).
  { split; vm_compute; [by repeat constructor | lia]. }
  split; [exact Hwf|].
  pose proof (read_some_spec (dest [4]) _ Hwf) as H. cbn zeta in H.
  destruct (read_some _ _) as [[s' cs] o]. destruct H as [H _].
  intros Hn. destruct (H Hn) as (? & ? & _). done.
Defined.

Lemma status_delivery_witness :
  exists y2, step EStatus (new <| st := set_status 404 (st new) |>) = Some y2 /\
    log y2 = [OStatus (IoResult None 404%N)].
Proof.
  destruct (status_delivery new 404) as [H _]; [by vm_compute|].
  destruct (H eq_refl) as (y2 & E & Hl & _). exists y2. split; [exact E | exact Hl].
Defined.

Lemma status_after_close_hangs_witness :
  exists y1, step EStatus (after [EClose]) = Some y1 /\ status_waiter y1 = true /\
    forall evs y2, Forall no_status_wake evs -> run evs y1 = Some y2 ->
      status_waiter y2 = true /\ step (EStatusWake None) y2 = None.
Proof.
  apply (status_after_close_hangs (after [EClose])); by vm_compute.
Defined.

Lemma write_eof_lost_on_close_witness :
  exists y', run [EWrite body true; EClose; EWriteWake None] new = Some y' /\
    log y' = [OWrite body true (IoResult None 0)] /\ provider_eof y' = false.
Proof.
  apply (write_eof_lost_on_close new body); by vm_compute.
Defined.

(** Seventeen one-byte buffers: one more than a window has. *)
Lemma read_reorders_windows_witness :
  exists y', run [ERead (dest (repeat 1 17)); EData (bytes_of "abcdefghijklmnopq"); EData (bytes_of "r");
                  EReadWake None] new = Some y' /\
    delivered (log y') = bytes_of "abcdefghijklmnopr" /\ buffered (st y') = bytes_of "q".
Proof.
  apply (read_reorders_windows new (dest (repeat 1 17)) (bytes_of "abcdefghijklmnopq") (bytes_of "r"));
    try done; vm_compute; lia.
Defined.

End StreamDemo.
