(* ===== verification/Session.v ===== *)
(** * Session::Impl: the streams of one connection

    [Session::Impl] of src/session_impl.hpp and src/session.cpp without its two
    I/O loops: the stream table, the nghttp2 callbacks, and the submission of
    requests and responses.

    [Stream] objects are shared (the table, readers, writers and nghttp2's data
    provider all point to one), so they live in a [heap] and are referred to by
    address; an object carries the coroutine frames suspended on it
    ([StreamSys.sys]). *)

From S2P Require Import Prelude Capy Nghttp2 Charconv Stream StreamWrite StreamSys.
From Stdlib Require Import Ascii.

(** [Session::Impl::Role]. *)
Inductive Role := server | client.

#[export] Instance Role_eq_dec : EqDecision Role.
Proof. solve_decision. Defined.

(** Addresses of [Stream] objects. *)
Abbreviation addr := nat (only parsing).

(** ANSI escape sequence introducer, ["\x1b["]. *)
Definition csi : string := String (ascii_of_nat 27) "[".

Section Session.
Context {C : CapyOps} {G : NgConsts}.

(** ** State *)

Record Session := mkSession {
  role_ : Role;
  handler_set : bool;                 (* whether handler_ holds a function *)
  session_prefix_ : string;           (* log_prefix_ *)
  write_ready_ : async_event;
  streams_ : gmap Z addr;
  request_counter_ : N;
  heap : gmap addr sys;
  next_addr : addr;
  spawned : list addr;                (* handle_request(stream) tasks spawned *)
  ng_calls : list call;               (* calls into nghttp2, oldest first *)
}.

#[export] Instance session_eta : Eta Session := {| eta := fun x =>
  mkSession (role_ x) (handler_set x) (session_prefix_ x) (write_ready_ x) (streams_ x)
    (request_counter_ x) (heap x) (next_addr x) (spawned x) (ng_calls x) |}.

(** The constructor. *)
Definition Session_new (role : Role) (handler : bool) : Session :=
  {| role_ := role; handler_set := handler;
     session_prefix_ :=
       match role with
       | server => csi +:+ "1;31mserver" +:+ csi +:+ "0m"
       | client => csi +:+ "1;32mclient" +:+ csi +:+ "0m"
       end;
     write_ready_ := event_new; streams_ := ∅; request_counter_ := 0;
     heap := ∅; next_addr := 0; spawned := []; ng_calls := [] |}.

(** [log_prefix(stream_id)]. *)
Definition log_prefix (x : Session) (stream_id : Z) : string :=
  if (stream_id =? 0)%Z then session_prefix_ x
  else session_prefix_ x +:+ "." +:+ int_to_string stream_id.

(** ** Effects *)

(** [start_write()]. *)
Definition do_start_write (x : Session) : Session :=
  x <| write_ready_ := event_set (write_ready_ x) |>.

(** Carries out a call: [start_write] is the session's own, the others go to
    nghttp2. *)
Definition perform (x : Session) (c : call) : Session :=
  match c with
  | start_write => do_start_write x
  | _ => x <| ng_calls := ng_calls x ++ [c] |>
  end.

Definition perform_all (x : Session) (cs : list call) : Session := foldl perform x cs.

(** Applies a member function to the stream at [a]. *)
Definition upd (f : Stream -> Stream) (a : addr) (x : Session) : Session :=
  x <| heap := alter (fun y => y <| st := f (st y) |>) a (heap x) |>.

(** [std::make_shared<Stream>(shared_from_this(), id)]. *)
Definition new_stream (id : Z) (x : Session) : addr * Session :=
  (next_addr x,
   x <| heap := <[next_addr x := sys_new (log_prefix x) id]> (heap x) |>
     <| next_addr := S (next_addr x) |>).

(** [streams_.emplace(id, stream)]: no effect when the key is taken. *)
Definition emplace (id : Z) (a : addr) (x : Session) : Session :=
  match streams_ x !! id with
  | Some _ => x
  | None => x <| streams_ := <[id := a]> (streams_ x) |>
  end.

(** ** The stream table *)

Definition create_stream (id : Z) (x : Session) : addr * Session :=
  let '(a, x) := new_stream id x in
  let x := emplace id a x in
  (a, x <| request_counter_ := (request_counter_ x + 1) mod (SIZE_MAX + 1) |>%N).

Definition find_stream (id : Z) (x : Session) : option addr := streams_ x !! id.

Definition close_stream (id : Z) (x : Session) : Session :=
  match streams_ x !! id with
  | None => x
  | Some a => (upd on_close a x) <| streams_ := delete id (streams_ x) |>
  end.

Definition dispatch_request (a : addr) (x : Session) : Session :=
  x <| spawned := spawned x ++ [a] |>.

(** ** nghttp2 callbacks *)

Definition is_request_headers (f : frame) : bool :=
  bool_decide (hd_type f = NGHTTP2_HEADERS) && bool_decide (cat f = NGHTTP2_HCAT_REQUEST).

Definition on_begin_headers_callback (f : frame) (x : Session) : Session :=
  if is_request_headers f then (create_stream (hd_stream_id f) x).2 else x.

(** [name_sv.starts_with(':')]. *)
Definition is_pseudo (name : string) : bool :=
  match name with String c _ => Ascii.eqb c ":" | EmptyString => false end.

(** Applies [f] to the stream with this id, if there is one. *)
Definition with_stream (id : Z) (f : Stream -> Stream) (x : Session) : Session :=
  match find_stream id x with Some a => upd f a x | None => x end.

Definition on_header_callback (f : frame) (name value : string) (x : Session) : Session :=
  let id := hd_stream_id f in
  if bool_decide (name = ":path") then with_stream id (set_path value) x
  else if bool_decide (name = ":status") then
    let r := from_chars UINT_MAX value in
    let status := default 0%N (fc_value r) in
    with_stream id (set_status status) x
  else if is_pseudo name then x
  else
    let x :=
      if bool_decide (name = "content-length") then
        let r := from_chars SIZE_MAX value in
        match fc_ec r, fc_value r with
        | None, Some content_length =>
            if fc_ptr r =? String.length value
            then with_stream id (set_content_length content_length) x
            else x
        | _, _ => x
        end
      else x in
    with_stream id (add_header name value) x.

Definition end_stream (f : frame) : bool :=
  (bool_decide (hd_type f = NGHTTP2_HEADERS) || bool_decide (hd_type f = NGHTTP2_DATA)) &&
  negb (Z.land (hd_flags f) NGHTTP2_FLAG_END_STREAM =? 0)%Z.

Definition on_frame_recv_callback (f : frame) (x : Session) : Session :=
  let x :=
    if is_request_headers f then
      match find_stream (hd_stream_id f) x with
      | Some a => dispatch_request a x
      | None => x
      end
    else x in
  if end_stream f then with_stream (hd_stream_id f) on_read_eof x else x.

Definition on_data_chunk_recv_callback (id : Z) (data : bytes) (x : Session) : Session :=
  let x := perform x (nghttp2_session_consume_connection (length data)) in
  with_stream id (on_data data) x.

Definition on_stream_close_callback (id : Z) (x : Session) : Session := close_stream id x.

(** ** Requests and responses *)

(** The header block of a response. *)
Definition response_nva (status : N) (headers : Headers) : list nv :=
  (":status", to_string status) :: headers.

(** [submit_response]; [rv] is what [nghttp2_submit_response2] returns. *)
Definition submit_response (a : addr) (status : N) (headers : Headers) (rv : Z)
  (x : Session) : io_result unit * Session :=
  let id := match heap x !! a with Some y => id_ (st y) | None => 0%Z end in
  let x := perform x (nghttp2_submit_response2 id (response_nva status headers) a) in
  if negb (rv =? 0)%Z then (IoResult (Some invalid_argument) (), x)
  else (IoResult None (), do_start_write x).

(** The header block of a request. *)
Definition request_nva (path : string) (content_length : option N) (headers : Headers)
  : list nv :=
  [(":method", "POST"); (":scheme", "http"); (":path", path); (":authority", "localhost")]
  ++ match content_length with
     | Some n => [("content-length", to_string n)]
     | None => []
     end
  ++ headers.

(** [submit_request]; [ret] is what [nghttp2_submit_request2] returns (a stream id
    or a negative error code).  A [ClientRequest] is bound to the stream at the
    address returned. *)
Definition submit_request (path : string) (content_length : option N) (headers : Headers)
  (ret : Z) (x : Session) : io_result (option addr) * Session :=
  match role_ x with
  | server => (IoResult (Some operation_not_permitted) None, x)
  | client =>
      let '(a, x) := new_stream 0 x in
      let x := perform x (nghttp2_submit_request2 (request_nva path content_length headers) a) in
      if (ret <? 0)%Z
      then (IoResult (Some invalid_argument) None, x <| heap := delete a (heap x) |>)
      else
        let x := upd (set_id (log_prefix x) ret) a x in
        let x := emplace ret a x in
        (IoResult None (Some a), do_start_write x)
  end.

(** ** The end of [run()] *)

(** [for (auto& [id, stream] : std::exchange(streams_, {})) stream->on_close();] *)
Definition close_all (x : Session) : Session :=
  foldr (upd on_close) (x <| streams_ := ∅ |>) (map_to_list (streams_ x)).*2.

End Session.
