(* ===== verification/SessionSys.v ===== *)
(** * A session under arbitrary interleaving

    nghttp2's callbacks, the turns of the coroutines suspended on its streams,
    and the submission of requests and responses, in any order; the invariant of
    the stream table; and the lifting of the stream-level results: every stream of
    a session behaves like the stream of StreamSys. *)

From S2P Require Import Prelude Capy Nghttp2 Charconv Stream StreamRead StreamWrite.
From S2P Require Import StreamSys Session.

Section SessionSys.
Context {C : CapyOps} {G : NgConsts}.

(** ** Turns *)

Inductive xev :=
| XBeginHeaders (f : frame)
| XHeader (f : frame) (name value : string)
| XFrameRecv (f : frame)
| XDataChunk (id : Z) (data : bytes)
| XStreamClose (id : Z)
| XTurn (a : addr) (e : sev)
| XSubmitRequest (path : string) (content_length : option N) (headers : Headers) (ret : Z)
| XSubmitResponse (a : addr) (status : N) (headers : Headers) (rv : Z)
| XStartWrite                 (* recv_loop calls start_write() *)
| XClearReady                 (* send_loop calls write_ready_.clear() *)
| XEnd.

(** Turns of the coroutines on a stream and of nghttp2's data provider, which
    holds the address of the stream. *)
Definition is_turn (e : sev) : bool :=
  match e with
  | ERead _ | EReadWake _ | EWrite _ _ | EWriteWake _ | EProduce _
  | EStatus | EStatusWake _ => true
  | _ => false
  end.

Definition xstep (e : xev) (x : Session) : option Session :=
  match e with
  | XBeginHeaders f => Some (on_begin_headers_callback f x)
  | XHeader f name value => Some (on_header_callback f name value x)
  | XFrameRecv f => Some (on_frame_recv_callback f x)
  | XDataChunk id data => Some (on_data_chunk_recv_callback id data x)
  | XStreamClose id => Some (on_stream_close_callback id x)
  | XTurn a e =>
      if is_turn e then
        match heap x !! a with
        | Some y =>
            match step e y with
            | Some y' =>
                Some (perform_all (x <| heap := <[a := y']> (heap x) |>)
                        (drop (length (calls y)) (calls y')))
            | None => None
            end
        | None => None
        end
      else None
  | XSubmitRequest path n hs ret => Some (submit_request path n hs ret x).2
  | XSubmitResponse a status hs rv => Some (submit_response a status hs rv x).2
  | XStartWrite => Some (do_start_write x)
  | XClearReady => Some (x <| write_ready_ := event_clear (write_ready_ x) |>)
  | XEnd => Some (close_all x)
  end.

Fixpoint xrun (evs : list xev) (x : Session) : option Session :=
  match evs with
  | [] => Some x
  | e :: evs => match xstep e x with Some x => xrun evs x | None => None end
  end.

(** The body bytes nghttp2 delivered for the stream at [a]. *)
Definition routed (e : xev) (x : Session) (a : addr) : bytes :=
  match e with
  | XDataChunk id data => if bool_decide (find_stream id x = Some a) then data else []
  | _ => []
  end.

(** Reachable sessions, with the body bytes routed to each stream so far. *)
Inductive xreach (role : Role) (handler : bool)
  : list xev -> (addr -> bytes) -> Session -> Prop :=
| xreach_new : xreach role handler [] (fun _ => []) (Session_new role handler)
| xreach_step evs r x e x' :
    xreach role handler evs r x -> xstep e x = Some x' ->
    xreach role handler (evs ++ [e]) (fun a => r a ++ routed e x a) x'.

(** ** The session operations as turns of its streams *)

(** [y] becomes [y'] by turns of its own that bring in the bytes [d]. *)
Definition evolves (y y' : sys) (d : bytes) : Prop :=
  exists es, run es y = Some y' /\ data_of es = d /\ reads_fit es.

Lemma run_app es es' y :
  run (es ++ es') y = match run es y with Some y => run es' y | None => None end.
Proof.
  revert y; induction es as [|e es IH]; intros y; simpl; [done|].
  destruct (step e y); [apply IH | done].
Qed.

Lemma evolves_refl y : evolves y y [].
Proof. exists []. repeat split; constructor. Qed.

Lemma evolves_trans y1 y2 y3 d d' :
  evolves y1 y2 d -> evolves y2 y3 d' -> evolves y1 y3 (d ++ d').
Proof.
  intros (es & H1 & <- & F1) (es' & H2 & <- & F2). exists (es ++ es').
  rewrite run_app, H1. split; [done|]. split; [|by apply Forall_app].
  unfold data_of. by rewrite map_app, concat_app.
Qed.

Lemma evolves_step e y y' :
  step e y = Some y' -> (forall p, e = ERead p -> bp_one_window p = true) ->
  evolves y y' (data_of [e]).
Proof.
  intros H Hp. exists [e]. simpl. rewrite H. repeat split. constructor; [|constructor].
  destruct e; try done. by apply Hp.
Qed.

(** The member functions callbacks apply to a stream, as its own turns. *)
Inductive member : (Stream -> Stream) -> sev -> Prop :=
| member_meta m : member (apply_meta m) (EMeta m)
| member_status n : member (set_status n) (ESetStatus n)
| member_data d : member (on_data d) (EData d)
| member_eof : member on_read_eof EReadEof
| member_close : member on_close EClose.

Lemma member_evolves f e y :
  member f e -> evolves y (y <| st := f (st y) |>) (data_of [e]).
Proof. destruct 1; apply evolves_step; (done || by intros ? [=]). Qed.

Lemma lookup_upd f a x a' :
  heap (upd f a x) !! a' =
  if decide (a = a') then (fun y => y <| st := f (st y) |>) <$> heap x !! a' else heap x !! a'.
Proof.
  unfold upd; simpl. case_decide; [subst; apply lookup_alter_eq | by apply lookup_alter_ne].
Qed.

Lemma perform_frame c x :
  heap (perform x c) = heap x /\ streams_ (perform x c) = streams_ x /\
  next_addr (perform x c) = next_addr x.
Proof. by destruct c. Qed.

Lemma perform_all_frame cs x :
  heap (perform_all x cs) = heap x /\ streams_ (perform_all x cs) = streams_ x /\
  next_addr (perform_all x cs) = next_addr x.
Proof.
  revert x; induction cs as [|c cs IH]; intros x; simpl; [done|].
  destruct (IH (perform x c)) as (-> & -> & ->). apply perform_frame.
Qed.

(** What identifies a stream to the table. *)
Definition open_as (id : Z) (s : Stream) : Prop := id_ s = id /\ closed_ s = false.

Lemma step_turn_open e y y' id :
  is_turn e = true -> step e y = Some y' -> open_as id (st y) -> open_as id (st y').
Proof.
  unfold open_as. intros He H [Hi Hc].
  destruct e; try done; simpl in H;
    unfold note, read_some, read_some_resume, write_impl, producer_callback, status in H;
    break; simplify_eq; done.
Qed.

(** ** The invariant of a session *)

Record xinv (r : addr -> bytes) (x : Session) : Prop := {
  xi_fresh a : next_addr x <= a -> heap x !! a = None /\ r a = [];
  xi_table id a : streams_ x !! id = Some a ->
    a < next_addr x /\ exists y, heap x !! a = Some y /\ open_as id (st y);
  xi_object a y : heap x !! a = Some y -> exists pre id, evolves (sys_new pre id) y (r a);
}.

Lemma xinv_new role handler : xinv (fun _ => []) (Session_new role handler).
Proof. split; simpl; intros *; rewrite ?lookup_empty; done. Qed.

Lemma xinv_same r r' x x' :
  heap x' = heap x -> streams_ x' = streams_ x -> next_addr x' = next_addr x ->
  (forall a, r' a = r a) -> xinv r x -> xinv r' x'.
Proof.
  intros E1 E2 E3 Er [Hf Ht Ho].
  split; intros *; rewrite ?E1, ?E2, ?E3, ?Er; eauto.
Qed.

Lemma xinv_upd r r' f e a x y :
  member f e -> heap x !! a = Some y ->
  (forall id, open_as id (st y) -> streams_ x !! id = Some a -> open_as id (f (st y))) ->
  (forall a', r' a' = r a' ++ if decide (a = a') then data_of [e] else []) ->
  xinv r x -> xinv r' (upd f a x).
Proof.
  intros Hm Hy Hk Hr [Hf Ht Ho]. split.
  - intros a' Hle. destruct (Hf a' Hle) as [Hn Hr']. rewrite lookup_upd, Hr, Hr', Hn.
    case_decide; [congruence | done].
  - intros id a' Hs. destruct (Ht id a' Hs) as (Hlt & y' & Hy' & Hop). split; [done|].
    rewrite lookup_upd. case_decide; [|by exists y'].
    subst. rewrite Hy. simpl. eexists. split; [done|].
    assert (y' = y) as -> by congruence. by apply Hk.
  - intros a' y'. rewrite lookup_upd, Hr. case_decide; [subst|].
    + rewrite Hy. intros [= <-]. destruct (Ho a' y Hy) as (pre & id & Hev).
      exists pre, id. eapply evolves_trans; [done | by apply member_evolves].
    + rewrite app_nil_r. apply Ho.
Qed.

Lemma xinv_new_stream r id x : xinv r x -> xinv r (new_stream id x).2.
Proof.
  intros [Hf Ht Ho]. split; simpl; intros *.
  - intros Hle. rewrite lookup_insert_ne by (simpl in *; lia). apply Hf. simpl in *; lia.
  - intros Hs. destruct (Ht _ _ Hs) as (? & y & ? & ?). split; [lia|].
    exists y. by rewrite lookup_insert_ne by lia.
  - destruct (decide (next_addr x = a)) as [<-|Hne].
    + rewrite lookup_insert_eq. intros [= <-]. destruct (Hf (next_addr x)) as [_ ->]; [lia|].
      eauto using evolves_refl.
    + rewrite lookup_insert_ne by done. apply Ho.
Qed.

Lemma xinv_emplace r id a x y :
  heap x !! a = Some y -> open_as id (st y) -> xinv r x -> xinv r (emplace id a x).
Proof.
  intros Hy Hop [Hf Ht Ho]. unfold emplace. destruct (streams_ x !! id) eqn:E; [by split|].
  split; simpl; try done. intros id' a'. destruct (decide (id = id')) as [<-|Hne].
  - rewrite lookup_insert_eq. intros [= <-]. split; [|by exists y].
    destruct (Nat.lt_ge_cases a (next_addr x)) as [|Hge]; [done|].
    destruct (Hf a Hge). congruence.
  - rewrite lookup_insert_ne by done. apply Ht.
Qed.

(** Forgetting table entries. *)
Lemma xinv_shrink r x m : m ⊆ streams_ x -> xinv r x -> xinv r (x <| streams_ := m |>).
Proof.
  intros Hm [Hf Ht Ho]. split; simpl; try done. intros id a H.
  apply Ht. by apply (lookup_weaken m).
Qed.

(** Releasing an object the table does not hold. *)
Lemma xinv_release r x a :
  (forall id, streams_ x !! id <> Some a) -> xinv r x ->
  xinv r (x <| heap := delete a (heap x) |>).
Proof.
  intros Hn [Hf Ht Ho]. split; simpl; intros *.
  - intros Hle. destruct (Hf _ Hle). by rewrite lookup_delete_None; auto.
  - intros Hs. destruct (Ht _ _ Hs) as (? & y & ? & ?). split; [done|]. exists y.
    rewrite lookup_delete_ne by (intros ->; by apply (Hn id)). done.
  - intros H. apply lookup_delete_Some in H as [_ H]. by apply Ho.
Qed.

(** A coroutine's turn. *)
Lemma xinv_turn r x a e y y' :
  is_turn e = true -> (forall p, e = ERead p -> bp_one_window p = true) ->
  heap x !! a = Some y -> step e y = Some y' ->
  xinv r x -> xinv r (x <| heap := <[a := y']> (heap x) |>).
Proof.
  intros He Hp Hy Hstep [Hf Ht Ho]. split; simpl; intros a'.
  - intros Hle. destruct (Hf _ Hle). rewrite lookup_insert_ne by congruence. done.
  - intros a'' Hs. destruct (Ht _ _ Hs) as (? & y'' & ? & ?). split; [done|].
    destruct (decide (a = a'')) as [<-|]; [|rewrite lookup_insert_ne by done; eauto].
    rewrite lookup_insert_eq. exists y'. split; [done|].
    eapply step_turn_open; [done|done|congruence].
  - intros y''. destruct (decide (a = a')) as [<-|]; [|rewrite lookup_insert_ne by done; apply Ho].
    rewrite lookup_insert_eq. intros [= <-]. destruct (Ho a y Hy) as (pre & id & Hev).
    exists pre, id. rewrite <-(app_nil_r (r a)). eapply evolves_trans; [done|].
    replace [] with (data_of [e]) by by destruct e. by apply evolves_step.
Qed.

(** ** Every operation preserves the invariant *)

Lemma xinv_ext r r' x : (forall a, r' a = r a) -> xinv r x -> xinv r' x.
Proof. intros H. by apply xinv_same. Qed.

Lemma table_unique r x id id' a :
  xinv r x -> streams_ x !! id = Some a -> streams_ x !! id' = Some a -> id = id'.
Proof.
  intros Hi H H'. destruct (xi_table _ _ Hi _ _ H) as (_ & y & Hy & <- & _).
  destruct (xi_table _ _ Hi _ _ H') as (_ & y' & Hy' & <- & _). congruence.
Qed.

Lemma xinv_with_stream r r' id f e x :
  member f e -> (forall id' s, open_as id' s -> open_as id' (f s)) ->
  (forall a, r' a = r a ++ if bool_decide (find_stream id x = Some a) then data_of [e] else []) ->
  xinv r x -> xinv r' (with_stream id f x).
Proof.
  intros Hm Hk Hr Hi. unfold with_stream. destruct (find_stream id x) as [a|] eqn:E.
  - destruct (xi_table _ _ Hi _ _ E) as (_ & y & Hy & _).
    apply xinv_upd with r e y; try done; [by auto|]. intros a'. rewrite Hr. f_equal.
    case_decide; [subst; by rewrite bool_decide_true | by rewrite bool_decide_false by congruence].
  - apply xinv_ext with r; [|done]. intros a. by rewrite Hr, bool_decide_false, app_nil_r by done.
Qed.

(** The same for a member function that brings no body bytes. *)
Lemma xinv_quiet r id f e x :
  member f e -> (forall id' s, open_as id' s -> open_as id' (f s)) ->
  data_of [e] = [] -> xinv r x -> xinv r (with_stream id f x).
Proof.
  intros Hm Hk He. apply xinv_with_stream with e; try done.
  intros a. rewrite He. by case_bool_decide; rewrite app_nil_r.
Qed.

Lemma xinv_create_stream r id x : xinv r x -> xinv r (create_stream id x).2.
Proof.
  intros Hi. unfold create_stream. simpl.
  apply xinv_same with r (emplace id (next_addr x) (new_stream id x).2); try done.
  eapply xinv_emplace with (y := sys_new (log_prefix x) id); [apply lookup_insert_eq | done |].
  by apply (xinv_new_stream r id).
Qed.

Lemma xinv_begin_headers r f x : xinv r x -> xinv r (on_begin_headers_callback f x).
Proof.
  unfold on_begin_headers_callback. destruct (is_request_headers f); [|done].
  apply xinv_create_stream.
Qed.

Lemma open_set_status n id s : open_as id s -> open_as id (set_status n s).
Proof. done. Qed.

Lemma open_on_data d id s : open_as id s -> open_as id (on_data d s).
Proof. unfold open_as, on_data. by break. Qed.

Lemma xinv_header r f name value x : xinv r x -> xinv r (on_header_callback f name value x).
Proof.
  intros Hi. unfold on_header_callback.
  assert (Hadd : forall x, xinv r x ->
            xinv r (with_stream (hd_stream_id f) (add_header name value) x)).
  { intros x' Hx. by apply (xinv_quiet _ _ _ _ _ (member_meta (MAddHeader name value))). }
  case_bool_decide; [by apply (xinv_quiet _ _ _ _ _ (member_meta (MSetPath value)))|].
  case_bool_decide; [by apply (xinv_quiet _ _ _ _ _ (member_status _))|].
  destruct (is_pseudo name); [done|]. apply Hadd.
  case_bool_decide; [|done].
  destruct (fc_ec _); [done|]. destruct (fc_value _) as [n|]; [|done].
  destruct (_ =? _); [|done]. by apply (xinv_quiet _ _ _ _ _ (member_meta (MSetContentLength n))).
Qed.

Lemma xinv_frame_recv r f x : xinv r x -> xinv r (on_frame_recv_callback f x).
Proof.
  intros Hi. unfold on_frame_recv_callback.
  match goal with |- context [with_stream _ _ ?x'] => assert (Hx : xinv r x') end.
  { destruct (is_request_headers f); [|done]. destruct (find_stream _ _); [|done].
    by apply xinv_same with r x. }
  destruct (end_stream f); [|done]. by apply (xinv_quiet _ _ _ _ _ member_eof).
Qed.

Lemma xinv_data_chunk r id d x :
  xinv r x ->
  xinv (fun a => r a ++ routed (XDataChunk id d) x a) (on_data_chunk_recv_callback id d x).
Proof.
  intros Hi. unfold on_data_chunk_recv_callback.
  apply xinv_with_stream with r (EData d); [constructor | | |by apply xinv_same with r x].
  - intros. by apply open_on_data.
  - intros a. unfold data_of. simpl. rewrite app_nil_r. done.
Qed.

Lemma xinv_close_stream r id x : xinv r x -> xinv r (close_stream id x).
Proof.
  intros Hi. unfold close_stream. destruct (streams_ x !! id) as [a|] eqn:E; [|done].
  destruct (xi_table _ _ Hi _ _ E) as (_ & y & Hy & _).
  change (_ <| streams_ := _ |>) with (upd on_close a (x <| streams_ := delete id (streams_ x) |>)).
  apply xinv_upd with r EClose y; [constructor | done | | |].
  - simpl. intros id' _ H. apply lookup_delete_Some in H as [Hne H].
    by destruct (table_unique _ _ _ _ _ Hi E H).
  - intros a'. unfold data_of. simpl. by case_decide; rewrite app_nil_r.
  - apply xinv_shrink; [apply delete_subseteq | done].
Qed.

Lemma xinv_close_list r l x :
  streams_ x = ∅ -> (forall a, a ∈ l -> is_Some (heap x !! a)) ->
  xinv r x -> xinv r (foldr (upd on_close) x l) /\ streams_ (foldr (upd on_close) x l) = ∅ /\
    (forall a, is_Some (heap x !! a) -> is_Some (heap (foldr (upd on_close) x l) !! a)).
Proof.
  intros Hs Hl Hi. induction l as [|a l IH]; cbn [foldr]; [done|].
  destruct IH as (Hx & Hs' & Hh); [intros; apply Hl; by right|].
  destruct (Hh a) as [y Hy]; [apply Hl; left|]. split; [|split].
  - apply xinv_upd with r EClose y; [constructor | done | | |done].
    + rewrite Hs'. by intros id _ ?%lookup_empty_Some.
    + intros a'. unfold data_of. simpl. by case_decide; rewrite app_nil_r.
  - done.
  - intros a' Ha'. rewrite lookup_upd. case_decide; [|auto]. apply fmap_is_Some. auto.
Qed.

Lemma xinv_close_all r x : xinv r x -> xinv r (close_all x).
Proof.
  intros Hi. unfold close_all. apply xinv_close_list; [done | |].
  - simpl. intros a ((id & a') & -> & Hin)%list_elem_of_fmap.
    apply elem_of_map_to_list in Hin.
    destruct (xi_table _ _ Hi _ _ Hin) as (_ & y & Hy & _). by exists y.
  - apply xinv_shrink; [apply map_empty_subseteq | done].
Qed.

Lemma xinv_submit_response r a status hs rv x :
  xinv r x -> xinv r (submit_response a status hs rv x).2.
Proof.
  intros Hi. unfold submit_response. destruct (negb _); by apply xinv_same with r x.
Qed.

Lemma xinv_submit_request r path n hs ret x :
  xinv r x -> xinv r (submit_request path n hs ret x).2.
Proof.
  intros Hi. unfold submit_request. destruct (role_ x); [done|]. simpl.
  pose proof (xinv_new_stream r 0 x Hi) as Hn. simpl in Hn.
  match type of Hn with xinv _ ?x' => set (x1 := x') in Hn end.
  assert (Hfree : forall id, streams_ x1 !! id <> Some (next_addr x)).
  { intros id H. destruct (xi_table _ _ Hi id _ H) as [? _]. lia. }
  destruct (ret <? 0)%Z; simpl.
  - eapply xinv_same; [..|apply (xinv_release r x1 (next_addr x) Hfree Hn)]; done.
  - match goal with |- context [emplace ret _ ?x'] => set (x2 := x') end.
    apply xinv_same with r (emplace ret (next_addr x) x2); try done.
    assert (Hx2 : xinv r x2).
    { apply xinv_upd with r (EMeta (MSetId (log_prefix x1) ret)) (sys_new (log_prefix x) 0).
      - apply (member_meta (MSetId (log_prefix x1) ret)).
      - apply lookup_insert_eq.
      - intros id _ H. by destruct (Hfree id).
      - intros a. by case_decide; rewrite app_nil_r.
      - by apply xinv_same with r x1. }
    pose proof (lookup_upd (set_id (log_prefix x1) ret) (next_addr x) x1 (next_addr x)) as Hy.
    rewrite decide_True in Hy by done. simpl in Hy. rewrite lookup_insert_eq in Hy.
    by apply (xinv_emplace r ret (next_addr x) x2 _ Hy).
Qed.

(** Every destination a coroutine passes to [read_some] fits one window. *)
Definition fits (e : xev) : Prop :=
  match e with XTurn _ (ERead p) => bp_one_window p = true | _ => True end.

Lemma xinv_step r e x x' :
  fits e -> xstep e x = Some x' -> xinv r x -> xinv (fun a => r a ++ routed e x a) x'.
Proof.
  intros Hfit Hstep Hi.
  assert (Hq : (forall a, routed e x a = []) -> forall x1, xinv r x1 ->
               xinv (fun a => r a ++ routed e x a) x1).
  { intros Hd x1. apply xinv_ext. intros a. by rewrite Hd, app_nil_r. }
  destruct e as [f|f n v|f|id d|id|a e|path n hs ret|a n hs rv| | |]; simpl in Hstep;
    try (injection Hstep as <-); [..|by apply Hq, xinv_close_all].
  - by apply Hq, xinv_begin_headers.
  - by apply Hq, xinv_header.
  - by apply Hq, xinv_frame_recv.
  - by apply xinv_data_chunk.
  - by apply Hq, xinv_close_stream.
  - destruct (is_turn e) eqn:Et; [|done]. destruct (heap x !! a) as [y|] eqn:Ey; [|done].
    destruct (step e y) as [y'|] eqn:Es; [|done]. injection Hstep as <-. apply Hq; [done|].
    destruct (perform_all_frame (drop (length (calls y)) (calls y'))
                (x <| heap := <[a := y']> (heap x) |>)) as (E1 & E2 & E3).
    eapply xinv_same; [exact E1 | exact E2 | exact E3 | done |].
    apply (xinv_turn _ _ _ e y y'); try done. intros p ->. exact Hfit.
  - by apply Hq, xinv_submit_request.
  - by apply Hq, xinv_submit_response.
  - apply Hq; [done|]. by apply xinv_same with r x.
  - apply Hq; [done|]. by apply xinv_same with r x.
Qed.

Lemma xreach_inv role handler evs r x :
  xreach role handler evs r x -> Forall fits evs -> xinv r x.
Proof.
  induction 1 as [|evs r x e x' _ IH Hstep]; intros Hf; [apply xinv_new|].
  apply Forall_app in Hf as [Hf He]. inversion He; subst. by eapply xinv_step; [..|apply IH].
Qed.

(** The same, executably. *)
Fixpoint routes (evs : list xev) (x : Session) (a : addr) : bytes :=
  match evs with
  | [] => []
  | e :: evs =>
      routed e x a ++ match xstep e x with Some x => routes evs x a | None => [] end
  end.

Lemma xrun_reach role handler evs r x evs' x' :
  xreach role handler evs r x -> xrun evs' x = Some x' ->
  exists r', (forall a, r' a = r a ++ routes evs' x a) /\
    xreach role handler (evs ++ evs') r' x'.
Proof.
  revert evs r x; induction evs' as [|e evs' IH]; intros evs r x Hr H; simpl in H.
  - injection H as <-. exists r. rewrite app_nil_r. split; [|done].
    intros. by rewrite app_nil_r.
  - destruct (xstep e x) as [x1|] eqn:E; [|done].
    destruct (IH (evs ++ [e]) (fun a => r a ++ routed e x a) x1) as (r' & Hr' & Hx').
    { by apply xreach_step. } { done. }
    exists r'. rewrite <-app_assoc in Hx'. split; [|done].
    intros a. simpl. by rewrite Hr', E, <-app_assoc.
Qed.

Lemma xrun_new role handler evs x :
  xrun evs (Session_new role handler) = Some x ->
  exists r, (forall a, r a = routes evs (Session_new role handler) a) /\
    xreach role handler evs r x.
Proof. intros H. by apply (xrun_reach _ _ _ _ _ _ _ (xreach_new role handler)). Qed.

(** The role never changes. *)

Lemma with_stream_role id f x : role_ (with_stream id f x) = role_ x.
Proof. unfold with_stream. by destruct (find_stream id x). Qed.

Lemma perform_all_role cs x : role_ (perform_all x cs) = role_ x.
Proof. revert x; induction cs as [|c cs IH]; intros x; simpl; [done|]. rewrite IH. by destruct c. Qed.

Lemma close_list_role l x : role_ (foldr (upd on_close) x l) = role_ x.
Proof. induction l as [|a l IH]; cbn [foldr]; [done | exact IH]. Qed.

Lemma xstep_role e x x' : xstep e x = Some x' -> role_ x' = role_ x.
Proof.
  destruct e; simpl; unfold on_begin_headers_callback, create_stream, emplace,
    on_header_callback, on_frame_recv_callback, on_data_chunk_recv_callback,
    on_stream_close_callback, close_stream, submit_request, submit_response, close_all;
    intros H; break; simplify_eq;
    rewrite ?with_stream_role, ?perform_all_role, ?close_list_role; try done.
  unfold emplace. by destruct (streams_ _ !! _).
Qed.

Lemma xreach_role role handler evs r x : xreach role handler evs r x -> role_ x = role.
Proof. induction 1 as [|? ? ? ? ? _ IH Hs]; [done|]. by rewrite (xstep_role _ _ _ Hs). Qed.

(** Nor does the handler. *)

Lemma with_stream_handler id f x : handler_set (with_stream id f x) = handler_set x.
Proof. unfold with_stream. by destruct (find_stream id x). Qed.

Lemma perform_all_handler cs x : handler_set (perform_all x cs) = handler_set x.
Proof. revert x; induction cs as [|c cs IH]; intros x; simpl; [done|]. rewrite IH. by destruct c. Qed.

Lemma close_list_handler l x : handler_set (foldr (upd on_close) x l) = handler_set x.
Proof. induction l as [|a l IH]; cbn [foldr]; [done | exact IH]. Qed.

Lemma xstep_handler e x x' : xstep e x = Some x' -> handler_set x' = handler_set x.
Proof.
  destruct e; simpl; unfold on_begin_headers_callback, create_stream, emplace,
    on_header_callback, on_frame_recv_callback, on_data_chunk_recv_callback,
    on_stream_close_callback, close_stream, submit_request, submit_response, close_all;
    intros H; break; simplify_eq;
    rewrite ?with_stream_handler, ?perform_all_handler, ?close_list_handler; try done.
  unfold emplace. by destruct (streams_ _ !! _).
Qed.

Lemma xreach_handler role handler evs r x : xreach role handler evs r x -> handler_set x = handler.
Proof. induction 1 as [|? ? ? ? ? _ IH Hs]; [done|]. by rewrite (xstep_handler _ _ _ Hs). Qed.

(** Turns only add calls. *)
Lemma perform_all_calls cs x : exists rest, ng_calls (perform_all x cs) = ng_calls x ++ rest.
Proof.
  revert x; induction cs as [|c cs IH]; intros x; simpl; [exists []; by rewrite app_nil_r|].
  destruct (IH (perform x c)) as [rest ->].
  destruct c; simpl; rewrite <-?app_assoc; by eexists.
Qed.

Lemma xstep_turn_calls a e x x' :
  xstep (XTurn a e) x = Some x' -> exists rest, ng_calls x' = ng_calls x ++ rest.
Proof.
  simpl. destruct (is_turn e); [|done]. destruct (heap x !! a) as [y|]; [|done].
  destruct (step e y) as [y'|]; [|done]. intros [= <-].
  destruct (perform_all_calls (drop (length (calls y)) (calls y'))
              (x <| heap := <[a := y']> (heap x) |>)) as [rest E].
  exists rest. exact E.
Qed.

End SessionSys.
