(* ===== verification/SessionProps.v ===== *)
(** * Properties of a session

    The stream table under any interleaving of callbacks and coroutine turns, what
    reaches a stream from nghttp2, header blocks and their round trips through
    [submit_request] / [submit_response], and the end of a session. *)

From S2P Require Import Prelude Capy Nghttp2 Charconv Stream StreamRead StreamWrite.
From S2P Require Import StreamSys StreamProps Session SessionSys.

Section SessionProps.
Context {C : CapyOps} {G : NgConsts}.

(** ** Every stream of a session is a stream *)

(** C5 The session adds nothing to and takes nothing from its streams: every
    [Stream] object a session holds is in a state that the stream alone reaches by
    turns of its own, and these turns bring in exactly the DATA bytes nghttp2
    delivered under the stream's id while it was registered (for sessions in which every
    read had a destination of one window, like the stream's reads then). *)
Theorem session_refines_streams role handler evs r x a y :
  xreach role handler evs r x -> Forall fits evs -> heap x !! a = Some y ->
  exists pre id es, reach pre id es y /\ data_of es = r a /\ reads_fit es.
Proof.
  intros Hr Hf Ha.
  destruct (xi_object _ _ (xreach_inv _ _ _ _ _ Hr Hf) a y Ha) as (pre & id & es & H & Hd & Hw).
  exists pre, id, es. split; [by apply run_reach | done].
Qed.

(** The stream table is sound in every reachable session: an entry [id] points
    to a live object whose own id is [id] and which is not closed, and no object is
    registered under two ids. *)
Theorem session_table_sound role handler evs r x :
  xreach role handler evs r x -> Forall fits evs ->
  (forall id a, streams_ x !! id = Some a ->
     exists y, heap x !! a = Some y /\ id_ (st y) = id /\ closed_ (st y) = false) /\
  (forall id id' a, streams_ x !! id = Some a -> streams_ x !! id' = Some a -> id = id').
Proof.
  intros Hr Hf. pose proof (xreach_inv _ _ _ _ _ Hr Hf) as Hi. split.
  - intros id a Hs. destruct (xi_table _ _ Hi _ _ Hs) as (_ & y & Hy & Ho). by exists y.
  - intros id id' a. by apply (table_unique _ _ _ _ _ Hi).
Qed.

Section Fifo.
Context {L : CapyLaws C} {GL : NgLaws G}.

(** C6 End to end on the receiving side: at any moment of a session in which every
    destination passed to [read_some] fits one window of buffer_param (see
    [read_reorders_windows] for the others), the DATA bytes nghttp2 handed over for a
    stream are, in order and without loss or duplication, those its reads returned, followed by those copied into a read
    about to return, followed by those queued; and its window was given back for
    exactly the bytes read. *)
Theorem session_fifo role handler evs r x a y :
  xreach role handler evs r x -> Forall fits evs -> heap x !! a = Some y ->
  r a = delivered (log y) ++ in_sink (st y) ++ buffered (st y) /\
  stream_consumed (calls y) = length (delivered (log y)).
Proof.
  intros Hr Hf Ha.
  destruct (xi_object _ _ (xreach_inv _ _ _ _ _ Hr Hf) a y Ha)
    as (pre & id & es & H & <- & Hw).
  destruct (reach_read_inv pre id es y) as [_ ? ?]; [by apply run_reach | done | done].
Qed.
End Fifo.

(** ** Flow control of the connection *)

Definition received (evs : list xev) : nat :=
  sum (map (fun e => match e with XDataChunk _ d => length d | _ => 0 end) evs).

Lemma step_calls e y y' :
  step e y = Some y' ->
  exists cs, calls y' = calls y ++ cs /\ connection_consumed cs = 0.
Proof.
  intros H. destruct e as [m|d| | |p|w|a fin|w|len|n| |w]; simpl in H;
    unfold note, read_some, read_some_resume, write_impl, producer_callback, status in H;
    break; simplify_eq;
    (by exists []; rewrite app_nil_r) || by eexists.
Qed.

Lemma perform_all_connection cs x :
  connection_consumed (ng_calls (perform_all x cs))
  = connection_consumed (ng_calls x) + connection_consumed cs.
Proof.
  revert x; induction cs as [|c cs IH]; intros x; simpl; [unfold connection_consumed at 3; simpl; lia|].
  rewrite IH. unfold perform. replace (c :: cs) with ([c] ++ cs) by done.
  destruct c; simpl; rewrite ?connection_consumed_app;
    unfold connection_consumed; simpl; lia.
Qed.

Lemma with_stream_calls id f x : ng_calls (with_stream id f x) = ng_calls x.
Proof. unfold with_stream. by destruct (find_stream id x). Qed.

Lemma on_header_calls f n v x : ng_calls (on_header_callback f n v x) = ng_calls x.
Proof. unfold on_header_callback. break; rewrite ?with_stream_calls; done. Qed.

Lemma on_frame_recv_calls f x : ng_calls (on_frame_recv_callback f x) = ng_calls x.
Proof. unfold on_frame_recv_callback. break; rewrite ?with_stream_calls; done. Qed.

Lemma emplace_calls id a x : ng_calls (emplace id a x) = ng_calls x.
Proof. unfold emplace. by destruct (streams_ x !! id). Qed.

Lemma close_list_calls l x : ng_calls (foldr (upd on_close) x l) = ng_calls x.
Proof. induction l; cbn [foldr]; [done|]. by rewrite <-IHl. Qed.

Lemma connection_step e x x' :
  xstep e x = Some x' ->
  connection_consumed (ng_calls x') = connection_consumed (ng_calls x) + received [e].
Proof.
  unfold received. destruct e as [f|f n v|f|id d|id|a e|path n hs ret|a n hs rv| | |]; simpl.
  - intros [= <-]. unfold on_begin_headers_callback, create_stream. break;
      rewrite ?emplace_calls; simpl; lia.
  - intros [= <-]. rewrite on_header_calls. lia.
  - intros [= <-]. rewrite on_frame_recv_calls. lia.
  - intros [= <-]. unfold on_data_chunk_recv_callback. rewrite with_stream_calls. simpl.
    rewrite connection_consumed_app. unfold connection_consumed at 2. simpl. lia.
  - intros [= <-]. unfold on_stream_close_callback, close_stream. break; lia.
  - intros H. destruct (is_turn e); [|done]. destruct (heap x !! a) as [y|]; [|done].
    destruct (step e y) as [y'|] eqn:E; [|done]. injection H as <-.
    destruct (step_calls _ _ _ E) as (cs & -> & Hcs).
    rewrite perform_all_connection, drop_app_length, Hcs. simpl. lia.
  - intros [= <-]. unfold submit_request. destruct (role_ x); simpl; [lia|].
    destruct (ret <? 0)%Z; simpl; rewrite ?emplace_calls; simpl;
      rewrite connection_consumed_app; unfold connection_consumed at 2; simpl; lia.
  - intros [= <-]. unfold submit_response. destruct (negb _); simpl;
      rewrite connection_consumed_app; unfold connection_consumed at 2; simpl; lia.
  - intros [= <-]. simpl. lia.
  - intros [= <-]. simpl. lia.
  - intros [= <-]. unfold close_all. rewrite close_list_calls. simpl. lia.
Qed.

(** Connection-level flow control never depends on the readers: the bytes given
    back through [nghttp2_session_consume_connection] are, in every reachable
    session, exactly the DATA bytes received, on any stream, read or not, known or
    not. *)
Theorem connection_window_exact role handler evs r x :
  xreach role handler evs r x -> connection_consumed (ng_calls x) = received evs.
Proof.
  induction 1 as [|evs r x e x' _ IH Hstep]; [done|].
  rewrite (connection_step _ _ _ Hstep), IH. unfold received. by rewrite map_app, sum_app.
Qed.

(** ** Isolation *)

(** The stream an nghttp2 callback is about. *)
Definition target (e : xev) : option Z :=
  match e with
  | XBeginHeaders f | XHeader f _ _ | XFrameRecv f => Some (hd_stream_id f)
  | XDataChunk id _ | XStreamClose id => Some id
  | _ => None
  end.

(** What a callback for stream [id] may change: the object registered under [id],
    the entry [id] of the table (to nothing or to a new object). *)
Record local_to (id : Z) (x x' : Session) : Prop := {
  lt_heap a : find_stream id x <> Some a -> a <> next_addr x -> heap x' !! a = heap x !! a;
  lt_table id' : id' <> id -> find_stream id' x' = find_stream id' x;
  lt_entry a : find_stream id x' = Some a -> find_stream id x = Some a \/ a = next_addr x;
  lt_next : next_addr x <= next_addr x';
}.

Lemma local_refl id x x' :
  heap x' = heap x -> streams_ x' = streams_ x -> next_addr x' = next_addr x ->
  local_to id x x'.
Proof. intros E1 E2 E3. unfold find_stream. split; unfold find_stream; rewrite ?E1, ?E2, ?E3; auto. Qed.

Lemma with_stream_frame id f x :
  streams_ (with_stream id f x) = streams_ x /\ next_addr (with_stream id f x) = next_addr x /\
  spawned (with_stream id f x) = spawned x /\ role_ (with_stream id f x) = role_ x /\
  request_counter_ (with_stream id f x) = request_counter_ x.
Proof. unfold with_stream. by destruct (find_stream id x). Qed.

Lemma with_stream_heap id f x a :
  heap (with_stream id f x) !! a =
  if bool_decide (find_stream id x = Some a)
  then (fun y => y <| st := f (st y) |>) <$> heap x !! a else heap x !! a.
Proof.
  unfold with_stream. destruct (find_stream id x) as [a'|]; [|done].
  rewrite lookup_upd. case_decide; case_bool_decide; congruence || done.
Qed.

Lemma local_with_stream id f x x1 :
  local_to id x x1 -> streams_ x1 = streams_ x -> next_addr x1 = next_addr x ->
  local_to id x (with_stream id f x1).
Proof.
  intros [Hh _ _ _] E2 E3. destruct (with_stream_frame id f x1) as (Hs & Hn & _).
  split; unfold find_stream in *; rewrite ?Hs, ?Hn, ?E2, ?E3; auto.
  intros a Ha Hne. rewrite with_stream_heap, bool_decide_false; [by apply Hh|].
  unfold find_stream. by rewrite E2.
Qed.

Lemma local_with_stream_1 id f x : local_to id x (with_stream id f x).
Proof. apply local_with_stream; [by apply local_refl | done | done]. Qed.

Lemma header_local f n v x : local_to (hd_stream_id f) x (on_header_callback f n v x).
Proof.
  unfold on_header_callback.
  do 2 (case_bool_decide; [apply local_with_stream_1|]).
  destruct (is_pseudo n); [by apply local_refl|].
  case_bool_decide; [|apply local_with_stream_1].
  destruct (fc_ec _); [apply local_with_stream_1|].
  destruct (fc_value _) as [len|]; [|apply local_with_stream_1].
  destruct (_ =? _); [|apply local_with_stream_1].
  destruct (with_stream_frame (hd_stream_id f) (set_content_length len) x) as (Es & En & _).
  apply local_with_stream; [apply local_with_stream_1 | exact Es | exact En].
Qed.

Lemma callback_local e id x x' :
  target e = Some id -> xstep e x = Some x' -> local_to id x x'.
Proof.
  destruct e as [f|f n v|f|id' d|id'|a e|path n hs ret|a n hs rv| | |]; simpl;
    intros [= <-] [= <-].
  - unfold on_begin_headers_callback. destruct (is_request_headers f); [|by apply local_refl].
    unfold create_stream, emplace. simpl. destruct (streams_ x !! hd_stream_id f) eqn:E;
      unfold find_stream; split; unfold find_stream; simpl; try lia.
    + intros. by rewrite lookup_insert_ne.
    + done.
    + auto.
    + intros. by rewrite lookup_insert_ne.
    + intros. by rewrite lookup_insert_ne.
    + intros a. rewrite lookup_insert_eq. intros [= <-]. by right.
  - apply header_local.
  - unfold on_frame_recv_callback.
    destruct (end_stream f); [apply local_with_stream; [apply local_refl|..] | apply local_refl];
      (destruct (is_request_headers f); [|done]); by destruct (find_stream _ _).
  - apply local_with_stream; [by apply local_refl | done | done].
  - unfold on_stream_close_callback, close_stream.
    destruct (streams_ x !! id') as [a|] eqn:E; [|by apply local_refl].
    split; unfold find_stream; simpl; try lia.
    + intros a' Ha _. apply lookup_alter_ne. congruence.
    + intros. by rewrite lookup_delete_ne.
    + intros a'. by rewrite lookup_delete_eq.
Qed.

(** Streams do not interfere: in a reachable session, a callback for one stream
    id leaves every object registered under another id, and every object that is no
    longer registered, exactly as it was, and all other entries of the table. *)
Theorem session_isolation role handler evs r x e id x' a y :
  xreach role handler evs r x -> Forall fits evs ->
  target e = Some id -> xstep e x = Some x' ->
  heap x !! a = Some y -> find_stream id x <> Some a ->
  heap x' !! a = Some y /\
  (forall id', id' <> id -> find_stream id' x' = find_stream id' x).
Proof.
  intros Hr Hf Ht Hs Ha Hne. pose proof (xreach_inv _ _ _ _ _ Hr Hf) as Hi.
  destruct (callback_local _ _ _ _ Ht Hs) as [Hh Htab _ _]. split; [|done].
  rewrite Hh; try done. intros ->. destruct (xi_fresh _ _ Hi (next_addr x)); [lia|congruence].
Qed.

(** ** The end of a stream and of a session *)

Lemma close_list_next l x :
  next_addr (foldr (upd on_close) x l) = next_addr x /\
  streams_ (foldr (upd on_close) x l) = streams_ x.
Proof. induction l as [|a l [IH1 IH2]]; cbn [foldr]; [done|]. by rewrite <-IH1, <-IH2. Qed.

Lemma close_list_other l x a :
  a ∉ l -> heap (foldr (upd on_close) x l) !! a = heap x !! a.
Proof.
  induction l as [|a' l IH]; cbn [foldr]; [done|]. rewrite lookup_upd.
  intros [Hne Hn]%not_elem_of_cons. rewrite decide_False by congruence. auto.
Qed.

Section Closing.
Context {L : CapyLaws C}.

(** [y'] is [y] closed, everything suspended on it being ready to resume. *)
Record closes (y y' : sys) : Prop := {
  cl_closed : closed_ (st y') = true;
  cl_events : event_is_set (read_ready_ (st y')) = true /\
              event_is_set (write_progress_ (st y')) = true /\
              event_is_set (status_ready_ (st y')) = true;
  cl_frames : read_sink_ (st y') = read_sink_ (st y) /\ writer y' = writer y /\
              status_waiter y' = status_waiter y;
}.

Lemma on_close_closes y y1 :
  y1 = y \/ closes y y1 -> closes y (y1 <| st := on_close (st y1) |>).
Proof.
  intros [->|[_ _ [? [? ?]]]]; (split; simpl; [done | by rewrite !event_set_is_set | done]).
Qed.

Lemma closes_wakes y y' :
  closes y y' ->
  (read_sink_ (st y) <> None -> is_Some (step (EReadWake None) y')) /\
  (writer y <> None -> is_Some (step (EWriteWake None) y')) /\
  (status_waiter y = true -> is_Some (step (EStatusWake None) y')).
Proof.
  intros [Hc [Hr [Hw Hs]] [Ek [Ew Es]]]. rewrite <-Ek, <-Ew, <-Es. simpl. repeat split; intros H.
  - destruct (read_sink_ (st y')) as [k|]; [|done]. rewrite Hr.
    by destruct (read_some_resume None k (st y')) as [[? ?] ?].
  - destruct (writer y') as [[a fin]|]; [|done]. by rewrite Hw.
  - by rewrite H, Hs.
Qed.

Lemma close_list_lookup l x a :
  a ∈ l -> forall y, heap x !! a = Some y ->
  exists y', heap (foldr (upd on_close) x l) !! a = Some y' /\ closes y y'.
Proof.
  induction l as [|a' l IH]; cbn [foldr]; [by intros ?%not_elem_of_nil|].
  rewrite lookup_upd. intros Hin y Hy. destruct (decide (a ∈ l)) as [Hl|Hl].
  - destruct (IH Hl y Hy) as (y1 & E & Hcl). rewrite E.
    case_decide; simpl; eexists; (split; [done|]); [apply on_close_closes; auto | done].
  - apply elem_of_cons in Hin as [<-|]; [|done]. rewrite decide_True by done.
    rewrite close_list_other, Hy by done. simpl. eexists. split; [done|].
    apply on_close_closes. auto.
Qed.

(** The end of a session wakes everybody: when [run()] is over, the table is
    empty, every stream that was still registered is closed and each coroutine
    suspended on it (a read, a write, a wait for the status) can resume, and no
    other object has changed. *)
Theorem session_end_wakes role handler evs r x a y :
  xreach role handler evs r x -> Forall fits evs -> heap x !! a = Some y ->
  exists x' y', xstep XEnd x = Some x' /\ streams_ x' = ∅ /\ heap x' !! a = Some y' /\
    ((exists id, find_stream id x = Some a) ->
       closed_ (st y') = true /\
       (read_sink_ (st y) <> None -> is_Some (step (EReadWake None) y')) /\
       (writer y <> None -> is_Some (step (EWriteWake None) y')) /\
       (status_waiter y = true -> is_Some (step (EStatusWake None) y'))) /\
    ((forall id, find_stream id x <> Some a) -> y' = y).
Proof.
  intros Hr Hf Ha. pose proof (xreach_inv _ _ _ _ _ Hr Hf) as Hi.
  set (x0 := x <| streams_ := ∅ |>). set (l := (map_to_list (streams_ x)).*2).
  destruct (close_list_next l x0) as [_ Hs].
  assert (Hl : a ∈ l <-> exists id, find_stream id x = Some a).
  { unfold l. rewrite list_elem_of_fmap. split.
    - intros ((id & a') & -> & H). exists id. by apply elem_of_map_to_list in H.
    - intros [id H]. exists (id, a). by rewrite elem_of_map_to_list. }
  exists (close_all x). destruct (decide (a ∈ l)) as [Hal|Hal].
  - destruct (close_list_lookup l x0 a Hal y Ha) as (y' & E & Hcl). exists y'. repeat split; try done;
      try (by apply (closes_wakes _ _ Hcl)); try apply (cl_closed _ _ Hcl).
    intros Hn. apply Hl in Hal as [id Hid]. by destruct (Hn id).
  - exists y. repeat split; try done; [by rewrite <-Ha; apply (close_list_other l x0) | by destruct Hal; apply Hl..].
Qed.

(** The protocol-level close of a stream takes it out of the table, closes it
    and lets each coroutine suspended on it resume; closing an unknown id changes
    nothing. *)
Theorem stream_close_wakes role handler evs r x id :
  xreach role handler evs r x -> Forall fits evs ->
  exists x', xstep (XStreamClose id) x = Some x' /\ find_stream id x' = None /\
    (find_stream id x = None -> x' = x) /\
    (forall a, find_stream id x = Some a -> exists y y',
       heap x !! a = Some y /\ heap x' !! a = Some y' /\ closed_ (st y') = true /\
       (read_sink_ (st y) <> None -> is_Some (step (EReadWake None) y')) /\
       (writer y <> None -> is_Some (step (EWriteWake None) y')) /\
       (status_waiter y = true -> is_Some (step (EStatusWake None) y'))).
Proof.
  intros Hr Hf. pose proof (xreach_inv _ _ _ _ _ Hr Hf) as Hi. eexists. split; [reflexivity|].
  unfold on_stream_close_callback, close_stream, find_stream.
  destruct (streams_ x !! id) as [a|] eqn:E; [|by rewrite E].
  destruct (xi_table _ _ Hi _ _ E) as (_ & y & Hy & _).
  split; [apply lookup_delete_eq|]. split; [done|]. intros a' [= <-].
  exists y, (y <| st := on_close (st y) |>). split; [done|]. split.
  { change (heap (upd on_close a x) !! a = Some (y <| st := on_close (st y) |>)).
    by rewrite lookup_upd, decide_True, Hy. }
  split; [done|]. apply closes_wakes, on_close_closes. by left.
Qed.

End Closing.

(** ** Streams the table has dropped *)

(** An object that exists and is not registered. *)
Definition detached (a : addr) (x : Session) : Prop :=
  a < next_addr x /\ forall id, find_stream id x <> Some a.

(** A dropped object is never registered again, and only its own coroutines (and
    its data provider) change it. *)
Lemma detached_step e x x' a y :
  detached a x -> heap x !! a = Some y -> xstep e x = Some x' ->
  detached a x' /\
  (heap x' !! a = Some y \/
   exists e' y', e = XTurn a e' /\ is_turn e' = true /\ step e' y = Some y' /\ heap x' !! a = Some y').
Proof.
  intros [Hlt Hn] Hy Hs. destruct (target e) as [id|] eqn:Et.
  { destruct (callback_local _ _ _ _ Et Hs) as [H1 H2 H3 H4]. split; [split|].
    - lia.
    - intros id' H. destruct (decide (id' = id)) as [->|Hne].
      + destruct (H3 _ H) as [?| ->]; [by destruct (Hn id) | lia].
      + rewrite H2 in H by done. by destruct (Hn id').
    - left. rewrite H1; [done | apply Hn | lia]. }
  destruct e as [f|f n v|f|id d|id|a' e|path n hs ret|a' n hs rv| | |]; try done; simpl in Hs.
  - destruct (is_turn e) eqn:Ee; [|done]. destruct (heap x !! a') as [y0|] eqn:E0; [|done].
    destruct (step e y0) as [y'|] eqn:E; [|done]. injection Hs as <-.
    destruct (perform_all_frame (drop (length (calls y0)) (calls y'))
                (x <| heap := <[a' := y']> (heap x) |>)) as (E1 & E2 & E3).
    unfold detached, find_stream. rewrite E1, E2, E3. split; [done|]. simpl.
    destruct (decide (a' = a)) as [->|Hne].
    + right. exists e, y'. rewrite lookup_insert_eq. repeat split; congruence.
    + left. by rewrite lookup_insert_ne.
  - injection Hs as <-. unfold submit_request, detached, find_stream in *.
    destruct (role_ x); [by split; [|left]|]. simpl. destruct (ret <? 0)%Z; simpl.
    + rewrite lookup_delete_ne, lookup_insert_ne by lia. split; [split; [lia|done] | by left].
    + unfold emplace. simpl. destruct (streams_ x !! ret); simpl;
        rewrite lookup_alter_ne, lookup_insert_ne by lia;
        (split; [split; [lia|] | by left]); [done|].
      intros id. destruct (decide (ret = id)) as [->|];
        [rewrite lookup_insert_eq; intros [= ?]; lia | by rewrite lookup_insert_ne].
  - injection Hs as <-. unfold submit_response. destruct (negb _); (split; [done | by left]).
  - injection Hs as <-. split; [done | by left].
  - injection Hs as <-. split; [done | by left].
  - injection Hs as <-. set (l := (map_to_list (streams_ x)).*2).
    destruct (close_list_next l (x <| streams_ := ∅ |>)) as [En Es].
    unfold close_all, detached, find_stream. fold l. rewrite En, Es. split.
    { split; [done|]. intros id. simpl. by rewrite lookup_empty. }
    left. rewrite (close_list_other l); [done|].
    unfold l. rewrite list_elem_of_fmap. intros ((id & a') & -> & H).
    apply elem_of_map_to_list in H. by apply (Hn id).
Qed.

(** [wait()] of the event at [a] is not cancelled. *)
Definition not_cancelled (a : addr) (e : xev) : Prop :=
  match e with XTurn a' (EStatusWake (Some _)) => a' <> a | _ => True end.

Section Hang.
Context {L : CapyLaws C}.

Lemma status_hang_step a e x x' y :
  not_cancelled a e -> xstep e x = Some x' -> detached a x -> heap x !! a = Some y ->
  status_waiter y = true -> event_is_set (status_ready_ (st y)) = false ->
  detached a x' /\ exists y', heap x' !! a = Some y' /\
    status_waiter y' = true /\ event_is_set (status_ready_ (st y')) = false.
Proof.
  intros Hc Hs Hd Hy Hw He. destruct (detached_step _ _ _ _ _ Hd Hy Hs) as [Hd' Hor].
  split; [done|]. destruct Hor as [H|(e' & y' & -> & Ht & Hstep & H)]; [by exists y|].
  exists y'. split; [done|]. apply (status_quiet e' y y'); try done.
  destruct e' as [m|d| | |p|[w|]|b fin|w|len|n| |[w|]]; simpl in *; done.
Qed.

(** C34 [response()] after the stream is gone hangs: a client that asks for the
    status of a stream which closed before any status came waits for ever: whatever
    else happens in the session (new requests, callbacks, even the end of [run()]),
    the wait never becomes ready, short of being cancelled. *)
Theorem status_hangs_in_session role handler evs r x a y :
  xreach role handler evs r x -> Forall fits evs -> heap x !! a = Some y ->
  closed_ (st y) = true -> (status_ (st y) < 0)%Z -> status_waiter y = false ->
  exists x1, xstep (XTurn a EStatus) x = Some x1 /\
    forall evs' x2, Forall (not_cancelled a) evs' -> xrun evs' x1 = Some x2 ->
      (exists y2, heap x2 !! a = Some y2 /\ status_waiter y2 = true) /\
      xstep (XTurn a (EStatusWake None)) x2 = None.
Proof.
  intros Hr Hf Hy Hc Hneg Hw. pose proof (xreach_inv _ _ _ _ _ Hr Hf) as Hi.
  assert (Hd : detached a x).
  { split.
    - destruct (Nat.lt_ge_cases a (next_addr x)) as [|Hge]; [done|].
      destruct (xi_fresh _ _ Hi a Hge). congruence.
    - intros id H. destruct (xi_table _ _ Hi _ _ H) as (_ & y' & Hy' & _ & Ho). congruence. }
  cbn [xstep is_turn]. rewrite Hy. simpl. rewrite Hw. unfold status.
  destruct (Z.ltb_spec (status_ (st y)) 0); [|lia]. simpl. rewrite drop_all. simpl.
  eexists. split; [done|]. intros evs' x2 Hq.
  match goal with |- xrun _ ?x1 = _ -> _ => set (x1' := x1) end.
  assert (H1 : detached a x1' /\ exists y', heap x1' !! a = Some y' /\ status_waiter y' = true /\
            event_is_set (status_ready_ (st y')) = false).
  { split; [exact Hd|]. eexists. split; [apply lookup_insert_eq|]. split; [done|].
    apply event_clear_is_set. }
  clearbody x1'. revert x1' H1.
  induction Hq as [|e evs' He _ IH]; intros x1 (Hd1 & y1 & Hy1 & Hw1 & He1) Hrun; simpl in Hrun.
  - injection Hrun as <-. split; [by exists y1|].
    cbn [xstep is_turn]. rewrite Hy1. simpl. by rewrite Hw1, He1.
  - destruct (xstep e x1) as [x3|] eqn:E; [|done]. apply (IH x3); [|done].
    by apply (status_hang_step a e x1 x3 y1).
Qed.

End Hang.

End SessionProps.
