(* ===== verification/SessionHeaders.v ===== *)
(** * Header blocks

    What a header block delivered by nghttp2 leaves in a stream, and the round trips
    of the blocks [submit_request] and [submit_response] build. *)

From S2P Require Import Prelude Capy Nghttp2 Charconv Stream StreamRead StreamWrite.
From S2P Require Import StreamSys StreamProps Session SessionSys SessionProps.

Section SessionHeaders.
Context {C : CapyOps} {G : NgConsts}.

(** ** Specification *)

(** The values of the fields called [name], in order. *)
Definition values (name : string) (nva : list nv) : list string :=
  map snd (filter (fun h => h.1 = name) nva).

Definition non_pseudo (nva : list nv) : Headers :=
  filter (fun h => is_pseudo h.1 = false) nva.

(** A content-length that is a whole decimal number in range. *)
Definition parse_length (v : string) : option N :=
  let r := from_chars SIZE_MAX v in
  match fc_ec r, fc_value r with
  | None, Some n => if fc_ptr r =? String.length v then Some n else None
  | _, _ => None
  end.

Definition path_of (nva : list nv) : option string := last (values ":path" nva).

Definition content_length_of (nva : list nv) : option N :=
  last (omap parse_length (values "content-length" nva)).

(** What one field does to the stream it belongs to. *)
Definition capture (s : Stream) (h : nv) : Stream :=
  if bool_decide (h.1 = ":path") then set_path h.2 s
  else if bool_decide (h.1 = ":status") then
    set_status (default 0%N (fc_value (from_chars UINT_MAX h.2))) s
  else if is_pseudo h.1 then s
  else
    let s :=
      if bool_decide (h.1 = "content-length") then
        match parse_length h.2 with Some n => set_content_length n s | None => s end
      else s in
    add_header h.1 h.2 s.

(** nghttp2 delivers a block field by field. *)
Definition receive_block (f : frame) (nva : list nv) (x : Session) : Session :=
  foldl (fun x h => on_header_callback f h.1 h.2 x) x nva.

(** ** A block changes one stream, field by field *)

(** [x'] is [x] with the stream at [a] changed by [g]. *)
Record changes (a : addr) (g : Stream -> Stream) (x x' : Session) : Prop := {
  ch_frame : (role_ x', handler_set x', write_ready_ x', streams_ x', request_counter_ x',
              next_addr x', spawned x', ng_calls x') =
             (role_ x, handler_set x, write_ready_ x, streams_ x, request_counter_ x,
              next_addr x, spawned x, ng_calls x);
  ch_heap a' : heap x' !! a' =
    if decide (a = a') then (fun y => y <| st := g (st y) |>) <$> heap x !! a' else heap x !! a';
}.

Lemma changes_id a x : changes a (fun s => s) x x.
Proof.
  split; [done|]. intros a'. case_decide; [|done]. by destruct (heap x !! a') as [[]|].
Qed.

Lemma changes_upd a g x : changes a g x (upd g a x).
Proof. split; [done|]. intros a'. apply lookup_upd. Qed.

Lemma changes_trans a g g' x1 x2 x3 :
  changes a g x1 x2 -> changes a g' x2 x3 -> changes a (fun s => g' (g s)) x1 x3.
Proof.
  intros [F1 H1] [F2 H2]. split; [by rewrite F2|]. intros a'. rewrite H2, H1.
  case_decide; [|done]. by destruct (heap x1 !! a').
Qed.

Lemma changes_find a g x x' id : changes a g x x' -> find_stream id x' = find_stream id x.
Proof. intros [[= _ _ _ H _ _ _ _] _]. unfold find_stream. by rewrite H. Qed.

Lemma changes_with_stream id a g x :
  find_stream id x = Some a -> changes a g x (with_stream id g x).
Proof. intros H. unfold with_stream. rewrite H. apply changes_upd. Qed.

Lemma on_header_changes f h x a :
  find_stream (hd_stream_id f) x = Some a ->
  changes a (fun s => capture s h) x (on_header_callback f h.1 h.2 x).
Proof.
  intros Hx. unfold on_header_callback, capture, parse_length.
  case_bool_decide; [by apply changes_with_stream|].
  case_bool_decide; [by apply changes_with_stream|].
  destruct (is_pseudo h.1); [apply changes_id|].
  case_bool_decide; [|by apply changes_with_stream].
  destruct (fc_ec _); [by apply changes_with_stream|].
  destruct (fc_value _) as [n|]; [|by apply changes_with_stream].
  destruct (_ =? _); [|by apply changes_with_stream].
  eapply (changes_trans _ (set_content_length n)); [by apply changes_with_stream|].
  apply changes_with_stream. rewrite <-Hx.
  by apply (changes_find a (set_content_length n)), changes_with_stream.
Qed.

Lemma receive_block_changes f nva x a :
  find_stream (hd_stream_id f) x = Some a ->
  changes a (fun s => foldl capture s nva) x (receive_block f nva x).
Proof.
  revert x; induction nva as [|h nva IH]; intros x Hx; simpl; [apply changes_id|].
  apply (changes_trans a (fun s => capture s h) (fun s => foldl capture s nva) _
           (on_header_callback f h.1 h.2 x)); [by apply on_header_changes|].
  apply IH. rewrite <-Hx. by eapply changes_find, on_header_changes.
Qed.

(** ** What a block leaves in a stream *)

Lemma values_snoc name nva h :
  values name (nva ++ [h]) = values name nva ++ if decide (h.1 = name) then [h.2] else [].
Proof.
  unfold values. rewrite filter_app, map_app. f_equal. rewrite filter_cons, filter_nil.
  by case_decide.
Qed.

Record captured (nva : list nv) (s s' : Stream) : Prop := {
  cp_path : path_ s' = default (path_ s) (path_of nva);
  cp_headers : headers_ s' = headers_ s ++ non_pseudo nva;
  cp_length : content_length_ s' =
    match content_length_of nva with Some n => Some n | None => content_length_ s end;
  cp_sides : read_side s' = read_side s /\ write_side s' = write_side s /\ id_ s' = id_ s;
}.

(** One field, accessor by accessor. *)
Lemma capture_spec s h :
  path_ (capture s h) = (if decide (h.1 = ":path") then h.2 else path_ s) /\
  headers_ (capture s h) = headers_ s ++ (if is_pseudo h.1 then [] else [h]) /\
  content_length_ (capture s h) =
    (if decide (h.1 = "content-length")
     then match parse_length h.2 with Some n => Some n | None => content_length_ s end
     else content_length_ s) /\
  read_side (capture s h) = read_side s /\ write_side (capture s h) = write_side s /\
  id_ (capture s h) = id_ s.
Proof.
  destruct h as [n v]. unfold capture; simpl.
  destruct (decide (n = ":path")) as [->|Hp]; [simpl; by rewrite app_nil_r|].
  rewrite bool_decide_false by done.
  destruct (decide (n = ":status")) as [->|Hst]; [simpl; by rewrite app_nil_r|].
  rewrite (bool_decide_false (n = ":status")) by done.
  destruct (decide (n = "content-length")) as [->|Hc]; simpl.
  - by destruct (parse_length v).
  - rewrite bool_decide_false by done. destruct (is_pseudo n); by rewrite ?app_nil_r.
Qed.

Lemma omap_last_snoc {A B} (g : A -> option B) l v :
  last (omap g (l ++ [v])) = match g v with Some w => Some w | None => last (omap g l) end.
Proof.
  rewrite omap_app. change (omap g [v]) with (match g v with Some w => [w] | None => [] end).
  destruct (g v); [apply last_snoc | by rewrite app_nil_r].
Qed.

Lemma foldl_captured s nva : captured nva s (foldl capture s nva).
Proof.
  induction nva as [|h nva IH] using rev_ind.
  { split; simpl; by rewrite ?app_nil_r. }
  rewrite foldl_app. simpl. destruct IH as [Hp Hh Hl (Hr & Hw & Hi)].
  destruct (capture_spec (foldl capture s nva) h) as (Ep & Eh & El & Er & Ew & Ei).
  split.
  - rewrite Ep, Hp. unfold path_of. rewrite values_snoc.
    destruct (decide (h.1 = ":path")); [by rewrite last_snoc | by rewrite app_nil_r].
  - rewrite Eh, Hh. unfold non_pseudo. rewrite filter_app, <-app_assoc. f_equal. f_equal.
    rewrite filter_cons, filter_nil. by destruct (is_pseudo h.1).
  - rewrite El, Hl. unfold content_length_of. rewrite values_snoc.
    destruct (decide (h.1 = "content-length")); [|by rewrite app_nil_r]. rewrite omap_last_snoc.
    by destruct (parse_length h.2).
  - by rewrite Er, Ew, Ei.
Qed.

(** A status field sets the status to the number it starts with. *)
Lemma foldl_capture_status s v hs :
  Forall (fun h => is_pseudo h.1 = false) hs ->
  let s' := foldl capture s ((":status", v) :: hs) in
  status_ s' = int_of_uint (default 0%N (fc_value (from_chars UINT_MAX v))) /\
  status_ready_ s' = event_set (status_ready_ s).
Proof.
  intros Hh. cbn zeta. simpl.
  change (capture s (":status", v))
    with (set_status (default 0%N (fc_value (from_chars UINT_MAX v))) s).
  set (s1 := set_status _ s).
  assert (H1 : status_ (foldl capture s1 hs) = status_ s1 /\
               status_ready_ (foldl capture s1 hs) = status_ready_ s1); [|done].
  clearbody s1. revert s1. induction Hh as [|[n w] hs Hn _ IH]; intros s1; simpl; [done|].
  simpl in Hn. destruct (IH (capture s1 (n, w))) as [-> ->]. unfold capture. simpl.
  rewrite !bool_decide_false by (intros ->; done). rewrite Hn.
  case_bool_decide; [|done]. by destruct (parse_length w).
Qed.

(** ** Receiving a request *)

(** A HEADERS frame that opens a request: its begin, its fields, its end. *)
Definition receive_request (f : frame) (nva : list nv) (x : Session) : Session :=
  on_frame_recv_callback f (receive_block f nva (on_begin_headers_callback f x)).

Lemma on_begin_headers_fresh f x :
  is_request_headers f = true -> find_stream (hd_stream_id f) x = None ->
  let x1 := on_begin_headers_callback f x in
  find_stream (hd_stream_id f) x1 = Some (next_addr x) /\ spawned x1 = spawned x /\
  request_counter_ x1 = ((request_counter_ x + 1) mod (SIZE_MAX + 1))%N /\
  heap x1 = <[next_addr x := sys_new (log_prefix x) (hd_stream_id f)]> (heap x).
Proof.
  unfold find_stream. intros Hf Hn. unfold on_begin_headers_callback. rewrite Hf.
  unfold create_stream, emplace. simpl. rewrite Hn. simpl. by rewrite lookup_insert_eq.
Qed.

(** The state after the block, before the frame is complete. *)
Lemma receive_request_block f nva x :
  is_request_headers f = true -> find_stream (hd_stream_id f) x = None ->
  let x2 := receive_block f nva (on_begin_headers_callback f x) in
  find_stream (hd_stream_id f) x2 = Some (next_addr x) /\ spawned x2 = spawned x /\
  request_counter_ x2 = ((request_counter_ x + 1) mod (SIZE_MAX + 1))%N /\
  heap x2 !! next_addr x =
    Some ((sys_new (log_prefix x) (hd_stream_id f))
            <| st := foldl capture (Stream_new (log_prefix x) (hd_stream_id f)) nva |>) /\
  (forall a, a <> next_addr x -> heap x2 !! a = heap x !! a).
Proof.
  intros Hf Hn. cbn zeta.
  destruct (on_begin_headers_fresh f x Hf Hn) as (Hfind & Hsp & Hc & Hh).
  set (x1 := on_begin_headers_callback f x) in *.
  pose proof (receive_block_changes f nva x1 (next_addr x) Hfind) as Hch.
  rewrite (changes_find _ _ _ _ _ Hch). destruct Hch as [[= _ _ _ _ Ec _ Es _] Hheap].
  rewrite Es, Ec, Hsp, Hc. repeat split; try done.
  - rewrite Hheap, decide_True, Hh, lookup_insert_eq by done. done.
  - intros a Ha. by rewrite Hheap, decide_False, Hh, lookup_insert_ne by congruence.
Qed.

Lemma receive_request_spec f nva x :
  is_request_headers f = true -> find_stream (hd_stream_id f) x = None ->
  let x' := receive_request f nva x in
  spawned x' = spawned x ++ [next_addr x] /\
  find_stream (hd_stream_id f) x' = Some (next_addr x) /\
  request_counter_ x' = ((request_counter_ x + 1) mod (SIZE_MAX + 1))%N /\
  (exists y, heap x' !! next_addr x = Some y /\
     path_ (st y) = default "" (path_of nva) /\ headers_ (st y) = non_pseudo nva /\
     content_length_ (st y) = content_length_of nva /\
     read_eof_ (st y) = end_stream f /\ open_as (hd_stream_id f) (st y) /\ buffered (st y) = []) /\
  (forall a, a <> next_addr x -> heap x' !! a = heap x !! a).
Proof.
  intros Hf Hn. cbn zeta.
  destruct (receive_request_block f nva x Hf Hn) as (Hfind & Hsp & Hc & Hy & Ho).
  set (x2 := receive_block f nva (on_begin_headers_callback f x)) in *.
  set (s0 := Stream_new (log_prefix x) (hd_stream_id f)) in *.
  destruct (foldl_captured s0 nva) as [Hp Hh Hl (Hr & Hw & Hi)].
  assert (Hob : open_as (hd_stream_id f) (foldl capture s0 nva) /\
                buffered (foldl capture s0 nva) = [] /\
                read_eof_ (foldl capture s0 nva) = false).
  { injection Hr as E1 E2 E3 E4 E5 E6. unfold open_as, buffered. by rewrite Hi, E1, E2, E4, E5. }
  destruct Hob as (Hop & Hb & He).
  unfold receive_request, on_frame_recv_callback. fold x2. rewrite Hf, Hfind.
  destruct (end_stream f).
  - assert (Hch : changes (next_addr x) on_read_eof (dispatch_request (next_addr x) x2)
             (with_stream (hd_stream_id f) on_read_eof (dispatch_request (next_addr x) x2)))
      by by apply changes_with_stream.
    rewrite (changes_find _ _ _ _ _ Hch). destruct Hch as [[= _ _ _ _ Ec _ Es _] Hheap].
    rewrite Ec, Es. simpl. rewrite Hsp. repeat split; try done.
    + rewrite Hheap, decide_True by done. simpl. rewrite Hy. simpl.
      eexists. split; [done|]. simpl. rewrite Hp, Hh, Hl. repeat split; try done; [|apply Hop..].
      by destruct (content_length_of nva).
    + intros a Ha. rewrite Hheap, decide_False by congruence. by apply Ho.
  - simpl. rewrite Hsp. repeat split; try done. eexists. split; [done|]. simpl.
    rewrite Hp, Hh, Hl, He. repeat split; try done; [|apply Hop..].
    by destruct (content_length_of nva).
Qed.

(** The callbacks nghttp2 makes for a header block. *)
Definition block_events (f : frame) (nva : list nv) : list xev :=
  map (fun h => XHeader f h.1 h.2) nva.

Lemma xrun_block f nva evs x :
  xrun (block_events f nva ++ evs) x = xrun evs (receive_block f nva x).
Proof. revert x; induction nva as [|h nva IH]; intros x; simpl; [done | apply IH]. Qed.

(** C10 A request is dispatched once, complete: when nghttp2 has delivered the
    HEADERS of a new stream (its begin, its fields in any number and order, its
    end), exactly one handler task was spawned, for a stream that is registered
    under the id, carries the last [:path], every non-pseudo field in order, the
    last well-formed content-length, is at its end exactly when the frame had
    END_STREAM, and has no body yet; no other stream has changed. *)
Theorem request_dispatched f nva x :
  is_request_headers f = true -> find_stream (hd_stream_id f) x = None ->
  exists x' y,
    xrun ([XBeginHeaders f] ++ block_events f nva ++ [XFrameRecv f]) x = Some x' /\
    spawned x' = spawned x ++ [next_addr x] /\
    find_stream (hd_stream_id f) x' = Some (next_addr x) /\
    heap x' !! next_addr x = Some y /\
    path_ (st y) = default "" (path_of nva) /\ headers_ (st y) = non_pseudo nva /\
    content_length_ (st y) = content_length_of nva /\
    read_eof_ (st y) = end_stream f /\ closed_ (st y) = false /\ buffered (st y) = [] /\
    (forall a, a <> next_addr x -> heap x' !! a = heap x !! a).
Proof.
  intros Hf Hn. destruct (receive_request_spec f nva x Hf Hn)
    as (Hs & Hfind & _ & (y & Hy & Hp & Hh & Hl & He & [_ Hc] & Hb) & Ho).
  exists (receive_request f nva x), y.
  split; [cbn [app xrun xstep]; by rewrite xrun_block | done].
Qed.

(** ** Round trips *)

(** Header names an application may pass. *)
Definition plain (hs : Headers) : Prop :=
  Forall (fun h => is_pseudo h.1 = false /\ h.1 <> "content-length") hs.

Lemma non_pseudo_plain hs : plain hs -> non_pseudo hs = hs.
Proof.
  unfold non_pseudo. induction 1 as [|h hs [Hh _] _ IH]; [done|].
  rewrite filter_cons, decide_True by done. f_equal. exact IH.
Qed.

Lemma non_pseudo_app nva nva' : non_pseudo (nva ++ nva') = non_pseudo nva ++ non_pseudo nva'.
Proof. apply filter_app. Qed.

Lemma values_plain name hs :
  plain hs -> is_pseudo name = true \/ name = "content-length" -> values name hs = [].
Proof.
  intros Hh Hn. unfold values. induction Hh as [|h hs [Hp Hc] _ IH]; [done|].
  rewrite filter_cons, decide_False; [exact IH|]. intros <-. destruct Hn; congruence.
Qed.

Lemma values_app name nva nva' : values name (nva ++ nva') = values name nva ++ values name nva'.
Proof. unfold values. by rewrite filter_app, map_app. Qed.

Definition length_field (n : option N) : Headers :=
  match n with Some n => [("content-length", to_string n)] | None => [] end.

Lemma parse_length_to_string n : (n <= SIZE_MAX)%N -> parse_length (to_string n) = Some n.
Proof.
  intros H. unfold parse_length. rewrite from_chars_to_string by done. simpl.
  by rewrite Nat.eqb_refl.
Qed.

Lemma request_nva_spec path n hs :
  plain hs -> (forall k, n = Some k -> (k <= SIZE_MAX)%N) ->
  path_of (request_nva path n hs) = Some path /\
  content_length_of (request_nva path n hs) = n /\
  non_pseudo (request_nva path n hs) = length_field n ++ hs.
Proof.
  intros Hh Hn. unfold path_of, content_length_of, request_nva. fold (length_field n).
  rewrite !values_app, !(values_plain _ hs) by auto. rewrite !app_nil_r. split; [|split].
  - by destruct n.
  - destruct n as [k|]; [|done].
    etrans; [apply (omap_last_snoc parse_length [] (to_string k))|].
    by rewrite parse_length_to_string by auto.
  - rewrite !non_pseudo_app, (non_pseudo_plain hs) by done. by destruct n.
Qed.

(** C26 A request survives the wire: when a client submits a request and a server
    receives the header block handed to nghttp2, the handler's stream has the path,
    the content-length (any [std::size_t]) and the headers that were submitted; the
    content-length also heads the raw header list. *)
Theorem request_roundtrip path n hs ret xc f xs :
  role_ xc = client -> plain hs -> (forall k, n = Some k -> (k <= SIZE_MAX)%N) ->
  is_request_headers f = true -> find_stream (hd_stream_id f) xs = None ->
  exists nva y,
    ng_calls (submit_request path n hs ret xc).2 =
      ng_calls xc ++ [nghttp2_submit_request2 nva (next_addr xc)] /\
    heap (receive_request f nva xs) !! next_addr xs = Some y /\
    path_ (st y) = path /\ content_length_ (st y) = n /\
    headers_ (st y) = length_field n ++ hs.
Proof.
  intros Hrole Hh Hn Hf Hfree. exists (request_nva path n hs).
  destruct (receive_request_spec f (request_nva path n hs) xs Hf Hfree)
    as (_ & _ & _ & (y & Hy & Hp & Hhd & Hl & _) & _).
  destruct (request_nva_spec path n hs Hh Hn) as (Ep & El & Eh).
  exists y. rewrite Hp, Hl, Hhd, Ep, El, Eh. split; [|done].
  unfold submit_request. rewrite Hrole. simpl.
  destruct (ret <? 0)%Z; simpl; [done | by rewrite emplace_calls].
Qed.

Section Response.
Context {L : CapyLaws C}.

(** A response survives the wire: when a server submits a response and a client
    receives the header block under the request's stream id, a client's pending or
    later [status()] returns exactly that status (any that fits an [int]), and the
    headers are appended in order. *)
Theorem response_roundtrip a n hs rv xs f ac xc y :
  (Z.of_N n <= INT_MAX)%Z -> plain hs ->
  find_stream (hd_stream_id f) xc = Some ac -> heap xc !! ac = Some y ->
  exists nva y',
    ng_calls (submit_response a n hs rv xs).2 = ng_calls xs ++ [nghttp2_submit_response2
      match heap xs !! a with Some y => id_ (st y) | None => 0%Z end nva a] /\
    heap (receive_block f nva xc) !! ac = Some y' /\
    headers_ (st y') = headers_ (st y) ++ hs /\
    (status_waiter y = false ->
       exists y2, step EStatus y' = Some y2 /\ log y2 = log y ++ [OStatus (IoResult None n)]) /\
    (status_waiter y = true ->
       exists y2, step (EStatusWake None) y' = Some y2 /\
         log y2 = log y ++ [OStatus (IoResult None n)]).
Proof.
  unfold INT_MAX. intros Hn Hh Hfind Hy. exists (response_nva n hs).
  destruct (receive_block_changes f (response_nva n hs) xc ac Hfind) as [_ Hheap].
  rewrite Hheap, decide_True, Hy by done.
  eexists. split; [unfold submit_response; by destruct (negb _)|]. split; [done|].
  destruct (foldl_captured (st y) (response_nva n hs)) as [_ Hhd _ _].
  destruct (foldl_capture_status (st y) (to_string n) hs) as [Hs Hr].
  { eapply Forall_impl; [exact Hh|]. by intros ? [? _]. }
  fold (response_nva n hs) in Hs, Hr.
  set (s' := foldl capture (st y) (response_nva n hs)) in *. clearbody s'.
  rewrite from_chars_to_string in Hs by (unfold UINT_MAX; lia). simpl in Hs |- *.
  rewrite int_of_uint_small in Hs by (unfold INT_MAX; lia).
  assert (Hd : uint_of_int (status_ s') = n).
  { rewrite Hs, uint_of_int_small by (unfold INT_MAX; lia). lia. }
  assert (Hlt : (status_ s' <? 0)%Z = false) by (rewrite Hs; lia).
  split.
  { rewrite Hhd. f_equal. change (response_nva n hs) with ([(":status", to_string n)] ++ hs).
    by rewrite non_pseudo_app, (non_pseudo_plain hs). }
  split; intros ->; simpl.
  - unfold status. rewrite Hlt, Hd. by eexists.
  - rewrite Hr, event_set_is_set. simpl. rewrite Hlt, Hd. by eexists.
Qed.

End Response.

(** ** [submit_request] *)

(** C31 Every outcome of [submit_request]: a server session refuses it and nothing
    changes; when nghttp2 rejects the request, [invalid_argument] is returned and no
    stream is left behind; otherwise the stream that nghttp2 got as data provider is
    the one registered under the id nghttp2 chose, it carries that id, and the send
    loop is woken. *)
Theorem submit_request_result role handler evs r x path n hs ret :
  xreach role handler evs r x -> Forall fits evs ->
  let a := next_addr x in
  let '(res, x') := submit_request path n hs ret x in
  (role = server -> res = IoResult (Some operation_not_permitted) None /\ x' = x) /\
  (role = client ->
     ng_calls x' = ng_calls x ++ [nghttp2_submit_request2 (request_nva path n hs) a]) /\
  (role = client -> (ret < 0)%Z ->
     res = IoResult (Some invalid_argument) None /\ streams_ x' = streams_ x /\
     heap x' = heap x /\ write_ready_ x' = write_ready_ x) /\
  (role = client -> (0 <= ret)%Z -> find_stream ret x = None ->
     res = IoResult None (Some a) /\ streams_ x' = <[ret := a]> (streams_ x) /\
     heap x' = <[a := sys_new (log_prefix x) ret]> (heap x) /\
     write_ready_ x' = event_set (write_ready_ x)).
Proof.
  intros Hr Hf. pose proof (xreach_inv _ _ _ _ _ Hr Hf) as Hi.
  destruct (xi_fresh _ _ Hi (next_addr x)) as [Hfresh _]; [lia|].
  assert (Hrole : role_ x = role) by (by eapply xreach_role).
  cbn zeta. unfold submit_request. rewrite Hrole.
  destruct role; [by repeat split|]. simpl.
  destruct (Z.ltb_spec ret 0) as [Hneg|Hpos]; simpl.
  - repeat split; try done; try lia. by rewrite delete_insert_id.
  - rewrite emplace_calls. repeat split; try done; try lia.
    all: unfold find_stream, emplace in *; simpl; rewrite H1; simpl; try done.
    rewrite alter_insert_eq. done.
Qed.

End SessionHeaders.

(** ** Concrete runs *)

Module SessionDemo.
#[local] Existing Instance capy_ref.
#[local] Existing Instance ng_ref.

Definition srv : Session := Session_new server true.
Definition cli : Session := Session_new client false.
Definition after_run (evs : list xev) (x : Session) : Session := default x (xrun evs x).

Definition hdrs (id : Z) : frame := mkFrame NGHTTP2_HEADERS id 4 NGHTTP2_HCAT_REQUEST.
Definition resp (id : Z) : frame := mkFrame NGHTTP2_HEADERS id 4 NGHTTP2_HCAT_RESPONSE.

(** Two requests with interleaved bodies; the first reader is parked. *)
Definition serving : list xev :=
  [XBeginHeaders (hdrs 1); XHeader (hdrs 1) ":path" "/echo"; XFrameRecv (hdrs 1);
   XBeginHeaders (hdrs 3); XHeader (hdrs 3) "content-length" "12x"; XFrameRecv (hdrs 3);
   XTurn 0 (ERead (dest [4])); XDataChunk 1 (bytes_of "abc"); XDataChunk 3 (bytes_of "xy");
   XDataChunk 1 (bytes_of "defg"); XTurn 0 (EReadWake None); XDataChunk 7 (bytes_of "!")].

(** A client stream that the peer closes without a response. *)
Definition refused : list xev := [XSubmitRequest "/echo" None [] 1; XStreamClose 1].

Lemma fits_serving : Forall fits serving.
Proof. repeat constructor. Qed.

Lemma fits_refused : Forall fits refused.
Proof. repeat constructor. Qed.

Definition obj (x : Session) (a : addr) : sys := default (sys_new (fun _ => "") 0) (heap x !! a).

Lemma session_refines_streams_witness :
  exists pre id es, reach pre id es (obj (after_run serving srv) 0) /\
    data_of es = bytes_of "abcdefg" /\ reads_fit es.
Proof.
  destruct (xrun_new server true serving (after_run serving srv)) as (r & Hr & Hx);
    [by vm_compute|].
  destruct (session_refines_streams _ _ _ _ _ 0 (obj (after_run serving srv) 0) Hx fits_serving)
    as (pre & id & es & H1 & H2 & H3); [by vm_compute|].
  exists pre, id, es. rewrite H2, Hr. split; [exact H1|]. split; [by vm_compute | exact H3].
Defined.

Lemma session_fifo_witness :
  bytes_of "abcdefg" = delivered (log (obj (after_run serving srv) 0))
    ++ in_sink (st (obj (after_run serving srv) 0))
    ++ buffered (st (obj (after_run serving srv) 0)) /\
  buffered (st (obj (after_run serving srv) 0)) = bytes_of "efg".
Proof.
  destruct (xrun_new server true serving (after_run serving srv)) as (r & Hr & Hx);
    [by vm_compute|].
  destruct (session_fifo _ _ _ _ _ 0 (obj (after_run serving srv) 0) Hx fits_serving) as [H _];
    [by vm_compute|].
  split; [|by vm_compute]. rewrite <-H, Hr. by vm_compute.
Defined.

Lemma session_table_sound_witness :
  (forall id a, streams_ (after_run serving srv) !! id = Some a ->
     exists y, heap (after_run serving srv) !! a = Some y /\ id_ (st y) = id /\
       closed_ (st y) = false) /\
  streams_ (after_run serving srv) !! 3%Z = Some 1.
Proof.
  split; [|by vm_compute].
  destruct (xrun_new server true serving (after_run serving srv)) as (r & Hr & Hx);
    [by vm_compute|].
  apply (session_table_sound _ _ _ _ _ Hx fits_serving).
Defined.

Lemma connection_window_exact_witness :
  connection_consumed (ng_calls (after_run serving srv)) = received serving /\
  received serving = 10.
Proof.
  split; [|done].
  destruct (xrun_new server true serving (after_run serving srv)) as (r & Hr & Hx);
    [by vm_compute|].
  apply (connection_window_exact _ _ _ _ _ Hx).
Defined.

Lemma session_isolation_witness :
  exists x', xstep (XDataChunk 3 (bytes_of "z")) (after_run serving srv) = Some x' /\
    heap x' !! 0 = Some (obj (after_run serving srv) 0) /\
    (forall id', id' <> 3%Z -> find_stream id' x' = find_stream id' (after_run serving srv)).
Proof.
  eexists. split; [reflexivity|].
  destruct (xrun_new server true serving (after_run serving srv)) as (r & Hr & Hx);
    [by vm_compute|].
  eapply (session_isolation _ _ _ _ _ (XDataChunk 3 (bytes_of "z")) 3 _ 0 _ Hx fits_serving);
    by vm_compute.
Defined.

Lemma session_end_wakes_witness :
  let x := after_run (take 7 serving) srv in
  exists x' y', xstep XEnd x = Some x' /\ streams_ x' = ∅ /\ heap x' !! 0 = Some y' /\
    is_Some (step (EReadWake None) y').
Proof.
  cbn zeta.
  destruct (xrun_new server true (take 7 serving) (after_run (take 7 serving) srv))
    as (r & Hr & Hx); [by vm_compute|].
  edestruct (session_end_wakes _ _ _ _ _ 0 (obj (after_run (take 7 serving) srv) 0) Hx)
    as (x' & y' & H1 & H2 & H3 & H4 & _); [by repeat constructor | by vm_compute |].
  exists x', y'. split; [exact H1|]. split; [exact H2|]. split; [exact H3|].
  apply H4; [exists 1%Z; by vm_compute | by vm_compute].
Defined.

Lemma stream_close_wakes_witness :
  let x := after_run (take 7 serving) srv in
  exists x' y y', xstep (XStreamClose 1) x = Some x' /\ find_stream 1 x' = None /\
    heap x !! 0 = Some y /\ read_sink_ (st y) <> None /\ heap x' !! 0 = Some y' /\
    is_Some (step (EReadWake None) y').
Proof.
  cbn zeta.
  destruct (xrun_new server true (take 7 serving) (after_run (take 7 serving) srv))
    as (r & Hr & Hx); [by vm_compute|].
  destruct (stream_close_wakes _ _ _ _ _ 1 Hx) as (x' & H1 & H2 & _ & H4);
    [by repeat constructor|].
  destruct (H4 0) as (y & y' & Hy & Hy' & _ & Hrd & _); [by vm_compute|].
  exists x', y, y'. split; [exact H1|]. split; [exact H2|]. split; [exact Hy|].
  assert (Hk : read_sink_ (st y) <> None).
  { assert (E : y = obj (after_run (take 7 serving) srv) 0) by (unfold obj; by rewrite Hy).
    rewrite E. by vm_compute. }
  split; [exact Hk|]. split; [exact Hy' | exact (Hrd Hk)].
Defined.

Lemma status_hangs_in_session_witness :
  exists x1, xstep (XTurn 0 EStatus) (after_run refused cli) = Some x1 /\
    forall evs' x2, Forall (not_cancelled 0) evs' -> xrun evs' x1 = Some x2 ->
      (exists y2, heap x2 !! 0 = Some y2 /\ status_waiter y2 = true) /\
      xstep (XTurn 0 (EStatusWake None)) x2 = None.
Proof.
  destruct (xrun_new client false refused (after_run refused cli)) as (r & Hr & Hx);
    [by vm_compute|].
  apply (status_hangs_in_session _ _ _ _ _ 0 (obj (after_run refused cli) 0) Hx fits_refused);
    by vm_compute.
Defined.

Definition fields : list nv :=
  [(":method", "POST"); (":path", "/echo"); ("content-length", "12"); ("x-a", "b")].

Lemma request_dispatched_witness :
  exists x' y,
    xrun ([XBeginHeaders (hdrs 1)] ++ block_events (hdrs 1) fields ++ [XFrameRecv (hdrs 1)]) srv
    = Some x' /\
    spawned x' = [0] /\ heap x' !! 0 = Some y /\ path_ (st y) = "/echo" /\
    headers_ (st y) = [("content-length", "12"); ("x-a", "b")] /\
    content_length_ (st y) = Some 12%N /\ read_eof_ (st y) = false.
Proof.
  destruct (request_dispatched (hdrs 1) fields srv)
    as (x' & y & H1 & H2 & _ & H4 & H5 & H6 & H7 & H8 & _); [by vm_compute | by vm_compute |].
  exists x', y. repeat split; [exact H1 | exact H2 | exact H4 | exact H5 | exact H6 | exact H7 |].
  rewrite H8. by vm_compute.
Defined.

Lemma request_roundtrip_witness :
  exists nva y,
    ng_calls (submit_request "/x" (Some 7%N) [("x-a", "b")] 1 cli).2
      = [nghttp2_submit_request2 nva 0] /\
    heap (receive_request (hdrs 1) nva srv) !! 0 = Some y /\
    path_ (st y) = "/x" /\ content_length_ (st y) = Some 7%N /\
    headers_ (st y) = [("content-length", "7"); ("x-a", "b")].
Proof.
  destruct (request_roundtrip "/x" (Some 7%N) [("x-a", "b")] 1 cli (hdrs 1) srv)
    as (nva & y & H1 & H2 & H3 & H4 & H5);
    [done | by repeat constructor | by intros k [= <-] | done | done |].
  exists nva, y. split; [exact H1|]. split; [exact H2|]. split; [exact H3|].
  split; [exact H4 | exact H5].
Defined.

Lemma response_roundtrip_witness :
  let xc := after_run [XSubmitRequest "/x" None [] 1] cli in
  exists nva y',
    ng_calls (submit_response 0 404 [("x-a", "b")] 0 (after_run serving srv)).2
      = ng_calls (after_run serving srv) ++ [nghttp2_submit_response2 1 nva 0] /\
    heap (receive_block (resp 1) nva xc) !! 0 = Some y' /\
    headers_ (st y') = [("x-a", "b")] /\
    exists y2, step EStatus y' = Some y2 /\ log y2 = [OStatus (IoResult None 404%N)].
Proof.
  cbn zeta.
  destruct (response_roundtrip 0 404 [("x-a", "b")] 0 (after_run serving srv) (resp 1) 0
              (after_run [XSubmitRequest "/x" None [] 1] cli) (sys_new (log_prefix cli) 1))
    as (nva & y' & H1 & H2 & H3 & H4 & _);
    [done | by repeat constructor | by vm_compute | by vm_compute |].
  exists nva, y'. split; [exact H1|]. split; [exact H2|]. split; [exact H3|]. by apply H4.
Defined.

Lemma submit_request_result_witness :
  let '(res, x') := submit_request "/x" None [] 1 cli in
  res = IoResult None (Some 0) /\ streams_ x' = {[1%Z := 0]}.
Proof.
  pose proof (submit_request_result client false [] _ cli "/x" None [] 1 (xreach_new _ _)
                ltac:(constructor)) as H.
  cbn zeta in H. destruct (submit_request "/x" None [] 1 cli) as [res x'].
  destruct H as (_ & _ & _ & H). destruct H as (-> & -> & _); [done..|]. done.
Defined.

End SessionDemo.
