(* ===== verification/SessionTypes.v ===== *)
(** * Machine widths in a session

    The integers a session keeps are C++ integers: [std::int32_t] ids, an [int]
    status, [std::size_t] lengths and counters.  The model keeps them as [Z] and [N]; in
    every reachable session they are values of those types. *)

From S2P Require Import Prelude Capy Nghttp2 Charconv Stream StreamRead StreamWrite.
From S2P Require Import StreamSys StreamProps Session SessionSys SessionProps SessionHeaders.

(** A value of [int] or [std::int32_t]. *)
Definition int32 (z : Z) : Prop := (- INT_MAX - 1 <= z <= INT_MAX)%Z.

Lemma int_of_uint_int32 u : int32 (int_of_uint u).
Proof.
  unfold int32, int_of_uint, INT_MAX. pose proof (Z.mod_pos_bound (Z.of_N u) 4294967296 ltac:(lia)).
  destruct (Z.leb_spec (Z.of_N u mod 4294967296) 2147483647); lia.
Qed.

Lemma from_chars_bound max s n : fc_value (from_chars max s) = Some n -> (n <= max)%N.
Proof.
  unfold from_chars. destruct (scan_digits s 0 0) as [v k]. destruct (_ =? _); [done|].
  destruct (N.ltb_spec max v); [done|]. by intros [= <-].
Qed.

Section SessionTypes.
Context {C : CapyOps} {G : NgConsts}.

Record typed_stream (s : Stream) : Prop := {
  ty_id : int32 (id_ s);
  ty_status : int32 (status_ s);
  ty_length n : content_length_ s = Some n -> (n <= SIZE_MAX)%N;
}.

Record typed (x : Session) : Prop := {
  ty_streams a y : heap x !! a = Some y -> typed_stream (st y);
  ty_counter : (request_counter_ x <= SIZE_MAX)%N;
}.

(** nghttp2 passes stream ids as [std::int32_t]. *)
Definition typed_event (e : xev) : Prop :=
  match e with
  | XBeginHeaders f => int32 (hd_stream_id f)
  | XSubmitRequest _ _ _ ret => int32 ret
  | _ => True
  end.

Lemma typed_new pre id : int32 id -> typed_stream (Stream_new pre id).
Proof. intros H. by split. Qed.

(** Body operations touch none of these fields. *)
Lemma typed_turn e y y' :
  is_turn e = true -> step e y = Some y' -> typed_stream (st y) -> typed_stream (st y').
Proof.
  intros He H [H1 H2 H3]. destruct e; try done; simpl in H;
    unfold note, read_some, read_some_resume, write_impl, producer_callback, status in H;
    break; simplify_eq; done.
Qed.

Lemma typed_with_stream id f x :
  (forall s, typed_stream s -> typed_stream (f s)) -> typed x -> typed (with_stream id f x).
Proof.
  intros Hf [Hs Hc]. destruct (with_stream_frame id f x) as (_ & _ & _ & _ & Ec).
  split; [|by rewrite Ec]. intros a y. rewrite with_stream_heap. case_bool_decide; [|apply Hs].
  destruct (heap x !! a) as [y0|] eqn:Ey; [|done]. intros [= <-]. by apply Hf, (Hs a).
Qed.

Lemma typed_on_data d s : typed_stream s -> typed_stream (on_data d s).
Proof. intros [H1 H2 H3]. unfold on_data. by break. Qed.

Lemma typed_heap x x' :
  heap x' = heap x -> request_counter_ x' = request_counter_ x -> typed x -> typed x'.
Proof. intros E1 E2 [Hs Hc]. split; rewrite ?E1, ?E2; done. Qed.

Lemma typed_insert a y x :
  typed_stream (st y) -> typed x -> typed (x <| heap := <[a := y]> (heap x) |>).
Proof.
  intros Hy [Hs Hc]. split; [|done]. intros a' y'. simpl.
  destruct (decide (a = a')) as [->|]; [rewrite lookup_insert_eq; by intros [= <-]|].
  rewrite lookup_insert_ne by done. apply Hs.
Qed.

Lemma typed_header f n v x : typed x -> typed (on_header_callback f n v x).
Proof.
  intros Ht. unfold on_header_callback.
  assert (Hadd : forall x, typed x -> typed (with_stream (hd_stream_id f) (add_header n v) x))
    by (intros ? ?; apply typed_with_stream; [by intros s [? ? ?] | done]).
  case_bool_decide; [apply typed_with_stream; [by intros s [? ? ?] | done]|].
  case_bool_decide.
  { apply typed_with_stream; [|done]. intros s [T1 _ T3]. split; [done| |done].
    apply int_of_uint_int32. }
  destruct (is_pseudo n); [done|]. apply Hadd. case_bool_decide; [|done].
  destruct (fc_ec _); [done|]. destruct (fc_value _) as [len|] eqn:El; [|done].
  destruct (_ =? _); [|done]. apply typed_with_stream; [|done]. intros s [T1 T2 _].
  split; [done|done|]. intros m [= <-]. by apply (from_chars_bound SIZE_MAX v).
Qed.

Lemma typed_close_list l x : typed x -> typed (foldr (upd on_close) x l).
Proof.
  intros Ht. induction l as [|a l IH]; [done|]. cbn [foldr]. destruct IH as [Hs Hc].
  split; [|done]. intros a' y. rewrite lookup_upd. case_decide; [|apply Hs].
  destruct (heap _ !! a') as [y0|] eqn:E; [|done]. intros [= <-].
  by destruct (Hs _ _ E).
Qed.

Lemma typed_submit_request path n hs ret x :
  int32 ret -> typed x -> typed (submit_request path n hs ret x).2.
Proof.
  intros Hi Ht. unfold submit_request. destruct (role_ x); [done|]. cbn [new_stream].
  assert (Ht1 : typed (new_stream 0 x).2).
  { apply (typed_heap (x <| heap := <[next_addr x := sys_new (log_prefix x) 0]> (heap x) |>)); try done.
    apply typed_insert; [|done]. apply typed_new. unfold int32, INT_MAX. lia. }
  destruct Ht1 as [Hs Hc]. destruct (ret <? 0)%Z; simpl.
  - split; [|done]. intros a y. simpl. rewrite lookup_delete_Some. intros [_ H]. by apply (Hs a).
  - apply (typed_heap (upd (set_id (log_prefix x) ret) (next_addr x) (new_stream 0 x).2)).
    1, 2: unfold emplace; simpl; by destruct (streams_ x !! ret).
    split; [|done]. intros a y. rewrite lookup_upd. case_decide; [|apply Hs].
    destruct (heap _ !! a) as [y0|] eqn:E; [|done]. intros [= <-]. destruct (Hs a y0 E). by split.
Qed.

Lemma perform_all_counter cs x : request_counter_ (perform_all x cs) = request_counter_ x.
Proof.
  revert x; induction cs as [|c cs IH]; intros x; simpl; [done|]. rewrite IH. by destruct c.
Qed.

Lemma typed_step e x x' : typed_event e -> xstep e x = Some x' -> typed x -> typed x'.
Proof.
  intros He Hs Ht. destruct e as [f|f n v|f|id d|id|a e|path n hs ret|a n hs rv| | |];
    simpl in Hs; try (injection Hs as <-).
  - unfold on_begin_headers_callback. destruct (is_request_headers f); [|done].
    apply (typed_heap ((new_stream (hd_stream_id f) x).2
                         <| request_counter_ := ((request_counter_ x + 1) mod (SIZE_MAX + 1))%N |>)).
    1, 2: unfold create_stream, emplace; simpl; by destruct (streams_ x !! _).
    split; [|simpl; pose proof (N.mod_lt (request_counter_ x + 1) (SIZE_MAX + 1)); unfold SIZE_MAX in *; lia].
    apply (typed_insert (next_addr x) (sys_new (log_prefix x) (hd_stream_id f)) x); [|done].
    by apply typed_new.
  - by apply typed_header.
  - unfold on_frame_recv_callback.
    assert (Hd : forall x1, typed x1 -> typed (if end_stream f then
              with_stream (hd_stream_id f) on_read_eof x1 else x1)).
    { intros x1 H1. destruct (end_stream f); [|done]. apply typed_with_stream; [by intros s [? ? ?] | done]. }
    apply Hd. destruct (is_request_headers f); [|done]. by destruct (find_stream _ _), Ht.
  - apply typed_with_stream; [apply typed_on_data | by destruct Ht].
  - unfold on_stream_close_callback, close_stream. destruct (streams_ x !! id) as [a|]; [|done].
    apply (typed_heap (foldr (upd on_close) x [a])); [done|done|]. by apply typed_close_list.
  - destruct (is_turn e) eqn:Et; [|done]. destruct (heap x !! a) as [y|] eqn:Ey; [|done].
    destruct (step e y) as [y'|] eqn:Es; [|done]. injection Hs as <-.
    apply (typed_heap (x <| heap := <[a := y']> (heap x) |>)).
    + apply perform_all_frame.
    + apply perform_all_counter.
    + apply typed_insert; [|done]. apply (typed_turn e y); [done|done|by apply (ty_streams _ Ht a)].
  - by apply typed_submit_request.
  - unfold submit_response. by destruct (negb _), Ht.
  - by destruct Ht.
  - by destruct Ht.
  - apply typed_close_list. by destruct Ht.
Qed.

(** C28 The integers of a session stay in the range of their C++ types: in every
    reachable session stream ids and statuses are [int] values (a status the peer sends
    beyond that range wraps around, as the conversion does), content-lengths and the
    request counter are [std::size_t] values, provided the ids nghttp2 passes in are
    [std::int32_t]s. *)
Theorem session_typed role handler evs r x :
  xreach role handler evs r x -> Forall typed_event evs ->
  (request_counter_ x <= SIZE_MAX)%N /\
  (forall a y, heap x !! a = Some y ->
     int32 (id_ (st y)) /\ int32 (status_ (st y)) /\
     (forall n, content_length_ (st y) = Some n -> (n <= SIZE_MAX)%N)).
Proof.
  intros Hr Hf. assert (Ht : typed x).
  { induction Hr as [|evs r x e x' _ IH Hs]; [by split|].
    apply Forall_app in Hf as [Hf He]. apply Forall_inv in He.
    apply (typed_step e x); [done|done|by apply IH]. }
  destruct Ht as [Hs Hc]. split; [done|]. intros a y Ha. by destruct (Hs a y Ha).
Qed.

End SessionTypes.

Module SessionTypesDemo.
#[local] Existing Instance capy_ref.
#[local] Existing Instance ng_ref.
Import SessionDemo.

(** A response whose status does not fit an [int]. *)
Definition evs : list xev :=
  [XSubmitRequest "/" None [] 1;
   XHeader (mkFrame NGHTTP2_HEADERS 1 0 NGHTTP2_HCAT_RESPONSE) ":status" "4294967295"].
Definition x1 : Session := after_run evs (Session_new client false).

Lemma session_typed_witness : int32 (status_ (st (obj x1 0))) /\ status_ (st (obj x1 0)) = (-1)%Z.
Proof.
  destruct (xrun_new client false evs x1) as (r & _ & Hx); [by vm_compute|].
  destruct (session_typed client false evs r x1 Hx) as [_ H].
  { repeat constructor; simpl; unfold INT_MAX; lia. }
  destruct (H 0 (obj x1 0)) as (_ & H2 & _); [by vm_compute|].
  split; [exact H2 | by vm_compute].
Defined.

End SessionTypesDemo.
