(* ===== verification/Loops.v ===== *)
(** * The I/O loops of a session

    [Session::Impl::send_loop], [recv_loop], [start_write] and the set-up in
    [run()] (src/session.cpp).  The two loops meet in nghttp2's session object and in
    the event [write_ready_].

    nghttp2's state is a parameter [W] with the five entry points the loops use: it
    stands for the [nghttp2_session] together with the streams its callbacks touch
    (Session, Stream), none of which calls [start_write].  Other coroutines change it
    between turns through [other]. *)

From S2P Require Import Prelude Capy Nghttp2 Session.

(** ** The nghttp2 session *)

Class NgSession (W : Type) := {
  (** [nghttp2_session_mem_send2]: the return value and the bytes pointed to. *)
  mem_send2 : W -> Z * bytes * W;
  (** [nghttp2_session_mem_recv2]: the return value. *)
  mem_recv2 : bytes -> W -> Z * W;
  want_read : W -> bool;
  want_write : W -> bool;
  terminate_session : Z -> W -> W;
  (** What coroutines other than the loops may do to it. *)
  other : W -> W -> Prop;
}.

Class NgSessionLaws (W : Type) {N : NgSession W} : Prop := {
  (** The return value is the number of bytes, or a negative error code. *)
  mem_send2_length w : let '(n, data, _) := mem_send2 w in
    (0 <= n)%Z -> n = Z.of_nat (length data);
}.

(** What [nghttp2_session_terminate_session] is documented to bring about: the
    session stays terminated, and once its last bytes are out it wants neither to
    read nor to write. *)
Class NgClosing (W : Type) {N : NgSession W} := {
  terminated : W -> Prop;
  terminate_terminated code w : terminated (terminate_session code w);
  terminated_send w : terminated w -> terminated (mem_send2 w).2;
  terminated_other w w' : terminated w -> other w w' -> terminated w';
  terminated_idle w data w' : terminated w -> mem_send2 w = (0%Z, data, w') ->
    want_read w' = false /\ want_write w' = false;
}.

(** ** Setting up a session *)

(** The callbacks of session.cpp, by the slot each is registered in. *)
Inductive callback :=
| cb_begin_headers | cb_header | cb_frame_not_send | cb_error | cb_invalid_header
| cb_frame_recv | cb_data_chunk_recv | cb_frame_send | cb_stream_close.

(** A [std::runtime_error] with its message, or a value. *)
Definition throws (A : Type) : Type := string + A.

(** [setup_callbacks()]; [rv] is what [nghttp2_session_callbacks_new] returns. *)
Definition setup_callbacks (rv : Z) : throws (list callback) :=
  if negb (rv =? 0)%Z then inl "nghttp2_session_callbacks_new failed"
  else inr [cb_begin_headers; cb_header; cb_frame_not_send; cb_error; cb_invalid_header;
            cb_frame_recv; cb_data_chunk_recv; cb_frame_send; cb_stream_close].

Definition window_size : N := 1024 * 1024.

(** [run()] before its loops: the three allocations can fail ([option_rv],
    [callbacks_rv], [session_rv] are what they return); the callbacks registered and
    the calls issued to nghttp2. *)
Definition run_setup (role : Role) (option_rv callbacks_rv session_rv : Z)
  : throws (list callback * list call) :=
  if negb (option_rv =? 0)%Z then inl "nghttp2_option_new failed"
  else
    match setup_callbacks callbacks_rv with
    | inl what => inl what
    | inr callbacks =>
        if negb (session_rv =? 0)%Z then
          inl match role with
              | server => "nghttp2_session_server_new2 failed"
              | client => "nghttp2_session_client_new2 failed"
              end
        else
          inr (callbacks,
               [nghttp2_submit_settings [(NGHTTP2_SETTINGS_MAX_CONCURRENT_STREAMS, 100%N);
                                         (NGHTTP2_SETTINGS_INITIAL_WINDOW_SIZE, window_size)];
                nghttp2_session_set_local_window_size 0 window_size])
    end.

Section Loops.
Context {C : CapyOps} {G : NgConsts} {W : Type} {N : NgSession W}.

(** [pending.capacity()] after [pending.reserve(1460)]. *)
Context (capacity : nat).

(** ** [send_loop] *)

(** Where [send_loop] is: not started, in [capy::write] of two buffers, in
    [write_ready_.wait()], or returned. *)
Inductive send_phase :=
| SNew
| SWriting (buffered fresh : bytes)
| SWaiting
| SDone.

Record send_out := mkSendOut {
  so_phase : send_phase;
  so_pending : bytes;
  so_world : W;
  so_clear : bool;          (* write_ready_.clear() was called *)
  so_polled : list bytes;   (* what mem_send2 returned, oldest first *)
}.

(** The loop from its top to the next suspension or the end. *)
Fixpoint send_loop (fuel : nat) (pending : bytes) (w : W) (polled : list bytes)
  : option send_out :=
  match fuel with
  | O => None
  | S fuel =>
      let '(nread, data, w) := mem_send2 w in
      if (nread <? 0)%Z then Some (mkSendOut SDone pending w false polled)
      else
        let polled := polled ++ [data] in
        if ((0 <? nread) && (nread <=? Z.of_nat (capacity - length pending)))%Z
        then send_loop fuel (pending ++ data) w polled
        else if (0 <? Z.of_nat (length pending) + nread)%Z
        then Some (mkSendOut (SWriting pending data) pending w false polled)
        else if negb (want_read w) && negb (want_write w)
        then Some (mkSendOut SDone pending w false polled)
        else Some (mkSendOut SWaiting pending w true polled)
  end.

(** Every round but the last buffers at least one byte. *)
Definition send_fuel (pending : bytes) : nat := S (capacity - length pending).

(** ** [recv_loop] *)

Inductive recv_phase := RNew | RReading | RDone.

(** [buffer(64 * 1024)]. *)
Definition recv_buffer_size : nat := N.to_nat 65536.

Record recv_out := mkRecvOut {
  ro_phase : recv_phase;
  ro_world : W;
  ro_start_write : bool;    (* start_write() was called *)
}.

(** After the loop: [terminate_session(NO_ERROR)] and [start_write()]. *)
Definition recv_finish (w : W) : recv_out :=
  mkRecvOut RDone (terminate_session NGHTTP2_NO_ERROR w) true.

(** The loop's condition; [started] tells whether [start_write()] was called since
    the last suspension. *)
Definition recv_check (started : bool) (w : W) : recv_out :=
  if want_read w || want_write w then mkRecvOut RReading w started else recv_finish w.

(** After [co_await stream_.read_some(buffer)] returned [ec] and the bytes [data]. *)
Definition recv_resume (read_ec : error_code) (data : bytes) (w : W) : recv_out :=
  match read_ec with
  | Some _ => recv_finish w
  | None =>
      let '(rv, w) := mem_recv2 data w in
      if (rv <? 0)%Z
      then recv_finish (terminate_session NGHTTP2_PROTOCOL_ERROR w)
      else recv_check true w
  end.

(** ** Both loops *)

Record conn := mkConn {
  world : W;
  ready : async_event;      (* write_ready_ *)
  sphase : send_phase;
  spending : bytes;         (* pending *)
  rphase : recv_phase;
  (* observed *)
  produced : bytes;         (* what mem_send2 returned *)
  sent : bytes;             (* what completed writes put on the wire *)
  fed : bytes;              (* what mem_recv2 was given *)
  poked : bool;             (* start_write() since mem_send2 last returned nothing *)
}.

#[export] Instance conn_eta : Eta conn := {| eta := fun c =>
  mkConn (world c) (ready c) (sphase c) (spending c) (rphase c) (produced c) (sent c)
    (fed c) (poked c) |}.

Definition conn_new (w : W) : conn :=
  mkConn w event_new SNew [] RNew [] [] [] false.

Definition do_poke (c : conn) : conn :=
  c <| ready := event_set (ready c) |> <| poked := true |>.

(** [send_loop] runs until it suspends; [None] if it never does. *)
Definition send_turn (c : conn) : option conn :=
  match send_loop (send_fuel (spending c)) (spending c) (world c) [] with
  | None => None
  | Some o =>
      Some (c <| world := so_world o |> <| sphase := so_phase o |> <| spending := so_pending o |>
              <| produced := produced c ++ concat (so_polled o) |>
              <| ready := if so_clear o then event_clear (ready c) else ready c |>
              <| poked := match so_phase o with SWaiting => false | _ => poked c end |>)
  end.

Definition recv_turn (o : recv_out) (c : conn) : conn :=
  let c := c <| world := ro_world o |> <| rphase := ro_phase o |> in
  if ro_start_write o then do_poke c else c.

Inductive cev :=
| CSendStart                                      (* send_loop is started *)
| CRecvStart                                      (* recv_loop is started *)
| CWritten (write_ec : error_code) (n : nat)      (* capy::write returns *)
| CWake (wait_ec : error_code)                    (* write_ready_.wait() returns *)
| CRead (read_ec : error_code) (data : bytes)     (* stream_.read_some returns *)
| CStartWrite                                     (* another coroutine calls start_write *)
| COther (w : W).                                 (* another coroutine uses nghttp2 *)

Definition wait_completes (wait_ec : error_code) (e : async_event) : bool :=
  match wait_ec with Some _ => true | None => event_is_set e end.

Definition cstep (e : cev) (c : conn) : option conn :=
  match e with
  | CSendStart => match sphase c with SNew => send_turn c | _ => None end
  | CRecvStart =>
      match rphase c with RNew => Some (recv_turn (recv_check false (world c)) c) | _ => None end
  | CWritten write_ec n =>
      match sphase c with
      | SWriting buf fresh =>
          (* capy::write returns without an error only when all is written *)
          let done := match write_ec with None => buf ++ fresh | Some _ => take n (buf ++ fresh) end in
          let c := c <| sent := sent c ++ done |> <| spending := [] |> in
          match write_ec with
          | Some _ => Some (c <| sphase := SDone |>)
          | None => send_turn c
          end
      | _ => None
      end
  | CWake wait_ec =>
      match sphase c with
      | SWaiting =>
          if wait_completes wait_ec (ready c) then
            match wait_ec with
            | Some _ => Some (c <| sphase := SDone |>)
            | None => send_turn c
            end
          else None
      | _ => None
      end
  | CRead read_ec data =>
      match rphase c with
      | RReading =>
          if length data <=? recv_buffer_size then
            let c := match read_ec with None => c <| fed := fed c ++ data |> | Some _ => c end in
            Some (recv_turn (recv_resume read_ec data (world c)) c)
          else None
      | _ => None
      end
  | CStartWrite => Some (do_poke c)
  | COther w => Some (c <| world := w |>)
  end.

(** Reachable states; other coroutines respect [other]. *)
Inductive creach (w : W) : conn -> Prop :=
| creach_new : creach w (conn_new w)
| creach_step c e c' :
    creach w c -> (forall w', e = COther w' -> other (world c) w') ->
    cstep e c = Some c' -> creach w c'.

End Loops.
