(* ===== verification/LoopProps.v ===== *)
(** * Properties of the I/O loops

    The send loop neither loses nor reorders what nghttp2 produces, never sleeps on
    a wake-up, batches small chunks within its buffer; and the end of the receive
    loop brings the send loop to its end. *)

From S2P Require Import Prelude Capy Nghttp2 Session Loops.

Section LoopProps.
Context {C : CapyOps} {L : CapyLaws C} {G : NgConsts}.
Context {W : Type} {N : NgSession W} {NL : NgSessionLaws W}.
Context (capacity : nat).
Implicit Types (w : W) (c : conn (W := W)).

Local Abbreviation loop := (send_loop capacity).

(** ** One turn of [send_loop] *)

(** What the loop has done when it suspends or ends, having started with [pending]
    and been given [datas] by nghttp2. *)
Definition turn_spec (pending : bytes) (datas : list bytes) (o : send_out (W := W)) : Prop :=
  match so_phase o with
  | SNew => False
  | SWriting b f =>
      so_pending o = b /\ so_clear o = false /\ pending ++ concat datas = b ++ f /\
      length b <= capacity /\ b ++ f <> [] /\ (f = [] \/ capacity < length b + length f)
  | SWaiting =>
      so_pending o = [] /\ so_clear o = true /\ pending ++ concat datas = [] /\
      want_read (so_world o) || want_write (so_world o) = true
  | SDone =>
      so_clear o = false /\ so_pending o = pending ++ concat datas /\
      length (so_pending o) <= capacity
  end.

Lemma send_loop_ok fuel pending w polled :
  length pending <= capacity -> capacity - length pending < fuel ->
  exists o datas, loop fuel pending w polled = Some o /\
    so_polled o = polled ++ datas /\ turn_spec pending datas o.
Proof.
  revert pending w polled; induction fuel as [|fuel IH]; intros pending w polled Hp Hf; [lia|].
  simpl. pose proof (mem_send2_length w) as Hlen.
  destruct (mem_send2 w) as [[n data] w']. destruct (Z.ltb_spec n 0) as [|Hn].
  { eexists _, []. split; [done|]. simpl. rewrite app_nil_r. split; [done|].
    unfold turn_spec. simpl. by rewrite app_nil_r. }
  specialize (Hlen Hn). subst n.
  destruct (Z.ltb_spec 0 (Z.of_nat (length data))) as [Hpos|Hz]; cbn [andb].
  - destruct (Z.leb_spec (Z.of_nat (length data)) (Z.of_nat (capacity - length pending)))
      as [Hfit|Hbig].
    + destruct (IH (pending ++ data) w' (polled ++ [data])) as (o & ds & E & Ep & Hs);
        [rewrite length_app; lia..|].
      exists o, (data :: ds). split; [done|]. rewrite Ep, <-app_assoc. split; [done|].
      unfold turn_spec in *. simpl. by rewrite app_assoc.
    + destruct (Z.ltb_spec 0 (Z.of_nat (length pending) + Z.of_nat (length data))); [|lia].
      eexists _, [data]. split; [done|]. split; [done|]. unfold turn_spec. simpl.
      rewrite app_nil_r. repeat split; try done; [|lia].
      intros E. apply (f_equal length) in E. rewrite length_app in E. simpl in E. lia.
  - assert (data = []) as -> by (destruct data; simpl in *; [done|lia]).
    cbn [length]. destruct (Z.ltb_spec 0 (Z.of_nat (length pending) + Z.of_nat 0)) as [Hq|Hq].
    + eexists _, [[]]. split; [done|]. split; [done|]. unfold turn_spec. simpl.
      rewrite app_nil_r. repeat split; try done; [|by left].
      intros ->. simpl in Hq. lia.
    + assert (pending = []) as -> by (destruct pending; simpl in *; [done|lia]).
      destruct (want_read w') eqn:Er, (want_write w') eqn:Ew; simpl;
        eexists _, [[]]; (split; [done|]); (split; [done|]); unfold turn_spec; simpl;
        rewrite ?Er, ?Ew; repeat split; try done; lia.
Qed.

Lemma send_turn_ok c :
  length (spending c) <= capacity ->
  exists o datas, loop (send_fuel capacity (spending c)) (spending c) (world c) [] = Some o /\
    so_polled o = datas /\ turn_spec (spending c) datas o.
Proof. intros H. apply (send_loop_ok _ _ (world c) []); [done | unfold send_fuel; lia]. Qed.

(** ** Invariant of the connection *)

(** Bytes nghttp2 gave the loop that are not on the wire yet. *)
Definition in_flight c : bytes :=
  match sphase c with SWriting b f => b ++ f | _ => spending c end.

Record cinv c : Prop := {
  ci_size : length (spending c) <= capacity;
  ci_idle : sphase c = SNew \/ sphase c = SWaiting -> spending c = [];
  ci_write b f : sphase c = SWriting b f ->
    b = spending c /\ b ++ f <> [] /\ (f = [] \/ capacity < length b + length f);
  ci_sent : sphase c <> SDone -> produced c = sent c ++ in_flight c;
  ci_prefix : sent c `prefix_of` produced c;
  ci_ready : sphase c = SWaiting -> event_is_set (ready c) = poked c;
}.

(** A turn of [send_loop] with nothing of its own on the way. *)
Lemma cinv_turn c c' :
  length (spending c) <= capacity -> produced c = sent c ++ spending c ->
  send_turn capacity c = Some c' -> cinv c'.
Proof.
  intros Hsz Hp Ht.
  unfold send_turn in Ht. destruct (send_turn_ok c Hsz) as (o & ds & E & <- & Hspec).
  rewrite E in Ht. injection Ht as <-. unfold turn_spec in Hspec.
  assert (Hpre' : sent c `prefix_of` produced c ++ concat (so_polled o)).
  { rewrite Hp, <-app_assoc. by exists (spending c ++ concat (so_polled o)). }
  destruct (so_phase o) as [|b f| |]; [done|..].
  - destruct Hspec as (-> & -> & Hcat & Hle & Hne & Hor). split; simpl; try done.
    + by intros [?|?].
    + by intros b' f' [= <- <-].
    + intros _. by rewrite Hp, <-app_assoc, Hcat.
  - destruct Hspec as (-> & -> & Hcat & _). apply app_nil in Hcat as [Hc1 Hc2].
    split; simpl; try done.
    + lia.
    + intros _. by rewrite Hp, Hc1, Hc2, !app_nil_r.
    + intros _. apply event_clear_is_set.
  - destruct Hspec as (-> & Hpe & Hle). split; simpl; try done. by intros [?|?].
Qed.

Lemma cinv_poke c : cinv c -> cinv (do_poke c).
Proof.
  intros [H1 H2 H3 H4 H5 H6]. split; try done. intros _. apply event_set_is_set.
Qed.

Lemma cinv_recv o c : cinv c -> cinv (recv_turn o c).
Proof.
  intros H. assert (H' : cinv (c <| world := ro_world o |> <| rphase := ro_phase o |>))
    by by destruct H.
  unfold recv_turn. destruct (ro_start_write o); [by apply cinv_poke | done].
Qed.

(** The loop ends here. *)
Lemma cinv_done c : cinv c -> cinv (c <| sphase := SDone |>).
Proof. intros [H1 H2 H3 H4 H5 H6]. split; simpl; try done. by intros [?|?]. Qed.

Lemma cinv_step e c c' : cinv c -> cstep capacity e c = Some c' -> cinv c'.
Proof.
  intros Hi. pose proof Hi as [Hsz Hid Hwr Hse Hpr Hrd].
  destruct e as [| |we n|we|re data| |w]; simpl; intros Hs.
  - destruct (sphase c) eqn:E; try done. apply (cinv_turn c c'); try done.
    rewrite Hse by done. unfold in_flight. by rewrite E.
  - destruct (rphase c); try done. injection Hs as <-. by apply cinv_recv.
  - destruct (sphase c) as [|b f| |] eqn:E; try done.
    unfold in_flight in Hse. rewrite E in Hse. specialize (Hse ltac:(done)).
    destruct we as [e|].
    + injection Hs as <-. split; simpl; try done; [lia|].
      rewrite Hse. apply prefix_app. exists (drop n (b ++ f)). by rewrite take_drop.
    + apply (cinv_turn _ c') in Hs; simpl; [done | lia | by rewrite app_nil_r].
  - destruct (sphase c) eqn:E; try done. destruct (wait_completes we (ready c)); [|done].
    destruct we; [injection Hs as <-; by apply cinv_done|].
    apply (cinv_turn c c'); try done. rewrite Hse by done. unfold in_flight. by rewrite E.
  - destruct (rphase c); try done. destruct (_ <=? _); [|done]. injection Hs as <-.
    apply cinv_recv. by destruct re, Hi.
  - injection Hs as <-. by apply cinv_poke.
  - injection Hs as <-. by destruct Hi.
Qed.

Lemma creach_inv w c : creach capacity w c -> cinv c.
Proof.
  induction 1 as [|c e c' _ IH _ Hs]; [|by eapply cinv_step].
  split; simpl; try done. lia.
Qed.

(** ** Claims *)

(** C3 What goes on the wire is what nghttp2 produced: at any moment the bytes
    written are a prefix of the bytes [mem_send2] returned, in order; and until the
    loop has ended they are followed by exactly the bytes in the buffers of the write
    under way, so nothing is lost, duplicated or reordered by buffering. *)
Theorem send_loop_conserves w c :
  creach capacity w c ->
  sent c `prefix_of` produced c /\
  (sphase c <> SDone -> produced c = sent c ++ in_flight c).
Proof. intros H. by destruct (creach_inv _ _ H). Qed.

(** The send loop always gets to its next suspension: whatever nghttp2 returns
    (even without end), a turn started in a reachable state stops, after at most
    [capacity - pending + 1] calls of [mem_send2]. *)
Theorem send_loop_suspends w c :
  creach capacity w c -> exists c', send_turn capacity c = Some c'.
Proof.
  intros H. unfold send_turn.
  destruct (send_turn_ok c (ci_size _ (creach_inv _ _ H))) as (o & ds & -> & _). by eexists.
Qed.

(** C32 Writes are batched within the buffer: the accumulator never grows beyond its
    capacity (so it is never reallocated), no empty write is issued, and the loop
    writes only when nghttp2 has nothing more to give or when what it gave does not
    fit. *)
Theorem send_loop_batches w c b f :
  creach capacity w c -> sphase c = SWriting b f ->
  length b <= capacity /\ b ++ f <> [] /\ (f = [] \/ capacity < length b + length f).
Proof.
  intros H Hp. destruct (creach_inv _ _ H) as [Hsz _ Hw _ _ _].
  destruct (Hw _ _ Hp) as (-> & ? & ?). done.
Qed.

(** C4 No wake-up of the send loop is lost: when it sleeps, its [wait()] is ready
    exactly if [start_write()] was called after nghttp2 last had nothing to send; it
    then resumes, with nothing buffered, by asking nghttp2 again. *)
Theorem send_loop_wakes w c :
  creach capacity w c -> sphase c = SWaiting ->
  spending c = [] /\
  (poked c = true -> cstep capacity (CWake None) c = send_turn capacity c /\
     exists c', send_turn capacity c = Some c') /\
  (poked c = false -> cstep capacity (CWake None) c = None).
Proof.
  intros H Hp. destruct (creach_inv _ _ H) as [Hsz Hid _ _ _ Hr].
  split; [auto|]. simpl. rewrite Hp, (Hr Hp). split; intros ->; [|done]. split; [done|].
  unfold send_turn. destruct (send_turn_ok c Hsz) as (o & ds & -> & _). by eexists.
Qed.

(** ** The end of the connection *)

Section Closing.
Context {K : NgClosing W}.

Lemma send_loop_terminated fuel pending w polled o :
  terminated w -> loop fuel pending w polled = Some o ->
  terminated (so_world o) /\ so_phase o <> SWaiting /\ so_clear o = false.
Proof.
  revert pending w polled; induction fuel as [|fuel IH]; intros pending w polled Ht; simpl; [done|].
  pose proof (terminated_send w Ht) as Ht'. pose proof (terminated_idle w) as Hidle.
  destruct (mem_send2 w) as [[n data] w'] eqn:E. simpl in Ht'.
  destruct (Z.ltb_spec n 0); [by intros [= <-]|].
  destruct (_ && _)%bool eqn:Eb; [by apply IH|].
  destruct (Z.ltb_spec 0 (Z.of_nat (length pending) + n)); [by intros [= <-]|].
  assert (n = 0%Z) as -> by lia. destruct (Hidle data w' Ht eq_refl) as [-> ->].
  by intros [= <-].
Qed.

(** Once [recv_loop] has returned, the session is terminated and [send_loop] does
    not sleep without being woken. *)
Definition winding_down c : Prop :=
  rphase c = RDone -> terminated (world c) /\ (sphase c = SWaiting -> poked c = true).

Lemma winding_down_turn c c' :
  winding_down c -> send_turn capacity c = Some c' ->
  winding_down c' /\ (rphase c = RDone -> sphase c' <> SWaiting).
Proof.
  unfold send_turn, winding_down. intros Hw Ht.
  destruct (loop _ _ _ _) as [o|] eqn:E; [|done]. injection Ht as <-. simpl.
  assert (H : rphase c = RDone -> terminated (so_world o) /\ so_phase o <> SWaiting).
  { intros Hr. destruct (Hw Hr) as [Hk _].
    destruct (send_loop_terminated _ _ _ _ _ Hk E) as (? & ? & _). done. }
  split; intros Hr; destruct (H Hr); [|done]. done.
Qed.

Lemma winding_down_recv o c :
  (ro_phase o = RDone -> terminated (ro_world o) /\ ro_start_write o = true) ->
  winding_down (recv_turn o c).
Proof.
  unfold winding_down, recv_turn. intros H.
  destruct (ro_start_write o); simpl; intros Hr; destruct (H Hr); done.
Qed.

Lemma recv_finish_done w :
  terminated (ro_world (recv_finish w)) /\ ro_start_write (recv_finish w) = true.
Proof. split; [apply terminate_terminated | done]. Qed.

Lemma recv_check_done b w :
  ro_phase (recv_check b w) = RDone ->
  terminated (ro_world (recv_check b w)) /\ ro_start_write (recv_check b w) = true.
Proof. unfold recv_check. destruct (_ || _); [done|]. intros _. apply recv_finish_done. Qed.

Lemma recv_resume_done e data w :
  ro_phase (recv_resume e data w) = RDone ->
  terminated (ro_world (recv_resume e data w)) /\ ro_start_write (recv_resume e data w) = true.
Proof.
  unfold recv_resume. destruct e; [intros _; apply recv_finish_done|].
  destruct (mem_recv2 data w) as [rv w']. destruct (rv <? 0)%Z; [|apply recv_check_done].
  intros _. apply recv_finish_done.
Qed.

Lemma creach_winding_down w c : creach capacity w c -> winding_down c.
Proof.
  induction 1 as [|c e c' Hc IH Ho Hs]; [done|].
  destruct e as [| |we n|we|re data| |w']; simpl in Hs.
  - destruct (sphase c); try done. by destruct (winding_down_turn _ _ IH Hs).
  - destruct (rphase c); try done. injection Hs as <-. apply winding_down_recv, recv_check_done.
  - destruct (sphase c) as [|b f| |] eqn:E; try done. destruct we as [we|].
    + injection Hs as <-. intros Hr. destruct (IH Hr). by split.
    + apply winding_down_turn in Hs; [by destruct Hs|]. intros Hr. destruct (IH Hr).
      split; [done|]. simpl. congruence.
  - destruct (sphase c) eqn:E; try done. destruct (wait_completes we (ready c)); [|done].
    destruct we as [we|]; [|by destruct (winding_down_turn _ _ IH Hs)].
    injection Hs as <-. intros Hr. by destruct (IH Hr).
  - destruct (rphase c); try done. destruct (_ <=? _); [|done]. injection Hs as <-.
    apply winding_down_recv, recv_resume_done.
  - injection Hs as <-. intros Hr. by destruct (IH Hr).
  - injection Hs as <-. intros Hr. destruct (IH Hr) as [? Hp]. split; [|exact Hp].
    simpl. apply (terminated_other (world c)); [done | by apply Ho].
Qed.

(** The end of the receive loop ends the session: once [recv_loop] has returned
    (end of input, read error, protocol error), [send_loop], if asleep, is ready to
    resume, and after each resumption it is writing out remaining bytes or has
    returned; it never goes back to sleep. *)
Theorem recv_end_ends_send w c :
  creach capacity w c -> rphase c = RDone ->
  (sphase c = SWaiting ->
     exists c', cstep capacity (CWake None) c = Some c' /\ sphase c' <> SWaiting) /\
  (forall b f n, sphase c = SWriting b f ->
     exists c', cstep capacity (CWritten None n) c = Some c' /\ sphase c' <> SWaiting).
Proof.
  intros H Hr. pose proof (creach_winding_down _ _ H) as Hw.
  destruct (creach_inv _ _ H) as [Hsz Hid _ _ _ Hrd]. split.
  - intros Hp. destruct (Hw Hr) as [_ Hpk]. simpl. rewrite Hp, (Hrd Hp), (Hpk Hp). simpl.
    unfold send_turn at 1. destruct (send_turn_ok c Hsz) as (o & ds & E & _). rewrite E.
    eexists. split; [done|].
    apply (winding_down_turn c); [done | unfold send_turn; by rewrite E | done].
  - intros b f n Hp. simpl. rewrite Hp.
    set (c1 := c <| sent := _ |> <| spending := _ |>).
    unfold send_turn at 1. destruct (send_turn_ok c1) as (o & ds & E & _); [simpl; lia|].
    rewrite E. eexists. split; [done|].
    apply (winding_down_turn c1); [|unfold send_turn; by rewrite E | done].
    intros _. destruct (Hw Hr). split; [done|]. simpl. congruence.
Qed.

End Closing.

End LoopProps.

(** ** Concrete runs *)

Module LoopDemo.
#[local] Existing Instance capy_ref.
#[local] Existing Instance ng_ref.

(** An engine that sends queued (non-empty) chunks and, once terminated, a last
    one; what it receives it queues, and it fails on an empty read. *)
Record engine := mkEngine { outq : list (Byte.byte * bytes); term : bool }.

#[local] Instance engine_session : NgSession engine := {
  mem_send2 w := match outq w with
                 | [] => (0%Z, [], w)
                 | (b, d) :: q => (Z.of_nat (S (length d)), b :: d, mkEngine q (term w))
                 end;
  mem_recv2 data w :=
    match data with
    | [] => ((-1)%Z, w)
    | b :: d => (Z.of_nat (length data), mkEngine (outq w ++ [(b, d)]) (term w))
    end;
  want_read w := negb (term w);
  want_write w := bool_decide (outq w <> []);
  terminate_session _ w :=
    if term w then w else mkEngine (outq w ++ [(Byte.x47, bytes_of "OAWAY")]) true;
  other w w' := term w' = term w;
}.

#[local] Instance engine_laws : NgSessionLaws engine.
Proof. constructor. intros [[|[b d] q] t]; simpl; lia. Qed.

#[local] Instance engine_closing : NgClosing engine.
Proof.
  refine {| terminated w := term w = true |}.
  - by intros code [q []].
  - by intros [[|[b d] q] t].
  - simpl. congruence.
  - intros [[|[b d] q] t] data w' Ht E; simpl in *; [|discriminate].
    injection E as <- <-. simpl. by rewrite Ht.
Defined.

Definition w0 : engine := mkEngine [(Byte.x61, bytes_of "bc"); (Byte.x64, bytes_of "efg")] false.
Definition at_ (evs : list cev) : option (conn (W := engine)) :=
  foldl (fun c e => match c with Some c => cstep 4 e c | None => None end) (Some (conn_new w0)) evs.

Definition is_other (e : cev (W := engine)) : bool :=
  match e with COther _ => true | _ => false end.

Lemma at_reach evs c :
  forallb (fun e => negb (is_other e)) evs = true -> at_ evs = Some c -> creach 4 w0 c.
Proof.
  unfold at_. revert c; induction evs as [|e evs IH] using rev_ind; intros c Ho H.
  - injection H as <-. constructor.
  - rewrite forallb_app in Ho. apply andb_true_iff in Ho as [Ho He]. rewrite foldl_app in H.
    destruct (foldl _ _ evs) as [c1|]; [|done].
    apply (creach_step 4 w0 c1 e); [by apply IH | | exact H].
    intros w' ->. done.
Qed.

(** Two chunks of which the second does not fit, written; then asleep; input comes
    and the peer goes away while the loop sleeps. *)
Definition writing_ev : list (cev (W := engine)) := [CSendStart; CRecvStart].
Definition asleep_ev : list (cev (W := engine)) := writing_ev ++ [CWritten None 7; CRead None (bytes_of "in")].
Definition over_ev : list (cev (W := engine)) :=
  writing_ev ++ [CWritten None 7; CRead (Some eof) []].
Definition writing_c := default (conn_new w0) (at_ writing_ev).
Definition asleep_c := default (conn_new w0) (at_ asleep_ev).
Definition over_c := default (conn_new w0) (at_ over_ev).

Lemma send_loop_conserves_witness :
  sent asleep_c `prefix_of` produced asleep_c /\ sent asleep_c = bytes_of "abcdefg" /\
  (sphase asleep_c <> SDone -> produced asleep_c = sent asleep_c ++ in_flight asleep_c).
Proof.
  destruct (send_loop_conserves 4 w0 asleep_c) as [H1 H2];
    [by apply (at_reach asleep_ev); vm_compute|].
  split; [exact H1|]. split; [by vm_compute | exact H2].
Defined.

Lemma send_loop_suspends_witness : exists c', send_turn 4 asleep_c = Some c'.
Proof. apply (send_loop_suspends 4 w0). by apply (at_reach asleep_ev); vm_compute. Defined.

Lemma send_loop_batches_witness :
  sphase writing_c = SWriting (bytes_of "abc") (bytes_of "defg") /\
  length (bytes_of "abc") <= 4 /\
  (bytes_of "defg" = [] \/ 4 < length (bytes_of "abc") + length (bytes_of "defg")).
Proof.
  assert (Hp : sphase writing_c = SWriting (bytes_of "abc") (bytes_of "defg")) by by vm_compute.
  destruct (send_loop_batches 4 w0 writing_c _ _
              ltac:(by apply (at_reach writing_ev); vm_compute) Hp) as (H1 & _ & H3).
  split; [exact Hp|]. split; [exact H1 | exact H3].
Defined.

Lemma send_loop_wakes_witness :
  sphase asleep_c = SWaiting /\ poked asleep_c = true /\
  cstep 4 (CWake None) asleep_c = send_turn 4 asleep_c.
Proof.
  assert (Hp : sphase asleep_c = SWaiting) by by vm_compute.
  assert (Hk : poked asleep_c = true) by by vm_compute.
  destruct (send_loop_wakes 4 w0 asleep_c ltac:(by apply (at_reach asleep_ev); vm_compute) Hp)
    as (_ & H & _).
  split; [exact Hp|]. split; [exact Hk|]. by apply H.
Defined.

Lemma recv_end_ends_send_witness :
  sphase over_c = SWaiting /\
  exists c', cstep 4 (CWake None) over_c = Some c' /\ sphase c' <> SWaiting.
Proof.
  assert (Hp : sphase over_c = SWaiting) by by vm_compute.
  destruct (recv_end_ends_send 4 w0 over_c) as [H _];
    [by apply (at_reach over_ev); vm_compute | by vm_compute |].
  split; [exact Hp | exact (H Hp)].
Defined.

End LoopDemo.
