(* ===== verification/Connection.v ===== *)
(** * A connection: session, streams and loops together

    [Session::Impl::run()] (src/session.cpp) as a whole.  The I/O loops of Loops run
    over a world that contains the session of Session; nghttp2 is an engine that, while
    it receives or sends, calls back into that session.  The theorems about sessions
    and about loops then hold of one and the same system. *)

From S2P Require Import Prelude Capy Nghttp2 Stream StreamRead StreamWrite StreamSys StreamProps.
From S2P Require Import Session SessionSys SessionProps Loops LoopProps.

(** ** nghttp2 as an engine *)

(** The callbacks of session.cpp that change a session. *)
Inductive ng_cb :=
| CbBeginHeaders (f : frame)
| CbHeader (f : frame) (name value : string)
| CbFrameRecv (f : frame)
| CbDataChunk (id : Z) (data : bytes)
| CbStreamClose (id : Z).

(** What nghttp2 does inside one of its functions: return, make a callback (and see
    which of its functions the callback called), or ask the data provider registered
    with a stream object for at most [len] body bytes. *)
Inductive ng_prog (A : Type) :=
| NgRet (r : A)
| NgCallback (cb : ng_cb) (k : list call -> ng_prog A)
| NgPull (source : addr) (len : nat) (k : Z -> Z -> bytes -> ng_prog A).
Arguments NgRet {A} _.
Arguments NgCallback {A} _ _.
Arguments NgPull {A} _ _ _.

(** [P] holds of whatever the program returns, however it is answered. *)
Fixpoint leaves {A} (P : A -> Prop) (p : ng_prog A) : Prop :=
  match p with
  | NgRet r => P r
  | NgCallback _ k => forall cs, leaves P (k cs)
  | NgPull _ _ k => forall ret flags buf, leaves P (k ret flags buf)
  end.

Class NgEngine (E : Type) := {
  eng_send : E -> ng_prog (Z * bytes * E);          (* nghttp2_session_mem_send2 *)
  eng_recv : bytes -> E -> ng_prog (Z * E);         (* nghttp2_session_mem_recv2 *)
  eng_want_read : E -> bool;
  eng_want_write : E -> bool;
  eng_terminate : Z -> E -> E;
  eng_call : call -> E -> E;                        (* the functions coroutines call *)
}.

(** Documented: [mem_send2] returns the number of bytes, or a negative error code;
    after [terminate_session] the session stays terminated, sends what is left, and
    then wants neither to read nor to write. *)
Class NgEngineLaws (E : Type) {N : NgEngine E} := {
  eng_terminated : E -> Prop;
  eng_left : E -> nat;
  eng_send_length e :
    leaves (fun '(n, data, _) => (0 <= n)%Z -> n = Z.of_nat (length data)) (eng_send e);
  eng_terminate_ok code e : eng_terminated (eng_terminate code e);
  eng_call_ok c e : eng_terminated e -> eng_terminated (eng_call c e);
  eng_send_ok e : eng_terminated e ->
    leaves (fun '(n, data, e') => eng_terminated e' /\
      ((0 <= n)%Z -> eng_left e' <= eng_left e) /\ ((0 < n)%Z -> eng_left e' < eng_left e) /\
      (n = 0%Z -> eng_want_read e' = false /\ eng_want_write e' = false)) (eng_send e);
}.

(** Documented: [mem_send2] returns 0 when there is nothing to send. *)
Class NgIdle (E : Type) {N : NgEngine E} := {
  eng_idle : E -> Prop;
  eng_send_idle e : leaves (fun '(n, _, e') => n = 0%Z -> eng_idle e') (eng_send e);
}.

Section Connection.
Context {C : CapyOps} {G : NgConsts} {E : Type} {N : NgEngine E}.

(** ** The world of the loops *)

Definition cb_event (cb : ng_cb) : xev :=
  match cb with
  | CbBeginHeaders f => XBeginHeaders f
  | CbHeader f n v => XHeader f n v
  | CbFrameRecv f => XFrameRecv f
  | CbDataChunk id d => XDataChunk id d
  | CbStreamClose id => XStreamClose id
  end.


Record world_ := mkWorld {
  sess : Session;
  eng : E;
  trace : list xev;         (* observed: the session's events so far *)
}.

#[export] Instance world_eta : Eta world_ := {| eta := fun w => mkWorld (sess w) (eng w) (trace w) |}.

(** The session makes one event. *)
Definition sess_event (e : xev) (x : Session) : Session := default x (xstep e x).

(** What a provider answers, for a stream object in state [y]. *)
Definition pull_answer (len : nat) (y : sys) : Z * Z * bytes :=
  let '(_, ret, flags, buf) := producer_callback len 0 (st y) in (ret, flags, buf).

(** Runs one nghttp2 function against the session.  A pull that nghttp2 never makes
    (of a sleeping or finished provider) would be answered [NGHTTP2_ERR_DEFERRED]. *)
Fixpoint run_prog {A} (p : ng_prog A) (x : Session) (evs : list xev) : A * Session * list xev :=
  match p with
  | NgRet r => (r, x, evs)
  | NgCallback cb k =>
      let x' := sess_event (cb_event cb) x in
      run_prog (k (drop (length (ng_calls x)) (ng_calls x'))) x' (evs ++ [cb_event cb])
  | NgPull a len k =>
      match xstep (XTurn a (EProduce len)) x, heap x !! a with
      | Some x', Some y =>
          let '(ret, flags, buf) := pull_answer len y in
          run_prog (k ret flags buf) x' (evs ++ [XTurn a (EProduce len)])
      | _, _ => run_prog (k NGHTTP2_ERR_DEFERRED 0%Z []) x evs
      end
  end.

#[export] Instance world_session : NgSession world_ := {
  mem_send2 w :=
    let '((n, data, e), x, evs) := run_prog (eng_send (eng w)) (sess w) (trace w) in
    (n, data, mkWorld x e evs);
  mem_recv2 data w :=
    let '((n, e), x, evs) := run_prog (eng_recv data (eng w)) (sess w) (trace w) in
    (n, mkWorld x e evs);
  want_read w := eng_want_read (eng w);
  want_write w := eng_want_write (eng w);
  terminate_session code w := w <| eng := eng_terminate code (eng w) |>;
  other w w' := exists cs, eng w' = foldl (fun e c => eng_call c e) (eng w) cs;
}.

(** ** The connection *)

Record connection := mkConnection {
  loops : conn (W := world_);
  over : bool;              (* run() has returned *)
}.

#[export] Instance connection_eta : Eta connection := {| eta := fun k => mkConnection (loops k) (over k) |}.

Definition connection_new (role : Role) (handler : bool) (e : E) : connection :=
  mkConnection (conn_new (mkWorld (Session_new role handler) e [])) false.

Definition session_of (k : connection) : Session := sess (world (loops k)).

(** Events of coroutines other than the loops. *)
Definition coroutine (e : xev) : bool :=
  match e with
  | XTurn _ (EProduce _) => false
  | XTurn _ _ | XSubmitRequest _ _ _ _ | XSubmitResponse _ _ _ _ => true
  | _ => false
  end.

Definition is_start_write (c : call) : bool :=
  match c with start_write => true | _ => false end.

(** Whether the event calls [start_write()]. *)
Definition starts_write (e : xev) (x : Session) : bool :=
  match e with
  | XTurn a e =>
      match heap x !! a with
      | Some y =>
          match step e y with
          | Some y' => existsb is_start_write (drop (length (calls y)) (calls y'))
          | None => false
          end
      | None => false
      end
  | XSubmitRequest _ _ _ ret => bool_decide (role_ x = client) && (0 <=? ret)%Z
  | XSubmitResponse _ _ _ rv => (rv =? 0)%Z
  | _ => false
  end.

(** [pending.capacity()] in [send_loop]. *)
Context (capacity : nat).

(** The loops and the session share [write_ready_]: what a turn of a loop did to it. *)
Definition sync (e : xev) (c : conn (W := world_)) : conn :=
  c <| world := (world c) <| sess := sess_event e (sess (world c)) |>
                          <| trace := trace (world c) ++ [e] |> |>.

Definition sync_send (c : conn (W := world_)) : conn :=
  match sphase c with SWaiting => sync XClearReady c | _ => c end.

Definition starts_loop (o : recv_out (W := world_)) (c : conn) : conn :=
  if ro_start_write o then sync XStartWrite c else c.

Inductive kev :=
| KSendStart | KRecvStart
| KWritten (write_ec : error_code) (n : nat)
| KWake (wait_ec : error_code)
| KRead (read_ec : error_code) (data : bytes)
| KTurn (e : xev)
| KEnd.

(** [send_loop]'s turns end in its own suspension. *)
Definition send_event (k : connection) (e : cev) : option connection :=
  match cstep capacity e (loops k) with
  | Some c => Some (k <| loops := sync_send c |>)
  | None => None
  end.

Definition recv_event (k : connection) (e : cev) (o : recv_out) : option connection :=
  match cstep capacity e (loops k) with
  | Some c => Some (k <| loops := starts_loop o c |>)
  | None => None
  end.

Definition kstep (e : kev) (k : connection) : option connection :=
  let c := loops k in
  match e with
  | KSendStart => send_event k CSendStart
  | KWritten ec n => send_event k (CWritten ec n)
  | KWake ec => send_event k (CWake ec)
  | KRecvStart => recv_event k CRecvStart (recv_check false (world c))
  | KRead ec data => recv_event k (CRead ec data) (recv_resume ec data (world c))
  | KTurn e =>
      if coroutine e then
        match xstep e (session_of k) with
        | Some x' =>
            let cs := drop (length (ng_calls (session_of k))) (ng_calls x') in
            let w' := mkWorld x' (foldl (fun g c => eng_call c g) (eng (world c)) cs)
                        (trace (world c) ++ [e]) in
            let c' := c <| world := w' |> in
            Some (k <| loops := if starts_write e (session_of k) then do_poke c' else c' |>)
        | None => None
        end
      else None
  | KEnd =>
      match sphase c, rphase c, over k with
      | SDone, RDone, false =>
          Some (k <| loops := sync XEnd c |> <| over := true |>)
      | _, _, _ => None
      end
  end.

Inductive kreach (role : Role) (handler : bool) (e : E) : connection -> Prop :=
| kreach_new : kreach role handler e (connection_new role handler e)
| kreach_step k ev k' :
    kreach role handler e k -> kstep ev k = Some k' -> kreach role handler e k'.

Fixpoint krun (evs : list kev) (k : connection) : option connection :=
  match evs with
  | [] => Some k
  | e :: evs => match kstep e k with Some k => krun evs k | None => None end
  end.

End Connection.
