(* ===== verification/ConnectionProps.v ===== *)
(** * Properties of a connection

    The composition of session and loops: the session inside a connection is a
    reachable session, the loops are reachable loops, both see one [write_ready_]; and
    [send_loop] never sleeps on output that nghttp2 has. *)

From S2P Require Import Prelude Capy Nghttp2 Stream StreamRead StreamWrite StreamSys StreamProps.
From S2P Require Import Session SessionSys SessionProps Loops LoopProps Connection.

Section ConnectionProps.
Context {C : CapyOps} {L : CapyLaws C} {G : NgConsts} {E : Type} {N : NgEngine E}.
Context (capacity : nat).
Implicit Types (w : world_ (E := E)) (k : connection (E := E)).

(** ** nghttp2's functions as events of the session *)

Lemma run_prog_leaves {A} (P : A -> Prop) p x evs :
  leaves P p -> P (run_prog p x evs).1.1.
Proof.
  revert x evs; induction p as [r|cb k IH|a len k IH]; intros x evs H; [done | by apply IH |].
  cbn [run_prog]. destruct (xstep _ x); [|by apply IH].
  destruct (heap x !! a) as [y|]; [|by apply IH].
  destruct (pull_answer len y) as [[ret flags] buf]. by apply IH.
Qed.

(** [w'] is [w] after events of its session that leave [write_ready_] alone. *)
Definition wsteps w w' : Prop :=
  exists es, trace w' = trace w ++ es /\ xrun es (sess w) = Some (sess w') /\
    Forall (fun e => coroutine e = false) es /\ write_ready_ (sess w') = write_ready_ (sess w).

Lemma engine_fits es : Forall (fun e => coroutine e = false) es -> Forall fits es.
Proof. intros H. eapply Forall_impl; [exact H|]. by intros [| | | | |? []| | | | |]. Qed.

Lemma wsteps_refl w w' : sess w' = sess w -> trace w' = trace w -> wsteps w w'.
Proof. intros E1 E2. exists []. rewrite E1, E2, app_nil_r. repeat split; constructor. Qed.

Lemma xrun_app es es' x :
  xrun (es ++ es') x = match xrun es x with Some x => xrun es' x | None => None end.
Proof.
  revert x; induction es as [|e es IH]; intros x; simpl; [done|].
  destruct (xstep e x); [apply IH | done].
Qed.

Lemma wsteps_trans w1 w2 w3 : wsteps w1 w2 -> wsteps w2 w3 -> wsteps w1 w3.
Proof.
  intros (es & T & X & F & R) (es' & T' & X' & F' & R'). exists (es ++ es').
  rewrite T', T, app_assoc, xrun_app, X. repeat split; [done | by apply Forall_app | congruence].
Qed.

Lemma with_stream_ready id f x : write_ready_ (with_stream id f x) = write_ready_ x.
Proof. unfold with_stream. by destruct (find_stream id x). Qed.

Lemma cb_ready cb x x' : xstep (cb_event cb) x = Some x' -> write_ready_ x' = write_ready_ x.
Proof.
  destruct cb; simpl; unfold on_begin_headers_callback, create_stream, emplace,
    on_header_callback, on_frame_recv_callback, on_data_chunk_recv_callback,
    on_stream_close_callback, close_stream; intros H; break; simplify_eq;
    rewrite ?with_stream_ready; done.
Qed.

Lemma cb_runs cb x : xstep (cb_event cb) x = Some (sess_event (cb_event cb) x).
Proof. by destruct cb. Qed.

Lemma pull_ready a len x x' :
  xstep (XTurn a (EProduce len)) x = Some x' -> write_ready_ x' = write_ready_ x.
Proof.
  simpl. destruct (heap x !! a) as [y|]; [|done].
  destruct (provider_deferred y || provider_eof y); [done|].
  destruct (producer_callback len 0 (st y)) as [[[s ret] f] buf]. intros [= <-]. simpl.
  by rewrite drop_all.
Qed.

Lemma run_prog_wsteps {A} (p : ng_prog A) w e :
  let '(r, x, evs) := run_prog p (sess w) (trace w) in wsteps w (mkWorld x e evs).
Proof.
  destruct w as [x e0 evs]. simpl.
  revert x evs; induction p as [r|cb k IH|a len k IH]; intros x evs.
  - by apply wsteps_refl.
  - cbn [run_prog]. set (x' := sess_event (cb_event cb) x).
    specialize (IH (drop (length (ng_calls x)) (ng_calls x')) x' (evs ++ [cb_event cb])).
    destruct (run_prog _ x' _) as [[r x''] evs'].
    eapply wsteps_trans; [|exact IH].
    exists [cb_event cb]. simpl. rewrite (cb_runs cb x). repeat split.
    + constructor; [by destruct cb | constructor].
    + apply (cb_ready cb), cb_runs.
  - cbn [run_prog]. destruct (xstep (XTurn a (EProduce len)) x) as [x'|] eqn:Ex; [|by apply IH].
    destruct (heap x !! a) as [y|]; [|by apply IH].
    destruct (pull_answer len y) as [[ret flags] buf].
    specialize (IH ret flags buf x' (evs ++ [XTurn a (EProduce len)])).
    destruct (run_prog _ x' _) as [[r x''] evs'].
    eapply wsteps_trans; [|exact IH].
    exists [XTurn a (EProduce len)]. cbn [xrun sess trace]. rewrite Ex. repeat split.
    + by repeat constructor.
    + by apply (pull_ready a len).
Qed.

Lemma mem_send2_wsteps w : wsteps w (mem_send2 w).2.
Proof.
  simpl. pose proof (fun e => run_prog_wsteps (eng_send (eng w)) w e) as H.
  destruct (run_prog (eng_send (eng w)) (sess w) (trace w)) as [[[[n data] e] x] evs]. apply H.
Qed.

Lemma mem_recv2_wsteps data w : wsteps w (mem_recv2 data w).2.
Proof.
  simpl. pose proof (fun e => run_prog_wsteps (eng_recv data (eng w)) w e) as H.
  destruct (run_prog (eng_recv data (eng w)) (sess w) (trace w)) as [[[n e] x] evs]. apply H.
Qed.

(** ** The loops as events of the session *)

Lemma send_loop_wsteps fuel pending w polled o :
  send_loop capacity fuel pending w polled = Some o ->
  wsteps w (so_world o) /\ so_clear o = match so_phase o with SWaiting => true | _ => false end.
Proof.
  revert pending w polled; induction fuel as [|fuel IH]; intros pending w polled H; [done|].
  cbn [send_loop] in H. pose proof (mem_send2_wsteps w) as Hw.
  destruct (mem_send2 w) as [[n data] w']. simpl in Hw.
  destruct (n <? 0)%Z; [by injection H as <-|].
  destruct (_ && _)%bool; [apply IH in H as [H ?]; split; [by eapply wsteps_trans|done]|].
  destruct (0 <? _)%Z; [by injection H as <-|].
  destruct (_ && _)%bool; by injection H as <-.
Qed.

Lemma recv_finish_wsteps w : wsteps w (ro_world (recv_finish w)).
Proof. by apply wsteps_refl. Qed.

Lemma recv_check_wsteps b w : wsteps w (ro_world (recv_check b w)).
Proof. unfold recv_check. destruct (_ || _); by apply wsteps_refl. Qed.

Lemma recv_resume_wsteps ec data w : wsteps w (ro_world (recv_resume ec data w)).
Proof.
  unfold recv_resume. destruct ec; [by apply wsteps_refl|].
  pose proof (mem_recv2_wsteps data w) as Hw. destruct (mem_recv2 data w) as [rv w']. simpl in Hw.
  destruct (rv <? 0)%Z; (eapply wsteps_trans; [exact Hw|]);
    [by apply wsteps_refl | apply recv_check_wsteps].
Qed.

(** ** The interface of the loops is met *)

Section Laws.
Context {NL : NgEngineLaws E}.

#[export] Instance world_laws : NgSessionLaws (world_ (E := E)).
Proof.
  constructor. intros w. simpl.
  pose proof (run_prog_leaves (A := Z * bytes * E) _ _ (sess w) (trace w) (eng_send_length (eng w))) as H.
  destruct (run_prog (eng_send (eng w)) (sess w) (trace w)) as [[[[n data] e] x] evs]. exact H.
Qed.

Lemma foldl_call_terminated cs e :
  eng_terminated e -> eng_terminated (foldl (fun e c => eng_call c e) e cs).
Proof. revert e; induction cs as [|c cs IH]; intros e H; simpl; [done|]. by apply IH, eng_call_ok. Qed.

#[export] Instance world_closing : NgClosing (world_ (E := E)).
Proof.
  refine {| terminated w := eng_terminated (eng w) |}.
  - intros code w. apply eng_terminate_ok.
  - intros w Ht. simpl.
    pose proof (run_prog_leaves (A := Z * bytes * E) _ _ (sess w) (trace w) (eng_send_ok (eng w) Ht)) as H.
    destruct (run_prog (eng_send (eng w)) (sess w) (trace w)) as [[[[n data] e] x] evs].
    apply H.
  - intros w w' Ht [cs E']. rewrite E'. by apply foldl_call_terminated.
  - intros w data w' Ht Hs. simpl in *.
    pose proof (run_prog_leaves (A := Z * bytes * E) _ _ (sess w) (trace w) (eng_send_ok (eng w) Ht)) as H.
    destruct (run_prog (eng_send (eng w)) (sess w) (trace w)) as [[[[n d] e] x] evs].
    injection Hs as -> <- <-. destruct H as (_ & _ & _ & H). by apply H.
Defined.

(** ** The invariant of a connection *)

Context (role : Role) (handler : bool) (e0 : E).

Definition w0 : world_ (E := E) := mkWorld (Session_new role handler) e0 [].

Record kinv k : Prop := {
  ki_session : exists r, xreach role handler (trace (world (loops k))) r (session_of k);
  ki_loops : creach capacity w0 (loops k);
  ki_ready : event_is_set (write_ready_ (session_of k)) = event_is_set (ready (loops k));
}.

Lemma xreach_wsteps w w' r :
  xreach role handler (trace w) r (sess w) -> wsteps w w' ->
  exists r', xreach role handler (trace w') r' (sess w').
Proof.
  intros Hr (es & -> & Hx & _). destruct (xrun_reach _ _ _ _ _ _ _ Hr Hx) as (r' & _ & H).
  by exists r'.
Qed.

Lemma other_same w w' : eng w' = eng w -> other w w'.
Proof. intros E'. by exists []. Qed.

Lemma creach_other c w' :
  creach capacity w0 c -> other (world c) w' -> creach capacity w0 (c <| world := w' |>).
Proof. intros H Ho. apply (creach_step _ _ c (COther w')); [done | by intros ? [= <-] | done]. Qed.

Lemma creach_poke c : creach capacity w0 c -> creach capacity w0 (do_poke c).
Proof. intros H. by apply (creach_step _ _ c CStartWrite). Qed.

(** A turn of a loop, whose own effect on [write_ready_] is the event [e], if any. *)
Lemma kinv_loop k c (e : option xev) :
  kinv k -> creach capacity w0 c -> wsteps (world (loops k)) (world c) ->
  ready c = match e with
            | Some XClearReady => event_clear (ready (loops k))
            | Some _ => event_set (ready (loops k))
            | None => ready (loops k)
            end ->
  (e = None \/ e = Some XClearReady \/ e = Some XStartWrite) ->
  kinv (k <| loops := match e with Some e => sync e c | None => c end |>).
Proof.
  intros [[r Hr] _ Hready] Hc Hw Hrd He.
  destruct (xreach_wsteps _ _ _ Hr Hw) as [r' Hr']. destruct Hw as (_ & _ & _ & _ & Hwr).
  destruct He as [->|[->| ->]]; split; simpl; unfold session_of in *; simpl.
  - by exists r'.
  - done.
  - by rewrite Hwr, Hrd, Hready.
  - eexists. by apply (xreach_step _ _ _ _ _ XClearReady _ Hr').
  - by apply creach_other, other_same.
  - by rewrite Hrd, !event_clear_is_set.
  - eexists. by apply (xreach_step _ _ _ _ _ XStartWrite _ Hr').
  - by apply creach_other, other_same.
  - by rewrite Hrd, !event_set_is_set.
Qed.

(** Turns of [send_loop]. *)
Lemma send_turn_wsteps c c' :
  send_turn capacity c = Some c' ->
  wsteps (world c) (world c') /\
  ready c' = match sphase c' with SWaiting => event_clear (ready c) | _ => ready c end.
Proof.
  unfold send_turn. destruct (send_loop _ _ _ _ _) as [o|] eqn:Eo; [|done].
  apply send_loop_wsteps in Eo as [Hw Hcl]. intros [= <-]. simpl. split; [done|].
  rewrite Hcl. by destruct (so_phase o).
Qed.

Lemma cstep_send_wsteps e c c' :
  match e with CSendStart | CWritten _ _ | CWake _ => True | _ => False end ->
  cstep capacity e c = Some c' ->
  wsteps (world c) (world c') /\
  ready c' = match sphase c' with SWaiting => event_clear (ready c) | _ => ready c end.
Proof.
  intros He Hs. destruct e as [| |we n|we|re data| |w]; try done; simpl in Hs.
  - destruct (sphase c); try done. by apply send_turn_wsteps.
  - destruct (sphase c); try done. destruct we; [|by apply send_turn_wsteps in Hs].
    injection Hs as <-. split; [by apply wsteps_refl | done].
  - destruct (sphase c); try done. destruct (wait_completes _ _); [|done].
    destruct we; [|by apply send_turn_wsteps].
    injection Hs as <-. split; [by apply wsteps_refl | done].
Qed.

Lemma kinv_send k e k' :
  match e with CSendStart | CWritten _ _ | CWake _ => True | _ => False end ->
  kinv k -> send_event capacity k e = Some k' -> kinv k'.
Proof.
  intros He Hi. unfold send_event. destruct (cstep capacity e (loops k)) as [c|] eqn:Hs; [|done].
  intros [= <-]. destruct (cstep_send_wsteps _ _ _ He Hs) as [Hw Hr].
  assert (Hc : creach capacity w0 c).
  { apply (creach_step _ _ (loops k) e); [apply Hi | by intros w' -> | done]. }
  unfold sync_send. destruct (sphase c) eqn:Ep;
    [apply (kinv_loop k c None) | apply (kinv_loop k c None)
    | apply (kinv_loop k c (Some XClearReady)) | apply (kinv_loop k c None)]; auto.
Qed.

(** Turns of [recv_loop]. *)
Lemma kinv_recv k e o c k' :
  kinv k -> recv_event capacity k e o = Some k' ->
  cstep capacity e (loops k) = Some c -> (forall w', e <> COther w') ->
  wsteps (world (loops k)) (ro_world o) -> world c = ro_world o ->
  ready c = (if ro_start_write o then event_set (ready (loops k)) else ready (loops k)) ->
  kinv k'.
Proof.
  intros Hi Hk Hs He Hw Ew Hr. unfold recv_event in Hk. rewrite Hs in Hk. injection Hk as <-.
  assert (Hc : creach capacity w0 c).
  { apply (creach_step _ _ (loops k) e); [apply Hi | by intros w' ->; destruct (He w') | done]. }
  rewrite <-Ew in Hw. unfold starts_loop. destruct (ro_start_write o);
    [apply (kinv_loop k c (Some XStartWrite)) | apply (kinv_loop k c None)]; auto.
Qed.

Lemma recv_turn_ready (o : recv_out (W := world_ (E := E))) (c : conn) :
  world (recv_turn o c) = ro_world o /\
  ready (recv_turn o c) = if ro_start_write o then event_set (ready c) else ready c.
Proof. unfold recv_turn. by destruct (ro_start_write o). Qed.

Lemma kinv_recv_start k k' : kinv k -> kstep capacity KRecvStart k = Some k' -> kinv k'.
Proof.
  intros Hi Hk. cbn [kstep] in Hk. pose proof Hk as Hk'. unfold recv_event in Hk.
  destruct (cstep _ _ _) as [c|] eqn:Ec; [|done]. clear Hk.
  eapply kinv_recv; [done | exact Hk' | exact Ec | done | apply recv_check_wsteps |..];
    simpl in Ec; (destruct (rphase (loops k)); try done); injection Ec as <-; apply recv_turn_ready.
Qed.

Lemma kinv_read k ec data k' : kinv k -> kstep capacity (KRead ec data) k = Some k' -> kinv k'.
Proof.
  intros Hi Hk. cbn [kstep] in Hk. pose proof Hk as Hk'. unfold recv_event in Hk.
  destruct (cstep _ _ _) as [c|] eqn:Ec; [|done]. clear Hk.
  eapply kinv_recv; [done | exact Hk' | exact Ec | done | apply recv_resume_wsteps |..];
    simpl in Ec; (destruct (rphase (loops k)); try done); (destruct (_ <=? _); [|done]);
    injection Ec as <-;
    match goal with |- context [recv_turn ?o ?c] => destruct (recv_turn_ready o c) as [H1 H2] end;
    destruct ec; (exact H1 || exact H2).
Qed.

(** Turns of other coroutines. *)
Lemma perform_all_ready cs x :
  event_is_set (write_ready_ (perform_all x cs))
  = existsb is_start_write cs || event_is_set (write_ready_ x).
Proof.
  revert x; induction cs as [|c cs IH]; intros x; simpl; [done|]. rewrite IH.
  destruct c; simpl; rewrite ?event_set_is_set; try done. by rewrite orb_true_r.
Qed.

Lemma emplace_ready id a x : write_ready_ (emplace id a x) = write_ready_ x.
Proof. unfold emplace. by destruct (streams_ x !! id). Qed.

Lemma coroutine_ready e x x' :
  coroutine e = true -> xstep e x = Some x' ->
  event_is_set (write_ready_ x') = starts_write e x || event_is_set (write_ready_ x).
Proof.
  destruct e as [f|f n v|f|id d|id|a e|path n hs ret|a n hs rv| | |]; simpl; try done; intros He.
  - destruct (is_turn e); [|done]. destruct (heap x !! a) as [y|]; [|done].
    destruct (step e y) as [y'|]; [|done]. intros [= <-]. by rewrite perform_all_ready.
  - intros [= <-]. unfold submit_request. destruct (role_ x); simpl; [done|].
    destruct (Z.ltb_spec ret 0), (Z.leb_spec 0 ret); simpl; try lia; [done|].
    by rewrite event_set_is_set.
  - intros [= <-]. unfold submit_response. destruct (Z.eqb_spec rv 0); simpl; [|done].
    by rewrite event_set_is_set.
Qed.

Lemma kinv_turn k e k' : kinv k -> kstep capacity (KTurn e) k = Some k' -> kinv k'.
Proof.
  intros [[r Hr] Hc Hready] Hk. cbn [kstep] in Hk.
  destruct (coroutine e) eqn:He; [|done].
  destruct (xstep e (session_of k)) as [x'|] eqn:Ex; [|done]. injection Hk as <-.
  pose proof (coroutine_ready _ _ _ He Ex) as Hset.
  set (w' := mkWorld x' _ _). set (c' := (loops k) <| world := w' |>).
  assert (Hc' : creach capacity w0 c') by (apply creach_other; [done | by eexists]).
  split; unfold session_of in *; simpl.
  - exists (fun a => r a ++ routed e (sess (world (loops k))) a).
    destruct (starts_write _ _); by apply (xreach_step _ _ _ _ _ e x').
  - destruct (starts_write _ _); [by apply creach_poke | done].
  - destruct (starts_write _ _); simpl; rewrite Hset; [by rewrite event_set_is_set | done].
Qed.

Lemma kinv_end k k' : kinv k -> kstep capacity KEnd k = Some k' -> kinv k'.
Proof.
  intros [[r Hr] Hc Hready] Hk. cbn [kstep] in Hk.
  destruct (sphase (loops k)); try done. destruct (rphase (loops k)); try done.
  destruct (over k); [done|]. injection Hk as <-. split; unfold session_of in *; simpl.
  - eexists. by apply (xreach_step _ _ _ _ _ XEnd _ Hr).
  - by apply creach_other, other_same.
  - rewrite <-Hready. f_equal. unfold sess_event, close_all. cbn [xstep default from_option id].
    unfold close_all. generalize (map_to_list (streams_ (sess (world (loops k))))).*2. intros l.
    induction l as [|a l IH]; [done | exact IH].
Qed.

Lemma kinv_step ev k k' : kinv k -> kstep capacity ev k = Some k' -> kinv k'.
Proof.
  intros Hi. destruct ev.
  - by apply kinv_send.
  - by apply kinv_recv_start.
  - by apply kinv_send.
  - by apply kinv_send.
  - by apply kinv_read.
  - by apply kinv_turn.
  - by apply kinv_end.
Qed.

Lemma kreach_inv k : kreach capacity role handler e0 k -> kinv k.
Proof.
  induction 1 as [|k ev k' _ IH Hs]; [|by apply (kinv_step ev k)].
  split; [eexists; apply xreach_new | apply creach_new | done].
Qed.

(** ** No output is stranded *)

(** The turns in which nghttp2 refused nothing that was submitted. *)
Definition accepted (e : xev) : Prop :=
  match e with
  | XSubmitRequest _ _ _ ret => (0 <= ret)%Z
  | XSubmitResponse _ _ _ rv => rv = 0%Z
  | _ => True
  end.

(** A turn of a coroutine that does not call [start_write()] has called nothing of
    nghttp2 either. *)
Lemma step_quiet e y y' :
  step e y = Some y' -> existsb is_start_write (drop (length (calls y)) (calls y')) = false ->
  calls y' = calls y.
Proof.
  intros H Hs. destruct e as [m|d| | |p|w|a fin|w|len|n| |w]; simpl in H;
    unfold note, read_some, read_some_resume, write_impl, producer_callback, status in H;
    break; simplify_eq; simpl in *; rewrite ?app_nil_r, ?drop_app_length in *; try done;
    rewrite ?existsb_app in Hs; simpl in Hs; rewrite ?orb_true_r in Hs; try done.
Qed.

Lemma turn_quiet e x x' :
  coroutine e = true -> accepted e -> xstep e x = Some x' -> starts_write e x = false ->
  ng_calls x' = ng_calls x.
Proof.
  intros Hc Ha Hx Hs. destruct e as [f|f n v|f|id d|id|a e|path n hs ret|a n hs rv| | |]; try done;
    cbn [xstep starts_write] in *.
  - destruct (is_turn e); [|done]. destruct (heap x !! a) as [y|]; [|done].
    destruct (step e y) as [y'|] eqn:Es; [|done]. injection Hx as <-.
    by rewrite (step_quiet e y y' Es Hs), drop_all.
  - injection Hx as <-. unfold submit_request. destruct (role_ x); [done|]. exfalso.
    rewrite bool_decide_true in Hs by done. simpl in Ha. by apply Z.leb_gt in Hs; lia.
  - by rewrite Ha in Hs.
Qed.

(** [send_loop] goes to sleep only when nghttp2 has just had nothing to send. *)
Lemma send_turn_idle {I : NgIdle E} (c c' : conn (W := world_ (E := E))) :
  send_turn capacity c = Some c' -> sphase c' = SWaiting -> eng_idle (eng (world c')).
Proof.
  unfold send_turn. destruct (send_loop _ _ _ _ _) as [o|] eqn:Eo; [|done]. intros [= <-]. simpl.
  revert Eo. generalize (send_fuel capacity (spending c)) as fuel. intros fuel.
  generalize (spending c) (world c) ([] : list bytes). induction fuel as [|fuel IH]; intros pending w polled Eo Hp; [done|].
  cbn [send_loop] in Eo. destruct (mem_send2 w) as [[n data] w'] eqn:Em.
  destruct (Z.ltb_spec n 0); [by injection Eo as <-|].
  destruct (_ && _)%bool; [by apply (IH _ _ _ Eo)|].
  destruct (Z.ltb_spec 0 (Z.of_nat (length pending) + n)); [by injection Eo as <-|].
  destruct (_ && _)%bool; injection Eo as <-; [done|]. simpl.
  assert (n = 0%Z) as -> by lia. simpl in Em.
  pose proof (run_prog_leaves (A := Z * bytes * E) _ _ (sess w) (trace w) (eng_send_idle (eng w))) as H'.
  destruct (run_prog (eng_send (eng w)) (sess w) (trace w)) as [[[[n' d] e] x] evs].
  injection Em as -> -> <-. by apply H'.
Qed.

(** Asleep with its event not set: there is nothing to send. *)
Definition nothing_stranded {I : NgIdle E} k : Prop :=
  sphase (loops k) = SWaiting -> event_is_set (ready (loops k)) = false -> eng_idle (eng (world (loops k))).

Lemma stranded_send {I : NgIdle E} k e k' :
  match e with CSendStart | CWritten _ _ | CWake _ => True | _ => False end ->
  send_event capacity k e = Some k' -> nothing_stranded k'.
Proof.
  intros He. unfold send_event. destruct (cstep capacity e (loops k)) as [c|] eqn:Hs; [|done].
  intros [= <-]. unfold nothing_stranded. simpl.
  assert (Hidle : sphase c = SWaiting -> eng_idle (eng (world c))).
  { destruct e as [| |we n|we|re data| |w]; try done; simpl in Hs; (destruct (sphase (loops k)); try done).
    - exact (send_turn_idle _ _ Hs).
    - destruct we; [by injection Hs as <-|]. exact (send_turn_idle _ _ Hs).
    - destruct (wait_completes _ _); [|done]. destruct we; [by injection Hs as <-|]. exact (send_turn_idle _ _ Hs). }
  unfold sync_send. destruct (sphase c) eqn:Ep; simpl; rewrite ?Ep; auto.
Qed.

Lemma stranded_recv {I : NgIdle E} k e (o : recv_out (W := world_ (E := E))) k' :
  recv_event capacity k e o = Some k' ->
  (forall c, cstep capacity e (loops k) = Some c ->
     sphase c = sphase (loops k) /\ world c = ro_world o /\
     ready c = if ro_start_write o then event_set (ready (loops k)) else ready (loops k)) ->
  (ro_start_write o = false -> eng (ro_world o) = eng (world (loops k))) ->
  nothing_stranded k -> nothing_stranded k'.
Proof.
  unfold recv_event, nothing_stranded. destruct (cstep _ _ _) as [c|]; [|done]. intros [= <-] Hc Hq Hi. simpl.
  destruct (Hc c eq_refl) as (E1 & E2 & E3). unfold starts_loop.
  destruct (ro_start_write o); simpl; rewrite E1, E3, ?event_set_is_set; [done|].
  rewrite E2, Hq by done. exact Hi.
Qed.

Lemma recv_turn_frame (o : recv_out (W := world_ (E := E))) (c : conn) :
  sphase (recv_turn o c) = sphase c /\ world (recv_turn o c) = ro_world o /\
  ready (recv_turn o c) = if ro_start_write o then event_set (ready c) else ready c.
Proof. unfold recv_turn. by destruct (ro_start_write o). Qed.

Lemma recv_resume_starts ec data w : ro_start_write (recv_resume ec data w) = true.
Proof.
  unfold recv_resume. destruct ec; [done|]. destruct (mem_recv2 data w) as [rv w']. destruct (rv <? 0)%Z; [done|].
  unfold recv_check. by destruct (_ || _).
Qed.

Lemma stranded_turn {I : NgIdle E} k e k' :
  kstep capacity (KTurn e) k = Some k' -> accepted e -> nothing_stranded k -> nothing_stranded k'.
Proof.
  intros H Ha Hi. cbn [kstep] in H. destruct (coroutine e) eqn:Hc; [|done].
  destruct (xstep e (session_of k)) as [x'|] eqn:Ex; [|done]. injection H as <-.
  unfold nothing_stranded. simpl. destruct (starts_write e (session_of k)) eqn:Es; simpl.
  - by rewrite event_set_is_set.
  - by rewrite (turn_quiet e _ _ Hc Ha Ex Es), drop_all.
Qed.

Lemma kstep_trace ev k k' :
  kstep capacity ev k = Some k' -> exists es, trace (world (loops k')) = trace (world (loops k)) ++ es /\
    forall e, ev = KTurn e -> es = [e].
Proof.
  assert (Hw : forall w, wsteps (world (loops k)) w -> exists es, trace w = trace (world (loops k)) ++ es)
    by (intros w (es & T & _); by exists es).
  assert (Hsend : forall e, match e with CSendStart | CWritten _ _ | CWake _ => True | _ => False end ->
            send_event capacity k e = Some k' -> exists es, trace (world (loops k')) = trace (world (loops k)) ++ es).
  { intros e He. unfold send_event. destruct (cstep _ _ _) as [c|] eqn:Hs; [|done]. intros [= <-]. simpl.
    destruct (cstep_send_wsteps _ _ _ He Hs) as [(es & T & _) _]. unfold sync_send.
    destruct (sphase c); simpl; rewrite T; eauto. exists (es ++ [XClearReady]). by rewrite app_assoc. }
  assert (Hrecv : forall e o, recv_event capacity k e o = Some k' -> wsteps (world (loops k)) (ro_world o) ->
            (forall c, cstep capacity e (loops k) = Some c -> world c = ro_world o) ->
            exists es, trace (world (loops k')) = trace (world (loops k)) ++ es).
  { intros e o. unfold recv_event. destruct (cstep _ _ _) as [c|]; [|done]. intros [= <-] (es & T & _) Hc. simpl.
    specialize (Hc c eq_refl). unfold starts_loop. destruct (ro_start_write o); simpl; rewrite Hc, T; eauto.
    exists (es ++ [XStartWrite]). by rewrite app_assoc. }
  destruct ev as [| |ec n|ec|ec d|e|]; intros H.
  - destruct (Hsend CSendStart I H) as [es ?]. by exists es.
  - destruct (Hrecv CRecvStart _ H (recv_check_wsteps _ _)) as [es ?]; [|by exists es].
    intros c. simpl. destruct (rphase _); try done. intros [= <-]. apply recv_turn_frame.
  - destruct (Hsend (CWritten ec n) I H) as [es ?]. by exists es.
  - destruct (Hsend (CWake ec) I H) as [es ?]. by exists es.
  - destruct (Hrecv (CRead ec d) _ H (recv_resume_wsteps _ _ _)) as [es ?]; [|by exists es].
    intros c. simpl. destruct (rphase _); try done. destruct (_ <=? _); [|done]. intros [= <-].
    destruct ec; apply recv_turn_frame.
  - cbn [kstep] in H. destruct (coroutine e); [|done]. destruct (xstep _ _); [|done]. injection H as <-.
    exists [e]. simpl. split; [by destruct (starts_write _ _) | by intros ? [= <-]].
  - cbn [kstep] in H. destruct (sphase _); try done. destruct (rphase _); try done. destruct (over k); [done|].
    injection H as <-. by exists [XEnd].
Qed.

Lemma stranded_step {I : NgIdle E} ev k k' :
  kstep capacity ev k = Some k' -> Forall accepted (trace (world (loops k'))) ->
  nothing_stranded k -> nothing_stranded k'.
Proof.
  intros H Ha Hi. destruct (kstep_trace ev k k' H) as (es & T & He). rewrite T in Ha.
  apply Forall_app in Ha as [_ Ha]. destruct ev as [| |ec n|ec|ec d|e|].
  - by apply (stranded_send k CSendStart).
  - apply (stranded_recv k CRecvStart _ k' H); [|unfold recv_check; by destruct (_ || _)|done].
    intros c. simpl. destruct (rphase _); try done. intros [= <-]. apply recv_turn_frame.
  - by apply (stranded_send k (CWritten ec n)).
  - by apply (stranded_send k (CWake ec)).
  - apply (stranded_recv k (CRead ec d) _ k' H); [|by rewrite recv_resume_starts|done].
    intros c. simpl. destruct (rphase _); try done. destruct (_ <=? _); [|done]. intros [= <-].
    destruct ec; [apply recv_turn_frame | exact (recv_turn_frame _ ((loops k) <| fed := fed (loops k) ++ d |>))].
  - apply (stranded_turn k e); [done | | done]. rewrite (He e eq_refl) in Ha. by inversion Ha.
  - unfold nothing_stranded. cbn [kstep] in H. destruct (sphase (loops k)) eqn:Es; try done.
    destruct (rphase _); try done. destruct (over k); [done|]. injection H as <-. simpl. by rewrite Es.
Qed.

Lemma kreach_stranded {I : NgIdle E} k :
  kreach capacity role handler e0 k -> Forall accepted (trace (world (loops k))) -> nothing_stranded k.
Proof.
  induction 1 as [|k ev k' _ IH H]; intros Ha; [done|]. apply (stranded_step ev k); [done | done |].
  apply IH. destruct (kstep_trace ev k k' H) as (es & T & _). rewrite T in Ha. by apply Forall_app in Ha as [? _].
Qed.

(** C11 Output is never stranded in nghttp2: in every state a connection can reach (the
    loops of run(), nghttp2, its callbacks and the coroutines on the streams interleaved
    in any way) in which [send_loop] sleeps, either [write_ready_] is set, and then the
    loop can go on, or nghttp2 has nothing to send.  So each of the ways to give nghttp2
    something to send (received input, consumed bytes, a resumed or new body, submitted
    headers, the final GOAWAY) is followed by a [start_write()] that is not lost; nghttp2
    is to have refused no submission. *)
Theorem output_never_stranded {I : NgIdle E} k :
  kreach capacity role handler e0 k -> Forall accepted (trace (world (loops k))) ->
  sphase (loops k) = SWaiting ->
  (event_is_set (write_ready_ (session_of k)) = true -> is_Some (kstep capacity (KWake None) k)) /\
  (event_is_set (write_ready_ (session_of k)) = false -> eng_idle (eng (world (loops k)))).
Proof.
  intros Hk Ha Hp. destruct (kreach_inv k Hk) as [_ Hc Hr]. rewrite Hr. split; intros Hs.
  - cbn [kstep]. unfold send_event. simpl. rewrite Hp, Hs. unfold send_turn.
    destruct (send_turn_ok capacity _ (ci_size _ _ (creach_inv _ _ _ Hc))) as (o & ds & -> & _). by eexists.
  - by apply (kreach_stranded k Hk Ha).
Qed.

End Laws.

End ConnectionProps.
