(* ===== verification/ConnectionEnd.v ===== *)
(** * The end of a connection

    What becomes of the streams of a connection whose input has ended: the send loop
    drains nghttp2, run() returns, and every stream that was registered is closed. *)

From S2P Require Import Prelude Capy Nghttp2 Charconv Stream StreamRead StreamWrite StreamSys StreamProps.
From S2P Require Import Session SessionSys SessionProps Loops LoopProps.
From S2P Require Import Connection ConnectionProps.

Section ConnectionEnd.
Context {C : CapyOps} {L : CapyLaws C} {G : NgConsts}.

(** ** Streams stay registered until they are closed *)

(** [a] is registered, or was closed. *)
Definition kept (a : addr) (x : Session) : Prop :=
  (exists id, find_stream id x = Some a) \/
  (exists y, heap x !! a = Some y /\ closed_ (st y) = true).

Lemma with_stream_kept id f e x a :
  member f e -> kept a x -> kept a (with_stream id f x).
Proof.
  intros Hm [[id' H]|(y & Hy & Hc)].
  - left. exists id'. unfold find_stream in *. by rewrite (proj1 (with_stream_frame id f x)).
  - right. rewrite with_stream_heap. case_bool_decide; [|by exists y]. rewrite Hy. simpl.
    eexists. split; [done|]. simpl. destruct Hm as [m| |d| |]; simpl; try done.
    + by destruct m.
    + unfold on_data. by break.
Qed.

Lemma kept_frame x x' a : heap x' = heap x -> streams_ x' = streams_ x -> kept a x -> kept a x'.
Proof. unfold kept, find_stream. by intros -> ->. Qed.

Lemma on_header_kept f n v x a : kept a x -> kept a (on_header_callback f n v x).
Proof.
  intros H. unfold on_header_callback.
  assert (Hadd : forall x, kept a x -> kept a (with_stream (hd_stream_id f) (add_header n v) x))
    by (intros ? ?; by apply (with_stream_kept _ _ _ _ _ (member_meta (MAddHeader n v)))).
  case_bool_decide; [by apply (with_stream_kept _ _ _ _ _ (member_meta (MSetPath v)))|].
  case_bool_decide; [by apply (with_stream_kept _ _ _ _ _ (member_status _))|].
  destruct (is_pseudo n); [done|]. apply Hadd. case_bool_decide; [|done].
  destruct (fc_ec _); [done|]. destruct (fc_value _) as [len|]; [|done].
  destruct (_ =? _); [|done].
  by apply (with_stream_kept _ _ _ _ _ (member_meta (MSetContentLength len))).
Qed.

Lemma emplace_kept id a' a x : kept a x -> kept a (emplace id a' x).
Proof.
  unfold emplace, kept, find_stream. destruct (streams_ x !! id) eqn:Ei; [done|].
  intros [[id' H]|H]; [left|by right]. exists id'. simpl. rewrite lookup_insert_ne; congruence.
Qed.

(** New objects do not disturb old ones. *)
Lemma new_stream_kept r id a x : xinv r x -> kept a x -> kept a (new_stream id x).2.
Proof.
  intros Hi [H|(y & Hy & Hc)]; [by left|]. right. exists y. simpl.
  rewrite lookup_insert_ne; [done|]. intros <-.
  destruct (xi_fresh _ _ Hi (next_addr x)); [lia|congruence].
Qed.

Lemma begin_headers_kept r f x a : xinv r x -> kept a x -> kept a (on_begin_headers_callback f x).
Proof.
  intros Hi Hk. unfold on_begin_headers_callback. destruct (is_request_headers f); [|done].
  apply (kept_frame (emplace (hd_stream_id f) (next_addr x) (new_stream (hd_stream_id f) x).2));
    [done|done|]. by apply emplace_kept, (new_stream_kept r).
Qed.

Lemma close_stream_kept r id x a : xinv r x -> kept a x -> kept a (close_stream id x).
Proof.
  intros Hi Hk. unfold close_stream. destruct (streams_ x !! id) as [a'|] eqn:Es; [|done].
  assert (Hh : forall y, heap x !! a = Some y -> closed_ (st y) = true \/ a' = a ->
             exists y', heap (upd on_close a' x) !! a = Some y' /\ closed_ (st y') = true).
  { intros y Hy Hor. rewrite lookup_upd, Hy. case_decide; simpl; eexists; split; try done.
    by destruct Hor. }
  destruct Hk as [[id' H]|(y & Hy & Hc)]; [|right; apply (Hh y); auto].
  destruct (decide (id' = id)) as [->|Hne].
  - right. unfold find_stream in H. destruct (xi_table _ _ Hi _ _ H) as (_ & y & Hy & _).
    apply (Hh y); [done|]. right. congruence.
  - left. exists id'. unfold find_stream in *. simpl. by rewrite lookup_delete_ne.
Qed.

Lemma close_all_kept r x a : xinv r x -> kept a x ->
  exists y, heap (close_all x) !! a = Some y /\ closed_ (st y) = true.
Proof.
  intros Hi Hk. unfold close_all. set (l := (map_to_list (streams_ x)).*2).
  set (x0 := x <| streams_ := ∅ |>).
  assert (Hobj : exists y, heap x !! a = Some y /\ (closed_ (st y) = true \/ a ∈ l)).
  { destruct Hk as [[id H]|(y & Hy & Hc)]; [|by exists y; auto].
    destruct (xi_table _ _ Hi _ _ H) as (_ & y & Hy & _). exists y. split; [done|]. right.
    unfold l. apply list_elem_of_fmap. exists (id, a). by rewrite elem_of_map_to_list. }
  destruct Hobj as (y & Hy & Hor). destruct (decide (a ∈ l)) as [Hin|Hout].
  - destruct (close_list_lookup l x0 a Hin y Hy) as (y' & E' & Hcl).
    exists y'. split; [exact E' | apply Hcl].
  - exists y. destruct Hor as [Hc|]; [|done]. split; [|done].
    by rewrite (close_list_other l x0).
Qed.

Lemma kept_step r e x x' a :
  xinv r x -> xstep e x = Some x' -> kept a x -> kept a x'.
Proof.
  intros Hi Hs Hk. destruct e as [f|f n v|f|id d|id|a' e|path n hs ret|a' n hs rv| | |];
    simpl in Hs; try (injection Hs as <-); [..|right; by apply (close_all_kept r)].
  - by apply (begin_headers_kept r).
  - by apply on_header_kept.
  - unfold on_frame_recv_callback.
    assert (Hd : forall x1, kept a x1 -> kept a (if end_stream f then
              with_stream (hd_stream_id f) on_read_eof x1 else x1))
      by (intros ? ?; destruct (end_stream f); [by apply (with_stream_kept _ _ _ _ _ member_eof)|done]).
    apply Hd. destruct (is_request_headers f); [|done]. by destruct (find_stream _ _).
  - apply (with_stream_kept _ _ _ _ _ (member_data d)). by apply (kept_frame x).
  - by apply (close_stream_kept r).
  - destruct (is_turn e); [|done]. destruct (heap x !! a') as [y|] eqn:Ey; [|done].
    destruct (step e y) as [y'|] eqn:Est; [|done]. injection Hs as <-.
    destruct (perform_all_frame (drop (length (calls y)) (calls y'))
                (x <| heap := <[a' := y']> (heap x) |>)) as (E1 & E2 & _).
    apply (kept_frame _ _ _ E1 E2). destruct Hk as [H|(y1 & Hy1 & Hc)]; [by left|]. right. simpl.
    destruct (decide (a' = a)) as [->|Hne]; [|rewrite lookup_insert_ne by done; by exists y1].
    rewrite lookup_insert_eq. exists y'. split; [done|]. apply (step_closed e y); congruence.
  - unfold submit_request. destruct (role_ x); [done|]. simpl.
    pose proof (new_stream_kept r 0 a x Hi Hk) as Hn. simpl in Hn.
    destruct (ret <? 0)%Z; simpl.
    + apply (kept_frame x); [|done|done]. simpl. rewrite delete_insert_id; [done|].
      by destruct (xi_fresh _ _ Hi (next_addr x)).
    + apply (kept_frame (emplace ret (next_addr x)
                (upd (set_id (log_prefix x) ret) (next_addr x) (new_stream 0 x).2))).
      1, 2: unfold emplace; simpl; by destruct (streams_ x !! ret).
      apply emplace_kept. destruct Hk as [H|(y & Hy & Hc)]; [by left|]. right. exists y.
      rewrite lookup_upd, decide_False; simpl; [rewrite lookup_insert_ne; [done|]|];
        intros <-; destruct (xi_fresh _ _ Hi (next_addr x)); (lia || congruence).
  - unfold submit_response. destruct (negb _); by apply (kept_frame x).
  - by apply (kept_frame x).
  - by apply (kept_frame x).
Qed.

Lemma kept_run r es x x' a :
  xinv r x -> Forall fits es -> xrun es x = Some x' -> kept a x -> kept a x'.
Proof.
  revert r x; induction es as [|e es IH]; intros r x Hi Hf Hx Hk; simpl in Hx; [by injection Hx as <-|].
  destruct (xstep e x) as [x1|] eqn:Ex; [|done]. inversion Hf; subst.
  eapply IH; [by eapply xinv_step | done | done | by apply (kept_step r e x)].
Qed.

(** ** The send loop drains a terminated nghttp2 *)

Context {E : Type} {N : NgEngine E} {NL : NgEngineLaws E}.
Context (capacity : nat).
Implicit Types (w : world_ (E := E)) (c : conn (W := world_ (E := E))) (k : connection (E := E)).

(** What nghttp2 still has to send. *)
Definition left_ c : nat := eng_left (eng (world c)).

Lemma mem_send2_left w n data w' :
  eng_terminated (eng w) -> mem_send2 w = (n, data, w') -> (0 <= n)%Z ->
  eng_left (eng w') <= eng_left (eng w) /\ ((0 < n)%Z -> eng_left (eng w') < eng_left (eng w)).
Proof.
  intros Ht Hs Hn. simpl in Hs.
  pose proof (run_prog_leaves (A := Z * bytes * E) _ _ (sess w) (trace w) (eng_send_ok (eng w) Ht)) as H.
  destruct (run_prog (eng_send (eng w)) (sess w) (trace w)) as [[[[n' d] e] x] evs].
  injection Hs as -> -> <-. destruct H as (_ & Hle & Hlt & _). auto.
Qed.

Lemma send_loop_left fuel pending w polled o b f :
  eng_terminated (eng w) -> send_loop capacity fuel pending w polled = Some o ->
  so_phase o = SWriting b f ->
  eng_left (eng (so_world o)) <= eng_left (eng w) /\
  (pending = [] -> eng_left (eng (so_world o)) < eng_left (eng w)).
Proof.
  revert pending w polled; induction fuel as [|fuel IH]; intros pending w polled Ht Hl Ho; [done|].
  cbn [send_loop] in Hl. pose proof (terminated_send w Ht) as Ht'.
  destruct (mem_send2 w) as [[n data] w'] eqn:Es. simpl in Ht'.
  destruct (Z.ltb_spec n 0) as [|Hn]; [by injection Hl as <-|].
  destruct (mem_send2_left w n data w' Ht Es Hn) as [Hle Hlt].
  destruct (Z.ltb_spec 0 n) as [Hpos|Hz]; cbn [andb] in Hl.
  - destruct (n <=? _)%Z.
    + destruct (IH _ _ _ Ht' Hl Ho) as [Hr _]. specialize (Hlt Hpos). split; lia.
    + destruct (0 <? _)%Z; [|by destruct (_ && _)%bool; injection Hl as <-].
      injection Hl as <-. simpl. specialize (Hlt Hpos). split; lia.
  - destruct (Z.ltb_spec 0 (Z.of_nat (length pending) + n));
      [|by destruct (_ && _)%bool; injection Hl as <-].
    injection Hl as <-. simpl. split; [lia|]. intros ->. simpl in *. lia.
Qed.

Lemma send_turn_left c c' :
  eng_terminated (eng (world c)) -> spending c = [] -> length (spending c) <= capacity ->
  send_turn capacity c = Some c' ->
  rphase c' = rphase c /\
  (sphase c' = SDone \/ exists b f, sphase c' = SWriting b f /\ left_ c' < left_ c).
Proof.
  intros Ht Hp Hsz. unfold send_turn.
  destruct (send_turn_ok (W := world_ (E := E)) capacity c Hsz) as (o & ds & Eo & _ & Hspec).
  rewrite Eo. intros [= <-]. simpl. split; [done|].
  destruct (send_loop_terminated (K := world_closing) capacity _ _ _ _ _ Ht Eo) as (_ & Hw & _).
  unfold turn_spec in Hspec. destruct (so_phase o) as [|b f| |] eqn:Ep; [done| |done|by left].
  right. exists b, f. split; [done|].
  destruct (send_loop_left _ _ _ _ _ _ _ Ht Eo Ep) as [_ H]. by apply H.
Qed.

(** ** The last completions *)

(** The completions a connection that winds down waits for; none of them an error. *)
Definition completion (e : kev) : bool :=
  match e with
  | KSendStart | KWritten None _ | KWake None | KEnd => true
  | _ => false
  end.

Definition draining k : Prop :=
  Forall fits (trace (world (loops k))) /\ rphase (loops k) = RDone /\ over k = false.

(** The completion [send_loop] waits for. *)
Definition next_send c : option (cev (W := world_ (E := E))) :=
  match sphase c with
  | SNew => Some CSendStart
  | SWriting _ _ => Some (CWritten None 0)
  | SWaiting => Some (CWake None)
  | SDone => None
  end.

Definition kev_of (e : cev (W := world_ (E := E))) : kev :=
  match e with
  | CSendStart => KSendStart
  | CWritten ec n => KWritten ec n
  | CWake ec => KWake ec
  | _ => KEnd
  end.

Context (role : Role) (handler : bool) (e0 : E).

Lemma next_send_turn k e :
  kinv capacity role handler e0 k -> rphase (loops k) = RDone -> next_send (loops k) = Some e ->
  exists c1, cstep capacity e (loops k) = send_turn capacity c1 /\ spending c1 = [] /\
    world c1 = world (loops k) /\ rphase c1 = RDone.
Proof.
  intros [_ Hc _] Hr Hn. unfold next_send in Hn.
  destruct (creach_inv _ _ _ Hc) as [Hsz Hid _ _ _ Hrd].
  destruct (creach_winding_down _ _ _ Hc Hr) as [_ Hpk].
  destruct (sphase (loops k)) as [|b f| |] eqn:Ep; try done; injection Hn as <-.
  - exists (loops k). simpl. rewrite Ep. by auto.
  - simpl. rewrite Ep. by eexists.
  - exists (loops k). simpl. rewrite Ep, (Hrd eq_refl), (Hpk eq_refl). by auto.
Qed.

Lemma next_send_step k e :
  kinv capacity role handler e0 k -> draining k -> next_send (loops k) = Some e ->
  exists k', kstep capacity (kev_of e) k = Some k' /\ draining k' /\
    wsteps (world (loops k)) (world (loops k')) /\
    (sphase (loops k') = SDone \/
     exists b f, sphase (loops k') = SWriting b f /\ left_ (loops k') < left_ (loops k)).
Proof.
  intros Hi Hd Hn. destruct (next_send_turn k e Hi (proj1 (proj2 Hd)) Hn) as (c1 & Es & Hp & Hw & Hr1).
  pose proof Hi as [_ Hc _]. pose proof Hd as (Hf & Hr & Ho).
  destruct (creach_winding_down _ _ _ Hc Hr) as [Ht _]. rewrite <-Hw in Ht.
  assert (Hsz : length (spending c1) <= capacity) by (rewrite Hp; simpl; lia).
  destruct (send_turn capacity c1) as [c'|] eqn:Et.
  2: { unfold send_turn in Et. destruct (send_turn_ok capacity c1 Hsz) as (o & ds & Eo & _).
       by rewrite Eo in Et. }
  destruct (send_turn_left c1 c' Ht Hp Hsz Et) as [Hr' Hph].
  assert (Hsend : match e with CSendStart | CWritten _ _ | CWake _ => True | _ => False end).
  { unfold next_send in Hn. by destruct (sphase (loops k)); try done; injection Hn as <-. }
  destruct (cstep_send_wsteps capacity e _ _ Hsend Es) as [Hws _].
  assert (Hsync : sync_send c' = c').
  { unfold sync_send. destruct Hph as [->|(b & f & -> & _)]; done. }
  exists (k <| loops := c' |>). split; [|split; [|split; [done|]]].
  - assert (Hk : kstep capacity (kev_of e) k = send_event capacity k e) by by destruct e.
    rewrite Hk. unfold send_event. by rewrite Es, Hsync.
  - destruct Hws as (es & Htr & _ & Hfe & _). split; [|split; [simpl; congruence | done]].
    simpl. rewrite Htr. apply Forall_app. split; [done | by apply engine_fits].
  - simpl. unfold left_ in *. by rewrite <-Hw.
Qed.

Lemma next_send_completion c e : next_send c = Some e -> completion (kev_of e) = true.
Proof. unfold next_send. by destruct (sphase c); try done; intros [= <-]. Qed.

(** Nothing else completes without an error. *)
Lemma completion_next e k k' :
  completion e = true -> e <> KEnd -> kstep capacity e k = Some k' ->
  exists ce, next_send (loops k) = Some ce /\ kstep capacity (kev_of ce) k = Some k'.
Proof.
  intros He Hn H. unfold next_send.
  destruct e as [| |[]|[]| | |]; try done; pose proof H as H'; cbn [kstep] in H; unfold send_event in H; simpl in H;
    (destruct (sphase (loops k)); try done); by eexists.
Qed.

(** Completions [send_loop] can still wait for. *)
Definition rounds c : nat := match sphase c with SDone => 0 | _ => S (left_ c) end.

(** Each brings its end nearer, ... *)
Lemma completion_drains e k k' :
  kinv capacity role handler e0 k -> draining k -> completion e = true -> e <> KEnd ->
  kstep capacity e k = Some k' ->
  draining k' /\ wsteps (world (loops k)) (world (loops k')) /\ rounds (loops k') < rounds (loops k).
Proof.
  intros Hi Hd He Hn H. destruct (completion_next e k k' He Hn H) as (ce & Hce & H').
  destruct (next_send_step k ce Hi Hd Hce) as (k1 & Hk & Hd1 & Hw & Hor).
  assert (k1 = k') as -> by congruence. split; [done|]. split; [done|]. unfold rounds.
  unfold next_send in Hce. destruct Hor as [->|(b & f & -> & Hlt)]; destruct (sphase (loops k)); try done; lia.
Qed.

(** ... and until it has come, one is possible. *)
Lemma completion_possible k :
  kinv capacity role handler e0 k -> rphase (loops k) = RDone -> over k = false ->
  exists e, completion e = true /\ is_Some (kstep capacity e k).
Proof.
  intros Hi Hr Ho. destruct (next_send (loops k)) as [ce|] eqn:Hn.
  - exists (kev_of ce). split; [by eapply next_send_completion|].
    destruct (next_send_turn k ce Hi Hr Hn) as (c1 & Es & Hp & _).
    assert (Hsz : length (spending c1) <= capacity) by (rewrite Hp; simpl; lia).
    assert (Hk : kstep capacity (kev_of ce) k = send_event capacity k ce).
    { unfold next_send in Hn. by destruct (sphase (loops k)); try done; injection Hn as <-. }
    rewrite Hk. unfold send_event. rewrite Es. unfold send_turn.
    destruct (send_turn_ok capacity c1 Hsz) as (o & ds & -> & _). by eexists.
  - exists KEnd. split; [done|]. cbn [kstep]. unfold next_send in Hn.
    destruct (sphase (loops k)); try done. rewrite Hr, Ho. by eexists.
Qed.

Lemma krun_app evs evs' k :
  krun capacity (evs ++ evs') k =
  match krun capacity evs k with Some k => krun capacity evs' k | None => None end.
Proof.
  revert k; induction evs as [|e evs IH]; intros k; simpl; [done|].
  destruct (kstep capacity e k); [apply IH | done].
Qed.

(** The end of run(), and what becomes of every stream that was registered at some
    time. *)
Lemma end_step k k' :
  kinv capacity role handler e0 k -> draining k -> kstep capacity KEnd k = Some k' ->
  over k' = true /\ streams_ (session_of k') = ∅ /\
  forall a, kept a (session_of k) -> exists y, heap (session_of k') !! a = Some y /\ closed_ (st y) = true.
Proof.
  intros [[r Hx] _ _] (Hf & _ & _) H. cbn [kstep] in H. destruct (sphase _); try done. destruct (rphase _); try done.
  destruct (over k); [done|]. injection H as <-. split; [done|]. unfold session_of in *. simpl.
  unfold sess_event. simpl. split; [unfold close_all; by rewrite (proj2 (close_list_next _ _))|].
  intros a. apply (close_all_kept r). by eapply xreach_inv.
Qed.

(** After run() nothing of the loops is left to complete. *)
Lemma over_stops evs k k' :
  over k = true -> sphase (loops k) = SDone -> Forall (fun e => completion e = true) evs ->
  krun capacity evs k = Some k' -> evs = [] /\ k' = k.
Proof.
  intros Ho Hs Hf Hr. destruct evs as [|e evs]; [by injection Hr as <-|]. exfalso. inversion Hf as [|? ? He _]; subst.
  simpl in Hr. destruct e as [| |[]|[]| | |]; try done; cbn [kstep] in Hr; unfold send_event in Hr; simpl in Hr;
    rewrite Hs in Hr; try done. by destruct (rphase _); rewrite ?Ho in Hr.
Qed.

(** All the ways in which completions can follow each other. *)
Lemma completions_end evs k k' :
  kinv capacity role handler e0 k -> draining k -> Forall (fun e => completion e = true) evs ->
  krun capacity evs k = Some k' ->
  length evs <= rounds (loops k) + 1 /\
  (over k' = true -> streams_ (session_of k') = ∅ /\
   forall a, kept a (session_of k) -> exists y, heap (session_of k') !! a = Some y /\ closed_ (st y) = true).
Proof.
  revert k; induction evs as [|e evs IH]; intros k Hi Hd Hf Hr.
  { injection Hr as <-. split; [simpl; lia|]. destruct Hd as (_ & _ & ->). done. }
  inversion Hf as [|? ? He Hf']; subst. simpl in Hr. destruct (kstep capacity e k) as [k1|] eqn:Hk; [|done].
  assert (Hdec : e = KEnd \/ e <> KEnd) by (destruct e; by (left + right)). destruct Hdec as [->|Hne].
  - destruct (end_step k k1 Hi Hd Hk) as (Ho & Htab & Hcl).
    destruct (over_stops evs k1 k' Ho) as [-> ->]; [|done|done|by split; [simpl; lia|]].
    cbn [kstep] in Hk. destruct (sphase (loops k)) eqn:Es; try done. destruct (rphase _); try done.
    destruct (over k); [done|]. injection Hk as <-. exact Es.
  - destruct (completion_drains e k k1 Hi Hd He Hne Hk) as (Hd1 & Hw & Hlt).
    destruct (IH k1 (kinv_step _ _ _ _ _ _ _ Hi Hk) Hd1 Hf' Hr) as [Hl Hend]. split; [simpl; lia|].
    intros Ho. destruct (Hend Ho) as [Htab Hcl]. split; [done|]. intros a Ha. apply Hcl.
    destruct Hi as [[r Hx] _ _]. destruct Hw as (es & _ & Hes & Hfe & _).
    apply (kept_run r es (session_of k)); [eapply xreach_inv; [exact Hx | apply Hd] | by apply engine_fits | done | done].
Qed.

(** They lead to the end. *)
Lemma winds_down k :
  kinv capacity role handler e0 k -> draining k ->
  exists evs k', length evs <= eng_left (eng (world (loops k))) + 2 /\
    Forall (fun e => completion e = true) evs /\ krun capacity evs k = Some k' /\
    over k' = true /\ streams_ (session_of k') = ∅ /\
    forall a, kept a (session_of k) ->
      exists y, heap (session_of k') !! a = Some y /\ closed_ (st y) = true.
Proof.
  intros Hi Hd.
  assert (Hrun : forall n k, kinv capacity role handler e0 k -> draining k -> rounds (loops k) < n ->
            exists evs k', Forall (fun e => completion e = true) evs /\ krun capacity evs k = Some k' /\ over k' = true).
  { clear k Hi Hd. induction n as [|n IH]; intros k Hi Hd Hn; [lia|].
    destruct (completion_possible k Hi (proj1 (proj2 Hd)) (proj2 (proj2 Hd))) as (e & He & [k1 Hk]).
    assert (Hdec : e = KEnd \/ e <> KEnd) by (destruct e; by (left + right)). destruct Hdec as [->|Hne].
    - exists [KEnd], k1. cbn [krun]. rewrite Hk. split; [by repeat constructor|]. split; [done|].
      by destruct (end_step k k1 Hi Hd Hk).
    - destruct (completion_drains e k k1 Hi Hd He Hne Hk) as (Hd1 & _ & Hlt).
      destruct (IH k1 (kinv_step _ _ _ _ _ _ _ Hi Hk) Hd1) as (evs & k' & Hf & Hr & Ho); [lia|].
      exists (e :: evs), k'. cbn [krun]. rewrite Hk. split; [by constructor | done]. }
  destruct (Hrun _ k Hi Hd (Nat.lt_succ_diag_r _)) as (evs & k' & Hf & Hr & Ho).
  destruct (completions_end evs k k' Hi Hd Hf Hr) as [Hl Hend]. destruct (Hend Ho) as [Htab Hcl].
  exists evs, k'. split; [|done]. unfold rounds, left_ in Hl. destruct (sphase _); lia.
Qed.

(** [recv_loop] does not come back. *)
Lemma rdone_step ev k k' :
  rphase (loops k) = RDone -> kstep capacity ev k = Some k' -> rphase (loops k') = RDone.
Proof.
  intros Hr H. assert (Hsend : forall e, match e with CSendStart | CWritten _ _ | CWake _ => True | _ => False end ->
            send_event capacity k e = Some k' -> rphase (loops k') = RDone).
  { intros e He. unfold send_event. destruct (cstep _ _ _) as [c|] eqn:Hs; [|done]. intros [= <-]. simpl.
    assert (Hturn : forall c1, send_turn capacity c1 = Some c -> rphase c = rphase c1)
      by (intros c1; unfold send_turn; destruct (send_loop _ _ _ _ _); [|done]; by intros [= <-]).
    assert (Hc : rphase c = RDone).
    { destruct e as [| |[]|[]| | |]; try done; simpl in Hs; (destruct (sphase (loops k)); try done);
        try (destruct (event_is_set _); [|done]); try (by injection Hs as <-); by rewrite (Hturn _ Hs). }
    unfold sync_send. by destruct (sphase c). }
  destruct ev as [| |ec n|ec|ec d|e|]; [by apply (Hsend CSendStart)| |by apply (Hsend (CWritten ec n))
    |by apply (Hsend (CWake ec))|..]; cbn [kstep] in H.
  - unfold recv_event in H. simpl in H. by rewrite Hr in H.
  - unfold recv_event in H. simpl in H. by rewrite Hr in H.
  - destruct (coroutine e); [|done]. destruct (xstep _ _); [|done]. injection H as <-. simpl.
    by destruct (starts_write _ _).
  - destruct (sphase _); try done. rewrite Hr in H. destruct (over k); [done|]. by injection H as <-.
Qed.

Lemma rdone_run evs k k' :
  kinv capacity role handler e0 k -> rphase (loops k) = RDone -> krun capacity evs k = Some k' ->
  kinv capacity role handler e0 k' /\ rphase (loops k') = RDone.
Proof.
  revert k; induction evs as [|e evs IH]; intros k Hi Hr H; simpl in H; [by injection H as <-|].
  destruct (kstep capacity e k) as [k1|] eqn:Hk; [|done].
  apply (IH k1); [by eapply kinv_step | by eapply rdone_step | done].
Qed.

(** C14 A connection whose input has ended comes to its end, in every order of events:
    once [recv_loop] has returned (end of input, read error, protocol error), then,
    whatever happens from there (turns of any coroutine, failed writes, cancellations),
    as long as run() has not returned a completion that brings it nearer is possible: the
    start of [send_loop], its wake-up (its event is set), the end of a write, or the
    return of run(); and however such completions follow each other, there are at most two
    more than nghttp2 has chunks left; when they have led to the return of run(), the stream
    table is empty and every stream that was registered is closed, so that no reader or
    writer of it is left behind.  Relied on: corosio resumes a coroutine whose event is
    set; every read had a destination of one window. *)
Theorem connection_ends k :
  kreach capacity role handler e0 k -> Forall fits (trace (world (loops k))) ->
  rphase (loops k) = RDone -> over k = false ->
  (forall evs k', krun capacity evs k = Some k' -> over k' = false ->
     exists e, completion e = true /\ is_Some (kstep capacity e k')) /\
  (forall evs k', krun capacity evs k = Some k' -> Forall (fun e => completion e = true) evs ->
     length evs <= eng_left (eng (world (loops k))) + 2 /\
     (over k' = true -> streams_ (session_of k') = ∅ /\
        forall id a, streams_ (session_of k) !! id = Some a ->
          exists y, heap (session_of k') !! a = Some y /\ closed_ (st y) = true)).
Proof.
  intros Hk Hf Hr Ho. pose proof (kreach_inv _ _ _ _ _ Hk) as Hi. split; intros evs k' Hrun.
  - intros Ho'. destruct (rdone_run evs k k' Hi Hr Hrun) as [Hi' Hr']. by apply completion_possible.
  - intros Hc. destruct (completions_end evs k k' Hi) as [Hl Hend]; [by repeat split | done | done |].
    split; [unfold rounds, left_ in Hl; destruct (sphase _); lia|].
    intros Ho'. destruct (Hend Ho') as [Htab Hcl]. split; [done|]. intros id a Hs. apply Hcl. left. by exists id.
Qed.

(** ** After the end *)

(** Nothing has reached the stream, and nobody woke its coroutines. *)
Record unserved (y : sys) : Prop := {
  un_open : closed_ (st y) = false;
  un_eof : read_eof_ (st y) = false;
  un_chunks : chunks_ (st y) = [];
  un_status : (status_ (st y) < 0)%Z;
  un_sink s : read_sink_ (st y) = Some s -> copied s = 0;
  un_read : event_is_set (read_ready_ (st y)) = false;
  un_write : event_is_set (write_progress_ (st y)) = false;
  un_ready : event_is_set (status_ready_ (st y)) = false;
}.

Lemma unserved_new pre id id' pre' :
  unserved ((sys_new pre id) <| st := set_id pre' id' (st (sys_new pre id)) |>).
Proof. split; simpl; try done; apply event_new_is_set. Qed.

(** A turn of a coroutine on the stream. *)
Definition own_turn (e : sev) : bool :=
  is_turn e && match e with EProduce _ => false | _ => true end.

Lemma drain_nothing s p :
  chunks_ s = [] ->
  drain (drain_fuel s) (mkDrain (chunks_ s) (front_offset_ s) p 0 [])
  = Some (mkDrain [] (front_offset_ s) p 0 []).
Proof. intros ->. done. Qed.

Lemma unserved_turn e y y' :
  own_turn e = true -> step e y = Some y' -> unserved y -> unserved y'.
Proof.
  intros He Hs Hu. pose proof Hu as [Ho Hf Hc Hst Hk Hr Hw Hy].
  destruct e as [m|d| | |p|w|a fin|w|len|n| |w]; try done; simpl in Hs.
  - destruct (read_sink_ (st y)) eqn:Ek; [done|]. unfold read_some in Hs.
    rewrite (drain_nothing _ _ Hc) in Hs. simpl in Hs. rewrite Hf, Ho in Hs. simpl in Hs.
    injection Hs as <-. split; simpl; try done; [by intros ? [= <-] | apply event_clear_is_set].
  - destruct (read_sink_ (st y)) as [k|] eqn:Ek; [|done].
    unfold read_some_resume in Hs. rewrite (Hk k eq_refl) in Hs.
    destruct w as [w|]; simpl in Hs; [|by rewrite Hr in Hs].
    injection Hs as <-. by split.
  - destruct (writer y); [done|]. unfold write_impl in Hs. rewrite Ho in Hs. injection Hs as <-.
    split; simpl; try done. apply event_clear_is_set.
  - destruct (writer y) as [[a fin]|]; [|done]. destruct w; simpl in Hs; [|by rewrite Hw in Hs].
    injection Hs as <-. by split.
  - destruct (status_waiter y); [done|]. unfold status in Hs.
    destruct (Z.ltb_spec (status_ (st y)) 0); [|lia]. injection Hs as <-.
    split; simpl; try done. apply event_clear_is_set.
  - destruct (status_waiter y); [|done]. destruct w; simpl in Hs; [|by rewrite Hy in Hs].
    injection Hs as <-. by split.
Qed.

(** No coroutine on it can be resumed, except to be cancelled. *)
Lemma unserved_hangs y :
  unserved y -> Forall (fun e => step e y = None) [EReadWake None; EWriteWake None; EStatusWake None].
Proof.
  intros [Ho Hf Hc Hst Hk Hr Hw Hy]. repeat constructor; simpl; rewrite ?Hr, ?Hw, ?Hy.
  - by destruct (read_sink_ (st y)).
  - by destruct (writer y) as [[]|].
  - by rewrite andb_false_r.
Qed.

Definition loops_done k : Prop :=
  over k = true /\ sphase (loops k) = SDone /\ rphase (loops k) = RDone.

Lemma kturn_inv k e k' :
  kstep capacity (KTurn e) k = Some k' ->
  coroutine e = true /\ xstep e (session_of k) = Some (session_of k') /\
  over k' = over k /\ sphase (loops k') = sphase (loops k) /\ rphase (loops k') = rphase (loops k).
Proof.
  cbn [kstep]. destruct (coroutine e); [|done].
  destruct (xstep e (session_of k)) as [x|]; [|done]. intros [= <-].
  split; [done|]. by destruct (starts_write e (session_of k)).
Qed.

(** The loops have returned, only coroutines are left. *)
Lemma done_step ev k k' :
  loops_done k -> kstep capacity ev k = Some k' ->
  loops_done k' /\ exists e, ev = KTurn e.
Proof.
  intros (Ho & Hs & Hr) H. destruct ev as [| |ec n|ec|ec d|e|].
  6: { destruct (kturn_inv _ _ _ H) as (_ & _ & E1 & E2 & E3).
       unfold loops_done. rewrite E1, E2, E3. split; [by repeat split | by exists e]. }
  all: cbn [kstep] in H; unfold send_event, recv_event in H; simpl in H;
    rewrite ?Ho, ?Hs, ?Hr in H; done.
Qed.

Lemma over_done k : kreach capacity role handler e0 k -> over k = true -> loops_done k.
Proof.
  induction 1 as [|k ev k' _ IH H]; intros Ho; [done|]. destruct (over k) eqn:Eo.
  { by destruct (done_step ev k k' (IH eq_refl) H). }
  destruct ev as [| |ec n|ec|ec d|e|].
  6: { destruct (kturn_inv _ _ _ H) as (_ & _ & Eo' & _). congruence. }
  6: { cbn [kstep] in H. destruct (sphase (loops k)) eqn:Es; try done.
       destruct (rphase (loops k)) eqn:Er; try done. rewrite Eo in H. by injection H as <-. }
  all: cbn [kstep] in H; unfold send_event, recv_event in H;
    destruct (cstep _ _ _); [|done]; injection H as <-; simpl in Ho; congruence.
Qed.

(** [a] is registered under [id], served by nobody. *)
Definition orphan (id : Z) (a : addr) (x : Session) : Prop :=
  streams_ x !! id = Some a /\ a < next_addr x /\ exists y, heap x !! a = Some y /\ unserved y.

Lemma orphan_step e x x' id a :
  coroutine e = true -> xstep e x = Some x' -> orphan id a x -> orphan id a x'.
Proof.
  intros He Hs Hor. pose proof Hor as (Hid & Hlt & y & Hy & Hu).
  destruct e as [f|f n v|f|i d|i|a' e|path n hs ret|a' n hs rv| | |]; try done; simpl in Hs.
  - destruct (is_turn e) eqn:Et; [|done]. destruct (heap x !! a') as [y1|] eqn:Ey; [|done].
    destruct (step e y1) as [y'|] eqn:Est; [|done]. injection Hs as <-.
    destruct (perform_all_frame (drop (length (calls y1)) (calls y'))
                (x <| heap := <[a' := y']> (heap x) |>)) as (E1 & E2 & E3).
    unfold orphan. rewrite E1, E2, E3. simpl. split; [done|]. split; [done|].
    destruct (decide (a' = a)) as [->|Hne];
      [rewrite lookup_insert_eq | rewrite lookup_insert_ne by done; by exists y].
    exists y'. split; [done|]. apply (unserved_turn e y1); [|done|congruence].
    unfold own_turn. rewrite Et. by destruct e.
  - injection Hs as <-. unfold submit_request. destruct (role_ x); [exact Hor|].
    simpl. destruct (ret <? 0)%Z; unfold orphan; simpl.
    + split; [done|]. split; [lia|]. exists y.
      rewrite lookup_delete_ne, lookup_insert_ne by lia. done.
    + unfold emplace. simpl. split.
      { destruct (streams_ x !! ret) eqn:Er; simpl; [done|]. rewrite lookup_insert_ne; congruence. }
      assert (Hh : alter (fun y => y <| st := set_id (log_prefix x) ret (st y) |>) (next_addr x)
                (<[next_addr x := sys_new (log_prefix x) 0]> (heap x)) !! a = Some y).
      { rewrite lookup_alter_ne, lookup_insert_ne by lia. done. }
      destruct (streams_ x !! ret); simpl; (split; [lia|]); by exists y.
  - injection Hs as <-. unfold submit_response. destruct (negb _); exact Hor.
Qed.

Lemma orphan_run evs k k' id a :
  loops_done k -> orphan id a (session_of k) -> krun capacity evs k = Some k' ->
  orphan id a (session_of k').
Proof.
  revert k; induction evs as [|ev evs IH]; intros k Hd Hor Hrun; simpl in Hrun; [by injection Hrun as <-|].
  destruct (kstep capacity ev k) as [k1|] eqn:Ek; [|done].
  destruct (done_step _ _ _ Hd Ek) as [Hd1 [e ->]].
  destruct (kturn_inv _ _ _ Ek) as (Hc & Hx & _).
  apply (IH k1); [done | by apply (orphan_step e (session_of k)) | done].
Qed.

Lemma late_submit path n hs ret x :
  role_ x = client -> (0 <= ret)%Z -> find_stream ret x = None ->
  (submit_request path n hs ret x).1 = IoResult None (Some (next_addr x)) /\
  orphan ret (next_addr x) (submit_request path n hs ret x).2.
Proof.
  intros Hr Hret Hid. unfold submit_request. rewrite Hr. simpl.
  destruct (Z.ltb_spec ret 0); [lia|]. split; [done|]. simpl. unfold find_stream in Hid.
  unfold emplace. simpl. rewrite Hid. unfold orphan. simpl.
  split; [by rewrite lookup_insert_eq|]. split; [lia|].
  rewrite lookup_alter_eq, lookup_insert_eq. simpl. eexists. split; [done|]. apply unserved_new.
Qed.

(** C35 A request submitted after the end of its session is orphaned: when [run()] has
    returned and nghttp2 still accepts the request (it only queues it), [submit_request]
    reports success and registers the stream, but nothing is left that would serve or
    close it: whatever the coroutines do from then on, the stream stays registered and
    open, and no read, write or wait for the status on it ever resumes unless it is
    cancelled. *)
Theorem late_request_orphaned k path n hs ret :
  kreach capacity role handler e0 k -> over k = true -> role_ (session_of k) = client ->
  (0 <= ret)%Z -> find_stream ret (session_of k) = None ->
  exists a k1, (submit_request path n hs ret (session_of k)).1 = IoResult None (Some a) /\
    kstep capacity (KTurn (XSubmitRequest path n hs ret)) k = Some k1 /\
    forall evs k2, krun capacity evs k1 = Some k2 ->
      find_stream ret (session_of k2) = Some a /\
      (exists y, heap (session_of k2) !! a = Some y /\ closed_ (st y) = false) /\
      Forall (fun e => kstep capacity (KTurn (XTurn a e)) k2 = None)
        [EReadWake None; EWriteWake None; EStatusWake None].
Proof.
  intros Hk Ho Hr Hret Hid. pose proof (over_done _ Hk Ho) as Hd.
  destruct (late_submit path n hs ret _ Hr Hret Hid) as [Hres Hor].
  destruct (kstep capacity (KTurn (XSubmitRequest path n hs ret)) k) as [k1|] eqn:Ek; [|done].
  destruct (kturn_inv _ _ _ Ek) as (_ & Hx & _). injection Hx as Hx.
  destruct (done_step _ _ _ Hd Ek) as [Hd1 _].
  exists (next_addr (session_of k)), k1. split; [done|]. split; [done|]. intros evs k2 Hrun.
  rewrite Hx in Hor.
  destruct (orphan_run _ _ _ _ _ Hd1 Hor Hrun) as (Hid2 & _ & y & Hy & Hu).
  split; [done|]. split; [exists y; by destruct Hu|].
  eapply Forall_impl; [by apply unserved_hangs|]. intros e He. cbn [kstep].
  destruct (coroutine _); [|done]. simpl. destruct (is_turn e); [|done]. by rewrite Hy, He.
Qed.

End ConnectionEnd.
