(* ===== verification/ConnectionDemo.v ===== *)
(** * Connections on a concrete engine

    A small engine in place of nghttp2, with its laws, and runs of whole connections
    on which the theorems of ConnectionProps and ConnectionEnd are evaluated. *)

From S2P Require Import Prelude Capy Nghttp2 Stream StreamWrite StreamSys Session SessionSys Loops.
From S2P Require Import Connection ConnectionProps ConnectionEnd.

Module ConnectionDemo.
#[local] Existing Instance capy_ref.
#[local] Existing Instance ng_ref.

(** Queued (non-empty) chunks, the data provider of a submitted message, awake or
    asleep, and whether the session was terminated. *)
Record engine := mkEngine {
  outq : list (Byte.byte * bytes);
  awake : option addr;
  asleep : option addr;
  term : bool;
}.

Definition queue (s : string) (e : engine) : engine :=
  match bytes_of s with
  | [] => e
  | b :: d => mkEngine (outq e ++ [(b, d)]) (awake e) (asleep e) (term e)
  end.

(** Once terminated, only what is queued goes out. *)
Definition send (e : engine) : ng_prog (Z * bytes * engine) :=
  match outq e, term e, awake e with
  | (b, d) :: q, _, _ => NgRet (Z.of_nat (S (length d)), b :: d, mkEngine q (awake e) (asleep e) (term e))
  | [], true, _ | [], _, None => NgRet (0%Z, [], e)
  | [], false, Some a =>
      NgPull a 16 (fun ret flags buf =>
        NgRet (Z.of_nat (length buf), buf,
               if has_eof flags then mkEngine [] None None false
               else if (ret <? 0)%Z then mkEngine [] None (Some a) false
               else e))
  end.

(** A byte [H] opens stream 1, a byte [E] ends its request, any other input is data of
    stream 1; no input is an error. *)
Definition recv (data : bytes) (e : engine) : ng_prog (Z * engine) :=
  match data with
  | [] => NgRet ((-1)%Z, e)
  | [Byte.x48] =>
      let f := mkFrame NGHTTP2_HEADERS 1 0 NGHTTP2_HCAT_REQUEST in
      NgCallback (CbBeginHeaders f) (fun _ => NgCallback (CbHeader f ":path" "/demo") (fun _ =>
      NgCallback (CbFrameRecv f) (fun _ => NgRet (1%Z, e))))
  | [Byte.x45] =>
      NgCallback (CbFrameRecv (mkFrame NGHTTP2_DATA 1 1 NGHTTP2_HCAT_HEADERS)) (fun _ => NgRet (1%Z, e))
  | _ => NgCallback (CbDataChunk 1 data) (fun _ => NgRet (Z.of_nat (length data), e))
  end.

#[local] Instance engine_ops : NgEngine engine := {
  eng_send := send;
  eng_recv := recv;
  eng_want_read e := negb (term e);
  eng_want_write e := bool_decide (outq e <> []) || (negb (term e) && bool_decide (awake e <> None));
  eng_terminate _ e := if term e then e else
    let e := queue "GOAWAY" e in mkEngine (outq e) (awake e) (asleep e) true;
  eng_call c e :=
    match c with
    | nghttp2_submit_response2 _ _ a | nghttp2_submit_request2 _ a =>
        let e := queue "HEADERS" e in mkEngine (outq e) (Some a) None (term e)
    | nghttp2_session_resume_data _ => mkEngine (outq e) (asleep e) None (term e)
    | _ => e
    end;
}.

#[local] Instance engine_laws : NgEngineLaws engine.
Proof.
  refine {| eng_terminated e := term e = true; eng_left e := length (outq e) |}.
  - intros [[|[b d] q] [a|] s []]; simpl; try done; intros; lia.
  - by intros code [q aw s []].
  - by intros [] [q aw s t].
  - intros [[|[b d] q] aw s t] Ht; simpl in *; subst t.
    + repeat split; simpl; lia.
    + split; [done|]. split; [lia|]. split; lia.
Defined.

#[local] Instance engine_idle : NgIdle engine.
Proof.
  refine {| eng_idle e := outq e = [] |}.
  intros [[|[b d] q] [a|] s []]; simpl; try done. intros ret flags buf _.
  destruct (has_eof flags); [done|]. by destruct (ret <? 0)%Z.
Defined.

Definition e0 : engine := queue "SETTINGS" (mkEngine [] None None false).

Definition at_ (role : Role) (evs : list kev) : connection (E := engine) :=
  default (connection_new role true e0) (krun 32 evs (connection_new role true e0)).

Lemma krun_reach role evs k :
  krun 32 evs (connection_new role true e0) = Some k -> kreach 32 role true e0 k.
Proof.
  revert k; induction evs as [|e evs IH] using rev_ind; intros k H.
  - injection H as <-. constructor.
  - rewrite krun_app in H. destruct (krun 32 evs _) as [k1|]; [|done]. simpl in H.
    destruct (kstep 32 e k1) as [k2|] eqn:E; [|done]. injection H as <-.
    by apply (kreach_step _ _ _ _ k1 e); [apply IH|].
Qed.

(** A request arrives with five bytes of body, is answered by a two-byte body, and the
    peer goes away before it ends. *)
Definition served_ev : list kev :=
  [KSendStart; KRecvStart; KWritten None 8; KRead None (bytes_of "H"); KRead None (bytes_of "hello");
   KTurn (XTurn 0 (ERead (dest [4]))); KTurn (XSubmitResponse 0 200 [] 0);
   KTurn (XTurn 0 (EWrite (array_of [bytes_of "hi"]) true)); KWake None].
Definition gone_ev : list kev := served_ev ++ [KRead (Some eof) []].
Definition served_k := at_ server served_ev.
Definition gone_k := at_ server gone_ev.

(** A client whose connection has ended. *)
Definition over_ev : list kev :=
  [KSendStart; KRecvStart; KRead (Some eof) []; KWritten None 8; KWritten None 6; KEnd].
Definition over_k := at_ client over_ev.

Example served_sends :
  sphase (loops served_k) = SWriting (bytes_of "HEADERShi") [] /\
  spawned (session_of served_k) = [0].
Proof. by vm_compute. Qed.

(** A server that has sent its settings and sleeps; a request comes. *)
Definition asleep_ev : list kev := [KSendStart; KRecvStart; KWritten None 8].
Definition poked_ev : list kev := asleep_ev ++ [KRead None (bytes_of "H")].
Definition asleep_k := at_ server asleep_ev.
Definition poked_k := at_ server poked_ev.

Lemma output_never_stranded_witness :
  outq (eng (world (loops asleep_k))) = [] /\ is_Some (kstep 32 (KWake None) poked_k).
Proof.
  split.
  - destruct (output_never_stranded 32 server true e0 asleep_k) as [_ H].
    + by apply (krun_reach server asleep_ev); vm_compute.
    + vm_compute. repeat constructor.
    + by vm_compute.
    + apply H. by vm_compute.
  - destruct (output_never_stranded 32 server true e0 poked_k) as [H _].
    + by apply (krun_reach server poked_ev); vm_compute.
    + vm_compute. repeat constructor.
    + by vm_compute.
    + apply H. by vm_compute.
Defined.

(** The last completions of the server whose peer has gone. *)
Definition last_ev : list kev := [KWritten None 9; KWritten None 6; KEnd].

Lemma connection_ends_witness :
  (exists e, completion e = true /\ is_Some (kstep 32 e gone_k)) /\
  exists k', krun 32 last_ev gone_k = Some k' /\ streams_ (session_of k') = ∅ /\
    exists y, heap (session_of k') !! 0 = Some y /\ closed_ (st y) = true.
Proof.
  destruct (connection_ends 32 server true e0 gone_k) as [H1 H2].
  - by apply (krun_reach server gone_ev); vm_compute.
  - vm_compute. repeat constructor.
  - by vm_compute.
  - by vm_compute.
  - split; [apply (H1 [] gone_k); by vm_compute|]. set (k' := default gone_k (krun 32 last_ev gone_k)).
    assert (Hr : krun 32 last_ev gone_k = Some k') by by vm_compute.
    exists k'. split; [exact Hr|]. destruct (H2 last_ev k' Hr) as [_ H]; [by repeat constructor|].
    destruct H as [Ht Hc]; [by vm_compute|]. split; [exact Ht|]. apply (Hc 1%Z 0). by vm_compute.
Defined.

Lemma late_request_orphaned_witness :
  exists a k1, kstep 32 (KTurn (XSubmitRequest "/late" None [] 3)) over_k = Some k1 /\
    kstep 32 (KTurn (XTurn a (EStatusWake None))) k1 = None.
Proof.
  destruct (late_request_orphaned 32 client true e0 over_k "/late" None [] 3)
    as (a & k1 & _ & Hk & H).
  - by apply (krun_reach client over_ev); vm_compute.
  - by vm_compute.
  - by vm_compute.
  - lia.
  - by vm_compute.
  - exists a, k1. split; [exact Hk|]. destruct (H [] k1 eq_refl) as (_ & _ & Hf).
    inversion Hf as [|? ? _ Hf2]; subst. inversion Hf2 as [|? ? _ Hf3]; subst. by inversion Hf3.
Defined.

End ConnectionDemo.
