(* ===== verification/TaskGroup.v ===== *)
(** * TaskGroup

    [detail::TaskGroup] (src/task_group.hpp): the counter of detached coroutines
    behind structured shutdown, and the drain loop of [Server::Impl::~Impl]
    (src/server.cpp) that waits for it.  capy's scheduler is a parameter. *)

From S2P Require Import Prelude.

(** ** The service *)

Record TaskGroup := mkTaskGroup {
  stop_requested : bool;   (* source_ *)
  count_ : N;              (* std::size_t *)
}.

#[export] Instance task_group_eta : Eta TaskGroup := {| eta := fun g =>
  mkTaskGroup (stop_requested g) (count_ g) |}.

Definition TaskGroup_new : TaskGroup := mkTaskGroup false 0.

(** [spawn]: what it does before the task runs. *)
Definition spawn (g : TaskGroup) : TaskGroup :=
  g <| count_ := ((count_ g + 1) mod (SIZE_MAX + 1))%N |>.

(** The completion handlers [run_async] is given: one for a normal return, one for an
    exception. *)
Definition on_finish (exception : bool) (g : TaskGroup) : TaskGroup :=
  if exception
  then g <| count_ := ((count_ g + SIZE_MAX) mod (SIZE_MAX + 1))%N |>
  else g <| count_ := ((count_ g + SIZE_MAX) mod (SIZE_MAX + 1))%N |>.

Definition request_stop (g : TaskGroup) : TaskGroup := g <| stop_requested := true |>.

Definition shutdown (g : TaskGroup) : TaskGroup := request_stop g.

(** ** The coroutines it tracks *)

Inductive gev :=
| GSpawn                               (* spawn(ex, task) *)
| GFinish (task : nat) (exception : bool)
| GStop.                               (* request_stop() or shutdown() *)

(** The group with the coroutines that have not completed. *)
Record tasks := mkTasks { group : TaskGroup; live : gset nat; next_task : nat }.

Definition tasks_new : tasks := mkTasks TaskGroup_new ∅ 0.

(** A coroutine completes once. *)
Definition gstep (e : gev) (t : tasks) : option tasks :=
  match e with
  | GSpawn => Some (mkTasks (spawn (group t)) ({[next_task t]} ∪ live t) (S (next_task t)))
  | GFinish i exn =>
      if decide (i ∈ live t)
      then Some (mkTasks (on_finish exn (group t)) (live t ∖ {[i]}) (next_task t))
      else None
  | GStop => Some (mkTasks (request_stop (group t)) (live t) (next_task t))
  end.

Fixpoint grun (evs : list gev) (t : tasks) : option tasks :=
  match evs with
  | [] => Some t
  | e :: evs => match gstep e t with Some t => grun evs t | None => None end
  end.

Record ginv (t : tasks) : Prop := {
  gi_count : count_ (group t) = (N.of_nat (size (live t)) mod (SIZE_MAX + 1))%N;
  gi_fresh i : i ∈ live t -> i < next_task t;
}.

Lemma ginv_new : ginv tasks_new.
Proof. split; simpl; [reflexivity | set_solver]. Qed.

Lemma pred_mod n : (0 < n ->
  (n mod (SIZE_MAX + 1) + SIZE_MAX) mod (SIZE_MAX + 1) = (n - 1) mod (SIZE_MAX + 1))%N.
Proof.
  intros Hn. rewrite N.Div0.add_mod_idemp_l.
  replace (n + SIZE_MAX)%N with (n - 1 + 1 * (SIZE_MAX + 1))%N by (unfold SIZE_MAX; lia).
  by rewrite N.Div0.mod_add.
Qed.

Lemma ginv_step e t t' : ginv t -> gstep e t = Some t' -> ginv t'.
Proof.
  intros [Hc Hf]. destruct e as [|i exn|]; simpl.
  - intros [= <-]. split; simpl.
    + rewrite size_union by (intros i ?%elem_of_singleton ?%Hf; lia).
      rewrite size_singleton, Hc, N.Div0.add_mod_idemp_l. f_equal. lia.
    + intros i [->%elem_of_singleton|?%Hf]%elem_of_union; lia.
  - case_decide as Hi; [|done]. intros [= <-].
    assert (Hs : 0 < size (live t)).
    { destruct (decide (size (live t) = 0)) as [E|]; [|lia].
      apply size_empty_inv in E. set_solver. }
    split; simpl.
    + rewrite size_difference by set_solver. rewrite size_singleton.
      destruct exn; simpl; rewrite Hc, pred_mod by lia; f_equal; lia.
    + intros j [? _]%elem_of_difference. auto.
  - by intros [= <-].
Qed.

Lemma ginv_run evs t t' : ginv t -> grun evs t = Some t' -> ginv t'.
Proof.
  revert t; induction evs as [|e evs IH]; intros t Hi; simpl; [by intros [= <-]|].
  destruct (gstep e t) as [t1|] eqn:E; [|done]. apply IH. by apply (ginv_step e t).
Qed.

Lemma ginv_zero t :
  ginv t -> (N.of_nat (size (live t)) <= SIZE_MAX)%N ->
  count_ (group t) = N.of_nat (size (live t)) /\ (count_ (group t) = 0%N <-> live t = ∅).
Proof.
  intros [Hc _] Hb. rewrite N.mod_small in Hc by lia. split; [done|]. rewrite Hc. split.
  - intros H. apply leibniz_equiv, size_empty_inv. lia.
  - intros ->. by rewrite size_empty.
Qed.

(** The counter counts: after any sequence of spawns, completions (normal or by
    exception) and stops, [count()] is the number of coroutines that were spawned
    and have not completed (as long as a [std::size_t] can hold it); it is zero
    exactly when none is left. *)
Theorem task_group_counts evs t :
  grun evs tasks_new = Some t -> (N.of_nat (size (live t)) <= SIZE_MAX)%N ->
  count_ (group t) = N.of_nat (size (live t)) /\ (count_ (group t) = 0%N <-> live t = ∅).
Proof. intros H. apply ginv_zero. apply (ginv_run evs tasks_new); [apply ginv_new | done]. Qed.

(** ** Draining *)

(** [corosio::io_context], as far as the destructor drives it: how many handlers ran
    and what they did to the task group. *)
Class IoContext (X : Type) := {
  restart : X -> X;
  poll : X -> nat * list gev * X;
  run_one : X -> nat * list gev * X;
}.

(** The documented behaviour the drain relies on.  [tracks x t]: the coroutines of
    [t] run on [x], and have been cancelled; [running x]: it is not stopped ([restart]
    sees to that).  Handlers complete or advance the coroutines; every handler leaves
    less to do; [poll] does nothing when none is ready; [run_one] blocks until it has run
    one, while a coroutine is left. *)
Class IoContextLaws (X : Type) {I : IoContext X} := {
  tracks : X -> tasks -> Prop;
  running : X -> Prop;
  todo : X -> nat;
  tracks_bound x t : tracks x t -> (N.of_nat (size (live t)) <= SIZE_MAX)%N;
  restart_ok x t : tracks x t ->
    tracks (restart x) t /\ running (restart x) /\ todo (restart x) = todo x;
  poll_ok x t : tracks x t -> running x ->
    let '(n, evs, x') := poll x in
    (exists t', grun evs t = Some t' /\ tracks x' t') /\ running x' /\
    (n = 0 -> todo x' <= todo x /\ evs = []) /\ (0 < n -> todo x' < todo x);
  run_one_ok x t : tracks x t -> running x ->
    let '(n, evs, x') := run_one x in
    (exists t', grun evs t = Some t' /\ tracks x' t') /\
    (live t <> ∅ -> todo x' < todo x);
}.

Section Drain.
Context {X : Type} {I : IoContext X}.

(** The [while (group.count() > 0)] loop. *)
Fixpoint drain (fuel : nat) (t : tasks) (x : X) : option (tasks * X) :=
  if (0 <? count_ (group t))%N then
    match fuel with
    | O => None
    | S fuel =>
        let '(n, evs, x) := poll (restart x) in
        match grun evs t with
        | None => None
        | Some t =>
            if n =? 0 then
              let '(_, evs, x) := run_one x in
              match grun evs t with None => None | Some t => drain fuel t x end
            else drain fuel t x
        end
    end
  else Some (t, x).

(** [Server::Impl::~Impl]. *)
Definition server_destroy (fuel : nat) (t : tasks) (x : X) : option (tasks * X) :=
  drain fuel (mkTasks (request_stop (group t)) (live t) (next_task t)) x.

Context {L : IoContextLaws X}.

Lemma drain_completes fuel t x :
  todo x < fuel -> ginv t -> tracks x t ->
  exists t' x', drain fuel t x = Some (t', x') /\ live t' = ∅ /\ tracks x' t'.
Proof.
  revert t x; induction fuel as [|fuel IH]; intros t x Hf Hi Ht; [lia|]. simpl.
  destruct (ginv_zero t Hi (tracks_bound x t Ht)) as [_ Hlive].
  destruct (N.ltb_spec 0 (count_ (group t))) as [Hpos|Hz].
  2: { exists t, x. split; [done|]. split; [apply Hlive; lia | done]. }
  assert (Hne : live t <> ∅) by (intros E; apply Hlive in E; lia).
  destruct (restart_ok x t Ht) as (Ht1 & Hg1 & E1). pose proof (poll_ok _ _ Ht1 Hg1) as Hp.
  destruct (poll (restart x)) as [[n evs] x1].
  destruct Hp as ((t1 & Er & Ht2) & Hg2 & H0 & Hn). rewrite Er.
  pose proof (ginv_run _ _ _ Hi Er) as Hi1.
  destruct (Nat.eqb_spec n 0) as [->|Hnz]; [|apply IH; [lia|done|done]].
  destruct (H0 eq_refl) as [Hle ->]. injection Er as <-.
  pose proof (run_one_ok _ _ Ht2 Hg2) as Hr. destruct (run_one x1) as [[m evs'] x2].
  destruct Hr as ((t2 & Er2 & Ht3) & Hlt). rewrite Er2.
  apply IH; [specialize (Hlt Hne); lia | by apply (ginv_run evs' t) | done].
Qed.

Lemma drain_inv fuel t x t' x' : ginv t -> drain fuel t x = Some (t', x') -> ginv t'.
Proof.
  revert t x; induction fuel as [|fuel IH]; intros t x Hi; simpl;
    destruct (0 <? count_ (group t))%N; try done; try by intros [= <- <-].
  destruct (poll (restart x)) as [[n evs] x1]. destruct (grun evs t) as [t1|] eqn:E; [|done].
  pose proof (ginv_run _ _ _ Hi E) as Hi1.
  destruct (n =? 0); [|by apply IH].
  destruct (run_one x1) as [[m evs'] x2]. destruct (grun evs' t1) as [t2|] eqn:E2; [|done].
  apply IH. by apply (ginv_run evs' t1).
Qed.

(** Destroying a server leaves no coroutine behind: if the cancelled coroutines
    need finitely many handlers to unwind, the drain loop of the destructor ends, and
    when it does every tracked coroutine (accept loop, sessions, request handlers) has
    completed, so the context can be destroyed. *)
Theorem server_drains evs t x :
  grun evs tasks_new = Some t ->
  tracks x (mkTasks (request_stop (group t)) (live t) (next_task t)) ->
  exists t' x', server_destroy (S (todo x)) t x = Some (t', x') /\ live t' = ∅ /\
    count_ (group t') = 0%N.
Proof.
  intros Hr Ht. pose proof (ginv_run _ _ _ ginv_new Hr) as Hi.
  set (t0 := mkTasks _ _ _) in Ht. assert (Hi0 : ginv t0) by by destruct Hi.
  destruct (drain_completes (S (todo x)) t0 x) as (t' & x' & E & Hl & Ht'); [lia|done|done|].
  exists t', x'. split; [done|]. split; [done|].
  assert (Hi' : ginv t') by by eapply (drain_inv _ t0 x).
  by apply (ginv_zero t' Hi' (tracks_bound x' t' Ht')).
Qed.

End Drain.

(** ** A concrete context *)

Module TaskGroupDemo.

(** Coroutines that each need one more handler to unwind, run in order; [poll] finds
    nothing ready. *)
Record ctx := mkCtx { queue : list nat }.

#[local] Instance ctx_io : IoContext ctx := {
  restart x := x;
  poll x := (0, [], x);
  run_one x := match queue x with
               | [] => (0, [], x)
               | i :: q => (1, [GFinish i (Nat.even i)], mkCtx q)
               end;
}.

#[local] Instance ctx_laws : IoContextLaws ctx.
Proof.
  refine {| tracks x t := live t = list_to_set (queue x) /\ NoDup (queue x) /\
                          (N.of_nat (length (queue x)) <= SIZE_MAX)%N;
            running x := True; todo x := length (queue x) |}.
  - intros x t (-> & Hn & Hb). by rewrite size_list_to_set.
  - done.
  - intros x t H _. simpl. split; [by exists t|]. split; [done|]. split; [done|lia].
  - intros [[|i q]] t (Hl & Hn & Hb) _; simpl in *.
    + split; [by exists t|]. done.
    + apply NoDup_cons in Hn as [Hi Hn]. split; [|lia].
      rewrite decide_True by (rewrite Hl; set_solver). eexists. split; [done|]. simpl.
      rewrite Hl. split; [set_solver | split; [done | lia]].
Defined.

Definition three : list gev := [GSpawn; GSpawn; GSpawn; GFinish 1 true].
Definition running : tasks := default tasks_new (grun three tasks_new).

Lemma task_group_counts_witness :
  count_ (group running) = N.of_nat (size (live running)) /\ count_ (group running) = 2%N.
Proof.
  split; [|by vm_compute].
  apply (task_group_counts three running); [by vm_compute | by vm_compute].
Defined.

Lemma server_drains_witness :
  exists t' x', server_destroy 3 running (mkCtx [0; 2]) = Some (t', x') /\ live t' = ∅ /\
    count_ (group t') = 0%N.
Proof.
  destruct (server_drains three running (mkCtx [0; 2])) as (t' & x' & H);
    [by vm_compute | | by exists t', x'].
  split; [by vm_compute|]. split; [|by vm_compute].
  repeat constructor; set_solver.
Defined.

End TaskGroupDemo.
