(* ===== verification/Log.v ===== *)
(** * Logging and formatting

    include/nghttp2-corosio/logging.hpp (levels, threshold, level names) and
    include/nghttp2-corosio/formatter.hpp ([std::formatter] of addresses, of an endpoint
    and of a header name/value pair). *)

From S2P Require Import Prelude Nghttp2 Charconv Session Loops.
From Stdlib Require Import Ascii.

(** ** Levels *)

Inductive LogLevel := debug | info | warn | log_error | off.

#[export] Instance LogLevel_eq_dec : EqDecision LogLevel.
Proof. solve_decision. Defined.

(** The value of the enumerator. *)
Definition level_value (l : LogLevel) : nat :=
  match l with debug => 0 | info => 1 | warn => 2 | log_error => 3 | off => 4 end.

(** [log_level()] before any [set_log_level]. *)
Definition default_log_level : LogLevel := info.

(** The global threshold after a call. *)
Definition set_log_level (level _old : LogLevel) : LogLevel := level.

(** [None]: [std::invalid_argument]. *)
Definition parse_log_level (name : string) : option LogLevel :=
  if bool_decide (name = "debug") then Some debug
  else if bool_decide (name = "info") then Some info
  else if bool_decide (name = "warn") then Some warn
  else if bool_decide (name = "error") then Some log_error
  else if bool_decide (name = "off") then Some off
  else None.

Definition log_level_name (l : LogLevel) : string :=
  match l with
  | debug => "debug" | info => "info" | warn => "warn" | log_error => "error" | _ => "off"
  end.

Definition log_level_color_name (l : LogLevel) : string :=
  match l with
  | debug => csi +:+ "2mdebug" +:+ csi +:+ "0m"
  | info => "info"
  | warn => csi +:+ "33mwarn" +:+ csi +:+ "0m"
  | log_error => csi +:+ "1;31merror" +:+ csi +:+ "0m"
  | _ => "off"
  end.

(** [NGHTTP2_COROSIO_LOG(level, ...)]: the line printed, if any; [timestamp] is
    [log_timestamp()], [message] the formatted arguments. *)
Definition log_line (threshold level : LogLevel) (timestamp message : string) : option string :=
  if level_value threshold <=? level_value level
  then Some ("[" +:+ timestamp +:+ "] [" +:+ log_level_color_name level +:+ "] " +:+ message)
  else None.

(** The macros [mlogd], [mlogi], [mlogw], [mloge]: the message behind the tag
    [log_prefix()]. *)
Definition mlog_line (threshold level : LogLevel) (timestamp prefix message : string)
  : option string :=
  log_line threshold level timestamp ("[" +:+ prefix +:+ "] " +:+ message).

(** A line is printed exactly if its level reaches the threshold; [off] silences all
    four macros. *)
Lemma mlog_line_printed threshold level timestamp prefix message :
  level <> off ->
  is_Some (mlog_line threshold level timestamp prefix message)
  <-> threshold <> off /\ level_value threshold <= level_value level.
Proof.
  intros Hl. unfold mlog_line, log_line.
  destruct (Nat.leb_spec (level_value threshold) (level_value level)) as [H|H].
  - split; [|by intros _; eexists]. intros _. split; [|done]. intros ->.
    destruct level; simpl in H; (done || lia).
  - split; [by intros [? ?] | lia].
Qed.

(** Level names are exact: [parse_log_level] accepts a string if and only if it is
    the name [log_level_name] gives a level, and returns that level. *)
Theorem log_level_roundtrip s l : parse_log_level s = Some l <-> s = log_level_name l.
Proof.
  unfold parse_log_level. split.
  - repeat case_bool_decide; intros [= <-]; done.
  - intros ->. by destruct l.
Qed.

(** ** Header pairs *)

Inductive part := name_and_value | name_only | value_only.

(** The end of [parse]: a format specification ends the range or is followed by a
    closing brace. *)
Definition nv_parse_end (what : part) (rest : string) : throws (part * string) :=
  match rest with
  | EmptyString => inr (what, rest)
  | String c _ =>
      if Ascii.eqb c "}" then inr (what, rest)
      else inl "invalid format args for nghttp2_nv, expected 'n' or 'v'"
  end.

(** [parse]: reads the format specification [spec] (what follows the colon, up to the
    end of the range); the rest of it, or [std::format_error]. *)
Definition nv_parse (spec : string) : throws (part * string) :=
  match spec with
  | EmptyString => inr (name_and_value, spec)
  | String c rest =>
      if Ascii.eqb c "n" then nv_parse_end name_only rest
      else if Ascii.eqb c "v" then nv_parse_end value_only rest
      else nv_parse_end name_and_value spec
  end.

Definition nv_format (what : part) (h : nv) : string :=
  (match what with name_only | name_and_value => h.1 | _ => "" end) +:+
  (match what with name_and_value => "=" | _ => "" end) +:+
  (match what with value_only | name_and_value => h.2 | _ => "" end).

Lemma string_app_nil_r (s : string) : s +:+ "" = s.
Proof.
  induction s as [|c s IH]; [done|]. change (String c (s +:+ "") = String c s). by rewrite IH.
Qed.

(** The format specifications of a header pair are exactly [{}], [{:n}] and
    [{:v}]: parsing a specification up to its closing brace succeeds for these three
    and no other, and selects "name=value", the name, and the value. *)
Theorem nv_spec_exact spec what rest h :
  nv_parse spec = inr (what, rest) ->
  (rest = "" \/ exists tail, rest = String "}" tail) /\
  ((spec = rest /\ nv_format what h = h.1 +:+ "=" +:+ h.2) \/
   (spec = String "n" rest /\ nv_format what h = h.1) \/
   (spec = String "v" rest /\ nv_format what h = h.2)).
Proof.
  assert (Hend : forall w s, nv_parse_end w s = inr (what, rest) ->
      w = what /\ s = rest /\ (rest = "" \/ exists tail, rest = String "}" tail)).
  { unfold nv_parse_end. intros w [|c s].
    - intros [= <- <-]. auto.
    - destruct (Ascii.eqb_spec c "}"); [|done]. intros [= <- <-]. subst. eauto 6. }
  unfold nv_parse. destruct spec as [|c spec]; [intros [= <- <-]; auto|].
  destruct (Ascii.eqb_spec c "n") as [->|].
  - intros (<- & <- & ?)%Hend. split; [done|]. right; left. unfold nv_format. by rewrite !string_app_nil_r.
  - destruct (Ascii.eqb_spec c "v") as [->|]; intros (<- & <- & ?)%Hend; auto 6.
Qed.

(** ** Endpoints *)

(** corosio's address types, with what their [operator<<] writes. *)
Class CorosioAddress := {
  ipv4_address : Type;
  ipv6_address : Type;
  v4_put : ipv4_address -> string;
  v6_put : ipv6_address -> string;
}.

(** The formatter [NGHTTP2_COROSIO_ENABLE_FMT_OSTREAM] defines, for a field [{}]: the
    contents of a fresh string stream after [oss << value]. *)
Definition ostream_format {X} (put : X -> string) (value : X) : string :=
  let oss := "" in oss +:+ put value.

Section Endpoints.
Context {A : CorosioAddress}.

(** [corosio::endpoint]. *)
Inductive endpoint :=
| v4 (v4_address : ipv4_address) (port : N)
| v6 (v6_address : ipv6_address) (port : N).

Definition endpoint_format (ep : endpoint) : string :=
  match ep with
  | v6 a p => "[" +:+ ostream_format v6_put a +:+ "]:" +:+ to_string p
  | v4 a p => ostream_format v4_put a +:+ ":" +:+ to_string p
  end.
End Endpoints.

(** ** Frame names *)

Definition frame_type_name (t : frame_type) : string :=
  match t with
  | NGHTTP2_DATA => "DATA"
  | NGHTTP2_HEADERS => "HEADERS"
  | NGHTTP2_PRIORITY => "PRIORITY"
  | NGHTTP2_RST_STREAM => "RST_STREAM"
  | NGHTTP2_SETTINGS => "SETTINGS"
  | NGHTTP2_PUSH_PROMISE => "PUSH_PROMISE"
  | NGHTTP2_PING => "PING"
  | NGHTTP2_GOAWAY => "GOAWAY"
  | NGHTTP2_WINDOW_UPDATE => "WINDOW_UPDATE"
  | NGHTTP2_CONTINUATION => "CONTINUATION"
  | NGHTTP2_ALTSVC => "ALTSVC"
  | NGHTTP2_ORIGIN => "ORIGIN"
  | NGHTTP2_OTHER _ => "UNKNOWN"
  end.

(** ** Callbacks that only log

    nghttp2's remaining callbacks return 0 and leave the session alone; they are the
    message each logs (at level [warn], [error], [warn] and [debug]). *)

Section LogCallbacks.
Context {C : Capy.CapyOps}.

Definition on_frame_not_send_callback (f : frame) (strerror : string) (x : Session)
  : LogLevel * string :=
  (warn, "[" +:+ log_prefix x (hd_stream_id f) +:+ "] on_frame_not_send_callback: "
         +:+ frame_type_name (hd_type f) +:+ " " +:+ strerror).

Definition on_error_callback (msg : string) (x : Session) : LogLevel * string :=
  (log_error, "[" +:+ session_prefix_ x +:+ "] nghttp2 error: " +:+ msg).

Definition on_invalid_header_callback (f : frame) (name value : string) (x : Session)
  : LogLevel * string :=
  (warn, "[" +:+ log_prefix x (hd_stream_id f) +:+ "] on_invalid_header_callback: "
         +:+ name +:+ ": " +:+ value).

(** [length] is [frame->hd.length]. *)
Definition on_frame_send_callback (f : frame) (length : N) (x : Session) : LogLevel * string :=
  (debug, "[" +:+ log_prefix x (hd_stream_id f) +:+ "] on_frame_send_callback: "
          +:+ frame_type_name (hd_type f) +:+ " length=" +:+ to_string length
          +:+ " flags=" +:+ int_to_string (hd_flags f)).

End LogCallbacks.

Module LogDemo.

Lemma nv_spec_exact_witness :
  nv_parse "v}" = inr (value_only, "}") /\
  ("v}" = "}" /\ nv_format value_only ("a", "b") = "a=b" \/
   "v}" = String "n" "}" /\ nv_format value_only ("a", "b") = "a" \/
   "v}" = String "v" "}" /\ nv_format value_only ("a", "b") = "b").
Proof.
  split; [done|]. apply (nv_spec_exact "v}" value_only "}" ("a", "b")). done.
Defined.

End LogDemo.
