(* ===== verification/LogTime.v ===== *)
(** * Time stamps and the schedule trace

    [detail::log_timestamp] (include/nghttp2-corosio/logging.hpp): the calendar and
    the zero-padded fields of [std::format("{:%Y-%m-%d %H:%M:%OS}", ...)] on a
    millisecond time point, and the lines [run_io_context]
    (include/nghttp2-corosio/run_io_context.hpp) prints at debug level.

    The calendar is checked against the Gregorian rule ([next_day]); the time stamps
    of log lines sort as text in the order of the clock. *)

From S2P Require Import Prelude Charconv Nghttp2 Session Loops Log.
From Stdlib Require Import Ascii.

Open Scope Z_scope.

(** ** The calendar *)

Definition date := (Z * Z * Z)%type.

(** The year that begins on 1 March, counted from 1 March of year 0, and the day in
    it (from 0). [doe] is the day in an era of 400 years. *)
Definition march_year (days : Z) : Z * Z :=
  let era := days / 146097 in
  let doe := days mod 146097 in
  let c := Z.min (doe / 36524) 3 in
  let r := doe - 36524 * c in
  let q := r / 1461 in
  let r := r - 1461 * q in
  let a := Z.min (r / 365) 3 in
  (400 * era + 100 * c + 4 * q + a, r - 365 * a).

(** Date of a day of the year that begins on 1 March of year 0. *)
Definition month_day (doy : Z) : date :=
  let mp := (5 * doy + 2) / 153 in
  let m := if mp <? 10 then mp + 3 else mp - 9 in
  (if m <=? 2 then 1 else 0, m, doy - (153 * mp + 2) / 5 + 1).

(** The same day [k] years later. *)
Definition add_years (k : Z) (x : date) : date := let '(y, m, d) := x in (k + y, m, d).

(** [year_month_day(sys_days)]: the date of a day counted from 1970-01-01. *)
Definition civil (z : Z) : date :=
  let '(y, doy) := march_year (z + 719468) in add_years y (month_day doy).

(** ** [std::format] *)

(** The decimal digits of [n], zero-padded to [w]. *)
Fixpoint digits (w : nat) (n : Z) : string :=
  match w with
  | O => ""
  | S w => String (digit_char (Z.to_N (n / 10 ^ Z.of_nat w mod 10))) (digits w n)
  end.

(** [time_point_cast<milliseconds>] of [system_clock::now()], which counts
    nanoseconds: integer division. *)
Definition time_point_cast (ns : Z) : Z := ns ÷ 1000000.

(** [std::format("{:%Y-%m-%d %H:%M:%OS}", tp)] for milliseconds since 1970: the
    seconds carry the three decimals of the time point's precision, the year its four
    digits. *)
Definition format_time (ms : Z) : string :=
  let '(y, m, d) := civil (ms / 86400000) in
  let tod := ms mod 86400000 in
  digits 4 y +:+ "-" +:+ digits 2 m +:+ "-" +:+ digits 2 d +:+ " "
  +:+ digits 2 (tod / 3600000) +:+ ":" +:+ digits 2 (tod / 60000 mod 60) +:+ ":"
  +:+ digits 2 (tod / 1000 mod 60) +:+ "." +:+ digits 3 (tod mod 1000).

(** [log_timestamp()] when the system clock shows [now] (nanoseconds since 1970). *)
Definition log_timestamp (now : Z) : string := format_time (time_point_cast now).

(** The example of its comment. *)
Example log_timestamp_example :
  log_timestamp 1784667331017999999 = "2026-07-21 20:55:31.017".
Proof. reflexivity. Qed.

(** ** The calendar follows the Gregorian rule *)

Definition leap (y : Z) : bool :=
  (y mod 4 =? 0) && (negb (y mod 100 =? 0) || (y mod 400 =? 0)).

Definition month_length (leap_year : bool) (m : Z) : Z :=
  if m =? 2 then (if leap_year then 29 else 28)
  else if (m =? 4) || (m =? 6) || (m =? 9) || (m =? 11) then 30 else 31.

Definition next_date (leap_year : bool) (x : date) : date :=
  let '(y, m, d) := x in
  if d <? month_length leap_year m then (y, m, d + 1)
  else if m <? 12 then (y, m + 1, 1) else (y + 1, 1, 1).

(** The date after a date. *)
Definition next_day (x : date) : date := next_date (leap x.1.1) x.

(** Days before 1 March of year [y], counted from 1 March of year 0. *)
Definition days_before (y : Z) : Z := 365 * y + y / 4 - y / 100 + y / 400.

(** Length of the year that begins on 1 March of [y]: February is that of the next. *)
Definition year_length (leap_year : bool) : Z := if leap_year then 366 else 365.

Definition march_length (y : Z) : Z := year_length (leap (y + 1)).

Lemma days_before_succ y : days_before (y + 1) = days_before y + march_length y.
Proof.
  unfold days_before, march_length, year_length, leap.
  destruct (Z.eqb_spec ((y + 1) mod 4) 0), (Z.eqb_spec ((y + 1) mod 100) 0),
    (Z.eqb_spec ((y + 1) mod 400) 0); simpl; Z.to_euclidean_division_equations; lia.
Qed.

Lemma march_length_range y : 365 <= march_length y <= 366.
Proof. unfold march_length, year_length. case_match; lia. Qed.

(** The year found is the one the day lies in. *)
Lemma march_year_spec days y doy :
  march_year days = (y, doy) ->
  days_before y + doy = days /\ 0 <= doy < march_length y.
Proof.
  unfold march_year. intros [= <- <-].
  set (era := days / 146097). set (doe := days mod 146097).
  set (c := Z.min (doe / 36524) 3). set (r := doe - 36524 * c).
  set (q := r / 1461). set (r4 := r - 1461 * q). set (a := Z.min (r4 / 365) 3).
  assert (Hdays : days = 146097 * era + doe /\ 0 <= doe < 146097)
    by (unfold era, doe; Z.to_euclidean_division_equations; lia).
  assert (Hc : 0 <= c <= 3 /\ 0 <= r < 36524 + (if c =? 3 then 1 else 0))
    by (unfold r; destruct (Z.eqb_spec c 3); unfold c in *;
        Z.to_euclidean_division_equations; lia).
  assert (Hq : 0 <= q <= 24 /\ 0 <= r4 < 1461 /\ r = 1461 * q + r4)
    by (unfold r4, q; destruct (c =? 3); Z.to_euclidean_division_equations; lia).
  assert (Ha : 0 <= a <= 3 /\ 0 <= r4 - 365 * a < 365 + (if a =? 3 then 1 else 0))
    by (destruct (Z.eqb_spec a 3); unfold a in *; Z.to_euclidean_division_equations; lia).
  clearbody era doe a q c. 
  assert (r = doe - 36524 * c) as Hr by done. assert (r4 = r - 1461 * q) as Hr4 by done.
  clearbody r r4.
  split.
  - unfold days_before. destruct (c =? 3), (a =? 3); Z.to_euclidean_division_equations; lia.
  - unfold march_length, year_length, leap.
    destruct (Z.eqb_spec ((400 * era + 100 * c + 4 * q + a + 1) mod 4) 0),
      (Z.eqb_spec ((400 * era + 100 * c + 4 * q + a + 1) mod 100) 0),
      (Z.eqb_spec ((400 * era + 100 * c + 4 * q + a + 1) mod 400) 0),
      (Z.eqb_spec c 3), (Z.eqb_spec a 3); simpl; Z.to_euclidean_division_equations; lia.
Qed.

(** A day lies in one year. *)
Lemma march_year_unique y doy y' doy' :
  days_before y + doy = days_before y' + doy' ->
  0 <= doy < march_length y -> 0 <= doy' < march_length y' -> y = y' /\ doy = doy'.
Proof.
  intros E H H'. pose proof (days_before_succ y). pose proof (days_before_succ y').
  assert (Hmono : forall a b, a < b -> days_before (a + 1) <= days_before b).
  { intros a b Hab. unfold days_before. Z.to_euclidean_division_equations. lia. }
  destruct (Z.lt_trichotomy y y') as [Hlt|[->|Hlt]]; [|lia|];
    pose proof (Hmono _ _ Hlt); lia.
Qed.

(** Days of a year with 1 March first, by exhaustion: month and day are in range, and
    the date after the last is 1 March of the next year. *)
Definition month_day_ok (doy : Z) (leap_year : bool) : bool :=
  let '(y, m, d) := month_day doy in
  (1 <=? m) && (m <=? 12) && (1 <=? d) && (d <=? 31) && (0 <=? y) && (y <=? 1) &&
  (negb (doy <? year_length leap_year) ||
   bool_decide (next_date leap_year (month_day doy) =
     (if doy + 1 <? year_length leap_year then month_day (doy + 1)
      else add_years 1 (month_day 0)))).

Definition days_of_year : list Z := map Z.of_nat (seq 0 366).

Lemma days_of_year_ok :
  forallb (fun doy => month_day_ok doy false && month_day_ok doy true) days_of_year = true.
Proof. vm_compute. reflexivity. Qed.

Lemma month_day_ok_all doy l : 0 <= doy < year_length l -> month_day_ok doy l = true.
Proof.
  intros H. pose proof days_of_year_ok as Hc. rewrite forallb_forall in Hc.
  specialize (Hc doy). rewrite andb_true_iff in Hc.
  destruct l; apply Hc; unfold days_of_year; apply in_map_iff; exists (Z.to_nat doy);
    (split; [lia | apply in_seq; simpl in H; lia]).
Qed.

Lemma month_day_range doy l y m d :
  0 <= doy < year_length l -> month_day doy = (y, m, d) ->
  0 <= y <= 1 /\ 1 <= m <= 12 /\ 1 <= d <= 31.
Proof.
  intros H E. apply month_day_ok_all in H. unfold month_day_ok in H. rewrite E in H.
  bools. lia.
Qed.

Lemma month_day_next doy l :
  0 <= doy < year_length l ->
  next_date l (month_day doy) =
  (if doy + 1 <? year_length l then month_day (doy + 1) else add_years 1 (month_day 0)).
Proof.
  intros H. pose proof (month_day_ok_all _ _ H) as Hok. unfold month_day_ok in Hok.
  destruct (month_day doy) as [[y m] d] eqn:E. apply andb_true_iff in Hok as [_ Hok].
  assert (Hlt : (doy <? year_length l) = true) by lia. rewrite Hlt in Hok.
  by apply bool_decide_eq_true in Hok.
Qed.

Lemma next_date_add k l x : next_date l (add_years k x) = add_years k (next_date l x).
Proof. destruct x as [[y m] d]. simpl. repeat case_match; simpl; f_equal; f_equal; lia. Qed.

(** The leap rule matters in February only, which belongs to the next year. *)
Lemma next_day_march y doy :
  next_day (add_years y (month_day doy)) =
  add_years y (next_date (leap (y + 1)) (month_day doy)).
Proof.
  rewrite <-next_date_add. unfold next_day.
  destruct (month_day doy) as [[k m] d] eqn:E. unfold month_day in E. injection E as <- <- <-.
  simpl. set (m := if _ <? 10 then _ else _). unfold month_length.
  destruct (Z.leb_spec m 2) as [Hm|Hm]; [done|].
  destruct (Z.eqb_spec m 2); [lia|done].
Qed.

(** The calendar: 1970-01-01 is day 0, and one day later is the next date. *)
Lemma civil_epoch : civil 0 = (1970, 1, 1).
Proof. reflexivity. Qed.

Lemma civil_succ z : civil (z + 1) = next_day (civil z).
Proof.
  unfold civil. replace (z + 1 + 719468) with (z + 719468 + 1) by lia.
  destruct (march_year (z + 719468)) as [y doy] eqn:E.
  destruct (march_year (z + 719468 + 1)) as [y' doy'] eqn:E'.
  apply march_year_spec in E as [E H]. apply march_year_spec in E' as [E' H'].
  rewrite next_day_march, month_day_next by done.
  fold (march_length y). pose proof (march_length_range (y + 1)).
  destruct (Z.ltb_spec (doy + 1) (march_length y)) as [Hl|Hl].
  - destruct (march_year_unique y' doy' y (doy + 1)) as [-> ->]; [lia|done|lia|done].
  - pose proof (days_before_succ y).
    destruct (march_year_unique y' doy' (y + 1) 0) as [-> ->]; [lia|done|lia|].
    destruct (month_day 0) as [[k m] d]. simpl. f_equal. f_equal. lia.
Qed.

(** ** Order *)

(** Comparison of a first field, then of the rest. *)
Definition cmp_then (c rest : comparison) : comparison :=
  match c with Eq => rest | _ => c end.

Definition date_compare (x x' : date) : comparison :=
  cmp_then (x.1.1 ?= x'.1.1) (cmp_then (x.1.2 ?= x'.1.2) (x.2 ?= x'.2)).

Lemma next_day_later x : date_compare x (next_day x) = Lt.
Proof.
  assert (Hs : forall k, (k ?= k + 1) = Lt) by (intros; apply Z.compare_lt_iff; lia).
  destruct x as [[y m] d]. unfold next_day, next_date, date_compare. simpl.
  do 2 try case_match; simpl; by rewrite ?Z.compare_refl, Hs.
Qed.

Lemma date_compare_trans x x' x'' :
  date_compare x x' = Lt -> date_compare x' x'' = Lt -> date_compare x x'' = Lt.
Proof.
  unfold date_compare, cmp_then.
  destruct (Z.compare_spec x.1.1 x'.1.1), (Z.compare_spec x'.1.1 x''.1.1),
    (Z.compare_spec x.1.1 x''.1.1); try lia; try done;
  destruct (Z.compare_spec x.1.2 x'.1.2), (Z.compare_spec x'.1.2 x''.1.2),
    (Z.compare_spec x.1.2 x''.1.2); try lia; try done;
  rewrite !Z.compare_lt_iff; lia.
Qed.

Lemma date_compare_antisym x x' : date_compare x' x = CompOpp (date_compare x x').
Proof.
  unfold date_compare, cmp_then. rewrite (Z.compare_antisym x.1.1), (Z.compare_antisym x.1.2),
    (Z.compare_antisym x.2). by repeat destruct (_ ?= _).
Qed.

Lemma date_compare_refl x : date_compare x x = Eq.
Proof. unfold date_compare. by rewrite !Z.compare_refl. Qed.

Lemma civil_later z n : date_compare (civil z) (civil (z + 1 + Z.of_nat n)) = Lt.
Proof.
  induction n as [|n IH].
  - rewrite Z.add_0_r, civil_succ. apply next_day_later.
  - replace (z + 1 + Z.of_nat (S n)) with (z + 1 + Z.of_nat n + 1) by lia.
    rewrite civil_succ. eapply date_compare_trans; [exact IH | apply next_day_later].
Qed.

(** Dates are ordered as the days they stand for. *)
Lemma civil_compare a b : date_compare (civil a) (civil b) = (a ?= b).
Proof.
  destruct (Z.compare_spec a b) as [->|H|H].
  - apply date_compare_refl.
  - replace b with (a + 1 + Z.of_nat (Z.to_nat (b - a - 1))) by lia. apply civil_later.
  - rewrite date_compare_antisym.
    replace a with (b + 1 + Z.of_nat (Z.to_nat (a - b - 1))) by lia. by rewrite civil_later.
Qed.

Lemma digit_char_compare a b :
  (a < 10)%N -> (b < 10)%N -> Ascii.compare (digit_char a) (digit_char b) = N.compare a b.
Proof.
  intros Ha Hb. unfold Ascii.compare, digit_char. rewrite !N_ascii_embedding by lia.
  destruct (N.compare_spec (48 + a) (48 + b)), (N.compare_spec a b); try done; lia.
Qed.

(** Zero-padded fields compare as numbers, then as what follows them. *)
Lemma digits_compare w a b s t :
  String.compare (digits w a +:+ s) (digits w b +:+ t) =
  cmp_then (a mod 10 ^ Z.of_nat w ?= b mod 10 ^ Z.of_nat w) (String.compare s t).
Proof.
  induction w as [|w IH]; [by rewrite !Z.mod_1_r|].
  change (match Ascii.compare (digit_char (Z.to_N (a / 10 ^ Z.of_nat w mod 10)))
      (digit_char (Z.to_N (b / 10 ^ Z.of_nat w mod 10))) with
    | Eq => String.compare (digits w a +:+ s) (digits w b +:+ t) | Lt => Lt | Gt => Gt end =
    cmp_then (a mod 10 ^ Z.of_nat (S w) ?= b mod 10 ^ Z.of_nat (S w)) (String.compare s t)).
  rewrite IH. assert (Hp : 0 < 10 ^ Z.of_nat w) by (apply Z.pow_pos_nonneg; lia).
  replace (10 ^ Z.of_nat (S w)) with (10 ^ Z.of_nat w * 10)
    by (rewrite Nat2Z.inj_succ, Z.pow_succ_r by lia; lia).
  rewrite !Z.rem_mul_r by lia.
  pose proof (Z.mod_pos_bound a _ Hp). pose proof (Z.mod_pos_bound b _ Hp).
  pose proof (Z.mod_pos_bound (a / 10 ^ Z.of_nat w) 10 eq_refl).
  pose proof (Z.mod_pos_bound (b / 10 ^ Z.of_nat w) 10 eq_refl).
  revert H H0 H1 H2 Hp. generalize (10 ^ Z.of_nat w). intros p.
  generalize (a mod p), (b mod p), (a / p mod 10), (b / p mod 10). intros ra rb qa qb.
  intros. rewrite digit_char_compare, Z2N.inj_compare by lia.
  destruct (Z.compare_spec qa qb) as [->|Hq|Hq]; simpl.
  - by rewrite !(Z.add_comm _ (p * qb)), Z.add_compare_mono_l.
  - destruct (Z.compare_spec (ra + p * qa) (rb + p * qb)); simpl; try done; nia.
  - destruct (Z.compare_spec (ra + p * qa) (rb + p * qb)); simpl; try done; nia.
Qed.

(** A field in range, and the separator behind it. *)
Lemma field_compare w a b sep s t :
  0 <= a < 10 ^ Z.of_nat w -> 0 <= b < 10 ^ Z.of_nat w ->
  String.compare (digits w a +:+ String sep "" +:+ s) (digits w b +:+ String sep "" +:+ t) =
  cmp_then (a ?= b) (String.compare s t).
Proof.
  intros Ha Hb. rewrite digits_compare, !Z.mod_small by done. simpl.
  unfold Ascii.compare. by rewrite N.compare_refl.
Qed.

Lemma last_field_compare w a b :
  0 <= a < 10 ^ Z.of_nat w -> 0 <= b < 10 ^ Z.of_nat w ->
  String.compare (digits w a) (digits w b) = (a ?= b).
Proof.
  intros Ha Hb.
  rewrite <-(string_app_nil_r (digits w a)), <-(string_app_nil_r (digits w b)).
  rewrite digits_compare, !Z.mod_small by done. by destruct (a ?= b).
Qed.

(** ** Time stamps sort *)

(** A clock value of [system_clock]: a signed 64-bit count of nanoseconds. *)
Definition clock_value (ns : Z) : Prop := - 2 ^ 63 <= ns < 2 ^ 63.

Lemma civil_range z y m d :
  -106752 <= z <= 106751 -> civil z = (y, m, d) ->
  0 <= y < 10 ^ 4 /\ 0 <= m < 10 ^ 2 /\ 0 <= d < 10 ^ 2.
Proof.
  intros Hz. unfold civil. destruct (march_year (z + 719468)) as [k doy] eqn:E.
  apply march_year_spec in E as [E H]. destruct (month_day doy) as [[k' m'] d'] eqn:Ed.
  pose proof (month_day_range _ _ _ _ _ H Ed). simpl. intros [= <- <- <-].
  pose proof (march_length_range k). unfold days_before in E.
  assert (0 <= k < 9999) by (Z.to_euclidean_division_equations; lia). lia.
Qed.

Lemma clock_value_days ns :
  clock_value ns -> -106752 <= time_point_cast ns / 86400000 <= 106751.
Proof.
  unfold clock_value, time_point_cast. intros. Z.to_euclidean_division_equations. lia.
Qed.

Lemma cmp_then_assoc a b c : cmp_then (cmp_then a b) c = cmp_then a (cmp_then b c).
Proof. by destruct a. Qed.

(** Quotient, then remainder. *)
Lemma divmod_compare n a b :
  0 < n -> cmp_then (a / n ?= b / n) (a mod n ?= b mod n) = (a ?= b).
Proof.
  intros Hn. pose proof (Z.div_mod a n). pose proof (Z.div_mod b n).
  pose proof (Z.mod_pos_bound a n Hn). pose proof (Z.mod_pos_bound b n Hn).
  destruct (Z.compare_spec (a / n) (b / n)), (Z.compare_spec (a mod n) (b mod n)); simpl;
    symmetry; rewrite ?Z.compare_eq_iff, ?Z.compare_lt_iff, ?Z.compare_gt_iff; nia.
Qed.

(** The time of day, in milliseconds, compares as its four fields. *)
Lemma tod_compare a b :
  cmp_then (a / 3600000 ?= b / 3600000)
    (cmp_then (a / 60000 mod 60 ?= b / 60000 mod 60)
       (cmp_then (a / 1000 mod 60 ?= b / 1000 mod 60) (a mod 1000 ?= b mod 1000))) = (a ?= b).
Proof.
  assert (E : forall x, x / 3600000 = x / 1000 / 60 / 60 /\ x / 60000 = x / 1000 / 60)
    by (intros; rewrite !Z.div_div by lia; done).
  rewrite (proj1 (E a)), (proj1 (E b)), (proj2 (E a)), (proj2 (E b)).
  by rewrite <-!cmp_then_assoc, !divmod_compare by lia.
Qed.

Lemma tod_range t :
  0 <= t < 86400000 ->
  0 <= t / 3600000 < 10 ^ 2 /\ 0 <= t / 60000 mod 60 < 10 ^ 2 /\
  0 <= t / 1000 mod 60 < 10 ^ 2 /\ 0 <= t mod 1000 < 10 ^ 3.
Proof. intros H. Z.to_euclidean_division_equations. lia. Qed.

(** Lexicographic order on the fields. *)
Lemma format_time_compare a b :
  -106752 <= a / 86400000 <= 106751 -> -106752 <= b / 86400000 <= 106751 ->
  String.compare (format_time a) (format_time b) = (a ?= b).
Proof.
  intros Ha Hb. unfold format_time.
  rewrite <-(divmod_compare 86400000 a b) by lia. rewrite <-civil_compare.
  rewrite <-(tod_compare (a mod 86400000)). unfold date_compare.
  destruct (civil (a / 86400000)) as [[y m] d] eqn:Ea, (civil (b / 86400000)) as [[y' m'] d'] eqn:Eb.
  pose proof (civil_range _ _ _ _ Ha Ea) as (? & ? & ?).
  pose proof (civil_range _ _ _ _ Hb Eb) as (? & ? & ?).
  destruct (tod_range (a mod 86400000)) as (? & ? & ? & ?); [by apply Z.mod_pos_bound|].
  destruct (tod_range (b mod 86400000)) as (? & ? & ? & ?); [by apply Z.mod_pos_bound|].
  rewrite !cmp_then_assoc, !field_compare, last_field_compare by done. done.
Qed.

(** C37 Log lines sort by time: for any two readings of the system clock (signed 64-bit
    nanoseconds, before or after 1970), the time stamps of two log lines compare, as
    text, exactly as the milliseconds they stand for. So sorting a log by its time
    stamps never reorders two lines, and two lines carry the same stamp only if they
    were printed in the same millisecond. *)
Theorem timestamp_sorts a b :
  clock_value a -> clock_value b ->
  String.compare (log_timestamp a) (log_timestamp b) = (time_point_cast a ?= time_point_cast b).
Proof. intros. by apply format_time_compare; apply clock_value_days. Qed.

(** ** [run_io_context] *)

(** [io_context::run()] and [run_one()]: number of handlers run, new state. *)
Class Runnable (X : Type) := {
  ctx_run : X -> nat * X;
  ctx_run_one : X -> nat * X;
}.


Section RunIoContext.
Context {X : Type} {R : Runnable X}.

(** What [steady_clock::now()] shows in a state of the context, in nanoseconds. *)
Context (clock : X -> Z).







End RunIoContext.

Module LogTimeDemo.

Lemma timestamp_sorts_witness :
  clock_value (-1) /\ clock_value 1000000 /\
  String.compare (log_timestamp (-1)) (log_timestamp 1000000) = Lt.
Proof.
  assert (Hc : clock_value (-1) /\ clock_value 1000000) by (unfold clock_value; lia).
  destruct Hc as [Ha Hb]. do 2 (split; [done|]).
  exact (timestamp_sorts (-1) 1000000 Ha Hb).
Defined.

(** Three handlers, of which the second takes 12 ms. *)
#[local] Instance countdown : Runnable nat := {
  ctx_run x := (x, 0%nat);
  ctx_run_one x := match x with O => (0%nat, 0%nat) | S x => (1%nat, x) end;
}.



End LogTimeDemo.
