(* ===== verification/Endpoints.v ===== *)
(** * Server and Client

    [Server::Impl] (src/server.cpp, src/server_impl.hpp) and [Client::Impl::connect]
    (src/client.cpp): how connections become sessions.  Sockets and TLS are corosio's;
    what their operations return is an argument. *)

From S2P Require Import Prelude Nghttp2 Session TaskGroup Log.
From Stdlib Require Import Ascii.

(** ** Effects *)

(** What the two ends do besides computing. *)
Inductive net_effect :=
| set_no_delay
| set_hostname (name : string)
| spawn_session (role : Role) (over_tls handler : bool).  (* group.spawn(session->run()) *)

Definition spawned_sessions (es : list net_effect) : nat :=
  length (filter (fun e => match e with spawn_session _ _ _ => true | _ => false end = true) es).

(** ** [Config] *)

Record Config := mkConfig {
  listen_address : string;
  port : N;                   (* std::uint16_t *)
  handler : bool;             (* whether a RequestHandler is set *)
  tls : bool;                 (* whether a tls_context is set *)
}.

#[export] Instance config_eta : Eta Config := {| eta := fun c =>
  mkConfig (listen_address c) (port c) (handler c) (tls c) |}.

Definition Config_default : Config := mkConfig "::" 8080 false false.

(** ** [accept_loop] *)

Inductive accept_phase := AAccepting | AHandshaking | ADone.

(** After [co_await acceptor_.accept(peer)]; [stop] is [token.stop_requested()]. *)
Definition accept_resume (c : Config) (accept_ec : error_code) (stop : bool)
  : accept_phase * list net_effect :=
  match accept_ec with
  | Some _ => if stop then (ADone, []) else (AAccepting, [])
  | None =>
      if tls c then (AHandshaking, [set_no_delay])
      else (AAccepting, [set_no_delay; spawn_session server false (handler c)])
  end.

(** After [co_await tls.handshake(server)]. *)
Definition handshake_resume (c : Config) (handshake_ec : error_code) (alpn : string)
  : accept_phase * list net_effect :=
  match handshake_ec with
  | Some _ => (AAccepting, [])
  | None =>
      if negb (bool_decide (alpn = "h2")) then (AAccepting, [])
      else (AAccepting, [spawn_session server true (handler c)])
  end.

Inductive aev :=
| AAccept (accept_ec : error_code) (stop : bool)
| AHandshake (handshake_ec : error_code) (alpn : string).

Definition astep (c : Config) (e : aev) (s : accept_phase * list net_effect)
  : option (accept_phase * list net_effect) :=
  let more r := Some (r.1, s.2 ++ r.2) in
  match e, s.1 with
  | AAccept ec stop, AAccepting => more (accept_resume c ec stop)
  | AHandshake ec alpn, AHandshaking => more (handshake_resume c ec alpn)
  | _, _ => None
  end.

Fixpoint arun (c : Config) (evs : list aev) (s : accept_phase * list net_effect)
  : option (accept_phase * list net_effect) :=
  match evs with
  | [] => Some s
  | e :: evs => match astep c e s with Some s => arun c evs s | None => None end
  end.

(** ** What is promised of [accept_loop] *)

(** One attempt to connect: the accept fails, or succeeds with what a handshake
    would return. *)
Inductive attempt :=
| failed (e : error)
| connected (handshake_ec : error_code) (alpn : string).

(** Completions the loop sees for an attempt. *)
Definition attempt_events (c : Config) (a : attempt) : list aev :=
  match a with
  | failed e => [AAccept (Some e) false]
  | connected ec alpn => AAccept None false :: if tls c then [AHandshake ec alpn] else []
  end.

(** Which attempts are served. *)
Definition served (c : Config) (a : attempt) : bool :=
  match a with
  | failed _ => false
  | connected ec alpn => negb (tls c) || (bool_decide (ec = None) && bool_decide (alpn = "h2"))
  end.

Lemma arun_app c evs evs' s :
  arun c (evs ++ evs') s = match arun c evs s with Some s => arun c evs' s | None => None end.
Proof.
  revert s; induction evs as [|e evs IH]; intros s; simpl; [done|].
  destruct (astep c e s); [apply IH | done].
Qed.

Lemma attempt_run c a es :
  exists es', arun c (attempt_events c a) (AAccepting, es) = Some (AAccepting, es ++ es') /\
    spawned_sessions es' = (if served c a then 1 else 0).
Proof.
  destruct a as [e|ec alpn]; simpl; [by eexists|].
  unfold accept_resume. destruct (tls c); simpl.
  - unfold handshake_resume. destruct ec as [e|]; simpl.
    + exists [set_no_delay]. by rewrite app_nil_r.
    + destruct (bool_decide (alpn = "h2")); simpl.
      * eexists. split; [by rewrite <-app_assoc|]. done.
      * exists [set_no_delay]. by rewrite app_nil_r.
  - by eexists.
Qed.

Lemma attempts_run c l es :
  exists es', arun c (concat (map (attempt_events c) l)) (AAccepting, es)
              = Some (AAccepting, es ++ es') /\
    spawned_sessions es' = length (filter (fun a => served c a = true) l).
Proof.
  revert es; induction l as [|a l IH]; intros es; cbn [map concat].
  { exists []. by rewrite app_nil_r. }
  destruct (attempt_run c a es) as (e1 & E1 & H1).
  destruct (IH (es ++ e1)) as (e2 & E2 & H2).
  exists (e1 ++ e2). rewrite arun_app, E1, E2, app_assoc. split; [done|].
  unfold spawned_sessions in *. rewrite filter_app, length_app, H1, H2, filter_cons.
  destruct (served c a); simpl; lia.
Qed.

(** The server serves exactly the good connections and keeps going: whatever
    sequence of attempts it sees (accept errors, failed handshakes, clients that do
    not negotiate "h2"), the loop is accepting again and has started one session for
    each connection that is plaintext (no TLS configured) or completed TLS with ALPN
    "h2", none for the others; and it ends at the first accept error after a stop was
    requested. *)
Theorem accept_loop_serves c l e :
  exists es,
    arun c (concat (map (attempt_events c) l)) (AAccepting, []) = Some (AAccepting, es) /\
    spawned_sessions es = length (filter (fun a => served c a = true) l) /\
    arun c (concat (map (attempt_events c) l) ++ [AAccept (Some e) true]) (AAccepting, [])
      = Some (ADone, es).
Proof.
  destruct (attempts_run c l []) as (es & E & H). exists es. split; [done|]. split; [done|].
  rewrite arun_app, E. simpl. by rewrite app_nil_r.
Qed.

(** ** [Client::Impl::connect] *)

(** [None] for a default-constructed [Session]. *)
Definition connect (tls : bool) (hostname : string) (connect_ec handshake_ec : error_code)
  (alpn : string) : io_result (option Role) * list net_effect :=
  match connect_ec with
  | Some e => (IoResult (Some e) None, [])
  | None =>
      let session over_tls := spawn_session client over_tls false in
      if tls then
        let es := set_no_delay :: if bool_decide (hostname = "") then [] else [set_hostname hostname] in
        match handshake_ec with
        | Some e => (IoResult (Some e) None, es)
        | None =>
            if negb (bool_decide (alpn = "h2"))
            then (IoResult (Some protocol_not_supported) None, es)
            else (IoResult None (Some client), es ++ [session true])
        end
      else (IoResult None (Some client), [set_no_delay; session false])
  end.

(** C33 A client session exists if and only if [connect] succeeds: on every error path
    (connect, handshake, ALPN) the error is reported, the session handed back is empty
    and none was started; otherwise exactly one client session was started, and under
    TLS only after "h2" was negotiated and with the hostname set when one was given. *)
Theorem connect_result tls_ hostname cec hec alpn :
  let '(r, es) := connect tls_ hostname cec hec alpn in
  (ec r = None <-> cec = None /\ (tls_ = true -> hec = None /\ alpn = "h2")) /\
  (ec r = None -> value r = Some client /\ spawned_sessions es = 1) /\
  (ec r <> None -> value r = None /\ spawned_sessions es = 0) /\
  (ec r = None -> tls_ = true -> hostname <> "" -> set_hostname hostname ∈ es).
Proof.
  unfold connect, spawned_sessions.
  destruct cec as [e|]; simpl; [split; [naive_solver|]; repeat split; done|].
  destruct tls_; simpl; [|split; [naive_solver|]; repeat split; done].
  destruct hec as [e|]; simpl.
  { split; [naive_solver|]. repeat split; try done. by case_bool_decide. }
  destruct (decide (alpn = "h2")) as [->|Hn]; simpl.
  - split; [naive_solver|]. repeat split; try done; [by case_bool_decide|].
    intros _ _ Hh. rewrite bool_decide_false by done. set_solver.
  - rewrite bool_decide_false by done. simpl. split; [naive_solver|].
    repeat split; try done. by case_bool_decide.
Qed.

(** ** Command lines *)

Definition is_space (c : ascii) : bool :=
  let n := nat_of_ascii c in (n =? 32) || ((9 <=? n) && (n <=? 13)).

Fixpoint skip_spaces (s : string) : string :=
  match s with
  | String c s' => if is_space c then skip_spaces s' else s
  | EmptyString => s
  end.

(** [std::atoi]; [None] where its behaviour is undefined (value out of range). *)
Definition atoi (s : string) : option Z :=
  let s := skip_spaces s in
  let '(neg, s) :=
    match s with
    | String "-" s => (true, s)
    | String "+" s => (false, s)
    | _ => (false, s)
    end in
  let n := Z.of_N (Charconv.scan_digits s 0 0).1 in
  let z := if neg then (- n)%Z else n in
  if ((- INT_MAX - 1 <=? z) && (z <=? INT_MAX))%Z then Some z else None.

(** [static_cast<std::uint16_t>]. *)
Definition uint16_of_int (z : Z) : N := Z.to_N (z mod 65536).

(** server_main.cpp before the server runs: the configuration and the log level, given
    the arguments after the program name.  [inl]: an uncaught exception; [None]:
    undefined behaviour of [atoi]. *)
Definition server_main (args : list string) : option (string + Config * LogLevel) :=
  let c := Config_default in
  match args with
  | [] => Some (inr (c <| handler := true |>, default_log_level))
  | p :: rest =>
      match atoi p with
      | None => None
      | Some z =>
          let c := c <| port := uint16_of_int z |> in
          match rest with
          | [] => Some (inr (c <| handler := true |>, default_log_level))
          | l :: _ =>
              match parse_log_level l with
              | None => Some (inl "std::invalid_argument")
              | Some level =>
                  Some (inr (c <| handler := true |>, set_log_level level default_log_level))
              end
          end
      end
  end.

Example server_main_default :
  server_main [] = Some (inr (mkConfig "::" 8080 true false, info)).
Proof. reflexivity. Qed.

Example server_main_args :
  server_main [" 9000"; "debug"] = Some (inr (mkConfig "::" 9000 true false, debug)).
Proof. reflexivity. Qed.
