(* ===== verification/Server.v ===== *)
(** * A server and its coroutines

    [Server] and [Server::Impl] (src/server.cpp, src/server_impl.hpp) as the owner of
    every coroutine on its io_context: the accept loop it starts, the sessions that
    loop (or a [Client] on the same context) starts, the request handlers sessions
    dispatch.  All go through one [TaskGroup]. *)

From S2P Require Import Prelude Nghttp2 Session TaskGroup Log Endpoints.

(** ** State *)

Inductive task_kind := KAccept | KSession (role : Role) | KHandler.

#[export] Instance task_kind_eq_dec : EqDecision task_kind.
Proof. solve_decision. Defined.

Record Server := mkServer {
  config_ : Config;
  tasks_ : tasks;                  (* the TaskGroup of ioc_ with what it tracks *)
  kinds : gmap nat task_kind;      (* observed: what each live coroutine is *)
  accepting : accept_phase;        (* where accept_loop() is *)
  stopped : bool;                  (* ioc_.stop() was called *)
}.

#[export] Instance server_eta : Eta Server := {| eta := fun s =>
  mkServer (config_ s) (tasks_ s) (kinds s) (accepting s) (stopped s) |}.

(** [group.spawn(executor, task)]. *)
Definition spawn_task (k : task_kind) (s : Server) : Server :=
  let t := tasks_ s in
  s <| tasks_ := mkTasks (spawn (group t)) ({[next_task t]} ∪ live t) (S (next_task t)) |>
    <| kinds := <[next_task t := k]> (kinds s) |>.

(** A coroutine returns, or ends in an exception. *)
Definition finish_task (i : nat) (exn : bool) (s : Server) : Server :=
  let t := tasks_ s in
  s <| tasks_ := mkTasks (on_finish exn (group t)) (live t ∖ {[i]}) (next_task t) |>
    <| kinds := delete i (kinds s) |>.

(** ** Operations *)

(** [Server::Impl::Impl]. *)
Definition Impl_new (c : Config) : Server := mkServer c tasks_new ∅ ADone false.

(** [Server::Impl::start]: the accept loop is suspended in its first accept. *)
Definition start (s : Server) : Server := (spawn_task KAccept s) <| accepting := AAccepting |>.

(** [Server::Server]. *)
Definition Server_new (c : Config) : Server := start (Impl_new c).

(** [Server::Impl::stop]. *)
Definition stop (s : Server) : Server := s <| stopped := true |>.

(** [ioc_.restart()], in the destructor. *)
Definition ioc_restart (s : Server) : Server := s <| stopped := false |>.

(** The first step of [Server::Impl::~Impl]. *)
Definition cancel_all (s : Server) : Server :=
  let t := tasks_ s in
  s <| tasks_ := mkTasks (request_stop (group t)) (live t) (next_task t) |>.

(** Sessions are started. *)
Definition perform_net (es : list net_effect) (s : Server) : Server :=
  foldl (fun s e => match e with
                    | spawn_session role _ _ => spawn_task (KSession role) s
                    | _ => s
                    end) s es.

(** A turn of the accept loop, which is the first coroutine of the group. *)
Definition accept_turn (r : accept_phase * list net_effect) (s : Server) : Server :=
  let s := (perform_net r.2 s) <| accepting := r.1 |> in
  match r.1 with ADone => finish_task 0 false s | _ => s end.

Inductive svev :=
| SvAccept (accept_ec : error_code)
| SvHandshake (handshake_ec : error_code) (alpn : string)
| SvConnect (tls : bool) (hostname : string) (connect_ec handshake_ec : error_code) (alpn : string)
| SvDispatch (session : nat)                (* dispatch_request() in a session *)
| SvFinish (task : nat) (exception : bool)  (* a session's run() or a handler ends *)
| SvStop
| SvRestart
| SvCancel.                                 (* the destructor asks everything to stop *)

Definition svstep (e : svev) (s : Server) : option Server :=
  match e with
  | SvAccept ec =>
      match accepting s with
      | AAccepting =>
          Some (accept_turn (accept_resume (config_ s) ec (stop_requested (group (tasks_ s)))) s)
      | _ => None
      end
  | SvHandshake ec alpn =>
      match accepting s with
      | AHandshaking => Some (accept_turn (handshake_resume (config_ s) ec alpn) s)
      | _ => None
      end
  | SvConnect tls hostname cec hec alpn => Some (perform_net (connect tls hostname cec hec alpn).2 s)
  | SvDispatch i =>
      if decide (kinds s !! i = Some (KSession server)) then Some (spawn_task KHandler s) else None
  | SvFinish i exn =>
      match kinds s !! i with
      | Some (KSession _) | Some KHandler => Some (finish_task i exn s)
      | _ => None
      end
  | SvStop => Some (stop s)
  | SvRestart => Some (ioc_restart s)
  | SvCancel => Some (cancel_all s)
  end.

Inductive svreach (c : Config) : Server -> Prop :=
| svreach_new : svreach c (Server_new c)
| svreach_step s e s' : svreach c s -> svstep e s = Some s' -> svreach c s'.

(** ** Everything is tracked *)

Record svinv (s : Server) : Prop := {
  sv_group : ginv (tasks_ s);
  sv_kinds i : i ∈ live (tasks_ s) <-> is_Some (kinds s !! i);
  sv_accept i : kinds s !! i = Some KAccept <-> i = 0 /\ accepting s <> ADone;
  sv_next : 0 < next_task (tasks_ s);
}.

Lemma svinv_spawn k s :
  svinv s -> k <> KAccept -> svinv (spawn_task k s).
Proof.
  intros [Hg Hk Ha Hn] Hne.
  assert (Hfresh : next_task (tasks_ s) ∉ live (tasks_ s))
    by (intros H%(gi_fresh _ Hg); lia).
  split; simpl.
  - by apply (ginv_step GSpawn (tasks_ s)).
  - intros i. rewrite elem_of_union, elem_of_singleton, Hk.
    destruct (decide (next_task (tasks_ s) = i)) as [->|Hi].
    + rewrite lookup_insert_eq. naive_solver.
    + rewrite lookup_insert_ne by done. naive_solver.
  - intros i. destruct (decide (next_task (tasks_ s) = i)) as [<-|Hi].
    + rewrite lookup_insert_eq. split; [congruence | lia].
    + by rewrite lookup_insert_ne.
  - lia.
Qed.

Lemma svinv_finish i exn s :
  svinv s -> i ∈ live (tasks_ s) -> kinds s !! i <> Some KAccept -> svinv (finish_task i exn s).
Proof.
  intros [Hg Hk Ha Hn] Hi Hne. split; simpl; try done.
  - apply (ginv_step (GFinish i exn) (tasks_ s)); [done|]. simpl. by rewrite decide_True.
  - intros j. rewrite elem_of_difference, elem_of_singleton, Hk.
    destruct (decide (i = j)) as [->|Hj].
    + rewrite lookup_delete_eq. split; [naive_solver | by intros [? ?]].
    + rewrite lookup_delete_ne by done. naive_solver.
  - intros j. destruct (decide (i = j)) as [->|Hj].
    + rewrite lookup_delete_eq. split; [done|]. intros H%Ha. congruence.
    + by rewrite lookup_delete_ne.
Qed.

Lemma svinv_net es s :
  svinv s -> svinv (perform_net es s) /\ accepting (perform_net es s) = accepting s.
Proof.
  revert s; induction es as [|e es IH]; intros s Hi; [done|]. cbn [perform_net foldl].
  destruct e as [|name|role o h]; try by apply IH.
  destruct (IH (spawn_task (KSession role) s)) as [H1 H2]; [by apply svinv_spawn | done].
Qed.

(** The accept loop goes on, or ends. *)
Lemma svinv_accept r s : svinv s -> accepting s <> ADone -> svinv (accept_turn r s).
Proof.
  intros Hi Hne. destruct (svinv_net r.2 s Hi) as [Hi' Ea]. unfold accept_turn.
  set (s1 := perform_net r.2 s) in *. clearbody s1. destruct Hi' as [Hg Hk Ha Hn].
  destruct r.1 eqn:Er; try (by split; simpl; try done; intros i; rewrite Ha, Ea; naive_solver).
  assert (H0 : kinds s1 !! 0 = Some KAccept) by (apply Ha; split; congruence).
  assert (Hl : 0 ∈ live (tasks_ s1)) by (apply Hk; rewrite H0; by eexists).
  split; simpl; try done.
  - apply (ginv_step (GFinish 0 false) (tasks_ s1)); [done|]. simpl. by rewrite decide_True.
  - intros j. rewrite elem_of_difference, elem_of_singleton, Hk.
    destruct (decide (0 = j)) as [<-|Hj].
    + rewrite lookup_delete_eq. split; [naive_solver | by intros [? ?]].
    + rewrite lookup_delete_ne by done. naive_solver.
  - intros j. destruct (decide (0 = j)) as [<-|Hj].
    + rewrite lookup_delete_eq. naive_solver.
    + rewrite lookup_delete_ne by done. rewrite Ha. naive_solver.
Qed.

Lemma svinv_step e s s' : svinv s -> svstep e s = Some s' -> svinv s'.
Proof.
  intros Hi Hs. destruct e as [ec|ec alpn|tls hn cec hec alpn|i|i exn| | |]; simpl in Hs.
  - destruct (accepting s) eqn:Ea; try done. injection Hs as <-. apply svinv_accept; congruence.
  - destruct (accepting s) eqn:Ea; try done. injection Hs as <-. apply svinv_accept; congruence.
  - injection Hs as <-. by apply svinv_net.
  - case_decide; [|done]. injection Hs as <-. by apply svinv_spawn.
  - destruct (kinds s !! i) as [[|r|]|] eqn:Ek; try done; injection Hs as <-;
      (apply svinv_finish; [done | apply (sv_kinds _ Hi); by rewrite Ek | congruence]).
  - injection Hs as <-. by destruct Hi.
  - injection Hs as <-. by destruct Hi.
  - injection Hs as <-. destruct Hi as [Hg Hk Ha Hn]. split; simpl; try done. by destruct Hg.
Qed.

Lemma svreach_inv c s : svreach c s -> svinv s.
Proof.
  induction 1 as [|s e s' _ IH Hs]; [|by apply (svinv_step e s)]. split; simpl.
  - apply (ginv_step GSpawn tasks_new); [apply ginv_new | done].
  - intros i. destruct (decide (0 = i)) as [<-|Hi].
    + rewrite lookup_insert_eq. set_solver.
    + rewrite lookup_insert_ne, lookup_empty by done. split; [set_solver | by intros [? ?]].
  - intros i. destruct (decide (0 = i)) as [<-|Hi].
    + rewrite lookup_insert_eq. naive_solver.
    + rewrite lookup_insert_ne, lookup_empty by done. naive_solver.
  - lia.
Qed.

(** ** What is alive *)

Definition is_session (k : task_kind) : bool := match k with KSession _ => true | _ => false end.
Definition is_handler (k : task_kind) : bool := match k with KHandler => true | _ => false end.
Definition is_accept (k : task_kind) : bool := match k with KAccept => true | _ => false end.

(** How many live coroutines are of a kind. *)
Definition alive (P : task_kind -> bool) (m : gmap nat task_kind) : nat :=
  size (filter (fun kv => P kv.2 = true) m).

Lemma alive_insert P i k m :
  m !! i = None -> alive P (<[i := k]> m) = (if P k then 1 else 0) + alive P m.
Proof.
  intros Hi. unfold alive. destruct (P k) eqn:E.
  - rewrite map_filter_insert_True by done. rewrite map_size_insert_None; [done|].
    rewrite map_lookup_filter, Hi. done.
  - rewrite map_filter_insert_not'; [done | simpl; congruence |]. intros y Hy. congruence.
Qed.

(** Every coroutine is of one kind. *)
Lemma size_by_kind m : size m = alive is_accept m + alive is_session m + alive is_handler m.
Proof.
  induction m as [|i k m Hi IH] using map_ind; [done|].
  rewrite map_size_insert_None, !alive_insert, IH by done. destruct k; simpl; lia.
Qed.

Lemma alive_accept s :
  svinv s -> alive is_accept (kinds s) = match accepting s with ADone => 0 | _ => 1 end.
Proof.
  intros [_ _ Ha _]. unfold alive.
  assert (E : filter (fun kv : nat * task_kind => is_accept kv.2 = true) (kinds s)
              = match accepting s with ADone => ∅ | _ => {[0 := KAccept]} end).
  { apply map_eq. intros i. apply option_eq. intros k. rewrite map_lookup_filter_Some. simpl.
    destruct (accepting s) eqn:Ea; rewrite ?lookup_empty, ?lookup_singleton_Some; (split;
      [intros [Hk Hp]; destruct k; try done; apply Ha in Hk; naive_solver |]).
    - intros [<- <-]. split; [by apply Ha | done].
    - intros [<- <-]. split; [by apply Ha | done].
    - done. }
  rewrite E. by destruct (accepting s); rewrite ?map_size_singleton, ?map_size_empty.
Qed.

(** C30 A server's task group accounts for everything that runs: in every state a server
    can reach, whatever was accepted, connected, dispatched, completed or cancelled,
    [count()] is the number of its live coroutines: one while the accept loop runs, one
    per session, one per request handler.  So the destructor's drain loop, which ends
    when [count()] is zero, ends with the accept loop, all sessions and all handlers
    finished; and once a stop was requested, the accept loop ends at its next failed
    accept. *)
Theorem server_tracks c s :
  svreach c s -> (N.of_nat (size (live (tasks_ s))) <= SIZE_MAX)%N ->
  count_ (group (tasks_ s))
    = N.of_nat (match accepting s with ADone => 0 | _ => 1 end
                + alive is_session (kinds s) + alive is_handler (kinds s)) /\
  (count_ (group (tasks_ s)) = 0%N <-> accepting s = ADone /\ kinds s = ∅) /\
  (forall e, accepting s = AAccepting -> stop_requested (group (tasks_ s)) = true ->
     exists s', svstep (SvAccept (Some e)) s = Some s' /\ accepting s' = ADone /\
       kinds s' !! 0 = None).
Proof.
  intros Hr Hb. pose proof (svreach_inv c s Hr) as Hi. pose proof Hi as [Hg Hk Ha Hn].
  destruct (ginv_zero _ Hg Hb) as [Hc _].
  assert (Hsize : size (live (tasks_ s)) = size (kinds s)).
  { rewrite <-(size_dom (D := gset nat) (kinds s)). f_equal. apply leibniz_equiv.
    intros i. by rewrite Hk, elem_of_dom. }
  rewrite Hc, Hsize, size_by_kind, alive_accept by done. split; [done|]. split.
  - split.
    + intros H. assert (H0 : size (kinds s) = 0) by (rewrite size_by_kind, alive_accept by done; lia).
      apply map_size_empty_inv in H0. split; [|done]. destruct (accepting s); (done || lia).
    + intros [-> ->]. done.
  - intros e Hacc Hstop. simpl. rewrite Hacc, Hstop. simpl. eexists. split; [done|]. simpl.
    split; [done | by rewrite lookup_delete_eq].
Qed.

(** ** A concrete server *)

Module ServerDemo.

Definition config : Config := Config_default <| handler := true |>.

(** Two connections, a dispatched request, a failed accept, a session that ends, a
    cancellation. *)
Definition evs : list svev :=
  [SvAccept None; SvDispatch 1; SvAccept (Some invalid_argument); SvAccept None;
   SvFinish 1 false; SvConnect false "" None None ""; SvCancel].

Definition after (evs : list svev) (s : Server) : option Server :=
  foldl (fun s e => match s with Some s => svstep e s | None => None end) (Some s) evs.

Lemma after_reach c evs s : after evs (Server_new c) = Some s -> svreach c s.
Proof.
  unfold after. revert s; induction evs as [|e evs IH] using rev_ind; intros s H.
  - injection H as <-. constructor.
  - rewrite foldl_app in H. destruct (foldl _ _ evs) as [s1|]; [|done].
    by apply (svreach_step c s1 e); [apply IH|].
Qed.

Definition s1 : Server := default (Server_new config) (after evs (Server_new config)).

Lemma server_tracks_witness :
  count_ (group (tasks_ s1)) = 4%N /\
  exists s', svstep (SvAccept (Some canceled)) s1 = Some s' /\ accepting s' = ADone.
Proof.
  destruct (server_tracks config s1) as (Hc & _ & H).
  - apply (after_reach config evs). by vm_compute.
  - by vm_compute.
  - split; [by vm_compute|].
    destruct (H canceled) as (s' & Hs & Ha & _); [by vm_compute | by vm_compute |].
    exists s'. split; [exact Hs | exact Ha].
Defined.

End ServerDemo.
