(* ===== verification/Messages.v ===== *)
(** * Requests and responses

    The message classes of include/nghttp2-corosio/session.hpp ([Request],
    [ClientResponse], [Response], [ClientRequest]) and
    [Session::Impl::handle_request] (src/session.cpp), which hands a request to the
    application or answers it itself. *)

From S2P Require Import Prelude Capy Nghttp2 Charconv Stream StreamRead StreamWrite.
From S2P Require Import StreamSys StreamProps Session SessionSys SessionProps SessionHeaders.

Section Messages.
Context {C : CapyOps} {G : NgConsts}.

(** ** The classes *)

(** Readers, writers, [submit] and [write_eof] functions are bound to the stream at an
    address (construction, moves and destruction are in Lifetime). *)
Record Request := mkRequest {
  rq_path : string;
  rq_content_length : option N;
  rq_headers : Headers;
  rq_reader : addr;
}.

Record ClientResponse := mkClientResponse {
  cr_status : N;
  cr_content_length : option N;
  cr_headers : Headers;
  cr_reader : addr;
}.

Record Response := mkResponse { rs_writer : addr; rs_content_length : option N }.

#[export] Instance response_eta : Eta Response := {| eta := fun r =>
  mkResponse (rs_writer r) (rs_content_length r) |}.

(** [has_header]. *)
Definition has_header (name : string) (hs : Headers) : bool :=
  existsb (fun kv => bool_decide (kv.1 = name)) hs.

(** [Response::content_length(n)]. *)
Definition Response_content_length (n : option N) (r : Response) : Response :=
  r <| rs_content_length := n |>.

(** The header list [Response::submit] passes on. *)
Definition submit_headers (r : Response) (hs : Headers) : Headers :=
  match rs_content_length r with
  | Some n => hs ++ [("content-length", to_string n)]
  | None => hs
  end.

(** [Response::submit(status, headers)]. *)
Definition Response_submit (r : Response) (status : N) (hs : Headers) (rv : Z) (x : Session)
  : io_result unit * Session :=
  submit_response (rs_writer r) status (submit_headers r hs) rv x.

(** [write_eof(buffers)] of [Response] and [ClientRequest]: a composed [capy::write],
    whose result is [r], then an empty [write_eof_].  [inl] is a [co_return], [inr n] the
    suspension in [write_eof_({})] having written [n] bytes. *)
Definition write_eof_buffers (r : io_result nat) : io_result nat + nat :=
  match ec r with
  | Some e => inl (IoResult (Some e) (value r))
  | None => inr (value r)
  end.

Definition write_eof_buffers_resume (n : nat) (eof_r : io_result nat) : io_result nat :=
  IoResult (ec eof_r) n.

(** [write_eof()]. *)
Definition write_eof_resume (r : io_result nat) : io_result unit := IoResult (ec r) ().

(** [ClientRequest::get_response]: what it makes of the result of
    [Stream::status()], the fields being read at that time. *)
Definition get_response_resume (a : addr) (r : io_result N) (x : Session)
  : io_result (option ClientResponse) :=
  IoResult (ec r)
    ((fun y => mkClientResponse (value r) (content_length_ (st y)) (headers_ (st y)) a)
       <$> heap x !! a).

(** ** [handle_request] *)

Inductive handled :=
| HandlerCalled (request : Request) (response : Response)
| Answered.   (* suspended in (or back from) response.write_eof() *)

Definition request_of (a : addr) (s : Stream) : Request :=
  mkRequest (path_ s) (content_length_ s) (headers_ s) a.

(** Up to the handler's first turn, or to the first suspension of the default answer;
    [rv] is what [nghttp2_submit_response2] returns. *)
Definition handle_request (a : addr) (rv : Z) (x : Session) : option (handled * Session) :=
  match heap x !! a with
  | None => None
  | Some y =>
      let request := request_of a (st y) in
      let response := mkResponse a None in
      if handler_set x then Some (HandlerCalled request response, x)
      else
        let x := (Response_submit response 200 [] rv x).2 in
        match xstep (XTurn a (EWrite (array_of []) true)) x with
        | Some x => Some (Answered, x)
        | None => None
        end
  end.

(** A turn of the stream at [a], seen through the session. *)
Lemma xstep_turn a e x y y' :
  heap x !! a = Some y -> is_turn e = true -> step e y = Some y' ->
  exists x', xstep (XTurn a e) x = Some x' /\ heap x' !! a = Some y'.
Proof.
  intros Ha He Hs. cbn [xstep]. rewrite He, Ha, Hs. eexists. split; [done|].
  destruct (perform_all_frame (drop (length (calls y)) (calls y'))
              (x <| heap := <[a := y']> (heap x) |>)) as (-> & _ & _).
  apply lookup_insert_eq.
Qed.

Section Default.
Context {L : CapyLaws C} {GL : NgLaws G}.

(** An empty [write_eof] on an open stream, and the pull that follows. *)
Lemma empty_write_eof y len :
  sys_write_inv y -> writer y = None -> closed_ (st y) = false -> provider_eof y = false ->
  exists y1 y2, step (EWrite (array_of []) true) y = Some y1 /\
    step (EProduce len) y1 = Some y2 /\ provider_eof y2 = true /\
    (exists f, log y2 = log y ++ [OPull 0 f []]) /\
    exists y3, step (EWriteWake None) y2 = Some y3 /\
      log y3 = log y2 ++ [OWrite (array_of []) true (IoResult None 0)].
Proof.
  intros Hinv Hw Hc He. pose proof (sw_wr _ Hinv) as Hwr. rewrite Hw in Hwr.
  pose proof (write_impl_open (array_of []) true _ _ _ Hc Hwr) as Ho.
  simpl. rewrite Hw. destruct (write_impl (array_of []) true (st y)) as [[s cs] o].
  destruct Ho as (-> & Hwr' & _ & Hp & _). eexists.
  destruct (wi_pending _ _ _ _ Hwr' Hp) as [_ Hd].
  pose proof (wi_deferred _ _ _ _ Hwr') as Hd'. rewrite Hd in Hd'.
  destruct (wi_frame _ _ _ _ Hwr' _ _ eq_refl) as (Ha & Hfin & Hle & Hcur).
  assert (Hnil : array_bytes (array_of []) = []) by (apply array_bytes_of; simpl; lia).
  rewrite Hnil in Hle, Hcur.
  assert (Hoff : write_offset_ s = 0) by (simpl in Hle; lia).
  assert (Hbuf : cursor_copy len (pending_cursor_ s) = []).
  { destruct (cursor_copy_prefix len (pending_cursor_ s)) as [k Hk].
    rewrite Hcur, drop_nil in Hk. symmetry in Hk. by apply app_nil in Hk as [? _]. }
  eexists. split; [done|]. simpl. rewrite Hd', He. cbn [orb].
  unfold producer_callback. rewrite Hp. simpl. split; [reflexivity|]. simpl.
  rewrite Hbuf, Hoff, Ha, byte_size_bytes, Hnil, Hfin. simpl. rewrite has_eof_lor.
  split; [done|]. split; [by eexists|].
  rewrite event_set_is_set. by eexists.
Qed.

(** Without a handler every request gets an empty 200 response: nghttp2 is given
    the header block ":status: 200" for the request's stream, and its first request
    for body bytes gets none and the EOF flag, upon which [write_eof] returns
    success. *)
Theorem default_response_empty_200 evs r x a y len :
  xreach server false evs r x -> Forall fits evs -> heap x !! a = Some y ->
  writer y = None -> closed_ (st y) = false -> provider_eof y = false ->
  exists x1 x2 x3 y2 y3 f rest,
    handle_request a 0 x = Some (Answered, x1) /\
    ng_calls x1 = ng_calls x
      ++ [nghttp2_submit_response2 (id_ (st y)) [(":status", "200")] a] ++ rest /\
    xstep (XTurn a (EProduce len)) x1 = Some x2 /\ heap x2 !! a = Some y2 /\
    log y2 = log y ++ [OPull 0 f []] /\ provider_eof y2 = true /\
    xstep (XTurn a (EWriteWake None)) x2 = Some x3 /\ heap x3 !! a = Some y3 /\
    log y3 = log y2 ++ [OWrite (array_of []) true (IoResult None 0)].
Proof.
  intros Hr Hf Ha Hw Hc He. pose proof (xreach_inv _ _ _ _ _ Hr Hf) as Hi.
  destruct (xi_object _ _ Hi a y Ha) as (pre & id & es & Hrun & _ & _).
  pose proof (reach_write_inv pre id es y (run_reach _ _ _ _ Hrun)) as Hinv.
  destruct (empty_write_eof y len Hinv Hw Hc He)
    as (y1 & y2 & S1 & S2 & He2 & [f Hl2] & y3 & S3 & Hl3).
  set (x0 := (submit_response a 200 [] 0 x).2).
  assert (H0 : heap x0 !! a = Some y) by done.
  destruct (xstep_turn a (EWrite (array_of []) true) x0 y y1 H0 eq_refl S1) as (x1 & X1 & H1).
  destruct (xstep_turn a (EProduce len) x1 y1 y2 H1 eq_refl S2) as (x2 & X2 & H2).
  destruct (xstep_turn a (EWriteWake None) x2 y2 y3 H2 eq_refl S3) as (x3 & X3 & H3).
  destruct (xstep_turn_calls _ _ _ _ X1) as [rest Hrest].
  exists x1, x2, x3, y2, y3, f, rest. split; [|split].
  - unfold handle_request. rewrite Ha, (xreach_handler _ _ _ _ _ Hr).
    unfold Response_submit. cbn [rs_writer submit_headers rs_content_length].
    fold x0. by rewrite X1.
  - rewrite Hrest. unfold x0, submit_response. rewrite Ha. simpl. by rewrite <-app_assoc.
  - done.
Qed.

End Default.

(** ** A response, from [submit()] to [get_response()] *)

Section RoundTrip.
Context {L : CapyLaws C}.

Lemma submit_headers_field r hs : submit_headers r hs = hs ++ length_field (rs_content_length r).
Proof. unfold submit_headers. destruct (rs_content_length r); simpl; by rewrite ?app_nil_r. Qed.

Lemma response_block n k hs :
  plain hs -> (forall m, k = Some m -> (m <= SIZE_MAX)%N) ->
  content_length_of (response_nva n (hs ++ length_field k)) = k /\
  non_pseudo (response_nva n (hs ++ length_field k)) = hs ++ length_field k.
Proof.
  intros Hh Hk.
  change (response_nva n (hs ++ length_field k)) with ([(":status", to_string n)] ++ hs ++ length_field k).
  unfold content_length_of.
  rewrite !values_app, (values_plain _ hs) by auto. rewrite !non_pseudo_app, (non_pseudo_plain hs) by done.
  split; [|by destruct k]. destruct k as [m|]; [|done].
  etrans; [apply (omap_last_snoc parse_length [] (to_string m))|].
  by rewrite parse_length_to_string by auto.
Qed.

(** What [get_response()], suspended on the stream, returns once the block is in. *)
Lemma get_response_wakes a n nva y x :
  heap x !! a = Some (y <| st := foldl capture (st y) nva |>) -> status_waiter y = true ->
  event_is_set (status_ready_ (foldl capture (st y) nva)) = true ->
  (0 <= status_ (foldl capture (st y) nva))%Z -> uint_of_int (status_ (foldl capture (st y) nva)) = n ->
  exists x', xstep (XTurn a (EStatusWake None)) x = Some x' /\
    get_response_resume a (IoResult None n) x'
    = IoResult None (Some (mkClientResponse n (content_length_ (foldl capture (st y) nva))
                             (headers_ (foldl capture (st y) nva)) a)) /\
    exists y', heap x' !! a = Some y' /\ log y' = log y ++ [OStatus (IoResult None n)].
Proof.
  intros Ha Hw Hset Hpos Hn. set (y1 := y <| st := foldl capture (st y) nva |>) in *.
  assert (Hs : step (EStatusWake None) y1
               = Some (note OStatus (status_resume None (st y1)) (y1 <| status_waiter := false |>))).
  { simpl. by rewrite Hw, Hset. }
  destruct (xstep_turn a (EStatusWake None) x y1 _ Ha eq_refl Hs) as (x' & Hx & Ha').
  assert (Hr : status_resume None (st y1) = Done (IoResult None n)).
  { simpl. destruct (Z.ltb_spec (status_ (foldl capture (st y) nva)) 0); [lia | by rewrite Hn]. }
  rewrite Hr in Ha'. exists x'. split; [done|]. unfold get_response_resume. rewrite Ha'.
  split; [done|]. by eexists.
Qed.

(** C27 A response survives the wire, message to message: when a handler sets a
    content-length and submits a status and headers, and the client receives the header
    block nghttp2 was given, the client's suspended [get_response()] returns a
    [ClientResponse] with exactly that status (any that fits an [int]), that
    content-length (any [std::size_t], or none) and those headers, followed by the
    content-length field. *)
Theorem response_message_roundtrip r n hs rv xs f ac xc y :
  (Z.of_N n <= INT_MAX)%Z -> plain hs ->
  (forall m, rs_content_length r = Some m -> (m <= SIZE_MAX)%N) ->
  find_stream (hd_stream_id f) xc = Some ac -> heap xc !! ac = Some y ->
  content_length_ (st y) = None -> headers_ (st y) = [] -> status_waiter y = true ->
  exists nva xc',
    ng_calls (Response_submit r n hs rv xs).2 = ng_calls xs ++ [nghttp2_submit_response2
      match heap xs !! rs_writer r with Some y => id_ (st y) | None => 0%Z end nva (rs_writer r)] /\
    xstep (XTurn ac (EStatusWake None)) (receive_block f nva xc) = Some xc' /\
    (exists y', heap xc' !! ac = Some y' /\ log y' = log y ++ [OStatus (IoResult None n)]) /\
    get_response_resume ac (IoResult None n) xc'
    = IoResult None (Some (mkClientResponse n (rs_content_length r)
                             (hs ++ length_field (rs_content_length r)) ac)).
Proof.
  unfold INT_MAX. intros Hn Hh Hk Hfind Hy Hcl Hhd Hw.
  set (hs' := hs ++ length_field (rs_content_length r)).
  destruct (response_block n (rs_content_length r) hs Hh Hk) as [El Eh]. fold hs' in El, Eh.
  destruct (receive_block_changes f (response_nva n hs') xc ac Hfind) as [_ Hheap].
  specialize (Hheap ac). rewrite decide_True, Hy in Hheap by done. simpl in Hheap.
  destruct (foldl_captured (st y) (response_nva n hs')) as [_ Hch Hcl' _].
  rewrite El, Hcl in Hcl'. rewrite Eh, Hhd in Hch.
  destruct (foldl_capture_status (st y) (to_string n) hs') as [Hs Hr].
  { apply Forall_app. split; [eapply Forall_impl; [exact Hh | by intros ? [? _]]|].
    destruct (rs_content_length r); by repeat constructor. }
  fold (response_nva n hs') in Hs, Hr.
  rewrite from_chars_to_string in Hs by (unfold UINT_MAX; lia).
  cbn [fc_value default from_option id] in Hs. rewrite int_of_uint_small in Hs by (unfold INT_MAX; lia).
  destruct (get_response_wakes ac n (response_nva n hs') y _ Hheap Hw) as (x' & Hx & Hg & Hl).
  - rewrite Hr. apply event_set_is_set.
  - rewrite Hs. lia.
  - rewrite Hs, uint_of_int_small by (unfold INT_MAX; lia). lia.
  - exists (response_nva n hs'), x'. split; [|split; [done|]; split; [done|]].
    + unfold Response_submit. rewrite submit_headers_field. fold hs'. unfold submit_response.
      by destruct (negb _).
    + rewrite Hg, Hch, Hcl'. by destruct (rs_content_length r).
Qed.

End RoundTrip.

End Messages.

Module MessagesDemo.
#[local] Existing Instance capy_ref.
#[local] Existing Instance ng_ref.
Import SessionDemo.

Definition requested : list xev :=
  [XBeginHeaders (hdrs 1); XHeader (hdrs 1) ":path" "/"; XFrameRecv (hdrs 1)].
Definition bare : Session := Session_new server false.

Lemma default_response_empty_200_witness :
  exists x1 x2 y2,
    handle_request 0 0 (after_run requested bare) = Some (Answered, x1) /\
    xstep (XTurn 0 (EProduce 10)) x1 = Some x2 /\ heap x2 !! 0 = Some y2 /\
    provider_eof y2 = true.
Proof.
  destruct (xrun_new server false requested (after_run requested bare)) as (r & Hr & Hx);
    [by vm_compute|].
  destruct (default_response_empty_200 _ _ _ 0 (obj (after_run requested bare) 0) 10 Hx)
    as (x1 & x2 & x3 & y2 & y3 & f & rest & H1 & _ & H2 & H3 & _ & H4 & _);
    [by repeat constructor | by vm_compute ..|].
  exists x1, x2, y2. split; [exact H1|]. split; [exact H2|]. split; [exact H3 | exact H4].
Defined.

(** A client waits for the response to its request. *)
Definition waiting : list xev := [XSubmitRequest "/" None [] 1; XTurn 0 EStatus].
Definition cl : Session := after_run waiting (Session_new client false).

Lemma response_message_roundtrip_witness :
  exists nva xc', xstep (XTurn 0 (EStatusWake None)) (receive_block (resp 1) nva cl) = Some xc' /\
    get_response_resume 0 (IoResult None 200%N) xc'
    = IoResult None (Some (mkClientResponse 200 (Some 5%N) [("x", "y"); ("content-length", "5")] 0)).
Proof.
  destruct (response_message_roundtrip (mkResponse 0 (Some 5%N)) 200 [("x", "y")] 0 bare (resp 1) 0 cl
              (obj cl 0)) as (nva & xc' & _ & H1 & _ & H2).
  - done.
  - by repeat constructor.
  - by intros m [= <-].
  - by vm_compute.
  - by vm_compute.
  - by vm_compute.
  - by vm_compute.
  - by vm_compute.
  - exists nva, xc'. split; [exact H1 | exact H2].
Defined.

End MessagesDemo.
