(* ===== verification/Composed.v ===== *)
(** * Writing a body

    The body operations of [Response] and [ClientRequest] (session.hpp) and of [Stream]
    ([write], [write_eof()] in stream_impl.hpp): each is a coroutine that awaits
    [write_some] or [write_eof] of its stream one or several times.  capy's composed
    [write] is a parameter, with the behaviour it documents. *)

From S2P Require Import Prelude Capy Nghttp2 Stream StreamRead StreamWrite StreamSys StreamProps.
From S2P Require Import Session SessionSys SessionProps SessionHeaders Messages.

(** ** The composed [capy::write]

    A suspended call, the buffers it passes to [write_some] next ([None] once it has
    its result), what it does with the outcome of that [write_some], its result. *)

Class CapyWrite := {
  cw : Type;
  cw_start : list bytes -> cw;
  cw_next : cw -> option (list bytes);
  cw_put : io_result nat -> cw -> cw;
  cw_result : cw -> io_result nat;
}.

(** It passes on what is left, in order, at most [max_iovec_] buffers at a time; it
    returns at the first error or when nothing is left, with the number of bytes
    written.  [cw_left] observes the bytes left. *)
Class CapyWriteLaws {C : CapyOps} (W : CapyWrite) := {
  cw_left : cw -> bytes;
  cw_start_left bufs : cw_left (cw_start bufs) = concat bufs;
  cw_start_result bufs : cw_result (cw_start bufs) = IoResult None 0;
  cw_next_some w bufs : cw_next w = Some bufs ->
    length bufs <= max_iovec_ /\ concat bufs <> [] /\ concat bufs `prefix_of` cw_left w;
  cw_next_none w : cw_next w = None -> ec (cw_result w) = None -> cw_left w = [];
  cw_put_left r w bufs : cw_next w = Some bufs -> value r <= length (concat bufs) ->
    cw_left (cw_put r w) = drop (value r) (cw_left w);
  cw_put_result r w : cw_result (cw_put r w) = IoResult (ec r) (value (cw_result w) + value r);
  cw_put_error r w : is_Some (ec r) -> cw_next (cw_put r w) = None;
}.

(** An instance: all that is left, as one buffer. *)
Definition capy_write_ref : CapyWrite := {|
  cw := bytes * io_result nat;
  cw_start bufs := (concat bufs, IoResult None 0);
  cw_next w := match w with ((_ :: _) as d, IoResult None _) => Some [d] | _ => None end;
  cw_put r w := (drop (value r) w.1, IoResult (ec r) (value w.2 + value r));
  cw_result w := w.2;
|}.

#[export] Instance capy_write_ref_laws : CapyWriteLaws (C := capy_ref) capy_write_ref.
Proof.
  refine {| cw_left := (fun w => w.1) : @cw capy_write_ref -> bytes |}; simpl.
  - done.
  - done.
  - intros [[|b d] [[e|] n]] bufs [= <-]. simpl. rewrite app_nil_r. split; [unfold Ref.iovec_cap; lia|].
    by split.
  - by intros [[|b d] [[e|] n]].
  - done.
  - done.
  - intros [e n] [d r] [e' [= ->]]. cbn -[drop]. by destruct (drop n d).
Defined.

Section Composed.
Context {C : CapyOps} {G : NgConsts} {W : CapyWrite}.

(** ** The operations *)

Inductive body_op :=
| BWriteSome (bufs : list bytes)   (* write_some(buffers) *)
| BWrite (bufs : list bytes)       (* write(buffers) *)
| BWriteEofOf (bufs : list bytes)  (* write_eof(buffers) *)
| BWriteEof.                       (* write_eof() *)

(** What the frame of a suspended operation keeps. *)
Inductive wframe :=
| WSome                            (* in writer_.write_some() *)
| WLoop (fin : bool) (w : cw)      (* in capy::write(), of write_eof(buffers) if [fin] *)
| WEof (n : nat)                   (* in write_eof_({}), of write_eof(buffers) *)
| WFinal.                          (* in write_eof_({}), of write_eof() *)

(** What an operation does next: call [write_some] ([fin = false]) or [write_eof] of
    the stream, or return. *)
Inductive wnext :=
| WCall (bufs : list bytes) (fin : bool) (f : wframe)
| WReturn (r : io_result nat).

(** The composed write, and what [write_eof(buffers)] does after it. *)
Definition w_loop (fin : bool) (w : cw) : wnext :=
  match cw_next w with
  | Some bufs => WCall bufs false (WLoop fin w)
  | None =>
      if fin then
        match write_eof_buffers (cw_result w) with
        | inl r => WReturn r
        | inr n => WCall [] true (WEof n)
        end
      else WReturn (cw_result w)
  end.

Definition w_start (op : body_op) : wnext :=
  match op with
  | BWriteSome bufs => WCall bufs false WSome
  | BWrite bufs => w_loop false (cw_start bufs)
  | BWriteEofOf bufs => w_loop true (cw_start bufs)
  | BWriteEof => WCall [] true WFinal
  end.

(** The awaited operation of the stream returned [r].  [write_eof()] returns an
    [io_result<>]: no count. *)
Definition w_resume (r : io_result nat) (f : wframe) : wnext :=
  match f with
  | WSome => WReturn r
  | WLoop fin w => w_loop fin (cw_put r w)
  | WEof n => WReturn (write_eof_buffers_resume n r)
  | WFinal => WReturn (IoResult (ec (write_eof_resume r)) 0)
  end.

(** ** An operation under way on a stream *)

Inductive wstate := WAt (n : wnext) | WIn (f : wframe).

Record btask := mkBtask { bsys : sys; bst : wstate }.

(** What the turn reported of a write. *)
Definition write_result (y y' : sys) : option (io_result nat) :=
  match drop (length (log y)) (log y') with
  | [OWrite _ _ r] => Some r
  | _ => None
  end.

Definition after_write (y y' : sys) (f : wframe) : btask :=
  mkBtask y' (match write_result y y' with Some r => WAt (w_resume r f) | None => WIn f end).

Definition of_writer (e : sev) : bool :=
  match e with EWrite _ _ | EWriteWake _ => true | _ => false end.

Inductive bev :=
| BEnv (e : sev)                   (* anybody else *)
| BTurn                            (* the operation goes on *)
| BWake (wait_ec : error_code).    (* write_progress_.wait() returns *)

Definition bstep (e : bev) (b : btask) : option btask :=
  let y := bsys b in
  match e, bst b with
  | BEnv e, _ =>
      if of_writer e then None
      else match step e y with Some y' => Some (mkBtask y' (bst b)) | None => None end
  | BTurn, WAt (WCall bufs fin f) =>
      match step (EWrite (array_of bufs) fin) y with
      | Some y' => Some (after_write y y' f)
      | None => None
      end
  | BWake w, WIn f =>
      match step (EWriteWake w) y with Some y' => Some (after_write y y' f) | None => None end
  | _, _ => None
  end.

Fixpoint brun (es : list bev) (b : btask) : option btask :=
  match es with
  | [] => Some b
  | e :: es => match bstep e b with Some b => brun es b | None => None end
  end.

Definition b_start (op : body_op) (y : sys) : btask := mkBtask y (WAt (w_start op)).

(** The bytes an operation is to write. *)
Definition body (op : body_op) : bytes :=
  match op with
  | BWriteSome bufs => array_bytes (array_of bufs)
  | BWrite bufs | BWriteEofOf bufs => concat bufs
  | BWriteEof => []
  end.

(** Whether it ends the body. *)
Definition ends (op : body_op) : bool :=
  match op with BWriteEofOf _ | BWriteEof => true | _ => false end.

End Composed.

(** ** Properties *)

Section ComposedProps.
Context {C : CapyOps} {L : CapyLaws C} {G : NgConsts} {GL : NgLaws G}.
Context {W : CapyWrite} {WL : CapyWriteLaws W}.

(** *** Turns of a stream, as a write sees them *)

Lemma env_frame e y y' :
  of_writer e = false -> step e y = Some y' ->
  writer y' = writer y /\ reported (log y') = reported (log y).
Proof.
  intros He H. destruct e as [m|d| | |p|w|a fin|w|len|n| |w]; try done; simpl in H; unfold note in H;
    break; simplify_eq; simpl; autorewrite with stream_log; done.
Qed.

(** A call of [write_impl]: refused on a closed stream, otherwise suspended. *)
Lemma call_turn a fin y y' :
  step (EWrite a fin) y = Some y' ->
  writer y = None /\ reported (log y') = reported (log y) /\ closed_ (st y') = closed_ (st y) /\
  if closed_ (st y)
  then write_result y y' = Some (IoResult (Some eof) 0) /\ writer y' = None
  else write_result y y' = None /\ writer y' = Some (a, fin).
Proof.
  cbn [step]. destruct (writer y) eqn:Ew; [done|]. unfold write_impl, write_result.
  destruct (closed_ (st y)) eqn:Ec; intros [= <-]; simpl.
  - rewrite drop_app_length. by autorewrite with stream_log.
  - by rewrite drop_all.
Qed.

(** A return of [write_impl]. *)
Lemma wake_turn w a fin y y' :
  sys_write_inv y -> writer y = Some (a, fin) -> step (EWriteWake w) y = Some y' ->
  exists n, n = write_offset_ (st y) /\ n <= length (array_bytes a) /\
    write_result y y' = Some (IoResult w n) /\
    writer y' = None /\ reported (log y') = reported (log y) ++ take n (array_bytes a) /\
    closed_ (st y') = closed_ (st y) /\ provider_eof y' = provider_eof y /\
    (w = None -> fin = true -> closed_ (st y) = false -> provider_eof y = true).
Proof.
  intros Hi Hw. destruct (sw_wr _ Hi) as [_ _ Hf _ Hs]. cbn [step]. rewrite Hw.
  destruct (completes w (write_progress_ (st y))) eqn:Ec; [|done]. intros [= <-].
  destruct (Hf a fin Hw) as (_ & _ & Hle & _). exists (write_offset_ (st y)).
  unfold write_result. simpl. rewrite drop_app_length. autorewrite with stream_log.
  repeat (split; [done|]). intros -> -> Hc. by destruct (Hs a true Hw Hc Ec) as [_ [_ ?]].
Qed.

(** *** The invariant of an operation *)

Definition whole (op : body_op) : bool := match op with BWriteSome _ => false | _ => true end.

(** [sent] has been written; the frame [f] awaits a write of [bufs]. *)
Definition frame_ok (op : body_op) (sent : bytes) (bufs : list bytes) (fin : bool) (f : wframe) : Prop :=
  match f with
  | WSome => op = BWriteSome bufs /\ fin = false /\ sent = []
  | WLoop e w => whole op = true /\ e = ends op /\ fin = false /\ cw_next w = Some bufs /\
      sent ++ cw_left w = body op /\ value (cw_result w) = length sent
  | WEof n => bufs = [] /\ fin = true /\ ends op = true /\ sent = body op /\ n = length (body op)
  | WFinal => bufs = [] /\ fin = true /\ op = BWriteEof /\ sent = []
  end.

Definition return_ok (op : body_op) (sent : bytes) (y : sys) (r : io_result nat) : Prop :=
  sent = take (value r) (body op) /\ value r <= length (body op) /\
  (ec r = None -> whole op = true -> value r = length (body op)) /\
  (ec r = None -> ends op = true -> closed_ (st y) = false -> provider_eof y = true).

Definition next_ok (op : body_op) (sent : bytes) (y : sys) (n : wnext) : Prop :=
  match n with
  | WCall bufs fin f => frame_ok op sent bufs fin f
  | WReturn r => return_ok op sent y r
  end.

Definition binv (base : bytes) (op : body_op) (b : btask) : Prop :=
  let y := bsys b in
  sys_write_inv y /\ exists sent, reported (log y) = base ++ sent /\
  match bst b with
  | WAt n => writer y = None /\ next_ok op sent y n
  | WIn f => exists bufs fin, writer y = Some (array_of bufs, fin) /\ frame_ok op sent bufs fin f
  end.

(** The composed write, wherever it stands. *)
Lemma loop_ok op sent y w :
  whole op = true -> sent ++ cw_left w = body op -> value (cw_result w) = length sent ->
  next_ok op sent y (w_loop (ends op) w).
Proof.
  intros Hw Hb Hv. unfold w_loop. destruct (cw_next w) as [bufs|] eqn:En; [by repeat split|].
  pose proof (cw_next_none w En) as Hn. destruct (cw_result w) as [r v]. simpl in *.
  assert (Hret : sent = take v (body op) /\ v <= length (body op) /\
                 (r = None -> v = length (body op))).
  { rewrite <-Hb, Hv, take_app_length, length_app. split; [done|]. split; [lia|].
    intros ->. rewrite Hn by done. simpl. lia. }
  destruct Hret as (H1 & H2 & H3). destruct (ends op) eqn:Ee.
  - unfold write_eof_buffers. simpl. destruct r as [r|]; simpl; [by repeat split|].
    rewrite Hn, app_nil_r in Hb by done. repeat split; auto.
  - simpl. unfold return_ok. simpl. rewrite Ee. by repeat split; auto.
Qed.

Lemma start_ok op y : next_ok op [] y (w_start op).
Proof.
  destruct op as [bufs|bufs|bufs|]; simpl; try by repeat split.
  - apply (loop_ok (BWrite bufs)); [done | by rewrite cw_start_left | by rewrite cw_start_result].
  - apply (loop_ok (BWriteEofOf bufs)); [done | by rewrite cw_start_left | by rewrite cw_start_result].
Qed.

(** A write of [bufs] that returned [r], [value r] bytes having gone out. *)
Lemma resume_ok op sent bufs fin f y r :
  frame_ok op sent bufs fin f -> value r <= length (array_bytes (array_of bufs)) ->
  (ec r = None -> fin = true -> closed_ (st y) = false -> provider_eof y = true) ->
  next_ok op (sent ++ take (value r) (array_bytes (array_of bufs))) y (w_resume r f).
Proof.
  intros Hf Hle He. destruct f as [|e w|n|]; simpl in Hf.
  - destruct Hf as (-> & -> & ->). simpl. by repeat split.
  - destruct Hf as (Hw & -> & -> & En & Hb & Hv).
    destruct (cw_next_some _ _ En) as (Hlen & _ & [k Hk]).
    rewrite array_bytes_of in * by done. simpl. apply loop_ok; [done|..].
    + rewrite (cw_put_left _ _ _ En Hle), <-Hb, <-app_assoc. f_equal.
      rewrite <-(take_drop (value r) (cw_left w)) at 2. f_equal.
      rewrite Hk, take_app_le by done. done.
    + rewrite cw_put_result, length_app, length_take. simpl. lia.
  - destruct Hf as (-> & -> & Hend & -> & ->).
    rewrite array_bytes_of by (simpl; lia). simpl. rewrite take_nil, app_nil_r.
    unfold return_ok. simpl. rewrite take_ge by done. by repeat split; auto.
  - destruct Hf as (-> & -> & -> & ->).
    rewrite array_bytes_of by (simpl; lia). simpl. rewrite take_nil. unfold return_ok. simpl.
    by repeat split; auto.
Qed.

Lemma binv_step base op e b b' : binv base op b -> bstep e b = Some b' -> binv base op b'.
Proof.
  intros (Hi & sent & Hr & Hst) Hs. destruct e as [e| |w]; cbn [bstep] in Hs.
  - destruct (of_writer e) eqn:Eo; [done|]. destruct (step e (bsys b)) as [y'|] eqn:Es; [|done].
    injection Hs as <-. destruct (env_frame _ _ _ Eo Es) as [Hw Hrep].
    split; [by apply (sys_write_inv_step e (bsys b))|]. exists sent. simpl. rewrite Hrep, Hw.
    split; [done|]. destruct (bst b) as [[bufs fin f|r]|f]; [done| |done].
    destruct Hst as (? & H1 & H2 & H3 & H4). split; [done|]. repeat split; try done.
    intros Hec Hend Hc. apply (step_provider_eof e (bsys b)); [done|]. apply H4; try done.
    destruct (closed_ (st (bsys b))) eqn:Ec; [|done].
    by rewrite (step_closed e _ _ Es Ec) in Hc.
  - destruct (bst b) as [[bufs fin f|]|]; try done. destruct Hst as [Hw Hf].
    destruct (step _ (bsys b)) as [y'|] eqn:Es; [|done]. injection Hs as <-.
    destruct (call_turn _ _ _ _ Es) as (_ & Hrep & Hcl & Hif).
    split; [by eapply sys_write_inv_step|]. exists sent. simpl. rewrite Hrep. split; [done|].
    unfold after_write; simpl. destruct (closed_ (st (bsys b))) eqn:Ec.
    + destruct Hif as [-> ->]. split; [done|]. rewrite <-(app_nil_r sent).
      by apply (resume_ok op sent bufs fin f y' (IoResult (Some eof) 0)); [|simpl; lia|].
    + destruct Hif as [-> ->]. by exists bufs, fin.
  - destruct (bst b) as [|f]; [done|]. destruct Hst as (bufs & fin & Hw & Hf).
    destruct (step _ (bsys b)) as [y'|] eqn:Es; [|done]. injection Hs as <-.
    destruct (wake_turn _ _ _ _ _ Hi Hw Es) as (n & _ & Hle & Hres & Hw' & Hrep & Hcl & Hpe & He).
    split; [by eapply sys_write_inv_step|].
    exists (sent ++ take n (array_bytes (array_of bufs))). simpl.
    rewrite Hrep, Hr, <-app_assoc. split; [done|].
    unfold after_write; simpl. rewrite Hres. split; [done|].
    apply (resume_ok op sent bufs fin f y' (IoResult w n)); [done | done |].
    simpl. rewrite Hpe, Hcl. auto.
Qed.

Lemma binv_run base op es b b' : binv base op b -> brun es b = Some b' -> binv base op b'.
Proof.
  revert b; induction es as [|e es IH]; intros b Hi Hr; simpl in Hr; [by injection Hr as <-|].
  destruct (bstep e b) as [b1|] eqn:E; [|done]. apply (IH b1); [by apply (binv_step base op e b) | done].
Qed.

Lemma binv_start op y : sys_write_inv y -> writer y = None -> binv (reported (log y)) op (b_start op y).
Proof.
  intros Hi Hw. split; [done|]. exists []. rewrite app_nil_r. split; [done|]. simpl.
  split; [done | apply start_ok].
Qed.

(** C17 Body operations tell the truth: when [write_some], [write], [write_eof(buffers)]
    or [write_eof()] of a message returns, whatever happened on the stream meanwhile,
    nghttp2 has pulled exactly as many leading bytes of the buffers as it reports, in
    order and with nothing in between; without an error [write] and both [write_eof] have
    had all of them pulled ([write_some] may return with fewer), and if the stream is not
    closed at the return, nghttp2 was told of the end of the body by the operations that
    end it (on a stream that closes they may not have been, [write_eof_lost_on_close]). *)
Theorem body_write_exact pre id evs y op es b r :
  reach pre id evs y -> writer y = None ->
  brun es (b_start op y) = Some b -> bst b = WAt (WReturn r) ->
  value r <= length (body op) /\
  pulled (log (bsys b)) = pulled (log y) ++ take (value r) (body op) /\
  (ec r = None -> whole op = true -> value r = length (body op)) /\
  (ec r = None -> ends op = true -> closed_ (st (bsys b)) = false -> provider_eof (bsys b) = true).
Proof.
  intros Hreach Hw Hrun Hb. pose proof (reach_write_inv _ _ _ _ Hreach) as Hi.
  destruct (binv_run _ _ _ _ _ (binv_start op y Hi Hw) Hrun) as (Hi' & sent & Hrep & Hst).
  rewrite Hb in Hst. destruct Hst as (Hw' & Hsent & Hle & Hall & Hend).
  split; [done|]. split; [|done].
  rewrite (sw_bytes _ Hi'), (sw_bytes _ Hi), Hw, Hw', Hrep, Hsent. simpl. by rewrite !app_nil_r.
Qed.

(** *** Completion *)

(** A write offered to nghttp2. *)
Lemma offer_turn a fin y :
  sys_write_inv y -> writer y = None -> closed_ (st y) = false ->
  exists y', step (EWrite a fin) y = Some y' /\ write_pending_ (st y') = true /\
    provider_eof y' = provider_eof y.
Proof.
  intros Hi Hw Hc. cbn [step]. rewrite Hw. unfold write_impl. rewrite Hc. by eexists.
Qed.

(** A pull that finishes a [write_some], or an empty [write_eof]. *)
Lemma last_pull a fin len y :
  sys_write_inv y -> writer y = Some (a, fin) -> write_pending_ (st y) = true ->
  provider_eof y = false -> (fin = true -> array_bytes a = []) ->
  exists y', step (EProduce len) y = Some y' /\ write_pending_ (st y') = false /\
    closed_ (st y') = closed_ (st y) /\ provider_eof y' = fin /\
    (0 < len -> array_bytes a <> [] -> 0 < write_offset_ (st y')).
Proof.
  intros Hi Hw Hp He Hfin. pose proof (sw_wr _ Hi) as Hinv.
  destruct (wi_pending _ _ _ _ Hinv Hp) as [_ Hd].
  pose proof (wi_deferred _ _ _ _ Hinv) as Hd'. rewrite Hd in Hd'.
  destruct (wi_frame _ _ _ _ Hinv a fin Hw) as (Ha & Hf & Hle & Hcur).
  cbn [step]. rewrite Hd', He. cbn [orb].
  rewrite producer_busy by done. cbn zeta. set (buf := cursor_copy len _).
  assert (Hdone : finishes len (st y) = true).
  { unfold finishes. fold buf. rewrite Ha, Hf, byte_size_bytes.
    destruct fin; [|apply orb_true_r]. rewrite Hfin in * by done. simpl in Hle.
    destruct (cursor_copy_prefix len (pending_cursor_ (st y))) as [k Hk]. fold buf in Hk.
    rewrite Hcur, drop_nil in Hk. symmetry in Hk. apply app_nil in Hk as [-> _].
    simpl. by replace (write_offset_ (st y)) with 0 by lia. }
  rewrite Hdone, Hf. eexists. split; [done|]. simpl.
  split; [done|]. split; [done|]. split; [destruct fin; [apply has_eof_lor | done]|].
  intros Hl Hne. destruct (decide (write_offset_ (st y) = 0)) as [Ho|]; [|lia].
  rewrite Ho, drop_0 in Hcur.
  pose proof (cursor_copy_progress len (pending_cursor_ (st y)) Hl) as Hpr.
  rewrite Hcur in Hpr. specialize (Hpr Hne). fold buf in Hpr. destruct buf; simpl; [done|lia].
Qed.

(** One write of the stream, served by one pull. *)
Lemma write_round a fin len y :
  sys_write_inv y -> writer y = None -> closed_ (st y) = false -> provider_eof y = false ->
  (fin = true -> array_bytes a = []) ->
  exists y1 y2 y3 n, step (EWrite a fin) y = Some y1 /\ step (EProduce len) y1 = Some y2 /\
    step (EWriteWake None) y2 = Some y3 /\ write_result y y1 = None /\
    write_result y2 y3 = Some (IoResult None n) /\ n <= length (array_bytes a) /\
    (0 < len -> array_bytes a <> [] -> 0 < n) /\
    closed_ (st y3) = false /\ provider_eof y3 = fin.
Proof.
  intros Hi Hw Hc He Hfin.
  destruct (offer_turn a fin y Hi Hw Hc) as (y1 & S1 & Hp1 & He1).
  destruct (call_turn _ _ _ _ S1) as (_ & _ & Hc1 & Hif). rewrite Hc in Hc1, Hif.
  destruct Hif as [R1 Hw1]. pose proof (sys_write_inv_step _ _ _ S1 Hi) as Hi1.
  destruct (last_pull a fin len y1 Hi1 Hw1 Hp1) as (y2 & S2 & Hp2 & Hc2 & He2 & Hpos);
    [congruence | done |].
  pose proof (sys_write_inv_step _ _ _ S2 Hi1) as Hi2.
  destruct (env_frame (EProduce len) _ _ eq_refl S2) as [Hw2 _]. rewrite Hw1 in Hw2.
  assert (S3 : is_Some (step (EWriteWake None) y2)).
  { cbn [step]. rewrite Hw2. simpl.
    rewrite (wi_wake _ _ _ _ (sw_wr _ Hi2)); [by eexists | by rewrite Hw2 | done]. }
  destruct S3 as [y3 S3].
  destruct (wake_turn _ _ _ _ _ Hi2 Hw2 S3) as (n & -> & Hle & R3 & _ & _ & Hc3 & He3 & _).
  exists y1, y2, y3, (write_offset_ (st y2)). repeat (split; [done|]).
  split; congruence.
Qed.

(** The same, for an operation under way. *)
Definition round_of (len : nat) : list bev := [BTurn; BEnv (EProduce len); BWake None].

Lemma op_round base op b bufs fin f len :
  binv base op b -> bst b = WAt (WCall bufs fin f) ->
  closed_ (st (bsys b)) = false -> provider_eof (bsys b) = false -> (fin = true -> bufs = []) ->
  exists b' n, brun (round_of len) b = Some b' /\ bst b' = WAt (w_resume (IoResult None n) f) /\
    n <= length (array_bytes (array_of bufs)) /\
    (0 < len -> array_bytes (array_of bufs) <> [] -> 0 < n) /\
    closed_ (st (bsys b')) = false /\ provider_eof (bsys b') = fin.
Proof.
  intros (Hi & sent & _ & Hst) Hb Hc He Hfin. rewrite Hb in Hst. destruct Hst as [Hw _].
  destruct (write_round (array_of bufs) fin len (bsys b) Hi Hw Hc He)
    as (y1 & y2 & y3 & n & S1 & S2 & S3 & R1 & R3 & Hle & Hpos & Hc3 & He3).
  { intros E. rewrite (Hfin E), array_bytes_of; [done | simpl; lia]. }
  exists (mkBtask y3 (WAt (w_resume (IoResult None n) f))), n.
  split; [|done]. unfold round_of. cbn [brun bstep]. rewrite Hb, S1.
  unfold after_write. rewrite R1. cbn [bst bsys of_writer]. rewrite S2. cbn [bst bsys].
  by rewrite S3, R3.
Qed.

Lemma brun_app es es' b :
  brun (es ++ es') b = match brun es b with Some b => brun es' b | None => None end.
Proof.
  revert b; induction es as [|e es IH]; intros b; simpl; [done|].
  destruct (bstep e b); [apply IH | done].
Qed.

(** [k] rounds bring the operation to its successful return. *)
Definition finishes_in (len k : nat) (op : body_op) (b : btask) : Prop :=
  exists b', brun (concat (repeat (round_of len) k)) b = Some b' /\
    bst b' = WAt (WReturn (IoResult None (length (body op)))).

Lemma finishes_more len k op b b1 :
  brun (round_of len) b = Some b1 -> finishes_in len k op b1 -> finishes_in len (S k) op b.
Proof.
  intros H (b' & Hr & Hb). exists b'. cbn [repeat concat]. by rewrite brun_app, H.
Qed.

Lemma loop_finishes m base op b w len :
  0 < len -> binv base op b -> bst b = WAt (w_loop (ends op) w) ->
  closed_ (st (bsys b)) = false -> provider_eof (bsys b) = false ->
  length (cw_left w) <= m -> ec (cw_result w) = None ->
  value (cw_result w) + length (cw_left w) = length (body op) ->
  exists k, k <= m + 1 /\ finishes_in len k op b.
Proof.
  intros Hlen. revert b w; induction m as [|m IH]; intros b w Hi Hb Hc He Hm Hec Hv;
    pose proof Hb as Hb'; unfold w_loop in Hb'; destruct (cw_next w) as [bufs|] eqn:En.
  - destruct (cw_next_some _ _ En) as (_ & Hne & [k Hk]). rewrite Hk, length_app in Hm.
    destruct (concat bufs); simpl in *; [done|lia].
  - assert (Hr : cw_result w = IoResult None (length (body op))).
    { destruct (cw_result w) as [r v]. simpl in *. subst r. f_equal. lia. }
    rewrite Hr in Hb'. destruct (ends op) eqn:Ee; simpl in Hb'.
    + destruct (op_round base op b [] true _ len Hi Hb' Hc He) as (b1 & n & Hrun & Hst & _); [done|].
      exists 1. split; [lia|]. apply (finishes_more _ _ _ _ b1 Hrun). by exists b1.
    + exists 0. split; [lia|]. by exists b.
  - destruct (cw_next_some _ _ En) as (Hmax & Hne & [k' Hk]).
    destruct (op_round base op b bufs false _ len Hi Hb' Hc He) as
      (b1 & n & Hrun & Hst & Hn & Hpos & Hc1 & He1); [done|].
    rewrite array_bytes_of in * by done. specialize (Hpos Hlen Hne). simpl in Hst.
    pose proof (cw_put_left (IoResult None n) w bufs En Hn) as Hl. simpl in Hl.
    destruct (IH b1 (cw_put (IoResult None n) w)) as (k & Hk' & Hfin);
      rewrite ?Hl, ?cw_put_result, ?length_drop; simpl; try done.
    + by apply (binv_run base op (round_of len) b).
    + lia.
    + rewrite Hk, length_app in *. lia.
    + exists (S k). split; [lia|]. by apply (finishes_more _ _ _ _ b1).
  - destruct (IH b w Hi Hb Hc He) as (k & Hk & Hfin); [|done|done|exists k; split; [lia|done]].
    rewrite (cw_next_none w En Hec). simpl. lia.
Qed.

(** C18 Body operations finish: on an open stream whose body has not ended, a [write],
    [write_eof(buffers)] or [write_eof()] returns success once nghttp2 has pulled as
    often as there are bytes to write (once more for the end of the body), whatever
    the (positive) size it asks for. *)
Theorem body_write_completes pre id evs y op len :
  reach pre id evs y -> writer y = None -> closed_ (st y) = false -> provider_eof y = false ->
  whole op = true -> 0 < len ->
  exists k b, k <= length (body op) + 1 /\
    brun (concat (repeat (round_of len) k)) (b_start op y) = Some b /\
    bst b = WAt (WReturn (IoResult None (length (body op)))).
Proof.
  intros Hr Hw Hc He Hwh Hlen.
  pose proof (binv_start op y (reach_write_inv _ _ _ _ Hr) Hw) as Hi.
  assert (Hfin : exists k, k <= length (body op) + 1 /\ finishes_in len k op (b_start op y)).
  { destruct op as [bufs|bufs|bufs|]; [done|..].
    - apply (loop_finishes _ _ _ _ (cw_start bufs) len Hlen Hi); simpl;
        rewrite ?cw_start_left, ?cw_start_result; (done || lia).
    - apply (loop_finishes _ _ _ _ (cw_start bufs) len Hlen Hi); simpl;
        rewrite ?cw_start_left, ?cw_start_result; (done || lia).
    - destruct (op_round _ _ (b_start BWriteEof y) [] true WFinal len Hi eq_refl Hc He)
        as (b1 & n & Hrun & Hst & _); [done|].
      exists 1. split; [done|]. apply (finishes_more _ _ _ _ b1 Hrun). by exists b1. }
  destruct Hfin as (k & Hk & b & Hrun & Hb). by exists k, b.
Qed.

End ComposedProps.

(** ** Concrete runs *)

Module ComposedDemo.
#[local] Existing Instance capy_ref.
#[local] Existing Instance ng_ref.
#[local] Existing Instance capy_write_ref.

Definition fresh : sys := sys_new (fun _ => "server.1") 1.
Definition bufs : list bytes := [bytes_of "ab"; bytes_of "cde"].

(** [write_eof(buffers)] served by pulls of two, one and many bytes. *)
Definition served : list bev :=
  [BTurn; BEnv (EProduce 2); BWake None; BTurn; BEnv (EProduce 1); BWake None;
   BTurn; BEnv (EProduce 10); BWake None; BTurn; BEnv (EProduce 10); BWake None].
Definition served_b : btask :=
  default (b_start (BWriteEofOf bufs) fresh) (brun served (b_start (BWriteEofOf bufs) fresh)).

Lemma body_write_exact_witness :
  bst served_b = WAt (WReturn (IoResult None 5)) /\
  pulled (log (bsys served_b)) = bytes_of "abcde" /\ provider_eof (bsys served_b) = true.
Proof.
  assert (Hb : bst served_b = WAt (WReturn (IoResult None 5))) by by vm_compute.
  destruct (body_write_exact (fun _ => "server.1") 1 [] fresh (BWriteEofOf bufs) served served_b
              (IoResult None 5)) as (_ & Hp & _ & He).
  - constructor.
  - done.
  - by vm_compute.
  - exact Hb.
  - split; [exact Hb|]. split; [rewrite Hp; by vm_compute|]. apply He; by vm_compute.
Defined.

Lemma body_write_completes_witness :
  exists k b, k <= 6 /\ brun (concat (repeat (round_of 2) k)) (b_start (BWriteEofOf bufs) fresh) = Some b /\
    bst b = WAt (WReturn (IoResult None 5)).
Proof.
  apply (body_write_completes (fun _ => "server.1") 1 [] fresh (BWriteEofOf bufs) 2);
    try done; [constructor | lia].
Defined.

End ComposedDemo.
