(* ===== verification/Echo.v ===== *)
(** * The echo programs

    [echo] / [echo_handler] (echo_handler.cpp), the request handler of the server
    program, and [echo_session] (main.cpp), the plain TCP echo.  Each is a coroutine
    that awaits one operation at a time: its state is where it is suspended, a turn is
    the completion of the operation it awaits, and the operations it starts are
    observed. *)

From S2P Require Import Prelude Capy Nghttp2 Charconv Stream Session SessionHeaders Messages.
From S2P Require Import Log Endpoints.

(** ** [echo] *)

(** Operations on the response, in the order they are started. *)
Inductive act :=
| Submit (status : N) (headers : Headers)
| WriteBody (data : bytes)
| WriteEof.

(** Where [echo] is suspended, or what it returned. *)
Inductive echo_pc :=
| EagerSubmit                (* in the up-front submit() *)
| Reading                    (* in request.read_some() *)
| FirstSubmit (data : bytes) (* in submit(), with the first chunk read *)
| Writing (data : bytes)     (* in response.write() *)
| LastSubmit                 (* in submit() after the body *)
| Ending                     (* in response.write_eof() *)
| Returned (r : error_code).

Record echo_state := mkEcho {
  pc : echo_pc;
  submitted : bool;
  response : Response;
  acts : list act;           (* observed *)
  got : bytes;               (* observed: bytes read *)
}.

#[export] Instance echo_eta : Eta echo_state := {| eta := fun s =>
  mkEcho (pc s) (submitted s) (response s) (acts s) (got s) |}.

(** [response.submit()]: status 200, no headers but the content-length. *)
Definition do_submit (next : echo_pc) (s : echo_state) : echo_state :=
  s <| pc := next |> <| acts := acts s ++ [Submit 200 (submit_headers (response s) [])] |>.

Definition do_write (data : bytes) (s : echo_state) : echo_state :=
  s <| pc := Writing data |> <| acts := acts s ++ [WriteBody data] |>.

Definition do_write_eof (s : echo_state) : echo_state :=
  s <| pc := Ending |> <| acts := acts s ++ [WriteEof] |>.

(** The call, up to the first suspension. *)
Definition echo (request : Request) (r : Response) : echo_state :=
  let s := mkEcho Reading false (Response_content_length (rq_content_length request) r) [] [] in
  if has_header "x-eager-submit" (rq_headers request) then do_submit EagerSubmit s else s.

(** After the read loop. *)
Definition after_body (s : echo_state) : echo_state :=
  if submitted s then do_write_eof s else do_submit LastSubmit s.

(** Completions of the operation awaited. *)
Inductive echo_ev :=
| Submitted (ec : error_code)
| Read_ (ec : error_code) (data : bytes)   (* the first n bytes of the buffer *)
| Written (ec : error_code) (n : nat)
| Ended (ec : error_code).

Definition echo_step (e : echo_ev) (s : echo_state) : option echo_state :=
  match e, pc s with
  | Submitted (Some r), (EagerSubmit | FirstSubmit _ | LastSubmit) =>
      Some (s <| pc := Returned (Some r) |>)
  | Submitted None, EagerSubmit => Some (s <| submitted := true |> <| pc := Reading |>)
  | Submitted None, FirstSubmit data => Some (do_write data (s <| submitted := true |>))
  | Submitted None, LastSubmit => Some (do_write_eof s)
  | Read_ (Some _) _, Reading => Some (after_body s)
  | Read_ None data, Reading =>
      let s := s <| got := got s ++ data |> in
      if negb (submitted s) then Some (do_submit (FirstSubmit data) s)
      else Some (do_write data s)
  | Written (Some _) _, Writing _ => Some (after_body s)
  | Written None _, Writing _ => Some (s <| pc := Reading |>)
  | Ended r, Ending => Some (s <| pc := Returned r |>)
  | _, _ => None
  end.

Fixpoint echo_run (evs : list echo_ev) (s : echo_state) : option echo_state :=
  match evs with
  | [] => Some s
  | e :: evs => match echo_step e s with Some s => echo_run evs s | None => None end
  end.

(** [echo_handler]: whether it logs a warning. *)
Definition echo_handler_logs (r : error_code) : bool :=
  match r with Some _ => true | None => false end.

(** ** What [echo] does to its response *)

(** The response so far: the one [submit()], chunks that make up the bytes [sent], and
    whether the body was ended. *)
Definition shape (cl : option N) (sent : bytes) (ended : bool) (l : list act) : Prop :=
  exists chunks, concat chunks = sent /\
    l = Submit 200 (length_field cl) :: map WriteBody chunks ++ (if ended then [WriteEof] else []).

Definition echo_inv (cl : option N) (s : echo_state) : Prop :=
  rs_content_length (response s) = cl /\
  match pc s with
  | EagerSubmit | LastSubmit => got s = [] /\ shape cl [] false (acts s)
  | Reading => if submitted s then shape cl (got s) false (acts s) else got s = [] /\ acts s = []
  | FirstSubmit d => got s = d /\ shape cl [] false (acts s)
  | Writing _ => submitted s = true /\ shape cl (got s) false (acts s)
  | Ending | Returned None => shape cl (got s) true (acts s)
  | Returned (Some _) => exists sent ended, sent `prefix_of` got s /\ shape cl sent ended (acts s)
  end.

Lemma shape_first cl r :
  rs_content_length r = cl -> shape cl [] false [Submit 200 (submit_headers r [])].
Proof. intros <-. exists []. unfold submit_headers. by destruct (rs_content_length r). Qed.

Lemma shape_write cl sent d l : shape cl sent false l -> shape cl (sent ++ d) false (l ++ [WriteBody d]).
Proof.
  intros (chunks & <- & ->). exists (chunks ++ [d]).
  rewrite concat_app, map_app. simpl. by rewrite !app_nil_r.
Qed.

Lemma shape_end cl sent l : shape cl sent false l -> shape cl sent true (l ++ [WriteEof]).
Proof. intros (chunks & <- & ->). exists chunks. simpl. by rewrite app_nil_r. Qed.

Lemma echo_inv_start rq r : echo_inv (rq_content_length rq) (echo rq r).
Proof.
  unfold echo, echo_inv. destruct (has_header _ _); simpl; [|done].
  split; [done|]. repeat split. by apply shape_first.
Qed.

Lemma after_body_inv cl s :
  rs_content_length (response s) = cl ->
  (if submitted s then shape cl (got s) false (acts s) else got s = [] /\ acts s = []) ->
  echo_inv cl (after_body s).
Proof.
  intros Hc H. unfold after_body, echo_inv. destruct (submitted s); simpl.
  - split; [done|]. by apply shape_end.
  - destruct H as (-> & ->). split; [done|]. split; [done|]. by apply shape_first.
Qed.

Lemma echo_inv_step cl e s s' : echo_inv cl s -> echo_step e s = Some s' -> echo_inv cl s'.
Proof.
  intros [Hc Hp] Hs. unfold echo_step in Hs.
  destruct e as [[r|]|[r|] d|[r|] n|r], (pc s) as [| |d'|d'| | |r'] eqn:Ep; try done;
    try (injection Hs as <-).
  - split; [done|]. simpl. destruct Hp as [_ Hp]. eexists _, false. split; [apply prefix_nil | exact Hp].
  - split; [done|]. simpl. destruct Hp as [_ Hp]. eexists _, false. split; [apply prefix_nil | exact Hp].
  - split; [done|]. simpl. destruct Hp as [_ Hp]. eexists _, false. split; [apply prefix_nil | exact Hp].
  - split; [done|]. simpl. by destruct Hp as [-> ?].
  - split; [done|]. simpl. destruct Hp as [-> Hp]. split; [done|]. by apply (shape_write cl []).
  - split; [done|]. simpl. destruct Hp as [-> Hp]. by apply shape_end.
  - by apply after_body_inv.
  - simpl in Hs. destruct (submitted s) eqn:Es; simpl in Hs; injection Hs as <-;
      (split; [done|]); simpl.
    + split; [done|]. by apply shape_write.
    + destruct Hp as [-> ->]. split; [done|]. by apply shape_first.
  - apply after_body_inv; [done|]. by destruct Hp as [-> ?].
  - split; [done|]. simpl. by destruct Hp as [-> ?].
  - split; [done|]. simpl. destruct r as [r|]; [|done]. by exists (got s), true.
Qed.

Lemma echo_inv_run cl evs s s' : echo_inv cl s -> echo_run evs s = Some s' -> echo_inv cl s'.
Proof.
  revert s; induction evs as [|e evs IH]; intros s Hi; simpl; [by intros [= <-]|].
  destruct (echo_step e s) as [s1|] eqn:E; [|done]. apply IH. by apply (echo_inv_step cl e s).
Qed.

(** The echo handler echoes: whatever the order and outcome of the operations it
    awaits, when it returns success it has submitted exactly one response, status 200
    with the request's content-length if there was one, then written exactly the bytes
    it read, in order, and then ended the body, once; when it returns an error, the
    bytes it passed on are a prefix of those it read.  And it does return: the end of
    the request body (or a read error) takes it, through a submit if there was none
    yet, to the end of the response, whose result it returns. *)
Theorem echo_faithful rq r evs s :
  echo_run evs (echo rq r) = Some s ->
  (forall res, pc s = Returned res ->
   exists (chunks : list bytes) (ended : bool),
    acts s = Submit 200 (length_field (rq_content_length rq)) :: map WriteBody chunks
             ++ (if ended then [WriteEof] else []) /\
    concat chunks `prefix_of` got s /\
    (res = None -> ended = true /\ concat chunks = got s)) /\
  (forall e d res, pc s = Reading ->
   exists s', echo_run ([Read_ (Some e) d] ++ (if submitted s then [] else [Submitted None])
                        ++ [Ended res]) s = Some s' /\ pc s' = Returned res).
Proof.
  intros Hr. destruct (echo_inv_run _ _ _ _ (echo_inv_start rq r) Hr) as [_ Hi].
  split; [intros [e|] Hp | intros e d res Hp].
  - rewrite Hp in Hi. destruct Hi as (sent & ended & Hpre & chunks & <- & ->).
    by exists chunks, ended.
  - rewrite Hp in Hi. destruct Hi as (chunks & Hc & ->). exists chunks, true. by rewrite Hc.
  - cbn [app echo_run]. unfold echo_step at 1. rewrite Hp. unfold after_body.
    destruct (submitted s); simpl; by eexists.
Qed.

(** ** The TCP echo of main.cpp *)

Inductive tcp_pc := TReading | TWriting (data : bytes) | TDone.

Record tcp_state := mkTcp { tpc : tcp_pc; total_bytes : N; twrote : bytes; tgot : bytes }.

#[export] Instance tcp_eta : Eta tcp_state := {| eta := fun s =>
  mkTcp (tpc s) (total_bytes s) (twrote s) (tgot s) |}.

Inductive tcp_ev :=
| TRead (ec : error_code) (data : bytes)
| TWrote (ec : error_code) (n : nat).

(** [char buf[1024]]. *)
Definition tcp_buffer : nat := 1024.

Definition echo_session : tcp_state := mkTcp TReading 0 [] [].

(** [capy::write] reports all bytes unless it fails. *)
Definition tcp_step (e : tcp_ev) (s : tcp_state) : option tcp_state :=
  match e, tpc s with
  | TRead (Some _) _, TReading => Some (s <| tpc := TDone |>)
  | TRead None data, TReading =>
      if length data <=? tcp_buffer
      then Some (s <| tpc := TWriting data |> <| tgot := tgot s ++ data |>) else None
  | TWrote (Some _) n, TWriting data =>
      Some (s <| tpc := TDone |> <| twrote := twrote s ++ take n data |>)
  | TWrote None n, TWriting data =>
      if n =? length data
      then Some (s <| tpc := TReading |> <| twrote := twrote s ++ data |>
                   <| total_bytes := ((total_bytes s + N.of_nat n) mod (SIZE_MAX + 1))%N |>)
      else None
  | _, _ => None
  end.

Inductive tcp_reach : tcp_state -> Prop :=
| tcp_start : tcp_reach echo_session
| tcp_more s e s' : tcp_reach s -> tcp_step e s = Some s' -> tcp_reach s'.

(** While it reads, everything received has been sent back. *)
Lemma tcp_echo_inv s :
  tcp_reach s ->
  match tpc s with
  | TReading => twrote s = tgot s /\
                total_bytes s = (N.of_nat (length (tgot s)) mod (SIZE_MAX + 1))%N
  | TWriting d => tgot s = twrote s ++ d /\
                  total_bytes s = (N.of_nat (length (twrote s)) mod (SIZE_MAX + 1))%N
  | TDone => twrote s `prefix_of` tgot s
  end.
Proof.
  induction 1 as [|s e s' _ IH Hs]; [done|]. unfold tcp_step in Hs.
  destruct e as [[r|] d|[r|] n], (tpc s) as [|d'|]; try done.
  - injection Hs as <-. simpl. by destruct IH as [-> _].
  - destruct (_ <=? _); [|done]. injection Hs as <-. simpl. destruct IH as [<- ->]. done.
  - injection Hs as <-. simpl. destruct IH as [-> _].
    apply prefix_app. exists (drop n d'). by rewrite take_drop.
  - destruct (Nat.eqb_spec n (length d')) as [->|]; [|done]. injection Hs as <-. simpl.
    destruct IH as [-> ->]. split; [done|].
    rewrite N.Div0.add_mod_idemp_l, length_app. f_equal. lia.
Qed.

(** [main] of main.cpp up to [context.run()]: the port it listens on, given the
    arguments after the program name and what [bind] and [listen] return; [inl]: an
    uncaught [std::system_error]; [None]: undefined behaviour of [atoi]. *)
Definition main_setup (args : list string) (bind_ec listen_ec : error_code) : option (error + N) :=
  match match args with [] => Some 8080%N | p :: _ => uint16_of_int <$> atoi p end with
  | None => None
  | Some port =>
      match bind_ec, listen_ec with
      | Some e, _ | None, Some e => Some (inl e)
      | None, None => Some (inr port)
      end
  end.

Section PlainAccept.
Context {A : CorosioAddress}.

(** What its [accept_loop] does with the result of an accept, before the next one: it
    prints a line, and starts [echo_session] on a connection. *)
Definition plain_accept (accept_ec : error_code) (message : string) (remote : endpoint)
  : string * list tcp_state :=
  match accept_ec with
  | Some _ => ("Accept error: " +:+ message, [])
  | None =>
      ("Connection from " +:+ match remote with
                              | v4 a p => v4_put a +:+ ":" +:+ to_string p
                              | v6 a p => v6_put a +:+ ":" +:+ to_string p
                              end, [echo_session])
  end.

Fixpoint plain_accept_loop (results : list (error_code * string * endpoint))
  : list string * list tcp_state :=
  match results with
  | [] => ([], [])
  | (ec, message, remote) :: results =>
      let '(line, started) := plain_accept ec message remote in
      let '(lines, sessions) := plain_accept_loop results in
      (line :: lines, started ++ sessions)
  end.

(** One session per connection, errors or not. *)
Lemma plain_accept_loop_serves results :
  length (plain_accept_loop results).1 = length results /\
  length (plain_accept_loop results).2
  = length (filter (fun r => bool_decide (r.1.1 = None) = true) results) /\
  Forall tcp_reach (plain_accept_loop results).2.
Proof.
  induction results as [|[[ec message] remote] results (IH1 & IH2 & IH3)]; [done|].
  cbn [plain_accept_loop]. destruct (plain_accept_loop results) as [lines sessions].
  rewrite filter_cons. destruct ec as [e|]; simpl in *.
  - by rewrite IH1.
  - rewrite IH1, IH2. split; [done|]. split; [done|]. constructor; [constructor | done].
Qed.

End PlainAccept.

Module EchoDemo.

Definition rq : Request := mkRequest "/echo" (Some 5%N) [] 0.
Definition evs : list echo_ev :=
  [Read_ None (bytes_of "abc"); Submitted None; Written None 3; Read_ None (bytes_of "de");
   Written None 2; Read_ (Some eof) []; Ended None].
Definition done_ : echo_state :=
  default (echo rq (mkResponse 0 None)) (echo_run evs (echo rq (mkResponse 0 None))).

Lemma echo_faithful_witness :
  exists (chunks : list bytes) (ended : bool),
    acts done_ = Submit 200 [("content-length", "5")] :: map WriteBody chunks
             ++ (if ended then [WriteEof] else []) /\
    ended = true /\ concat chunks = bytes_of "abcde".
Proof.
  destruct (echo_faithful rq (mkResponse 0 None) evs done_) as [H _]; [by vm_compute|].
  destruct (H None) as (chunks & ended & H1 & _ & H3); [by vm_compute|].
  exists chunks, ended. split; [exact H1|]. destruct (H3 eq_refl) as [-> ->].
  split; [done | by vm_compute].
Defined.

End EchoDemo.
