(* ===== verification/EchoStream.v ===== *)
(** * The echo handler on its stream

    [echo] (echo_handler.cpp) awaiting the operations of the stream its request and
    response are bound to: reads of the request body, body operations of the response
    (Composed), while nghttp2 delivers and pulls bytes in any order.  The composition
    echoes, end to end. *)

From S2P Require Import Prelude Capy Nghttp2 Stream StreamRead StreamWrite StreamSys StreamProps.
From S2P Require Import Session SessionSys SessionProps SessionHeaders Messages Composed Echo.

Section EchoStream.
Context {C : CapyOps} {G : NgConsts} {W : CapyWrite}.

(** [capy::make_buffer(buffer)], of [std::array<std::uint8_t, 64 * 1024>]. *)
Context (buffer : buffer_param).

(** ** The handler's turns *)

(** What the coroutine is doing: about to start the operation it awaits next,
    suspended in [read_some], or in an operation on the response's body. *)
Inductive doing := ARun | ARead | ABody (w : wstate).

Record etask := mkEtask { handler : echo_state; at_op : doing; stream : sys }.

(** It goes on to the next operation. *)
Definition enter (s : echo_state) (y : sys) : etask :=
  mkEtask s match pc s with
            | Writing d => ABody (WAt (w_start (BWrite [d])))
            | Ending => ABody (WAt (w_start BWriteEof))
            | _ => ARun
            end y.

(** The awaited operation completed. *)
Definition completed (e : echo_ev) (s : echo_state) (y : sys) : option etask :=
  match echo_step e s with Some s' => Some (enter s' y) | None => None end.

(** What the turn reported of a read. *)
Definition read_result (y y' : sys) : option (io_result read_out) :=
  match drop (length (log y)) (log y') with
  | [ORead r] => Some r
  | _ => None
  end.

Definition after_read (y y' : sys) (s : echo_state) : option etask :=
  match read_result y y' with
  | Some r => completed (Read_ (ec r) (read_mem (value r))) s y'
  | None => Some (mkEtask s ARead y')
  end.

(** Turns of others: nghttp2's callbacks (no DATA follows END_STREAM) and pulls. *)
Definition of_env (e : sev) (y : sys) : bool :=
  match e with
  | EData _ => negb (read_eof_ (st y))
  | EReadEof | EClose | EProduce _ | EMeta _ | ESetStatus _ => true
  | _ => false
  end.

Inductive eev :=
| VEnv (e : sev)
| VSubmit (rv : Z)                 (* submit(): what nghttp2_submit_response2 returns *)
| VRead                            (* read_some() is called *)
| VReadWake (wait_ec : error_code)
| VTurn | VWake (wait_ec : error_code)   (* the body operation goes on, is resumed *)
| VReturn.                         (* the body operation returns *)

Definition body_turn (e : bev) (t : etask) : option etask :=
  match at_op t with
  | ABody w =>
      match bstep e (mkBtask (stream t) w) with
      | Some b => Some (mkEtask (handler t) (ABody (bst b)) (bsys b))
      | None => None
      end
  | _ => None
  end.

Definition estep (e : eev) (t : etask) : option etask :=
  let s := handler t in let y := stream t in
  match e with
  | VEnv e =>
      if of_env e y
      then match step e y with Some y' => Some (mkEtask s (at_op t) y') | None => None end
      else None
  | VSubmit rv =>
      match at_op t with
      | ARun => completed (Submitted (if (rv =? 0)%Z then None else Some invalid_argument)) s y
      | _ => None
      end
  | VRead =>
      match at_op t, pc s with
      | ARun, Reading =>
          match step (ERead buffer) y with Some y' => after_read y y' s | None => None end
      | _, _ => None
      end
  | VReadWake w =>
      match at_op t with
      | ARead => match step (EReadWake w) y with Some y' => after_read y y' s | None => None end
      | _ => None
      end
  | VTurn => body_turn BTurn t
  | VWake w => body_turn (BWake w) t
  | VReturn =>
      match at_op t with
      | ABody (WAt (WReturn r)) =>
          completed (match pc s with Writing _ => Written (ec r) (value r) | _ => Ended (ec r) end) s y
      | _ => None
      end
  end.

Fixpoint erun (evs : list eev) (t : etask) : option etask :=
  match evs with
  | [] => Some t
  | e :: evs => match estep e t with Some t => erun evs t | None => None end
  end.

(** The handler is called for a request on a new stream object. *)
Definition etask_new (rq : Request) (r : Response) (pre : Z -> string) (id : Z) : etask :=
  enter (echo rq r) (sys_new pre id).

(** The body bytes nghttp2 delivered. *)
Definition received_body (evs : list eev) : bytes :=
  concat (map (fun e => match e with VEnv (EData d) => d | _ => [] end) evs).

(** No wait is cancelled. *)
Definition calm (e : eev) : bool :=
  match e with VReadWake (Some _) | VWake (Some _) => false | _ => true end.

End EchoStream.

(** ** The invariant *)

Section EchoStreamProps.
Context {C : CapyOps} {L : CapyLaws C} {G : NgConsts} {GL : NgLaws G}.
Context {W : CapyWrite} {WL : CapyWriteLaws W}.
Context (buffer : buffer_param).
Hypothesis buffer_window : bp_one_window buffer = true.
Hypothesis buffer_room : 0 < bp_room buffer.
Context (pre : Z -> string) (id : Z).
Context (cl : option N).           (* the request's content-length *)

(** *** Frames *)

(** Turns of the writer leave the read side alone; all turns leave END_STREAM set. *)
Lemma writer_frame e y y' :
  of_writer e = true -> step e y = Some y' ->
  delivered (log y') = delivered (log y) /\ read_eof_ (st y') = read_eof_ (st y) /\
  closed_ (st y') = closed_ (st y).
Proof.
  intros He H. destruct e; try done; simpl in H; unfold note, write_impl in H;
    break; simplify_eq; simpl; autorewrite with stream_log; done.
Qed.

Lemma env_read_frame e y y' :
  of_env e y = true -> step e y = Some y' ->
  of_writer e = false /\ delivered (log y') = delivered (log y) /\
  (read_eof_ (st y) = true -> read_eof_ (st y') = true).
Proof.
  intros He H. destruct e as [m|d| | |p|w|a fin|w|len|n| |w]; try done; simpl in H; split; try done.
  - injection H as <-. by destruct m.
  - injection H as <-. unfold on_data. simpl. split; [done|]. by break.
  - by injection H as <-.
  - by injection H as <-.
  - unfold producer_callback in H. break; simplify_eq; simpl; autorewrite with stream_log; done.
  - by injection H as <-.
Qed.

(** A turn of [read_some] reports a result or nothing. *)
Lemma read_turn e y y' :
  match e with ERead _ | EReadWake _ => True | _ => False end -> step e y = Some y' ->
  writer y' = writer y /\ reported (log y') = reported (log y) /\
  read_eof_ (st y') = read_eof_ (st y) /\ closed_ (st y') = closed_ (st y) /\
  match read_result y y' with
  | Some r => log y' = log y ++ [ORead r]
  | None => log y' = log y
  end.
Proof.
  intros He H. unfold read_result. destruct e; try done; simpl in H;
    unfold note, read_some, read_some_resume in H;
    break; simplify_eq; simpl in *; rewrite ?drop_app_length, ?drop_all in *; simplify_eq;
    autorewrite with stream_log; done.
Qed.

Lemma body_step e b b' :
  e = BTurn \/ (exists w, e = BWake w) -> bstep e b = Some b' ->
  exists se, of_writer se = true /\ step se (bsys b) = Some (bsys b').
Proof.
  intros [->|[w ->]] H; cbn [bstep] in H.
  - destruct (bst b) as [[bufs fin f|]|]; try done. destruct (step _ _) as [y'|] eqn:E; [|done].
    injection H as <-. by exists (EWrite (array_of bufs) fin).
  - destruct (bst b) as [|f]; [done|]. destruct (step _ _) as [y'|] eqn:E; [|done].
    injection H as <-. by exists (EWriteWake w).
Qed.

(** *** Failures *)

(** Without cancellation an operation fails only because the stream was closed. *)
Definition bcalm (b : btask) : Prop :=
  forall r, bst b = WAt (WReturn r) -> is_Some (ec r) -> closed_ (st (bsys b)) = true.

Lemma loop_error fin w r :
  w_loop fin w = WReturn r -> is_Some (ec r) -> is_Some (ec (cw_result w)).
Proof.
  unfold w_loop. destruct (cw_next w); [done|]. destruct fin; [|by intros [= <-]].
  unfold write_eof_buffers. destruct (cw_result w) as [[e|] v]; simpl; [by intros [= <-] | done].
Qed.

Lemma resume_error r f r' : w_resume r f = WReturn r' -> is_Some (ec r') -> is_Some (ec r).
Proof.
  destruct f as [|fin w|n|]; simpl.
  - by intros [= <-].
  - intros H He. pose proof (loop_error _ _ _ H He) as Hr. by rewrite cw_put_result in Hr.
  - by intros [= <-].
  - by intros [= <-].
Qed.

Lemma bcalm_step base op e b b' :
  binv base op b -> (forall w, e <> BWake (Some w)) -> bstep e b = Some b' -> bcalm b -> bcalm b'.
Proof.
  intros (Hi & sent & _ & Hst) He H Hc r Hr Herr. destruct e as [e| |w]; cbn [bstep] in H.
  - destruct (of_writer e); [done|]. destruct (step e _) as [y'|] eqn:E; [|done].
    injection H as <-. apply (step_closed e _ _ E), (Hc r Hr Herr).
  - destruct (bst b) as [[bufs fin f|]|]; try done. destruct (step _ _) as [y'|] eqn:E; [|done].
    injection H as <-. destruct (call_turn _ _ _ _ E) as (_ & _ & Hcl & Hif). simpl. rewrite Hcl.
    destruct (closed_ (st (bsys b))); [done|]. destruct Hif as [Hn _].
    unfold after_write in Hr. simpl in Hr. by rewrite Hn in Hr.
  - destruct (bst b) as [|f]; [done|]. destruct Hst as (bufs & fin & Hw & _).
    destruct (step _ _) as [y'|] eqn:E; [|done]. injection H as <-.
    destruct (wake_turn _ _ _ _ _ Hi Hw E) as (n & _ & _ & Hres & _).
    unfold after_write in Hr. simpl in Hr. rewrite Hres in Hr. injection Hr as Hr.
    destruct w as [w|]; [by destruct (He w)|]. by destruct (resume_error _ _ _ Hr Herr).
Qed.

(** A [write_eof()] started on a closed stream cannot succeed. *)
Definition doomed (w : wstate) : Prop :=
  match w with
  | WAt (WCall _ _ WFinal) => True
  | WAt (WReturn r) => is_Some (ec r)
  | _ => False
  end.

Lemma doomed_step e y w b' :
  closed_ (st y) = true -> doomed w -> bstep e (mkBtask y w) = Some b' -> doomed (bst b').
Proof.
  intros Hc Hd H. destruct e as [e| |w']; cbn [bstep bst bsys] in H.
  - destruct (of_writer e); [done|]. destruct (step e y); [|done]. by injection H as <-.
  - destruct w as [[bufs fin f|]|]; try done. destruct f; try done.
    destruct (step _ y) as [y'|] eqn:E; [|done]. injection H as <-.
    destruct (call_turn _ _ _ _ E) as (_ & _ & _ & Hif). rewrite Hc in Hif. destruct Hif as [Hr _].
    unfold after_write. simpl. rewrite Hr. by eexists.
  - by destruct w as [|f].
Qed.

(** *** Where the handler stands *)

Definition place_ok (s : echo_state) (a : doing) (y : sys) : Prop :=
  match pc s, a with
  | (EagerSubmit | LastSubmit | FirstSubmit _), ARun => writer y = None /\ reported (log y) = []
  | Reading, (ARun | ARead) => writer y = None /\ reported (log y) = got s
  | Writing d, ABody w => exists base, got s = base ++ d /\
      binv base (BWrite [d]) (mkBtask y w) /\ bcalm (mkBtask y w)
  | Ending, ABody w => exists base, binv base BWriteEof (mkBtask y w) /\
      base `prefix_of` got s /\ (base = got s \/ closed_ (st y) = true /\ doomed w)
  | Returned None, ARun => writer y = None /\ reported (log y) = got s /\
      (closed_ (st y) = false -> provider_eof y = true)
  | Returned (Some _), ARun => writer y = None /\ reported (log y) `prefix_of` got s
  | _, _ => False
  end.

(** The read loop was left: on an open stream, at the end of the body. *)
Definition end_ok (s : echo_state) (y : sys) (recv : bytes) : Prop :=
  match pc s with
  | LastSubmit | Ending | Returned None =>
      closed_ (st y) = false -> read_eof_ (st y) = true /\ got s = recv
  | _ => True
  end.

Record einv (recv : bytes) (t : etask) : Prop := {
  ei_reach : exists es, reach pre id es (stream t) /\ reads_fit es /\ reads_roomy es /\
    data_of es = recv;
  ei_got : delivered (log (stream t)) = got (handler t);
  ei_echo : echo_inv cl (handler t);
  ei_place : place_ok (handler t) (at_op t) (stream t);
  ei_end : end_ok (handler t) (stream t) recv;
}.

(** *** The turns keep it *)

Definition data_in (e : sev) : bytes := match e with EData d => d | _ => [] end.

Lemma reach_more recv e y y' :
  (exists es, reach pre id es y /\ reads_fit es /\ reads_roomy es /\ data_of es = recv) ->
  step e y = Some y' -> (forall p, e = ERead p -> p = buffer) ->
  exists es, reach pre id es y' /\ reads_fit es /\ reads_roomy es /\ data_of es = recv ++ data_in e.
Proof.
  intros (es & Hr & Hf & Hm & <-) Hs Hp. exists (es ++ [e]).
  split; [by apply (reach_step _ _ _ y)|]. unfold reads_fit, reads_roomy. rewrite !Forall_app.
  repeat split; try done; try (rewrite Forall_singleton; destruct e; try done; by rewrite (Hp _ eq_refl)).
  by rewrite data_of_snoc.
Qed.

(** A turn on the stream that leaves the handler where it is. *)
Lemma einv_stream recv t e y' a' :
  einv recv t -> step e (stream t) = Some y' -> (forall p, e = ERead p -> p = buffer) ->
  delivered (log y') = delivered (log (stream t)) ->
  (read_eof_ (st (stream t)) = true -> read_eof_ (st y') = true /\ data_in e = []) ->
  place_ok (handler t) a' y' ->
  einv (recv ++ data_in e) (mkEtask (handler t) a' y').
Proof.
  intros [Hr Hg He _ Hend] Hs Hp Hd Hre Hpl. split; simpl; try done.
  - by apply (reach_more recv e (stream t)).
  - congruence.
  - unfold end_ok in *. destruct (pc (handler t)) as [| | | | | |[]]; try done; intros Hc;
      (destruct Hend as [H1 H2];
       [destruct (closed_ (st (stream t))) eqn:Ec; [|done];
        by rewrite (step_closed _ _ _ Hs Ec) in Hc|]);
      destruct (Hre H1) as [H3 ->]; by rewrite app_nil_r.
Qed.

Lemma place_env s a e y y' :
  of_writer e = false -> step e y = Some y' -> place_ok s a y -> place_ok s a y'.
Proof.
  intros Ho Hs. destruct (env_frame _ _ _ Ho Hs) as [Hw Hr].
  pose proof (step_closed e y y' Hs) as Hcl.
  assert (Hb : forall w, bstep (BEnv e) (mkBtask y w) = Some (mkBtask y' w))
    by (intros w; cbn [bstep bsys bst]; by rewrite Ho, Hs).
  unfold place_ok. destruct (pc s) as [| |d|d| | |[r|]], a as [| |w]; try done; rewrite ?Hw, ?Hr; try done.
  - intros (base & Hg & Hi & Hc). exists base. split; [done|].
    split; [by apply (binv_step base _ (BEnv e) (mkBtask y w))|].
    by apply (bcalm_step base (BWrite [d]) (BEnv e) (mkBtask y w)).
  - intros (base & Hi & Hpre & Hor). exists base.
    split; [by apply (binv_step base _ (BEnv e) (mkBtask y w))|]. split; [done|]. destruct Hor as [?|[? ?]]; [by left | right; auto].
  - intros (? & ? & Hpe). split; [done|]. split; [done|]. intros Hc.
    apply (step_provider_eof e y); [done|]. apply Hpe. destruct (closed_ (st y)); [|done].
    by rewrite Hcl in Hc.
Qed.

Lemma einv_env recv t e t' :
  einv recv t -> estep buffer (VEnv e) t = Some t' -> einv (recv ++ data_in e) t'.
Proof.
  intros Hi H. cbn [estep] in H. destruct (of_env e (stream t)) eqn:Ee; [|done].
  destruct (step e (stream t)) as [y'|] eqn:Es; [|done]. injection H as <-.
  destruct (env_read_frame _ _ _ Ee Es) as (Ho & Hd & Hre).
  apply (einv_stream recv t e); try done.
  - by intros p ->.
  - intros H1. split; [auto|]. destruct e; try done. simpl in Ee. by rewrite H1 in Ee.
  - by apply (place_env _ _ e (stream t)), Hi.
Qed.

(** The body operation goes on. *)
Lemma einv_body recv t e t' :
  einv recv t -> e = BTurn \/ (exists w, e = BWake w) -> (forall w, e <> BWake (Some w)) ->
  body_turn e t = Some t' -> einv recv t'.
Proof.
  intros Hi He Hcalm H. unfold body_turn in H. destruct (at_op t) as [| |w] eqn:Ea; try done.
  destruct (bstep e _) as [b|] eqn:Eb; [|done]. injection H as <-.
  destruct (body_step _ _ _ He Eb) as (se & Hw & Hs). simpl in Hs.
  destruct (writer_frame _ _ _ Hw Hs) as (Hd & Hre & Hcl).
  assert (Hdata : data_in se = []) by by destruct se.
  rewrite <-(app_nil_r recv), <-Hdata. apply (einv_stream recv t se); try done.
  - by intros p ->.
  - by rewrite Hre.
  - pose proof (ei_place _ _ Hi) as Hp. unfold place_ok in *. rewrite Ea in Hp.
    destruct (pc (handler t)) as [| |d|d| | |[r|]]; try done.
    + destruct Hp as (base & Hg & Hb & Hc). exists base. split; [done|]. destruct b as [y' w'].
      split; [by apply (binv_step base _ e (mkBtask (stream t) w))|].
      by apply (bcalm_step base (BWrite [d]) e (mkBtask (stream t) w)).
    + destruct Hp as (base & Hb & Hpre & Hor). exists base. destruct b as [y' w'].
      split; [by apply (binv_step base _ e (mkBtask (stream t) w))|]. split; [done|].
      destruct Hor as [?|[Hc Hdm]]; [by left|]. right. rewrite Hcl.
      split; [done | by apply (doomed_step e (stream t) w (mkBtask y' w'))].
Qed.

(** What has to hold when the handler goes on to its next operation. *)
Definition entry_ok (s : echo_state) (y : sys) : Prop :=
  match pc s with
  | EagerSubmit | LastSubmit | FirstSubmit _ => writer y = None /\ reported (log y) = []
  | Reading => writer y = None /\ reported (log y) = got s
  | Writing d => writer y = None /\ got s = reported (log y) ++ d
  | Ending => writer y = None /\ reported (log y) `prefix_of` got s /\
      (reported (log y) = got s \/ closed_ (st y) = true)
  | Returned None => writer y = None /\ reported (log y) = got s /\
      (closed_ (st y) = false -> provider_eof y = true)
  | Returned (Some _) => writer y = None /\ reported (log y) `prefix_of` got s
  end.

Lemma enter_ok s y :
  sys_write_inv y -> entry_ok s y -> place_ok s (at_op (enter s y)) y.
Proof.
  unfold entry_ok, place_ok, enter. intros Hi. destruct (pc s) as [| |d|d| | |[r|]]; simpl; try done.
  - intros [Hw Hg]. exists (reported (log y)). split; [done|]. split; [by apply (binv_start (BWrite [d]) y)|].
    intros r Hr He. simpl in Hr. injection Hr as Hr. pose proof (loop_error _ _ _ Hr He) as H.
    rewrite cw_start_result in H. by destruct H.
  - intros (Hw & Hpre & Hor). exists (reported (log y)). split; [by apply (binv_start BWriteEof y)|].
    split; [done|].
    destruct Hor as [?|?]; [by left | by right].
Qed.

Lemma einv_completed recv e s s' y :
  (exists es, reach pre id es y /\ reads_fit es /\ reads_roomy es /\ data_of es = recv) ->
  echo_inv cl s -> echo_step e s = Some s' ->
  delivered (log y) = got s' -> entry_ok s' y -> end_ok s' y recv ->
  einv recv (enter s' y).
Proof.
  intros Hr He Hs Hg Hen Hend. split; simpl; try done.
  - by apply (echo_inv_step cl e s).
  - apply enter_ok; [|done]. destruct Hr as (es & Hr & _). by eapply reach_write_inv.
Qed.

Lemma einv_submit recv t rv t' :
  einv recv t -> estep buffer (VSubmit rv) t = Some t' -> einv recv t'.
Proof.
  intros [Hr Hg He Hp Hend] H. cbn [estep] in H. destruct (at_op t); try done.
  unfold completed in H. destruct (echo_step _ _) as [s'|] eqn:Es; [|done]. injection H as <-.
  apply (einv_completed _ _ _ _ _ Hr He Es); clear Hr; destruct He as [_ He];
    unfold echo_step in Es; unfold place_ok, end_ok in *;
    (destruct (rv =? 0)%Z; destruct (pc (handler t)) as [| |d|d| | |[r|]]; try done;
     injection Es as <-; try done; unfold entry_ok; simpl);
    destruct Hp as [-> ->]; destruct He as [-> _];
    (split; [done|]); try apply prefix_nil; try done.
  split; [done | by left].
Qed.

(** The handler gets the result of a read. *)
Section Reading.
Context (recv : bytes) (t : etask) (e : sev) (y' : sys).
Hypothesis Hi : einv recv t.
Hypothesis Hev : match e with ERead p => p = buffer | EReadWake w => w = None | _ => False end.
Hypothesis Hpc : pc (handler t) = Reading.
Hypothesis Hat : at_op t = ARun \/ at_op t = ARead.
Hypothesis Hs : step e (stream t) = Some y'.

Lemma read_facts :
  (exists es, reach pre id es y' /\ reads_fit es /\ reads_roomy es /\ data_of es = recv) /\
  data_in e = [] /\ writer y' = None /\ reported (log y') = got (handler t) /\
  read_eof_ (st y') = read_eof_ (st (stream t)) /\ closed_ (st y') = closed_ (st (stream t)) /\
  match read_result (stream t) y' with
  | Some r => log y' = log (stream t) ++ [ORead r]
  | None => log y' = log (stream t)
  end.
Proof.
  destruct Hi as [Hr Hg He Hp Hend].
  assert (Hrt : match e with ERead _ | EReadWake _ => True | _ => False end) by by destruct e.
  destruct (read_turn e _ _ Hrt Hs) as (Hw & Hrep & Hre & Hcl & Hres).
  assert (Hdata : data_in e = []) by by destruct e.
  split; [|split; [done|]].
  - rewrite <-(app_nil_r recv), <-Hdata. apply (reach_more recv e (stream t)); [done|done|].
    by intros p ->.
  - unfold place_ok in Hp. rewrite Hpc in Hp. rewrite Hw, Hrep.
    destruct Hat as [Ea|Ea]; rewrite Ea in Hp; destruct Hp; done.
Qed.

Lemma echo_reading : if submitted (handler t) then True else got (handler t) = [].
Proof.
  destruct (ei_echo _ _ Hi) as [_ He]. rewrite Hpc in He.
  by destruct (submitted (handler t)), He.
Qed.

Lemma einv_read_error er v :
  read_result (stream t) y' = Some (IoResult (Some er) v) ->
  einv recv (enter (after_body (handler t)) y').
Proof.
  intros Er. destruct read_facts as (Hr' & _ & Hw & Hrep & Hre & Hcl & Hres). rewrite Er in Hres.
  pose proof (ei_reach _ _ Hi) as (es & Hr & Hf & Hm & Hdd).
  assert (reads_fit [e] /\ reads_roomy [e]) as [Hf1 Hm1].
  { split; apply Forall_singleton; destruct e; try done; by subst. }
  destruct (read_end pre id es e (stream t) y' (IoResult (Some er) v))
    as (Hor & _ & Hmem & Hall); try done; try (by apply Forall_app).
  { intros w Ew. rewrite Ew in Hev. done. }
  pose proof echo_reading as He. simpl in Hmem.
  apply (einv_completed recv (Read_ (Some er) []) (handler t)); try done.
  - apply (ei_echo _ _ Hi).
  - unfold echo_step. by rewrite Hpc.
  - rewrite Hres, delivered_snoc. simpl. rewrite Hmem, app_nil_r, (ei_got _ _ Hi).
    unfold after_body. by destruct (submitted _).
  - unfold after_body, entry_ok. destruct (submitted (handler t)); simpl; rewrite Hrep.
    + split; [done|]. split; [done | by left].
    + by rewrite He.
  - pose proof (ei_got _ _ Hi). unfold end_ok, after_body.
    destruct (submitted (handler t)); simpl; intros Hc; rewrite Hre; rewrite Hcl in Hc;
      rewrite Hc, orb_false_r in Hor; (split; [done | congruence]).
Qed.

Lemma einv_read_data v s' :
  read_result (stream t) y' = Some (IoResult None v) ->
  echo_step (Read_ None (read_mem v)) (handler t) = Some s' -> einv recv (enter s' y').
Proof.
  intros Er Es. destruct read_facts as (Hr' & _ & Hw & Hrep & Hre & Hcl & Hres). rewrite Er in Hres.
  assert (Hdel : delivered (log y') = got (handler t) ++ read_mem v).
  { rewrite Hres, delivered_snoc. simpl. by rewrite (ei_got _ _ Hi). }
  apply (einv_completed recv (Read_ None (read_mem v)) (handler t)); try done;
    [apply (ei_echo _ _ Hi)|..]; pose proof echo_reading as He;
    unfold echo_step in Es; rewrite Hpc in Es; simpl in Es;
    destruct (submitted (handler t)); injection Es as <-; unfold entry_ok, end_ok; simpl; try done.
  - by rewrite Hrep.
  - by rewrite Hrep, He.
Qed.

Lemma einv_read t' :
  after_read (stream t) y' (handler t) = Some t' -> einv recv t'.
Proof.
  intros H. destruct read_facts as (Hr' & Hdata & Hw & Hrep & Hre & Hcl & Hres).
  unfold after_read in H. destruct (read_result _ _) as [[[er|] v]|] eqn:Er.
  - unfold completed, echo_step in H. rewrite Hpc in H. injection H as <-.
    by apply (einv_read_error er v).
  - unfold completed in H. cbn [ec value] in H.
    destruct (echo_step _ _) as [s'|] eqn:Es; [|done].
    injection H as <-. by apply (einv_read_data v).
  - injection H as <-. rewrite <-(app_nil_r recv), <-Hdata.
    apply (einv_stream recv t e); try done; [by intros p -> | by rewrite Hres | by rewrite Hre |].
    unfold place_ok. by rewrite Hpc.
Qed.

End Reading.

(** The handler gets the result of a body operation. *)
Lemma einv_return recv t t' :
  einv recv t -> estep buffer VReturn t = Some t' -> einv recv t'.
Proof.
  intros [Hr Hg He Hp Hend] H. cbn [estep] in H.
  destruct (at_op t) as [| |[[|r]|]]; try done. unfold completed in H.
  destruct (echo_step _ _) as [s'|] eqn:Es; [|done]. injection H as <-.
  apply (einv_completed _ _ _ _ _ Hr He Es); destruct He as [_ He];
    unfold place_ok, end_ok in *; unfold echo_step, after_body in Es;
    destruct (pc (handler t)) as [| |d|d| | |[r'|]] eqn:Ep; try done;
    destruct (ec r) as [er|] eqn:Er; simpl in Es, He;
    try (destruct He as [Hsub _]; rewrite Hsub in Es); injection Es as <-; try done; simpl.
  - destruct Hp as (base & Hbase & (_ & sent & Hrep & Hw & Hsent & _) & Hc). simpl in *.
    unfold entry_ok. simpl. split; [done|]. split; [|right; by apply (Hc r); rewrite ?Er].
    rewrite Hrep, Hsent, Hbase, app_nil_r. by apply prefix_app, prefix_take.
  - destruct Hp as (base & Hbase & (_ & sent & Hrep & Hw & Hsent & Hle & Hall & _) & _).
    simpl in *. unfold entry_ok. simpl. split; [done|].
    rewrite Hrep, Hsent, (Hall Er eq_refl), Hbase, take_ge by done. by rewrite app_nil_r.
  - destruct Hp as (base & (_ & sent & Hrep & Hw & Hsent & _) & Hpre & _).
    simpl in *. unfold entry_ok. simpl. split; [done|]. by rewrite Hrep, Hsent, take_nil, app_nil_r.
  - destruct Hp as (base & (_ & sent & Hrep & Hw & Hsent & Hle & _ & Hpe) & _ & Hor).
    simpl in *. unfold entry_ok. simpl. split; [done|].
    split; [|by apply Hpe]. rewrite Hrep, Hsent, take_nil, app_nil_r.
    destruct Hor as [?|[_ Hd]]; [done|]. rewrite Er in Hd. by destruct Hd.
  - destruct Hp as (base & Hbase & _ & Hc). intros Hcl.
    assert (closed_ (st (stream t)) = true) by (by apply (Hc r); rewrite ?Er). congruence.
Qed.

Lemma einv_step recv t e t' :
  einv recv t -> calm e = true -> estep buffer e t = Some t' ->
  einv (recv ++ match e with VEnv e => data_in e | _ => [] end) t'.
Proof.
  intros Hi Hc H. destruct e as [e|rv| |w| |w|]; rewrite ?app_nil_r.
  - by apply (einv_env recv t e).
  - by apply (einv_submit recv t rv).
  - cbn [estep] in H. destruct (at_op t) eqn:Ea; try done. destruct (pc (handler t)) eqn:Ep; try done.
    destruct (step _ _) as [y'|] eqn:Es; [|done].
    by apply (einv_read recv t (ERead buffer) y'); auto.
  - cbn [estep] in H. destruct (at_op t) eqn:Ea; try done. destruct w; [done|].
    destruct (step _ _) as [y'|] eqn:Es; [|done].
    apply (einv_read recv t (EReadWake None) y'); auto.
    pose proof (ei_place _ _ Hi) as Hp. unfold place_ok in Hp. rewrite Ea in Hp.
    by destruct (pc (handler t)) as [| | | | | |[]].
  - by apply (einv_body recv t BTurn); auto.
  - destruct w; [done|]. apply (einv_body recv t (BWake None)); eauto.
  - by apply (einv_return recv t).
Qed.

Lemma einv_run recv evs t t' :
  einv recv t -> Forall (fun e => calm e = true) evs -> erun buffer evs t = Some t' ->
  einv (recv ++ received_body evs) t'.
Proof.
  revert recv t; induction evs as [|e evs IH]; intros recv t Hi Hc H; simpl in H.
  - injection H as <-. unfold received_body. simpl. by rewrite app_nil_r.
  - inversion Hc; subst. destruct (estep buffer e t) as [t1|] eqn:E; [|done].
    replace (received_body (e :: evs)) with
      (match e with VEnv e => data_in e | _ => [] end ++ received_body evs)
      by (unfold received_body; destruct e as [[]| | | | | |]; done).
    rewrite app_assoc. by apply (IH _ t1); [apply (einv_step recv t e)|..].
Qed.

Lemma einv_new rq r : rq_content_length rq = cl -> einv [] (etask_new rq r pre id).
Proof.
  intros Hcl. unfold etask_new. split; simpl.
  - exists []. repeat split; constructor.
  - unfold echo. by destruct (has_header _ _).
  - rewrite <-Hcl. apply echo_inv_start.
  - apply enter_ok; [by eapply (reach_write_inv pre id), reach_new|].
    unfold echo, entry_ok. by destruct (has_header _ _).
  - unfold echo, end_ok. by destruct (has_header _ _).
Qed.

(** What has been echoed when the handler returns success. *)
Lemma einv_returned recv t :
  einv recv t -> pc (handler t) = Returned None ->
  (exists chunks, concat chunks = pulled (log (stream t)) /\
     acts (handler t) = Submit 200 (length_field cl) :: map WriteBody chunks ++ [WriteEof]) /\
  pulled (log (stream t)) `prefix_of` recv /\
  (closed_ (st (stream t)) = false ->
     pulled (log (stream t)) = recv /\ read_eof_ (st (stream t)) = true /\
     provider_eof (stream t) = true).
Proof.
  intros [Hr Hg [_ He] Hp Hend] Hpc. destruct Hr as (es & Hr & Hf & _ & Hd).
  unfold place_ok, end_ok in *. rewrite Hpc in Hp, Hend, He. destruct (at_op t); try done.
  destruct Hp as (Hw & Hrep & Hpe).
  assert (Hpull : pulled (log (stream t)) = got (handler t)).
  { rewrite (sw_bytes _ (reach_write_inv pre id es _ Hr)), Hw, Hrep. simpl. by rewrite app_nil_r. }
  rewrite Hpull. split; [|split].
  - destruct He as (chunks & Hch & Ha). by exists chunks.
  - rewrite <-Hd, (sr_fifo _ _ (reach_read_inv pre id es _ Hr Hf)), Hg. by eexists.
  - intros Hcl. destruct (Hend Hcl). auto.
Qed.

End EchoStreamProps.

(** ** The echo, end to end *)

Section EndToEnd.
Context {C : CapyOps} {L : CapyLaws C} {G : NgConsts} {GL : NgLaws G}.
Context {W : CapyWrite} {WL : CapyWriteLaws W}.
Context (buffer : buffer_param).
Hypothesis buffer_window : bp_one_window buffer = true.
Hypothesis buffer_room : 0 < bp_room buffer.
Context (pre : Z -> string) (id : Z).

(** What goes in comes out: when the echo handler has returned success and no wait
    was cancelled, whatever the interleaving of arriving DATA, pulls by nghttp2 and the
    handler's own turns, it has submitted one response, 200 with the request's
    content-length, and nghttp2 has pulled exactly the bytes the handler read, in
    order, which are leading bytes of the request body; if the stream is still open,
    they are the whole body, which had ended, and nghttp2 was told of the end of the
    response. *)
Theorem echo_end_to_end rq r evs t :
  erun buffer evs (etask_new rq r pre id) = Some t -> Forall (fun e => calm e = true) evs ->
  pc (handler t) = Returned None ->
  (exists chunks, concat chunks = pulled (log (stream t)) /\
     acts (handler t) = Submit 200 (length_field (rq_content_length rq)) :: map WriteBody chunks
                        ++ [WriteEof]) /\
  pulled (log (stream t)) `prefix_of` received_body evs /\
  (closed_ (st (stream t)) = false ->
     pulled (log (stream t)) = received_body evs /\ read_eof_ (st (stream t)) = true /\
     provider_eof (stream t) = true).
Proof.
  intros Hrun Hc Hpc.
  apply (einv_returned pre id (rq_content_length rq) (received_body evs) t); [|done].
  exact (einv_run buffer buffer_window buffer_room pre id (rq_content_length rq) [] evs _ t
           (einv_new pre id _ rq r eq_refl) Hc Hrun).
Qed.

End EndToEnd.

(** ** A concrete run *)

Module EchoStreamDemo.
#[local] Existing Instance capy_ref.
#[local] Existing Instance ng_ref.
#[local] Existing Instance capy_write_ref.

Definition rq : Request := mkRequest "/echo" (Some 5%N) [] 0.
Definition buf : buffer_param := dest [3].
Definition t0 : etask := etask_new rq (mkResponse 0 None) (fun _ => "server.1") 1.

(** The body arrives in two chunks, is read in three pieces and pulled in five. *)
Definition evs : list eev :=
  [VRead; VEnv (EData (bytes_of "abcd")); VReadWake None; VSubmit 0; VTurn; VEnv (EProduce 2);
   VEnv (EData (bytes_of "e")); VWake None; VTurn; VEnv (EProduce 9); VWake None; VReturn;
   VRead; VTurn; VEnv EReadEof; VEnv (EProduce 9); VWake None; VReturn;
   VRead; VTurn; VEnv (EProduce 9); VWake None; VReturn].
Definition t1 : etask := default t0 (erun buf evs t0).

Lemma echo_end_to_end_witness :
  pc (handler t1) = Returned None /\ pulled (log (stream t1)) = bytes_of "abcde" /\
  provider_eof (stream t1) = true.
Proof.
  assert (Hpc : pc (handler t1) = Returned None) by by vm_compute.
  destruct (echo_end_to_end buf eq_refl ltac:(vm_compute; lia) (fun _ => "server.1") 1
              rq (mkResponse 0 None) evs t1) as (_ & _ & H).
  - by vm_compute.
  - by repeat constructor.
  - exact Hpc.
  - destruct H as (H1 & _ & H3); [by vm_compute|]. split; [exact Hpc|].
    split; [rewrite H1; by vm_compute | exact H3].
Defined.

End EchoStreamDemo.
