(* ===== verification/EchoLive.v ===== *)
(** * The echo handler comes to its end

    Once the whole request has been received, the echo handler on its stream
    (EchoStream) can always finish: from whatever state the two have reached, the
    completions it waits for and pulls by nghttp2 bring it to a successful return. *)

From S2P Require Import Prelude Capy Nghttp2 Stream StreamRead StreamWrite StreamSys StreamProps.
From S2P Require Import Session SessionSys SessionProps SessionHeaders Messages Composed Echo EchoStream.

(** ** Body operations finish *)

Section BodyLive.
Context {C : CapyOps} {L : CapyLaws C} {G : NgConsts} {GL : NgLaws G}.
Context {W : CapyWrite} {WL : CapyWriteLaws W}.

(** Turns of the operation, resumptions and pulls. *)
Definition bbenign (e : bev) : bool :=
  match e with BTurn | BWake None | BEnv (EProduce _) => true | _ => false end.

(** The operation can return success. *)
Definition can_return (b : btask) : Prop :=
  exists es b' v, brun es b = Some b' /\ Forall (fun e => bbenign e = true) es /\
    bst b' = WAt (WReturn (IoResult None v)).

Lemma can_return_more es b b1 :
  brun es b = Some b1 -> Forall (fun e => bbenign e = true) es -> can_return b1 -> can_return b.
Proof.
  intros Hr Hf (es' & b' & v & Hr' & Hf' & Hb). exists (es ++ es'), b', v.
  rewrite brun_app, Hr. split; [done|]. by split; [apply Forall_app|].
Qed.

Lemma rounds_benign len k : Forall (fun e => bbenign e = true) (concat (repeat (round_of len) k)).
Proof. induction k as [|k IH]; simpl; [constructor|]. by repeat constructor. Qed.

(** After one of its writes has succeeded. *)
Lemma resumed_returns base op sent b bufs fin f n :
  binv base op b -> bst b = WAt (w_resume (IoResult None n) f) ->
  closed_ (st (bsys b)) = false -> provider_eof (bsys b) = fin ->
  frame_ok op sent bufs fin f -> n <= length (array_bytes (array_of bufs)) ->
  can_return b.
Proof.
  intros Hi Hb Hc He Hf Hn. destruct f as [|e w|m|]; simpl in Hf, Hb.
  - by exists [], b, n.
  - destruct Hf as (Hw & -> & -> & En & Hbody & Hv).
    destruct (cw_next_some _ _ En) as (Hmax & _ & [k' Hk]).
    rewrite array_bytes_of in Hn by done.
    pose proof (cw_put_left (IoResult None n) w bufs En Hn) as Hl. simpl in Hl.
    destruct (loop_finishes (length (body op)) base op b (cw_put (IoResult None n) w) 1)
      as (k & _ & b' & Hrun & Hb'); [lia | done | done | done | done | ..].
    { rewrite Hl, length_drop, <-Hbody, length_app. lia. }
    { by rewrite cw_put_result. }
    { rewrite cw_put_result, Hl, length_drop, <-Hbody, length_app, Hk, length_app. simpl. lia. }
    exists (concat (repeat (round_of 1) k)), b', (length (body op)).
    split; [done|]. split; [apply rounds_benign | done].
  - by exists [], b, m.
  - by exists [], b, 0.
Qed.

(** A suspended write that is off offer returns. *)
Lemma served_returns base op sent b bufs fin f :
  binv base op b -> bst b = WIn f -> closed_ (st (bsys b)) = false ->
  writer (bsys b) = Some (array_of bufs, fin) -> write_pending_ (st (bsys b)) = false ->
  frame_ok op sent bufs fin f -> (fin = false -> provider_eof (bsys b) = false) -> can_return b.
Proof.
  intros Hi Hb Hc Hw Hp Hf Hpe. pose proof (proj1 Hi) as Hs.
  destruct (step (EWriteWake None) (bsys b)) as [y2|] eqn:E.
  2: { exfalso. cbn [step] in E. rewrite Hw in E. simpl in E.
       by rewrite (wi_wake _ _ _ _ (sw_wr _ Hs)) in E by (rewrite ?Hw; done). }
  destruct (wake_turn _ _ _ _ _ Hs Hw E) as (n & _ & Hle & Hres & _ & _ & Hc2 & Hpe2 & Hfin).
  assert (Hrun : brun [BWake None] b = Some (after_write (bsys b) y2 f)).
  { cbn [brun bstep]. by rewrite Hb, E. }
  apply (can_return_more _ _ _ Hrun); [by repeat constructor|].
  apply (resumed_returns base op sent _ bufs fin f n); try done.
  - by apply (binv_run base op [BWake None] b).
  - unfold after_write. simpl. by rewrite Hres.
  - simpl. congruence.
  - simpl. rewrite Hpe2. destruct fin; auto.
Qed.

(** Only an empty [write_eof] is awaited with [fin]. *)
Lemma frame_fin op sent bufs fin f : frame_ok op sent bufs fin f -> fin = true -> bufs = [].
Proof.
  intros Hf ->. destruct f as [|e w|m|]; simpl in Hf;
    [by destruct Hf as (_ & ? & _) | by destruct Hf as (_ & _ & ? & _) | by destruct Hf .. ].
Qed.

Lemma frame_ends op sent bufs fin f : frame_ok op sent bufs fin f -> fin = true -> ends op = true.
Proof.
  intros Hf ->. destruct f as [|e w|m|]; simpl in Hf;
    [by destruct Hf as (_ & ? & _) | by destruct Hf as (_ & _ & ? & _) | by destruct Hf as (_ & _ & ? & _) |].
  by destruct Hf as (_ & _ & -> & _).
Qed.

Lemma fin_empty op sent bufs fin f :
  frame_ok op sent bufs fin f -> fin = true -> array_bytes (array_of bufs) = [].
Proof. intros Hf Hfin. rewrite (frame_fin _ _ _ _ _ Hf Hfin). apply array_bytes_of. simpl. lia. Qed.

(** nghttp2 was told of the end of the body only by a finished [write_eof]. *)
Definition eof_ok (b : btask) : Prop :=
  provider_eof (bsys b) = true ->
  match bst b with
  | WIn _ => write_pending_ (st (bsys b)) = false /\ exists a, writer (bsys b) = Some (a, true)
  | WAt (WReturn _) => True
  | _ => False
  end.

(** Whatever it is doing, an operation on an open stream can return success. *)
Lemma body_returns base op b :
  binv base op b -> bcalm b -> closed_ (st (bsys b)) = false -> eof_ok b -> can_return b.
Proof.
  intros Hi Hcalm Hc He. pose proof Hi as (Hw & sent & Hrep & Hst).
  destruct (bst b) as [[bufs fin f|r]|f] eqn:Eb; unfold eof_ok in He; rewrite Eb in He.
  - destruct Hst as [Hwr Hf].
    assert (Hpe : provider_eof (bsys b) = false) by (destruct (provider_eof _); [by destruct He | done]).
    destruct (op_round base op b bufs fin f 1 Hi Eb Hc Hpe (frame_fin _ _ _ _ _ Hf))
      as (b1 & n & Hrun & Hb1 & Hn & _ & Hc1 & He1).
    apply (can_return_more _ _ _ Hrun); [by repeat constructor|].
    apply (resumed_returns base op sent b1 bufs fin f n); try done.
    by apply (binv_run base op (round_of 1) b).
  - exists [], b. destruct r as [[e|] v]; [|by exists v].
    rewrite (Hcalm _ Eb) in Hc; [done | by eexists].
  - destruct Hst as (bufs & fin & Hwr & Hf).
    destruct (write_pending_ (st (bsys b))) eqn:Ep.
    + assert (Hpe : provider_eof (bsys b) = false)
        by (destruct (provider_eof _); [by destruct (He eq_refl) | done]).
      destruct (last_pull (array_of bufs) fin 1 (bsys b) Hw Hwr Ep Hpe (fin_empty _ _ _ _ _ Hf))
        as (y' & S & Hp' & Hc' & He' & _).
      assert (Hrun : brun [BEnv (EProduce 1)] b = Some (mkBtask y' (WIn f))).
      { cbn [brun bstep of_writer]. by rewrite S, Eb. }
      apply (can_return_more _ _ _ Hrun); [by repeat constructor|].
      destruct (env_frame (EProduce 1) _ _ eq_refl S) as [Hw' _].
      apply (served_returns base op sent _ bufs fin f); simpl; try done; try congruence.
      by apply (binv_run base op [BEnv (EProduce 1)] b).
    + apply (served_returns base op sent b bufs fin f); try done.
      intros ->. destruct (provider_eof (bsys b)); [|done]. destruct (He eq_refl) as [_ [a Ha]]. congruence.
Qed.

End BodyLive.

(** ** What the handler can rely on *)

Section EchoLive.
Context {C : CapyOps} {L : CapyLaws C} {G : NgConsts} {GL : NgLaws G}.
Context {W : CapyWrite} {WL : CapyWriteLaws W}.
Context (buffer : buffer_param).
Hypothesis buffer_window : bp_one_window buffer = true.
Hypothesis buffer_room : 0 < bp_room buffer.
Context (pre : Z -> string) (id : Z) (cl : option N).
Local Abbreviation einv := (einv pre id cl).

(** *** Turns of the stream *)

(** A pull signals the end of the body only when it finishes a [write_eof]. *)
Lemma pull_eof len y y' :
  sys_write_inv y -> step (EProduce len) y = Some y' ->
  provider_eof y = false /\
  (provider_eof y' = true -> write_pending_ (st y') = false /\ exists a, writer y = Some (a, true)).
Proof.
  intros Hi Hs. pose proof (sw_wr _ Hi) as Hinv. cbn [step] in Hs.
  destruct (provider_deferred y) eqn:Ed; [done|]. destruct (provider_eof y) eqn:Ee; [done|].
  split; [done|]. cbn [orb] in Hs. destruct (write_pending_ (st y)) eqn:Hp.
  - destruct (wi_pending _ _ _ _ Hinv Hp) as [[[a e] Hw] _].
    destruct (wi_frame _ _ _ _ Hinv a e Hw) as (_ & Hf & _ & _).
    rewrite producer_busy in Hs by done. cbn zeta in Hs. injection Hs as <-. simpl. rewrite Hf.
    destruct (finishes len (st y)); cbn [andb]; [|by rewrite has_eof_zero].
    destruct e; [|by rewrite has_eof_zero]. intros _. split; [done|]. rewrite Hw. by eexists.
  - rewrite producer_idle in Hs by done. injection Hs as <-. simpl. by rewrite has_eof_zero.
Qed.

(** nghttp2's callbacks leave the write side alone; nobody but the reader parks or
    unparks it. *)
Lemma env_quiet e y y' :
  of_env e y = true -> step e y = Some y' ->
  (is_Some (read_sink_ (st y)) <-> is_Some (read_sink_ (st y'))) /\
  ((forall n, e <> EProduce n) ->
     provider_eof y' = provider_eof y /\ write_pending_ (st y') = write_pending_ (st y)).
Proof.
  intros He Hs. destruct e as [m|d| | |p|w|a fin|w|len|n| |w]; try done; cbn [step] in Hs.
  - injection Hs as <-. by destruct m.
  - injection Hs as <-. simpl. split; [|intros _; split; [done|]; unfold on_data; by break].
    unfold on_data. destruct (read_sink_ (st y)) as [k|] eqn:Ek; simpl; break; simpl;
      rewrite ?Ek; done.
  - by injection Hs as <-.
  - by injection Hs as <-.
  - split; [|by intros H; destruct (H len)]. destruct (_ || _); [done|].
    pose proof (producer_read_side len 0 (st y)) as Hr.
    destruct (producer_callback len 0 (st y)) as [[[s ret] f] buf]. injection Hs as <-.
    simpl in *. injection Hr as _ _ -> _ _ _. done.
  - by injection Hs as <-.
Qed.

Lemma writer_quiet e y y' :
  of_writer e = true -> step e y = Some y' ->
  provider_eof y' = provider_eof y /\ read_sink_ (st y') = read_sink_ (st y).
Proof.
  intros He Hs. destruct e; try done; simpl in Hs; unfold note, write_impl in Hs;
    break; simplify_eq; done.
Qed.

(** A turn of [read_some] ends unparked, with a result, or parked. *)
Lemma read_sink_after e y y' :
  rd_inv (st y) -> match e with ERead p => p = buffer | EReadWake _ => True | _ => False end ->
  step e y = Some y' ->
  provider_eof y' = provider_eof y /\
  match read_result y y' with
  | Some r => read_sink_ (st y') = None /\ (ec r = None -> read_mem (value r) <> [])
  | None => is_Some (read_sink_ (st y'))
  end.
Proof.
  intros Hrd He Hs. unfold read_result.
  destruct e as [m|d| | |p|w|a fin|w|len|n| |w]; try done; cbn [step] in Hs.
  - subst p. destruct (read_sink_ (st y)) eqn:Ek; [done|].
    pose proof (read_some_turn buffer _ Hrd Ek buffer_window) as Ht.
    assert (Hpos : match (read_some buffer (st y)).2 with
                   | Done r => ec r = None -> 0 < read_n (value r) | _ => True end).
    { unfold read_some. destruct (drain _ _) as [d|]; [|done].
      destruct (Nat.ltb_spec 0 (d_total d)); [simpl; lia|]. simpl. unfold eof_error. simpl.
      by destruct (read_eof_ (st y)), (closed_ (st y)). }
    destruct (read_some buffer (st y)) as [[s cs] o]. injection Hs as <-.
    destruct Ht as (_ & Hnd & _ & _ & Hk). destruct o as [r| |]; simpl in *; [|by rewrite drop_all|done].
    rewrite drop_app_length. destruct Hk as [Hn Hk]. split; [done|]. split; [done|].
    intros Hec Hnil. specialize (Hpos Hec). rewrite Hn, Hnil in Hpos. simpl in Hpos. lia.
  - destruct (read_sink_ (st y)) as [k|] eqn:Ek; [|done]. destruct (completes _ _); [|done].
    pose proof (read_some_resume_turn w k _ Hrd Ek) as Ht.
    assert (Hpos : match (read_some_resume w k (st y)).2 with
                   | Done r => ec r = None -> 0 < read_n (value r) | _ => True end).
    { unfold read_some_resume. destruct (Nat.ltb_spec 0 (copied k)); [simpl; lia|].
      destruct w; [done|]. unfold eof_error. simpl.
      by destruct (read_eof_ (st y)), (closed_ (st y)). }
    destruct (read_some_resume w k (st y)) as [[s cs] o]. injection Hs as <-.
    destruct Ht as (_ & Hnd & _ & _ & Hk). destruct o as [r| |]; simpl in *; [|by rewrite drop_all|done].
    rewrite drop_app_length. destruct Hk as [Hn Hk]. split; [done|]. split; [done|].
    intros Hec Hnil. specialize (Hpos Hec). rewrite Hn, Hnil in Hpos. simpl in Hpos. lia.
Qed.

(** *** What holds of the handler besides *)

(** Where the end of the body has not been written, nghttp2 was not told of it. *)
Definition eof_place (t : etask) : Prop :=
  match pc (handler t), at_op t with
  | Ending, ABody w => bcalm (mkBtask (stream t) w) /\ eof_ok (mkBtask (stream t) w)
  | Returned _, _ => True
  | _, _ => provider_eof (stream t) = false
  end.

(** A read is parked while the handler awaits one. *)
Definition sink_place (t : etask) : Prop :=
  match at_op t with
  | ARead => is_Some (read_sink_ (st (stream t)))
  | _ => read_sink_ (st (stream t)) = None
  end.

Lemma produce_dec e : (exists n, e = EProduce n) \/ (forall n, e <> EProduce n).
Proof. destruct e; eauto. Qed.

Lemma env_no_eof e y y' :
  sys_write_inv y -> of_env e y = true -> step e y = Some y' ->
  (forall a, writer y <> Some (a, true)) -> provider_eof y = false -> provider_eof y' = false.
Proof.
  intros Hi He Hs Hw Hp. destruct (produce_dec e) as [[n ->]|Hn].
  - destruct (pull_eof n _ _ Hi Hs) as [_ H]. destruct (provider_eof y'); [|done].
    destruct (H eq_refl) as [_ [a Ha]]. by destruct (Hw a).
  - destruct (env_quiet _ _ _ He Hs) as [_ H]. by destruct (H Hn) as [-> _].
Qed.

Lemma place_no_fin s a y :
  place_ok s a y -> (forall r, pc s <> Returned r) -> pc s <> Ending ->
  forall b, writer y <> Some (b, true).
Proof.
  intros Hp Hr He b Hb. unfold place_ok in Hp.
  destruct (pc s) as [| |d|d| | |r], a as [| |w]; try done; try (by destruct (Hr r));
    try (destruct Hp; congruence).
  - destruct Hp as (base & _ & (_ & sent & _ & Hst) & _). simpl in Hst.
    destruct w as [n|f]; [destruct Hst; congruence|].
    destruct Hst as (bufs & fin & Hw & Hf). rewrite Hb in Hw. injection Hw as _ <-.
    by pose proof (frame_ends _ _ _ _ _ Hf eq_refl).
Qed.

(** [write_eof()] under way. *)
Lemma eof_ok_step base e b b' :
  binv base BWriteEof b -> (forall se, e = BEnv se -> of_env se (bsys b) = true) ->
  bstep e b = Some b' -> eof_ok b -> eof_ok b'.
Proof.
  intros (Hi & sent & _ & Hst) He Hs Hok. unfold eof_ok in *. destruct e as [e| |w]; cbn [bstep] in Hs.
  - specialize (He e eq_refl). destruct (of_writer e) eqn:Eo; [done|].
    destruct (step e (bsys b)) as [y'|] eqn:Es; [|done]. injection Hs as <-. simpl.
    destruct (env_frame _ _ _ Eo Es) as [Hw _]. destruct (produce_dec e) as [[n ->]|Hn].
    + intros Hp. destruct (pull_eof n _ _ Hi Es) as [_ H].
      destruct (H Hp) as [Hpe [a Ha]]. destruct (bst b) as [m|f]; [destruct Hst; congruence|].
      split; [done|]. rewrite Hw. eauto.
    + destruct (env_quiet _ _ _ He Es) as [_ H]. destruct (H Hn) as [-> ->]. by rewrite Hw.
  - destruct (bst b) as [[bufs fin f|]|]; try done. destruct (step _ _) as [y'|] eqn:Es; [|done].
    injection Hs as <-.
    destruct (writer_quiet (EWrite (array_of bufs) fin) _ _ eq_refl Es) as [Hpe _]. simpl. rewrite Hpe.
    intros Hp. by destruct (Hok Hp).
  - destruct (bst b) as [|f]; [done|]. destruct Hst as (bufs & fin & Hw & Hf).
    destruct (step _ _) as [y'|] eqn:Es; [|done]. injection Hs as <-.
    destruct (wake_turn _ _ _ _ _ Hi Hw Es) as (n & _ & _ & Hres & _).
    unfold after_write. simpl. rewrite Hres. destruct f as [|fin' cw| |]; try done.
    simpl in Hf. destruct Hf as (_ & _ & _ & En & Hb & _).
    destruct (cw_next_some _ _ En) as (_ & Hne & [k Hk]). rewrite Hk in Hb.
    by apply app_nil in Hb as [_ [? _]%app_nil].
Qed.

(** *** The turns keep it *)

Definition linv (t : etask) : Prop := eof_place t /\ sink_place t.

Lemma enter_live s y :
  ((forall r, pc s <> Returned r) -> provider_eof y = false) -> read_sink_ (st y) = None ->
  linv (enter s y).
Proof.
  intros Hp Hs. split; unfold eof_place, sink_place, enter; simpl;
    destruct (pc s) as [| |d|d| | |r]; simpl; auto.
  split; [done|]. unfold eof_ok. simpl. by rewrite Hp.
Qed.

Lemma linv_no_eof t :
  linv t -> (forall r, pc (handler t) <> Returned r) -> pc (handler t) <> Ending ->
  provider_eof (stream t) = false.
Proof.
  intros [H _] Hr He. unfold eof_place in H.
  destruct (pc (handler t)) as [| |d|d| | |r]; try done. by destruct (Hr r).
Qed.

Lemma linv_env recv t e t' :
  einv recv t -> linv t -> estep buffer (VEnv e) t = Some t' -> linv t'.
Proof.
  intros Hi Hl H. cbn [estep] in H. destruct (of_env e (stream t)) eqn:Ee; [|done].
  destruct (step e (stream t)) as [y'|] eqn:Es; [|done]. injection H as <-.
  destruct (ei_reach _ _ _ _ _ Hi) as (es & Hr & _). pose proof (reach_write_inv _ _ _ _ Hr) as Hw.
  destruct (env_quiet _ _ _ Ee Es) as [Hsink _]. destruct (env_read_frame _ _ _ Ee Es) as (Ho & _).
  split.
  - pose proof (linv_no_eof t Hl) as Hne. destruct Hl as [Hl _].
    pose proof (place_no_fin _ _ _ (ei_place _ _ _ _ _ Hi)) as Hnf.
    pose proof (ei_place _ _ _ _ _ Hi) as Hp.
    assert (Hkeep : (forall r, pc (handler t) <> Returned r) -> pc (handler t) <> Ending ->
                    provider_eof y' = false).
    { intros H1 H2. apply (env_no_eof e (stream t)); auto. }
    unfold eof_place, place_ok in *. cbn [handler at_op stream] in *.
    destruct (pc (handler t)) as [| |d|d| | |r]; try (by apply Hkeep); [|done].
    destruct (at_op t) as [| |w]; try done.
    destruct Hp as (base & Hb & _). destruct Hl as [Hc Hok].
    assert (Hbs : bstep (BEnv e) (mkBtask (stream t) w) = Some (mkBtask y' w))
      by (cbn [bstep bsys bst]; by rewrite Ho, Es).
    split; [by apply (bcalm_step base BWriteEof (BEnv e) (mkBtask (stream t) w))|].
    by apply (eof_ok_step base (BEnv e) (mkBtask (stream t) w)); [|intros ? [= <-]|..].
  - destruct Hl as [_ Hl]. unfold sink_place in *. cbn [at_op stream] in *.
    destruct (at_op t); [|by apply Hsink|]; rewrite Hl in Hsink; apply eq_None_not_Some;
      rewrite <-Hsink; by intros [].
Qed.

Lemma linv_body recv t e t' :
  einv recv t -> linv t -> e = BTurn \/ (exists w, e = BWake w) -> (forall w, e <> BWake (Some w)) ->
  body_turn e t = Some t' -> linv t'.
Proof.
  intros Hi [Hl Hk] He Hcalm H. unfold body_turn in H. unfold sink_place in Hk.
  destruct (at_op t) as [| |w] eqn:Ea; try done.
  destruct (bstep e _) as [b|] eqn:Eb; [|done]. injection H as <-.
  destruct (body_step _ _ _ He Eb) as (se & Hw & Hs). simpl in Hs.
  destruct (writer_quiet _ _ _ Hw Hs) as [Hpe Hsink].
  pose proof (ei_place _ _ _ _ _ Hi) as Hp. split.
  - unfold eof_place, place_ok in *. cbn [handler at_op stream]. rewrite Ea, Hpe in *.
    destruct (pc (handler t)) as [| |d|d| | |[r|]]; try done.
    destruct Hp as (base & Hb & _). destruct Hl as [Hc Hok]. destruct b as [y' w'].
    split; [by apply (bcalm_step base BWriteEof e (mkBtask (stream t) w))|].
    apply (eof_ok_step base e (mkBtask (stream t) w)); try done.
    intros ? ->. by destruct He as [|[]].
  - unfold sink_place. cbn [at_op stream]. by rewrite Hsink.
Qed.

Lemma linv_read recv t e y' t' :
  einv recv t -> linv t -> pc (handler t) = Reading ->
  match e with ERead p => p = buffer | EReadWake _ => True | _ => False end ->
  step e (stream t) = Some y' -> after_read (stream t) y' (handler t) = Some t' -> linv t'.
Proof.
  intros Hi Hl Hpc He Hs H. destruct (ei_reach _ _ _ _ _ Hi) as (es & Hr & Hf & _).
  destruct (read_sink_after e _ _ (sr_rd _ _ (reach_read_inv _ _ _ _ Hr Hf)) He Hs) as [Hpe Hres].
  rewrite (linv_no_eof t Hl) in Hpe by (by rewrite Hpc).
  unfold after_read in H. destruct (read_result _ _) as [r|].
  - unfold completed in H. destruct (echo_step _ _); [|done]. injection H as <-.
    by apply enter_live, Hres.
  - injection H as <-. split; unfold eof_place, sink_place; cbn [handler at_op stream]; by rewrite ?Hpc.
Qed.

Lemma linv_step recv t e t' :
  einv recv t -> linv t -> calm e = true -> estep buffer e t = Some t' -> linv t'.
Proof.
  intros Hi Hl Hc H. destruct e as [e|rv| |w| |w|].
  - by apply (linv_env recv t e).
  - cbn [estep] in H. pose proof (linv_no_eof t Hl) as Hne. destruct Hl as [_ Hk].
    unfold sink_place in Hk. destruct (at_op t); try done. unfold completed in H.
    destruct (echo_step _ _) as [s'|] eqn:Es; [|done]. injection H as <-.
    apply enter_live; [|done]. intros _. unfold echo_step in Es.
    apply Hne; intros; destruct (pc (handler t)), (rv =? 0)%Z; simpl in Es; done.
  - cbn [estep] in H. destruct (at_op t) eqn:Ea; try done. destruct (pc (handler t)) eqn:Ep; try done.
    destruct (step _ _) as [y'|] eqn:Es; [|done].
    by apply (linv_read recv t (ERead buffer) y').
  - cbn [estep] in H. destruct (at_op t) eqn:Ea; try done.
    destruct (step _ _) as [y'|] eqn:Es; [|done].
    apply (linv_read recv t (EReadWake w) y'); try done.
    pose proof (ei_place _ _ _ _ _ Hi) as Hp. unfold place_ok in Hp. rewrite Ea in Hp.
    by destruct (pc (handler t)) as [| | | | | |[]].
  - by apply (linv_body recv t BTurn); auto.
  - destruct w; [done|]. apply (linv_body recv t (BWake None)); eauto.
  - cbn [estep] in H. pose proof (linv_no_eof t Hl) as Hne. destruct Hl as [_ Hk]. unfold sink_place in Hk.
    destruct (at_op t) as [| |[[|r]|]]; try done. unfold completed in H.
    destruct (echo_step _ _) as [s'|] eqn:Es; [|done]. injection H as <-.
    apply enter_live; [|done]. intros Hr. unfold echo_step in Es.
    destruct (pc (handler t)); try done; [by apply Hne|].
    injection Es as <-. by destruct (Hr (ec r)).
Qed.

Lemma linv_new rq r : linv (etask_new rq r pre id).
Proof. apply enter_live; done. Qed.

(** *** Progress *)

(** Turns of the handler whose awaited operations succeed, resumptions, and pulls. *)
Definition ebenign (e : eev) : bool :=
  match e with
  | VEnv (EProduce _) | VRead | VReadWake None | VTurn | VWake None | VReturn => true
  | VSubmit rv => (rv =? 0)%Z
  | _ => false
  end.

Definition erun_ok (evs : list eev) (t t' : etask) : Prop :=
  erun buffer evs t = Some t' /\ Forall (fun e => ebenign e = true) evs.

(** An open stream on which the whole request was received. *)
Record good (recv : bytes) (t : etask) : Prop := {
  go_einv : einv recv t;
  go_linv : linv t;
  go_open : closed_ (st (stream t)) = false;
  go_eof : read_eof_ (st (stream t)) = true;
}.

Lemma benign_frame e t t' :
  ebenign e = true -> estep buffer e t = Some t' ->
  closed_ (st (stream t')) = closed_ (st (stream t)) /\
  read_eof_ (st (stream t')) = read_eof_ (st (stream t)).
Proof.
  intros He H.
  assert (Hread : forall se y', match se with ERead _ | EReadWake _ => True | _ => False end ->
            step se (stream t) = Some y' -> after_read (stream t) y' (handler t) = Some t' ->
            closed_ (st (stream t')) = closed_ (st (stream t)) /\
            read_eof_ (st (stream t')) = read_eof_ (st (stream t))).
  { intros se y' Hse Hs Ha. destruct (read_turn _ _ _ Hse Hs) as (_ & _ & <- & <- & _).
    unfold after_read, completed in Ha. destruct (read_result _ _); [destruct (echo_step _ _); [|done]|];
      by injection Ha as <-. }
  assert (Hbody : forall be, be = BTurn \/ (exists w, be = BWake w) -> body_turn be t = Some t' ->
            closed_ (st (stream t')) = closed_ (st (stream t)) /\
            read_eof_ (st (stream t')) = read_eof_ (st (stream t))).
  { intros be Hbe Hb. unfold body_turn in Hb. destruct (at_op t); try done.
    destruct (bstep _ _) as [b|] eqn:Eb; [|done]. injection Hb as <-.
    destruct (body_step _ _ _ Hbe Eb) as (se & Hw & Hs).
    by destruct (writer_frame _ _ _ Hw Hs) as (_ & ? & ?). }
  destruct e as [e|rv| |w| |w|]; cbn [estep] in H.
  - destruct e as [m|d| | |p|w|a fin|w|len|n| |w]; try done. cbn [of_env step] in H.
    destruct (_ || _); [done|]. pose proof (producer_read_side len 0 (st (stream t))) as Hr.
    destruct (producer_callback len 0 _) as [[[s ret] f] buf]. injection H as <-.
    simpl in *. by injection Hr as _ _ _ -> -> _.
  - destruct (at_op t); try done. unfold completed in H. destruct (echo_step _ _); [|done]. by injection H as <-.
  - destruct (at_op t); try done. destruct (pc _); try done.
    destruct (step _ _) eqn:Es; [|done]. by apply (Hread (ERead buffer) _ I Es).
  - destruct (at_op t); try done. destruct (step _ _) eqn:Es; [|done].
    by apply (Hread (EReadWake w) _ I Es).
  - eauto.
  - eauto.
  - destruct (at_op t) as [| |[[|r]|]]; try done. unfold completed in H.
    destruct (echo_step _ _); [|done]. by injection H as <-.
Qed.

(** A stream on which nothing more will arrive: the handler's reads do not hang. *)
Record live (recv : bytes) (t : etask) : Prop := {
  lv_einv : einv recv t;
  lv_linv : linv t;
  lv_ended : read_eof_ (st (stream t)) = true \/ closed_ (st (stream t)) = true;
}.

Lemma good_live recv t : good recv t -> live recv t.
Proof. intros [? ? _ ?]. split; auto. Qed.

Lemma benign_invs recv e t t' :
  einv recv t -> linv t -> ebenign e = true -> estep buffer e t = Some t' -> einv recv t' /\ linv t'.
Proof.
  intros Hi Hl He H.
  assert (Hcalm : calm e = true) by (destruct e as [|?| |[]| |[]|]; done).
  split; [|by apply (linv_step recv t e)].
  replace recv with (recv ++ match e with VEnv e => data_in e | _ => [] end)
    by (destruct e as [[]| | | | | |]; by rewrite ?app_nil_r).
  by apply (einv_step buffer buffer_window buffer_room _ _ _ _ t e).
Qed.

Lemma live_step recv e t t' :
  live recv t -> ebenign e = true -> estep buffer e t = Some t' -> live recv t'.
Proof.
  intros [Hi Hl Hd] He H. destruct (benign_frame _ _ _ He H) as [Hc' Hr'].
  destruct (benign_invs recv e t t' Hi Hl He H). split; [done|done|]. by rewrite Hc', Hr'.
Qed.

Lemma good_step recv e t t' :
  good recv t -> ebenign e = true -> estep buffer e t = Some t' -> good recv t'.
Proof.
  intros [Hi Hl Hc Hr] He H. destruct (benign_frame _ _ _ He H) as [Hc' Hr'].
  destruct (benign_invs recv e t t' Hi Hl He H). split; [done|done|congruence..].
Qed.

Lemma good_run recv evs t t' : good recv t -> erun_ok evs t t' -> good recv t'.
Proof.
  intros Hg [Hr Hf]. revert t Hg Hr; induction evs as [|e evs IH]; intros t Hg Hr; simpl in Hr.
  - by injection Hr as <-.
  - inversion Hf; subst. destruct (estep buffer e t) as [t1|] eqn:E; [|done].
    apply (IH H2 t1); [by apply (good_step recv e t) | done].
Qed.

Lemma erun_app evs evs' t :
  erun buffer (evs ++ evs') t = match erun buffer evs t with Some t => erun buffer evs' t | None => None end.
Proof.
  revert t; induction evs as [|e evs IH]; intros t; simpl; [done|].
  destruct (estep buffer e t); [apply IH | done].
Qed.

(** The handler can return success. *)
Definition finishes_ok (t : etask) : Prop :=
  exists evs t', erun_ok evs t t' /\ pc (handler t') = Returned None.

Lemma finishes_ok_more evs t t1 : erun_ok evs t t1 -> finishes_ok t1 -> finishes_ok t.
Proof.
  intros [Hr Hf] (evs' & t' & [Hr' Hf'] & Hp). exists (evs ++ evs'), t'. split; [|done].
  split; [by rewrite erun_app, Hr | by apply Forall_app].
Qed.

Lemma erun_one e t t' : ebenign e = true -> estep buffer e t = Some t' -> erun_ok [e] t t'.
Proof. intros He H. split; [simpl; by rewrite H | by repeat constructor]. Qed.

(** *** The stages of the handler *)

(** A run of the body operation, as a run of the handler. *)
Definition lift (e : bev) : eev :=
  match e with BEnv e => VEnv e | BTurn => VTurn | BWake w => VWake w end.

Lemma lift_run es s y w b :
  brun es (mkBtask y w) = Some b -> Forall (fun e => bbenign e = true) es ->
  erun_ok (map lift es) (mkEtask s (ABody w) y) (mkEtask s (ABody (bst b)) (bsys b)).
Proof.
  revert y w; induction es as [|e es IH]; intros y w Hr Hf; cbn [brun] in Hr.
  - injection Hr as <-. by split.
  - inversion Hf as [|? ? He Hf']; subst. destruct (bstep e _) as [[y1 w1]|] eqn:E; [|done].
    destruct (IH y1 w1 Hr Hf') as [Hr' Hb].
    assert (Hs : estep buffer (lift e) (mkEtask s (ABody w) y) = Some (mkEtask s (ABody w1) y1)).
    { destruct e as [e| |w']; cbn [lift estep]; [|unfold body_turn; cbn [at_op stream]; by rewrite E..].
      cbn [bstep bsys bst] in E. destruct e; try done. cbn [of_writer] in E. cbn [of_env stream].
      destruct (step _ y); [|done]. by injection E as -> ->. }
    split; [cbn [map erun]; by rewrite Hs|]. constructor; [|done].
    by destruct e as [[]| |[]].
Qed.

(** The body operation the handler is in returns success. *)
Lemma body_stage recv t w base op :
  good recv t -> at_op t = ABody w -> binv base op (mkBtask (stream t) w) ->
  bcalm (mkBtask (stream t) w) -> eof_ok (mkBtask (stream t) w) ->
  exists evs y v, erun_ok evs t (mkEtask (handler t) (ABody (WAt (WReturn (IoResult None v)))) y).
Proof.
  intros Hg Ha Hb Hc He.
  destruct (body_returns base op _ Hb Hc (go_open _ _ Hg) He) as (es & b & v & Hr & Hf & Hst).
  pose proof (lift_run es (handler t) _ _ _ Hr Hf) as Hl. rewrite Hst in Hl.
  destruct t as [s a y]. simpl in *. subst a. by exists (map lift es), (bsys b), v.
Qed.

Lemma ending_finishes recv t : good recv t -> pc (handler t) = Ending -> finishes_ok t.
Proof.
  intros Hg Hpc. pose proof (ei_place _ _ _ _ _ (go_einv _ _ Hg)) as Hp.
  destruct (go_linv _ _ Hg) as [Hl _]. unfold place_ok, eof_place in *. rewrite Hpc in Hp, Hl.
  destruct (at_op t) as [| |w] eqn:Ea; try done. destruct Hp as (base & Hb & _). destruct Hl as [Hc He].
  destruct (body_stage recv t w base BWriteEof Hg Ea Hb Hc He) as (evs & y & v & Hr).
  apply (finishes_ok_more _ _ _ Hr).
  exists [VReturn]. eexists. split; [apply erun_one; [done|]|].
  - cbn [estep at_op handler stream]. rewrite Hpc. unfold completed, echo_step. by rewrite Hpc.
  - done.
Qed.

Lemma submit_turn t s' :
  at_op t = ARun -> echo_step (Submitted None) (handler t) = Some s' ->
  erun_ok [VSubmit 0] t (enter s' (stream t)).
Proof.
  intros Ha Hs. apply erun_one; [done|]. cbn [estep]. rewrite Ha. simpl. unfold completed. by rewrite Hs.
Qed.

Lemma last_submit_finishes recv t : good recv t -> pc (handler t) = LastSubmit -> finishes_ok t.
Proof.
  intros Hg Hpc. pose proof (ei_place _ _ _ _ _ (go_einv _ _ Hg)) as Hp. unfold place_ok in Hp.
  rewrite Hpc in Hp. destruct (at_op t) eqn:Ea; try done.
  assert (Hs : echo_step (Submitted None) (handler t) = Some (do_write_eof (handler t)))
    by (unfold echo_step; by rewrite Hpc).
  pose proof (submit_turn t _ Ea Hs) as Hr. apply (finishes_ok_more _ _ _ Hr).
  by apply (ending_finishes recv); [apply (good_run recv [VSubmit 0] t)|].
Qed.

Lemma after_body_finishes recv s y :
  good recv (enter (after_body s) y) -> finishes_ok (enter (after_body s) y).
Proof.
  intros Hg. destruct (submitted s) eqn:Es.
  - apply (ending_finishes recv); [done|]. unfold after_body. simpl. by rewrite Es.
  - apply (last_submit_finishes recv); [done|]. unfold after_body. simpl. by rewrite Es.
Qed.

(** A chunk is written back, and the handler reads again. *)
Lemma writing_stage recv t d :
  good recv t -> pc (handler t) = Writing d ->
  exists evs t', erun_ok evs t t' /\ pc (handler t') = Reading /\ got (handler t') = got (handler t).
Proof.
  intros Hg Hpc. pose proof (ei_place _ _ _ _ _ (go_einv _ _ Hg)) as Hp.
  pose proof (linv_no_eof t (go_linv _ _ Hg)) as Hpe. unfold place_ok in Hp. rewrite Hpc in Hp, Hpe.
  destruct (at_op t) as [| |w] eqn:Ea; try done. destruct Hp as (base & _ & Hb & Hc).
  destruct (body_stage recv t w base (BWrite [d]) Hg Ea Hb Hc) as (evs & y & v & Hr & Hf).
  { intros H. simpl in H. by rewrite Hpe in H. }
  exists (evs ++ [VReturn]). eexists. split; [split|].
  - rewrite erun_app, Hr. cbn [erun estep at_op handler stream]. rewrite Hpc.
    unfold completed, echo_step. by rewrite Hpc.
  - apply Forall_app. split; [done | by repeat constructor].
  - done.
Qed.

Lemma first_submit_stage recv t d :
  good recv t -> pc (handler t) = FirstSubmit d ->
  exists evs t', erun_ok evs t t' /\ pc (handler t') = Reading /\ got (handler t') = got (handler t).
Proof.
  intros Hg Hpc. pose proof (ei_place _ _ _ _ _ (go_einv _ _ Hg)) as Hp. unfold place_ok in Hp.
  rewrite Hpc in Hp. destruct (at_op t) eqn:Ea; try done.
  assert (Hs : echo_step (Submitted None) (handler t)
               = Some (do_write d ((handler t) <| submitted := true |>)))
    by (unfold echo_step; by rewrite Hpc).
  pose proof (submit_turn t _ Ea Hs) as [Hr Hf].
  destruct (writing_stage recv _ d (good_run recv _ _ _ Hg (conj Hr Hf)) eq_refl)
    as (evs & t' & [Hr' Hf'] & Hpc' & Hgot).
  exists ([VSubmit 0] ++ evs), t'. split; [|done].
  split; [by rewrite erun_app, Hr | by apply Forall_app].
Qed.

(** Turns of the handler itself, [submit()] apart. *)
Definition own (e : eev) : bool :=
  match e with VRead | VReadWake None | VTurn | VWake None | VReturn => true | _ => false end.

Definition erun_own (evs : list eev) (t t' : etask) : Prop :=
  erun buffer evs t = Some t' /\ Forall (fun e => own e = true) evs.

Lemma own_ok evs t t' : erun_own evs t t' -> erun_ok evs t t'.
Proof. intros [Hr Hf]. split; [done|]. eapply Forall_impl; [exact Hf|]. by intros [|?| |[]| |[]|]. Qed.

Lemma own_one e t t' : own e = true -> estep buffer e t = Some t' -> erun_own [e] t t'.
Proof. intros He H. split; [simpl; by rewrite H | by repeat constructor]. Qed.

Lemma own_app evs evs' t t1 t' :
  erun_own evs t t1 -> erun_own evs' t1 t' -> erun_own (evs ++ evs') t t'.
Proof. intros [Hr Hf] [Hr' Hf']. split; [by rewrite erun_app, Hr | by apply Forall_app]. Qed.

(** A read of the handler brings data or the end of the body. *)
Definition read_done (evs : list eev) (t : etask) : Prop :=
  exists y r s', erun_own evs t (enter s' y) /\
    echo_step (Read_ (ec r) (read_mem (value r))) (handler t) = Some s' /\
    (ec r = None -> read_mem (value r) <> []).

Lemma reading_step e d s : pc s = Reading -> is_Some (echo_step (Read_ e d) s).
Proof. intros Hpc. unfold echo_step. rewrite Hpc. destruct e; [by eexists|]. destruct (negb _); by eexists. Qed.

Lemma read_turn_done e v t y' r :
  pc (handler t) = Reading -> rd_inv (st (stream t)) ->
  match e with ERead p => p = buffer | EReadWake _ => True | _ => False end ->
  step e (stream t) = Some y' -> read_result (stream t) y' = Some r ->
  own v = true -> estep buffer v t = after_read (stream t) y' (handler t) ->
  read_done [v] t.
Proof.
  intros Hpc Hrd He Hs Hres Hv Hst.
  destruct (read_sink_after e _ _ Hrd He Hs) as [_ Hr]. rewrite Hres in Hr. destruct Hr as [_ Hne].
  destruct (reading_step (ec r) (read_mem (value r)) _ Hpc) as [s' Hs'].
  exists y', r, s'. split; [|done]. apply own_one; [done|].
  rewrite Hst. unfold after_read, completed. by rewrite Hres, Hs'.
Qed.

Lemma parked_stage recv t :
  live recv t -> pc (handler t) = Reading -> at_op t = ARead -> read_done [VReadWake None] t.
Proof.
  intros Hg Hpc Ha. destruct (ei_reach _ _ _ _ _ (lv_einv _ _ Hg)) as (es & Hr & Hf & _).
  destruct (lv_linv _ _ Hg) as [_ Hk]. unfold sink_place in Hk. rewrite Ha in Hk. destruct Hk as [k Hk].
  destruct (parked_read_wakes pre id es (stream t) k Hr Hf Hk) as (y' & r & Hs & Hlog & _).
  { right. exact (lv_ended _ _ Hg). }
  apply (read_turn_done (EReadWake None) (VReadWake None) t y' r); try done.
  - exact (sr_rd _ _ (reach_read_inv _ _ _ _ Hr Hf)).
  - unfold read_result. by rewrite Hlog, drop_app_length.
  - cbn [estep]. by rewrite Ha, Hs.
Qed.

Lemma reading_stage recv t :
  live recv t -> pc (handler t) = Reading -> exists evs, read_done evs t.
Proof.
  intros Hg Hpc. pose proof (ei_place _ _ _ _ _ (lv_einv _ _ Hg)) as Hp. unfold place_ok in Hp.
  rewrite Hpc in Hp. destruct (at_op t) eqn:Ea; [|eexists; by apply (parked_stage recv)|done].
  destruct (ei_reach _ _ _ _ _ (lv_einv _ _ Hg)) as (es & Hr & Hf & _).
  destruct (lv_linv _ _ Hg) as [_ Hk]. unfold sink_place in Hk. rewrite Ea in Hk.
  assert (Hs : is_Some (step (ERead buffer) (stream t))).
  { cbn [step]. rewrite Hk. destruct (read_some _ _) as [[]]. by eexists. }
  destruct Hs as [y' Hs].
  assert (He : estep buffer VRead t = after_read (stream t) y' (handler t))
    by (cbn [estep]; by rewrite Ea, Hpc, Hs).
  destruct (read_result (stream t) y') as [r|] eqn:Er.
  - exists [VRead]. apply (read_turn_done (ERead buffer) VRead t y' r); try done.
    exact (sr_rd _ _ (reach_read_inv _ _ _ _ Hr Hf)).
  - assert (Hr1 : estep buffer VRead t = Some (mkEtask (handler t) ARead y')).
    { rewrite He. unfold after_read. by rewrite Er. }
    destruct (parked_stage recv _ (live_step recv VRead _ _ Hg eq_refl Hr1) Hpc eq_refl)
      as (y & r & s' & Hr2 & Hs' & Hne).
    exists ([VRead] ++ [VReadWake None]), y, r, s'. split; [|done].
    eapply own_app; [by apply own_one | exact Hr2].
Qed.

(** *** The read loop *)

Lemma got_le recv t : einv recv t -> length (got (handler t)) <= length recv.
Proof.
  intros Hi. destruct (ei_reach _ _ _ _ _ Hi) as (es & Hr & Hf & _ & <-).
  rewrite (sr_fifo _ _ (reach_read_inv _ _ _ _ Hr Hf)), (ei_got _ _ _ _ _ Hi), length_app. lia.
Qed.

Lemma reading_finishes n recv t :
  good recv t -> pc (handler t) = Reading -> length recv - length (got (handler t)) < n -> finishes_ok t.
Proof.
  revert t; induction n as [|n IH]; intros t Hg Hpc Hn; [lia|].
  destruct (reading_stage recv t (good_live _ _ Hg) Hpc) as (evs & y & [er v] & s' & Hr%own_ok & Hs & Hne).
  pose proof (good_run recv _ _ _ Hg Hr) as Hg'. apply (finishes_ok_more _ _ _ Hr).
  unfold echo_step in Hs. rewrite Hpc in Hs. cbn [ec value] in Hs, Hne. destruct er as [er|].
  - injection Hs as <-. by apply (after_body_finishes recv).
  - assert (Hstage : exists evs t', erun_ok evs (enter s' y) t' /\ pc (handler t') = Reading /\
              got (handler t') = got (handler t) ++ read_mem v).
    { destruct (submitted (handler t)) eqn:Esub; cbn in Hs; rewrite Esub in Hs; injection Hs as <-.
      - by destruct (writing_stage recv _ (read_mem v) Hg' eq_refl) as (? & ? & ? & ? & ?); eauto.
      - by destruct (first_submit_stage recv _ (read_mem v) Hg' eq_refl) as (? & ? & ? & ? & ?); eauto. }
    destruct Hstage as (evs' & t' & Hr' & Hpc' & Hgot). apply (finishes_ok_more _ _ _ Hr').
    pose proof (good_run recv _ _ _ Hg' Hr') as Hg''. apply IH; [done|done|].
    pose proof (got_le recv t' (go_einv _ _ Hg'')) as Hle. rewrite Hgot, length_app in *.
    specialize (Hne eq_refl). destruct (read_mem v); [done|]. simpl in *. lia.
Qed.

Lemma good_finishes recv t :
  good recv t -> (forall e, pc (handler t) <> Returned (Some e)) -> finishes_ok t.
Proof.
  intros Hg Hne. destruct (pc (handler t)) as [| |d|d| | |[e|]] eqn:Hpc.
  - pose proof (ei_place _ _ _ _ _ (go_einv _ _ Hg)) as Hp. unfold place_ok in Hp.
    rewrite Hpc in Hp. destruct (at_op t) eqn:Ea; try done.
    assert (Hs : echo_step (Submitted None) (handler t)
                 = Some ((handler t) <| submitted := true |> <| pc := Reading |>))
      by (unfold echo_step; by rewrite Hpc).
    pose proof (submit_turn t _ Ea Hs) as Hr. apply (finishes_ok_more _ _ _ Hr).
    by eapply (reading_finishes _ recv); [apply (good_run recv [VSubmit 0] t)| |apply Nat.lt_succ_diag_r].
  - by eapply (reading_finishes _ recv); [| |apply Nat.lt_succ_diag_r].
  - destruct (first_submit_stage recv t d Hg Hpc) as (evs & t' & Hr & Hpc' & _).
    apply (finishes_ok_more _ _ _ Hr).
    by eapply (reading_finishes _ recv); [apply (good_run recv evs t)| |apply Nat.lt_succ_diag_r].
  - destruct (writing_stage recv t d Hg Hpc) as (evs & t' & Hr & Hpc' & _).
    apply (finishes_ok_more _ _ _ Hr).
    by eapply (reading_finishes _ recv); [apply (good_run recv evs t)| |apply Nat.lt_succ_diag_r].
  - by apply (last_submit_finishes recv).
  - by apply (ending_finishes recv).
  - by destruct (Hne e).
  - exists [], t. by split; [split|].
Qed.

Lemma linv_run recv evs t t' :
  einv recv t -> linv t -> Forall (fun e => calm e = true) evs -> erun buffer evs t = Some t' -> linv t'.
Proof.
  revert recv t; induction evs as [|e evs IH]; intros recv t Hi Hl Hc H; simpl in H.
  - by injection H as <-.
  - inversion Hc; subst. destruct (estep buffer e t) as [t1|] eqn:E; [|done].
    eapply (IH _ t1); [by apply (einv_step buffer buffer_window buffer_room _ _ _ recv t e) | |done..].
    by apply (linv_step recv t e).
Qed.

End EchoLive.

(** ** The handler finishes *)

Section EchoCompletes.
Context {C : CapyOps} {L : CapyLaws C} {G : NgConsts} {GL : NgLaws G}.
Context {W : CapyWrite} {WL : CapyWriteLaws W}.
Context (buffer : buffer_param).
Hypothesis buffer_window : bp_one_window buffer = true.
Hypothesis buffer_room : 0 < bp_room buffer.
Context (pre : Z -> string) (id : Z).

(** The echo handler never hangs on a request that was received whole: from every
    state it can have reached on a stream that is still open and on which END_STREAM
    arrived, whatever it is suspended in, unless it gave up because [submit()] failed,
    the completions of what it awaits and pulls by nghttp2 bring it to a successful
    return; nghttp2 has then pulled exactly the request body and was told of its end. *)
Theorem echo_completes rq r evs t :
  erun buffer evs (etask_new rq r pre id) = Some t -> Forall (fun e => calm e = true) evs ->
  closed_ (st (stream t)) = false -> read_eof_ (st (stream t)) = true ->
  (forall e, pc (handler t) <> Returned (Some e)) ->
  exists evs' t', erun buffer evs' t = Some t' /\ Forall (fun e => ebenign e = true) evs' /\
    pc (handler t') = Returned None /\ pulled (log (stream t')) = received_body evs /\
    provider_eof (stream t') = true.
Proof.
  intros Hrun Hc Ho He Hne. set (cl := rq_content_length rq).
  assert (Hg : good pre id cl (received_body evs) t).
  { pose proof (einv_new pre id cl rq r eq_refl) as Hi. split; [|..|done|done].
    - exact (einv_run buffer buffer_window buffer_room pre id cl [] evs _ t Hi Hc Hrun).
    - exact (linv_run buffer buffer_window buffer_room pre id cl [] evs _ t Hi
               (linv_new pre id rq r) Hc Hrun). }
  destruct (good_finishes buffer buffer_window buffer_room pre id cl _ t Hg Hne)
    as (evs' & t' & Hr & Hpc).
  exists evs', t'. destruct Hr as [Hr Hf]. repeat (split; [done|]).
  destruct (good_run buffer buffer_window buffer_room pre id cl _ _ _ _ Hg (conj Hr Hf)) as [Hi' _ Ho' _].
  destruct (einv_returned pre id cl _ t' Hi' Hpc) as (_ & _ & H). by destruct (H Ho') as (? & _ & ?).
Qed.

End EchoCompletes.

(** ** A concrete run *)

Module EchoLiveDemo.
#[local] Existing Instance capy_ref.
#[local] Existing Instance ng_ref.
#[local] Existing Instance capy_write_ref.
Import EchoStreamDemo.

(** The body has arrived, the handler is in the middle of writing back its first chunk. *)
Definition half : list eev :=
  [VRead; VEnv (EData (bytes_of "abcd")); VReadWake None; VSubmit 0; VTurn; VEnv (EProduce 2);
   VEnv (EData (bytes_of "e")); VEnv EReadEof].
Definition t2 : etask := default t0 (erun buf half t0).

Lemma echo_completes_witness :
  exists evs' t', erun buf evs' t2 = Some t' /\ pc (handler t') = Returned None /\
    pulled (log (stream t')) = bytes_of "abcde".
Proof.
  destruct (echo_completes buf eq_refl ltac:(vm_compute; lia) (fun _ => "server.1") 1
              rq (mkResponse 0 None) half t2) as (evs' & t' & H1 & _ & H3 & H4 & _).
  - by vm_compute.
  - by repeat constructor.
  - by vm_compute.
  - by vm_compute.
  - intros e. by vm_compute.
  - exists evs', t'. split; [exact H1|]. split; [exact H3|]. rewrite H4. by vm_compute.
Defined.

End EchoLiveDemo.
