(* ===== verification/EchoSafe.v ===== *)
(** * What the echo handler has sent at any time

    At every moment of a run of the echo handler on its stream (EchoStream), returned or
    not, failed or not, nghttp2 has pulled only leading bytes of what was received; and
    when it was told of the end of the response, the request had ended and all of it was
    pulled. *)

From S2P Require Import Prelude Capy Nghttp2 Charconv Stream StreamRead StreamWrite StreamSys StreamProps.
From S2P Require Import Session SessionSys SessionProps SessionHeaders Messages Composed Echo.
From S2P Require Import EchoStream EchoLive.

(** ** Only what was received *)

Section Pulled.
Context {C : CapyOps} {L : CapyLaws C} {G : NgConsts} {GL : NgLaws G}.
Context {W : CapyWrite} {WL : CapyWriteLaws W}.

(** What a body operation has written, with what it is writing, is leading bytes of
    what it is to write. *)
Lemma frame_prefix op sent bufs fin f n :
  frame_ok op sent bufs fin f ->
  sent ++ take n (array_bytes (array_of bufs)) `prefix_of` body op.
Proof.
  intros Hf. destruct f as [|e w|m|]; simpl in Hf.
  - destruct Hf as (-> & _ & ->). apply prefix_take.
  - destruct Hf as (_ & _ & _ & En & <- & _). destruct (cw_next_some _ _ En) as (Hlen & _ & Hpre).
    apply prefix_app. rewrite array_bytes_of by done. etrans; [apply prefix_take | done].
  - destruct Hf as (-> & _ & _ & -> & _). rewrite array_bytes_of by (simpl; lia).
    simpl. by rewrite take_nil, app_nil_r.
  - destruct Hf as (-> & _ & -> & ->). rewrite array_bytes_of by (simpl; lia).
    simpl. by rewrite take_nil.
Qed.

Lemma binv_pulled base op b :
  binv base op b -> pulled (log (bsys b)) `prefix_of` base ++ body op.
Proof.
  intros (Hi & sent & Hrep & Hst). rewrite (sw_bytes _ Hi), Hrep, <-app_assoc. apply prefix_app.
  destruct (bst b) as [[bufs fin f|r]|f].
  - destruct Hst as [-> Hf]. simpl. exact (frame_prefix _ _ _ _ _ 0 Hf).
  - destruct Hst as (-> & -> & _). simpl. rewrite app_nil_r. apply prefix_take.
  - destruct Hst as (bufs & fin & -> & Hf). simpl. by apply (frame_prefix _ _ _ _ _ _ Hf).
Qed.

(** [write_eof()] writes nothing. *)
Lemma eof_reported base b : binv base BWriteEof b -> reported (log (bsys b)) = base.
Proof.
  intros (_ & sent & -> & Hst). assert (Hs : sent `prefix_of` body BWriteEof).
  { destruct (bst b) as [[bufs fin f|r]|f].
    - destruct Hst as [_ Hf]. pose proof (frame_prefix _ _ _ _ _ 0 Hf) as H. by rewrite app_nil_r in H.
    - destruct Hst as (_ & -> & _). apply prefix_take.
    - destruct Hst as (bufs & fin & _ & Hf). pose proof (frame_prefix _ _ _ _ _ 0 Hf) as H.
      by rewrite app_nil_r in H. }
  apply prefix_nil_inv in Hs as ->. apply app_nil_r.
Qed.

Lemma eof_pulled base b : binv base BWriteEof b -> pulled (log (bsys b)) = base.
Proof.
  intros Hb. pose proof (binv_pulled _ _ _ Hb) as Hpre. simpl in Hpre. rewrite app_nil_r in Hpre.
  apply (anti_symm prefix); [done|]. rewrite (sw_bytes _ (proj1 Hb)), (eof_reported _ _ Hb). by eexists.
Qed.

Lemma idle_pulled y : sys_write_inv y -> writer y = None -> pulled (log y) = reported (log y).
Proof. intros Hi Hw. rewrite (sw_bytes _ Hi), Hw. simpl. by rewrite app_nil_r. Qed.

Context (pre : Z -> string) (id : Z) (cl : option N).

Lemma einv_pulled recv t :
  einv pre id cl recv t -> pulled (log (stream t)) `prefix_of` got (handler t).
Proof.
  intros [(es & Hr & _) _ [_ He] Hp _]. pose proof (reach_write_inv _ _ _ _ Hr) as Hi.
  unfold place_ok in Hp. destruct (pc (handler t)) as [| |d|d| | |[e|]], (at_op t) as [| |w]; try done.
  - destruct Hp as [Hw Hrep]. rewrite idle_pulled, Hrep by done. apply prefix_nil.
  - destruct Hp as [Hw Hrep]. by rewrite idle_pulled, Hrep.
  - destruct Hp as [Hw Hrep]. by rewrite idle_pulled, Hrep.
  - destruct Hp as [Hw Hrep]. rewrite idle_pulled, Hrep by done. apply prefix_nil.
  - destruct Hp as (base & -> & Hb & _). pose proof (binv_pulled _ _ _ Hb) as H.
    simpl in H. by rewrite app_nil_r in H.
  - destruct Hp as [Hw Hrep]. rewrite idle_pulled, Hrep by done. apply prefix_nil.
  - destruct Hp as (base & Hb & Hpre & _). pose proof (binv_pulled _ _ _ Hb) as H.
    simpl in H. rewrite app_nil_r in H. by etrans.
  - destruct Hp as [Hw Hrep]. by rewrite idle_pulled.
  - destruct Hp as (Hw & Hrep & _). by rewrite idle_pulled, Hrep.
Qed.

Lemma einv_got recv t : einv pre id cl recv t -> got (handler t) `prefix_of` recv.
Proof.
  intros [(es & Hr & Hf & _ & <-) Hg _ _ _].
  rewrite (sr_fifo _ _ (reach_read_inv pre id es _ Hr Hf)), Hg. by eexists.
Qed.

End Pulled.

(** ** The end *)

Section End.
Context {C : CapyOps} {L : CapyLaws C} {G : NgConsts} {GL : NgLaws G}.
Context {W : CapyWrite} {WL : CapyWriteLaws W}.
Context (buffer : buffer_param).
Hypothesis buffer_window : bp_one_window buffer = true.
Hypothesis buffer_room : 0 < bp_room buffer.
Context (pre : Z -> string) (id : Z) (cl : option N).
Local Abbreviation einv := (einv pre id cl).

(** [write_eof()] is offered, and the end is signalled, only when everything has been
    received and echoed. *)
Record winv (recv : bytes) (t : etask) : Prop := {
  wi_end f : pc (handler t) = Ending -> at_op t = ABody (WIn f) ->
    got (handler t) = recv /\ read_eof_ (st (stream t)) = true /\
    reported (log (stream t)) = got (handler t);
  wi_eof : provider_eof (stream t) = true ->
    got (handler t) = recv /\ read_eof_ (st (stream t)) = true /\
    pulled (log (stream t)) = got (handler t);
}.

(** A pull that signals the end finishes the handler's [write_eof()]. *)
Lemma pull_ends recv t len y' :
  einv recv t -> step (EProduce len) (stream t) = Some y' -> provider_eof y' = true ->
  pc (handler t) = Ending /\ (exists f, at_op t = ABody (WIn f)) /\
  pulled (log y') = reported (log (stream t)).
Proof.
  intros Hi Hs He. pose proof Hi as [(es & Hr & _) _ _ Hp _]. pose proof (reach_write_inv _ _ _ _ Hr) as Hw.
  destruct (pull_eof len _ _ Hw Hs) as [_ H]. destruct (H He) as [_ [a Ha]]. clear H.
  pose proof (place_no_fin _ _ _ Hp) as Hno. unfold place_ok in Hp.
  destruct (pc (handler t)) as [| |d|d| | |[e|]] eqn:Epc;
    try (by destruct (Hno ltac:(done) ltac:(done) a));
    destruct (at_op t) as [| |w]; try done;
    [|destruct Hp; congruence|destruct Hp; congruence].
  destruct Hp as (base & Hb & _). pose proof Hb as (_ & sent & _ & Hst). simpl in Hst.
  destruct w as [n|f]; [destruct Hst; congruence|]. split; [done|]. split; [by exists f|].
  assert (Hb' : binv base BWriteEof (mkBtask y' (WIn f))).
  { apply (binv_step base BWriteEof (BEnv (EProduce len)) (mkBtask (stream t) (WIn f))); [done|].
    cbn [bstep bsys bst of_writer]. by rewrite Hs. }
  pose proof (eof_pulled _ _ Hb') as H1. pose proof (eof_reported _ _ Hb) as H2. simpl in H1, H2. congruence.
Qed.

(** What the handler's own turns leave alone. *)
Lemma writer_pulled e y y' :
  of_writer e = true -> step e y = Some y' -> pulled (log y') = pulled (log y).
Proof.
  intros He H. destruct e; try done; simpl in H; unfold note, write_impl in H;
    break; simplify_eq; simpl; autorewrite with stream_log; done.
Qed.

Lemma env_pulled e y y' :
  of_env e y = true -> (forall n, e <> EProduce n) -> step e y = Some y' ->
  pulled (log y') = pulled (log y) /\ reported (log y') = reported (log y).
Proof.
  intros He Hn H. destruct e as [m|d| | |p|w|a fin|w|len|n| |w]; try done; simpl in H;
    try (by injection H as <-). by destruct (Hn len).
Qed.

Lemma winv_env recv t e t' :
  einv recv t -> winv recv t -> estep buffer (VEnv e) t = Some t' -> winv (recv ++ data_in e) t'.
Proof.
  intros Hi [H1 H2] H. cbn [estep] in H. destruct (of_env e (stream t)) eqn:Ee; [|done].
  destruct (step e (stream t)) as [y'|] eqn:Es; [|done]. injection H as <-.
  destruct (env_read_frame _ _ _ Ee Es) as (Ho & _ & Hre). destruct (env_frame _ _ _ Ho Es) as [_ Hrep].
  assert (Hd : read_eof_ (st (stream t)) = true -> recv ++ data_in e = recv).
  { intros H. destruct e; simpl in *; rewrite ?app_nil_r; try done. by rewrite H in Ee. }
  split; cbn [handler at_op stream].
  - intros f Hpc Ha. destruct (H1 f Hpc Ha) as (-> & Hr & Hg). rewrite Hd, Hrep by done. auto.
  - intros He. destruct (produce_dec e) as [[n ->]|Hn].
    + destruct (pull_ends recv t n y' Hi Es He) as (Hpc & [f Ha] & ->).
      destruct (H1 f Hpc Ha) as (-> & Hr & Hg). rewrite app_nil_r. auto.
    + destruct (env_quiet _ _ _ Ee Es) as [_ Hq]. destruct (Hq Hn) as [Hpe _].
      destruct (env_pulled _ _ _ Ee Hn Es) as [-> _]. rewrite Hpe in He.
      destruct (H2 He) as (-> & Hr & Hg). rewrite Hd by done. auto.
Qed.

Lemma winv_body recv t e t' :
  einv recv t -> linv t -> winv recv t -> e = BTurn \/ (exists w, e = BWake w) ->
  body_turn e t = Some t' -> winv recv t'.
Proof.
  intros Hi [Hl _] [H1 H2] He H. unfold body_turn in H. destruct (at_op t) as [| |w] eqn:Ea; try done.
  destruct (bstep e _) as [b|] eqn:Eb; [|done]. injection H as <-.
  destruct (body_step _ _ _ He Eb) as (se & Hw & Hs). simpl in Hs.
  destruct (writer_frame _ _ _ Hw Hs) as (_ & Hre & _). destruct (writer_quiet _ _ _ Hw Hs) as [Hpe _].
  split; cbn [handler at_op stream]; rewrite ?Hre, ?Hpe, ?(writer_pulled _ _ _ Hw Hs); [|exact H2].
  intros f Hpc [= Hb]. pose proof (ei_place _ _ _ _ _ Hi) as Hp. pose proof (ei_end _ _ _ _ _ Hi) as Hend.
  unfold place_ok, end_ok, eof_place in *. rewrite Hpc, Ea in Hp. rewrite Hpc in Hend.
  destruct Hp as (base & Hbi & _ & Hor).
  destruct He as [->|[w' ->]]; cbn [bstep bst bsys] in Eb.
  2: { destruct w as [|f0]; [done|]. destruct (step _ _) as [y'|] eqn:Es; [|done]. injection Eb as <-.
       destruct Hbi as (Hwi & _ & _ & bufs & fin & Hwr & _). cbn [bsys] in Hwi, Hwr.
       destruct (wake_turn _ _ _ _ _ Hwi Hwr Es) as (n & _ & _ & Hres & _).
       unfold after_write in Hb. simpl in Hb. by rewrite Hres in Hb. }
  destruct w as [[bufs fin f0|]|]; try done. destruct (step _ _) as [y'|] eqn:Es; [|done].
  injection Eb as <-. destruct (call_turn _ _ _ _ Es) as (_ & Hrep & _ & Hif). simpl.
  destruct (closed_ (st (stream t))) eqn:Ec.
  { destruct Hif as [Hr _]. unfold after_write in Hb. simpl in Hb. by rewrite Hr in Hb. }
  destruct (Hend eq_refl) as [? ?]. rewrite Hrep. pose proof (eof_reported _ _ Hbi) as Hrb. simpl in Hrb.
  destruct Hor as [Hb0|[? _]]; [|done]. repeat split; congruence.
Qed.

(** The handler goes on to its next operation. *)
Lemma winv_enter recv s y :
  (provider_eof y = true -> got s = recv /\ read_eof_ (st y) = true /\ pulled (log y) = got s) ->
  winv recv (enter s y).
Proof.
  intros H. split; [|exact H]. intros f Hpc. unfold enter in *. cbn [handler at_op] in *. by rewrite Hpc.
Qed.

Lemma winv_read recv t e y' t' :
  einv recv t -> linv t -> winv recv t -> pc (handler t) = Reading ->
  match e with ERead p => p = buffer | EReadWake _ => True | _ => False end ->
  step e (stream t) = Some y' -> after_read (stream t) y' (handler t) = Some t' -> winv recv t'.
Proof.
  intros Hi Hl _ Hpc He Hs H. destruct (ei_reach _ _ _ _ _ Hi) as (es & Hr & Hf & _).
  destruct (read_sink_after buffer buffer_window buffer_room e _ _ (sr_rd _ _ (reach_read_inv _ _ _ _ Hr Hf)) He Hs) as [Hpe _].
  rewrite (linv_no_eof t Hl) in Hpe by (by rewrite Hpc).
  unfold after_read in H. destruct (read_result _ _) as [r|].
  - unfold completed in H. destruct (echo_step _ _); [|done]. injection H as <-.
    apply winv_enter. by rewrite Hpe.
  - injection H as <-. split; cbn [handler at_op stream]; [done | by rewrite Hpe].
Qed.

Lemma echo_step_got e s s' : (forall x d, e <> Read_ x d) -> echo_step e s = Some s' -> got s' = got s.
Proof.
  intros Hn H. unfold echo_step, after_body in H.
  destruct e as [[x|]|x d|[x|] n|x], (pc s); try done; try (by destruct (Hn x d));
    try (injection H as <-; done); destruct (submitted s); by injection H as <-.
Qed.

Lemma winv_step recv t e t' :
  einv recv t -> linv t -> winv recv t -> calm e = true -> estep buffer e t = Some t' ->
  winv (recv ++ match e with VEnv e => data_in e | _ => [] end) t'.
Proof.
  intros Hi Hl Hw Hc H. destruct e as [e|rv| |w| |w|]; rewrite ?app_nil_r.
  - by apply (winv_env recv t e).
  - cbn [estep] in H. destruct (at_op t); try done. unfold completed in H.
    destruct (echo_step _ _) as [s'|] eqn:Es; [|done]. injection H as <-. apply winv_enter.
    rewrite (echo_step_got (Submitted _) _ _ ltac:(done) Es). apply (wi_eof _ _ Hw).
  - cbn [estep] in H. destruct (at_op t) eqn:Ea; try done. destruct (pc (handler t)) eqn:Ep; try done.
    destruct (step _ _) as [y'|] eqn:Es; [|done]. by apply (winv_read recv t (ERead buffer) y').
  - cbn [estep] in H. destruct (at_op t) eqn:Ea; try done.
    destruct (step _ _) as [y'|] eqn:Es; [|done]. apply (winv_read recv t (EReadWake w) y'); try done.
    pose proof (ei_place _ _ _ _ _ Hi) as Hp. unfold place_ok in Hp. rewrite Ea in Hp.
    by destruct (pc (handler t)) as [| | | | | |[]].
  - by apply (winv_body recv t BTurn); auto.
  - destruct w; [done|]. apply (winv_body recv t (BWake None)); eauto.
  - cbn [estep] in H. destruct (at_op t) as [| |[[|r]|]]; try done. unfold completed in H.
    destruct (echo_step _ _) as [s'|] eqn:Es; [|done]. injection H as <-. apply winv_enter.
    rewrite (fun H => echo_step_got _ _ _ H Es); [apply (wi_eof _ _ Hw)|].
    intros x d. by destruct (pc (handler t)).
Qed.

Lemma winv_run recv evs t t' :
  einv recv t -> linv t -> winv recv t -> Forall (fun e => calm e = true) evs ->
  erun buffer evs t = Some t' -> winv (recv ++ received_body evs) t'.
Proof.
  revert recv t; induction evs as [|e evs IH]; intros recv t Hi Hl Hw Hc H; simpl in H.
  - injection H as <-. unfold received_body. simpl. by rewrite app_nil_r.
  - inversion Hc; subst. destruct (estep buffer e t) as [t1|] eqn:E; [|done].
    replace (received_body (e :: evs)) with
      (match e with VEnv e => data_in e | _ => [] end ++ received_body evs)
      by (unfold received_body; destruct e as [[]| | | | | |]; done).
    rewrite app_assoc. apply (IH _ t1); try done.
    + by apply (einv_step buffer buffer_window buffer_room pre id cl recv t e).
    + by apply (linv_step buffer buffer_window buffer_room pre id cl recv t e).
    + by apply (winv_step recv t e).
Qed.

End End.
