(* ===== verification/EchoEnd.v ===== *)
(** * The echo handler on a closed stream

    When its stream has been closed (by the peer, by nghttp2, or by the end of run()),
    the echo handler comes to its end by turns of its own: nothing it awaits waits for
    nghttp2 any more.  First for a stream and a body operation, then for the handler. *)

From S2P Require Import Prelude Capy Nghttp2 Stream StreamRead StreamWrite StreamSys StreamProps.
From S2P Require Import Session SessionSys SessionProps SessionHeaders Messages Composed Echo.
From S2P Require Import EchoStream EchoLive.

(** ** A closed stream *)

Section ClosedStream.
Context {C : CapyOps} {L : CapyLaws C} {G : NgConsts} {GL : NgLaws G}.

(** A write suspended on a closed stream has been woken. *)
Definition close_woken (y : sys) : Prop :=
  closed_ (st y) = true -> is_Some (writer y) -> event_is_set (write_progress_ (st y)) = true.

Lemma close_woken_step e y y' : step e y = Some y' -> close_woken y -> close_woken y'.
Proof.
  unfold close_woken. intros H Hc. destruct e as [m|d| | |p|w|a fin|w|len|n| |w]; simpl in H;
    unfold note, on_data, read_some, read_some_resume, write_impl, producer_callback, status in H;
    break; simplify_eq; simpl in *; rewrite ?event_set_is_set; intros; auto;
    try (by destruct m; auto); congruence.
Qed.

Lemma reach_close_woken pre id evs y : reach pre id evs y -> close_woken y.
Proof.
  induction 1 as [|evs y e y' _ IH Hs]; [done | by apply (close_woken_step e y)].
Qed.

End ClosedStream.

(** ** Body operations *)

Section ClosedBody.
Context {C : CapyOps} {L : CapyLaws C} {G : NgConsts} {GL : NgLaws G}.
Context {W : CapyWrite} {WL : CapyWriteLaws W}.

(** Turns of the operation itself. *)
Definition bown (e : bev) : bool := match e with BTurn | BWake None => true | _ => false end.

(** The operation can return. *)
Definition can_end (b : btask) : Prop :=
  exists es b' r, brun es b = Some b' /\ Forall (fun e => bown e = true) es /\
    bst b' = WAt (WReturn r).

Lemma can_end_more e b b1 : bstep e b = Some b1 -> bown e = true -> can_end b1 -> can_end b.
Proof.
  intros Hs He (es & b' & r & Hr & Hf & Hb). exists (e :: es), b', r.
  split; [cbn [brun]; by rewrite Hs|]. by split; [constructor|].
Qed.

(** A failed write ends the operation, with an error. *)
Lemma failed_ends e n f :
  exists r, w_resume (IoResult (Some e) n) f = WReturn r /\ is_Some (ec r).
Proof.
  destruct f as [|fin w|m|]; [by eexists| |by eexists..]. simpl. unfold w_loop.
  rewrite cw_put_error by by eexists. rewrite cw_put_result.
  destruct fin; [unfold write_eof_buffers; simpl|]; by eexists.
Qed.

Lemma closed_call_ends b bufs fin f :
  bst b = WAt (WCall bufs fin f) -> writer (bsys b) = None -> closed_ (st (bsys b)) = true -> can_end b.
Proof.
  intros Hb Hw Hc. destruct (failed_ends eof 0 f) as (r & Hr & _).
  assert (Hs : is_Some (step (EWrite (array_of bufs) fin) (bsys b))).
  { cbn [step]. rewrite Hw. destruct (write_impl _ _ _) as [[]]. by eexists. }
  destruct Hs as [y' Hs]. destruct (call_turn _ _ _ _ Hs) as (_ & _ & _ & H). rewrite Hc in H.
  apply (can_end_more BTurn b (after_write (bsys b) y' f)); [|done|].
  - cbn [bstep]. by rewrite Hb, Hs.
  - exists [], (after_write (bsys b) y' f), r. split; [done|]. split; [done|].
    unfold after_write. simpl. by rewrite (proj1 H), Hr.
Qed.

Lemma closed_body_ends base op b :
  binv base op b -> close_woken (bsys b) -> closed_ (st (bsys b)) = true -> can_end b.
Proof.
  intros (Hi & sent & _ & Hst) Hwk Hc. destruct (bst b) as [[bufs fin f|r]|f] eqn:Eb.
  - destruct Hst as [Hw _]. by apply (closed_call_ends b bufs fin f).
  - by exists [], b, r.
  - destruct Hst as (bufs & fin & Hw & _).
    assert (Hs : is_Some (step (EWriteWake None) (bsys b))).
    { cbn [step]. rewrite Hw. simpl. rewrite Hwk by (done || by rewrite Hw). by eexists. }
    destruct Hs as [y' Hs].
    destruct (wake_turn _ _ _ _ _ Hi Hw Hs) as (n & _ & _ & Hres & Hw' & _ & Hc' & _).
    apply (can_end_more (BWake None) b (after_write (bsys b) y' f)); [|done|].
    { cbn [bstep]. by rewrite Eb, Hs. }
    destruct (w_resume (IoResult None n) f) as [bufs' fin' f'|r] eqn:Er.
    + apply (closed_call_ends _ bufs' fin' f'); simpl; [by rewrite Hres, Er | done | congruence].
    + exists [], (after_write (bsys b) y' f), r. split; [done|]. split; [done|].
      simpl. by rewrite Hres, Er.
Qed.

End ClosedBody.

(** ** The handler *)

Section EchoEnd.
Context {C : CapyOps} {L : CapyLaws C} {G : NgConsts} {GL : NgLaws G}.
Context {W : CapyWrite} {WL : CapyWriteLaws W}.
Context (buffer : buffer_param).
Hypothesis buffer_window : bp_one_window buffer = true.
Hypothesis buffer_room : 0 < bp_room buffer.
Context (pre : Z -> string) (id : Z) (cl : option N).
Local Abbreviation einv := (einv pre id cl).

(** What nghttp2_submit_response2 returns, should the handler call it. *)
Context (rv : Z).

(** Turns of the handler itself. *)
Definition ours (e : eev) : bool := match e with VSubmit v => (v =? rv)%Z | _ => own e end.

Definition gone (recv : bytes) (t : etask) : Prop :=
  einv recv t /\ linv t /\ closed_ (st (stream t)) = true.

Definition returns (t : etask) : Prop :=
  exists evs t' r, erun buffer evs t = Some t' /\ Forall (fun e => ours e = true) evs /\
    pc (handler t') = Returned r.

Lemma returns_more evs t t1 :
  erun buffer evs t = Some t1 -> Forall (fun e => ours e = true) evs -> returns t1 -> returns t.
Proof.
  intros Hr Hf (evs' & t' & r & Hr' & Hf' & Hp). exists (evs ++ evs'), t', r.
  split; [by rewrite erun_app, Hr|]. by split; [apply Forall_app|].
Qed.

Lemma gone_step recv e t t' :
  gone recv t -> ours e = true -> estep buffer e t = Some t' -> gone recv t'.
Proof.
  intros (Hi & Hl & Hc) He H.
  assert (Hcalm : calm e = true) by (destruct e as [|?| |[]| |[]|]; done).
  split; [|split; [by apply (linv_step buffer buffer_window buffer_room pre id cl recv t e)|]].
  - replace recv with (recv ++ match e with VEnv e => data_in e | _ => [] end)
      by (destruct e; by rewrite ?app_nil_r).
    by apply (einv_step buffer buffer_window buffer_room _ _ _ _ t e).
  - destruct (decide (ebenign e = true)) as [Hb|Hb]; [by rewrite (proj1 (benign_frame buffer _ _ _ Hb H))|].
    destruct e as [e|v| |[]| |[]|]; try done. cbn [estep] in H. destruct (at_op t); try done.
    unfold completed in H. destruct (echo_step _ _); [|done]. by injection H as <-.
Qed.

Lemma gone_run recv evs t t' :
  gone recv t -> Forall (fun e => ours e = true) evs -> erun buffer evs t = Some t' -> gone recv t'.
Proof.
  revert t; induction evs as [|e evs IH]; intros t Hg Hf Hr; simpl in Hr; [by injection Hr as <-|].
  inversion Hf; subst. destruct (estep buffer e t) as [t1|] eqn:E; [|done].
  apply (IH t1); [by apply (gone_step recv e t) | done | done].
Qed.

Lemma gone_live recv t : gone recv t -> live pre id cl recv t.
Proof. intros (? & ? & ?). split; auto. Qed.

(** *** Stages *)

Lemma lift_ours es s y w b :
  brun es (mkBtask y w) = Some b -> Forall (fun e => bown e = true) es ->
  erun buffer (map lift es) (mkEtask s (ABody w) y) = Some (mkEtask s (ABody (bst b)) (bsys b)) /\
  Forall (fun e => ours e = true) (map lift es).
Proof.
  intros Hr Hf. split.
  - apply lift_run; [done|]. eapply Forall_impl; [exact Hf|]. by intros [?| |[]].
  - apply Forall_map. eapply Forall_impl; [exact Hf|]. by intros [?| |[]].
Qed.

(** The body operation the handler awaits returns. *)
Lemma gone_body recv t w base op :
  gone recv t -> at_op t = ABody w -> binv base op (mkBtask (stream t) w) ->
  exists evs y r, erun buffer evs t = Some (mkEtask (handler t) (ABody (WAt (WReturn r))) y) /\
    Forall (fun e => ours e = true) evs.
Proof.
  intros (Hi & _ & Hc) Ha Hb. destruct (ei_reach _ _ _ _ _ Hi) as (es0 & Hr0 & _).
  destruct (closed_body_ends base op _ Hb (reach_close_woken _ _ _ _ Hr0) Hc) as (es & b & r & Hr & Hf & Hst).
  destruct (lift_ours es (handler t) _ _ _ Hr Hf) as [Hl Hf']. rewrite Hst in Hl.
  destruct t as [s a y]. simpl in *. subst a. by exists (map lift es), (bsys b), r.
Qed.

Lemma gone_ending recv t : gone recv t -> pc (handler t) = Ending -> returns t.
Proof.
  intros Hg Hpc. pose proof (ei_place _ _ _ _ _ (proj1 Hg)) as Hp. unfold place_ok in Hp. rewrite Hpc in Hp.
  destruct (at_op t) as [| |w] eqn:Ea; try done. destruct Hp as (base & Hb & _).
  destruct (gone_body recv t w base BWriteEof Hg Ea Hb) as (evs & y & r & Hr & Hf).
  apply (returns_more _ _ _ Hr Hf).
  exists [VReturn], (enter ((handler t) <| pc := Returned (ec r) |>) y), (ec r).
  split; [|by split; [repeat constructor|]].
  cbn [erun estep at_op handler stream]. rewrite Hpc. unfold completed, echo_step. by rewrite Hpc.
Qed.

(** [submit()] succeeds and the handler goes on, or fails and it returns. *)
Lemma gone_submit t s' :
  at_op t = ARun -> (exists d, pc (handler t) = FirstSubmit d) \/ pc (handler t) = EagerSubmit \/
    pc (handler t) = LastSubmit ->
  echo_step (Submitted None) (handler t) = Some s' ->
  returns t \/ erun buffer [VSubmit rv] t = Some (enter s' (stream t)).
Proof.
  intros Ha Hpc Hs. assert (He : estep buffer (VSubmit rv) t
    = completed (Submitted (if (rv =? 0)%Z then None else Some invalid_argument)) (handler t) (stream t))
    by (cbn [estep]; by rewrite Ha).
  destruct (rv =? 0)%Z.
  - right. cbn [erun]. rewrite He. unfold completed. by rewrite Hs.
  - left. exists [VSubmit rv], (enter ((handler t) <| pc := Returned (Some invalid_argument) |>) (stream t)),
      (Some invalid_argument).
    split; [|split; [repeat constructor; by apply Z.eqb_refl | done]].
    cbn [erun]. rewrite He. unfold completed, echo_step.
    by destruct Hpc as [[d ->]|[->| ->]].
Qed.

Lemma submit_ours : Forall (fun e => ours e = true) [VSubmit rv].
Proof. repeat constructor. apply Z.eqb_refl. Qed.

Lemma gone_after_body recv s y : gone recv (enter (after_body s) y) -> returns (enter (after_body s) y).
Proof.
  intros Hg. unfold after_body in *. destruct (submitted s) eqn:Es; [by apply (gone_ending recv)|].
  set (t := enter _ y) in *.
  destruct (gone_submit t (do_write_eof (handler t))) as [|Hr]; [done|by auto|done|done|].
  apply (returns_more _ _ _ Hr submit_ours), (gone_ending recv); [|done].
  exact (gone_run recv _ _ _ Hg submit_ours Hr).
Qed.

(** The handler returns, or reads on, having got [g]. *)
Definition goes_on (t : etask) (g : bytes) : Prop :=
  returns t \/ exists evs t', erun buffer evs t = Some t' /\ Forall (fun e => ours e = true) evs /\
    pc (handler t') = Reading /\ got (handler t') = g.

(** A write on a closed stream: the handler reads again, or goes on to the end. *)
Lemma gone_writing recv t d :
  gone recv t -> pc (handler t) = Writing d ->
  goes_on t (got (handler t)).
Proof.
  intros Hg Hpc. pose proof (ei_place _ _ _ _ _ (proj1 Hg)) as Hp. unfold place_ok in Hp. rewrite Hpc in Hp.
  destruct (at_op t) as [| |w] eqn:Ea; try done. destruct Hp as (base & _ & Hb & _).
  destruct (gone_body recv t w base (BWrite [d]) Hg Ea Hb) as (evs & y & [er v] & Hr & Hf).
  assert (Hs : forall s', echo_step (Written er v) (handler t) = Some s' ->
                erun buffer (evs ++ [VReturn]) t = Some (enter s' y)).
  { intros s' Hs. rewrite erun_app, Hr. cbn [erun estep at_op handler stream]. rewrite Hpc.
    unfold completed. cbn [ec value]. by rewrite Hs. }
  assert (Hf' : Forall (fun e => ours e = true) (evs ++ [VReturn]))
    by (apply Forall_app; split; [done | by repeat constructor]).
  unfold echo_step in Hs. rewrite Hpc in Hs. destruct er as [er|]; specialize (Hs _ eq_refl).
  - left. apply (returns_more _ _ _ Hs Hf'), (gone_after_body recv). exact (gone_run recv _ _ _ Hg Hf' Hs).
  - right. by exists (evs ++ [VReturn]), (enter ((handler t) <| pc := Reading |>) y).
Qed.

Lemma gone_first_submit recv t d :
  gone recv t -> pc (handler t) = FirstSubmit d ->
  goes_on t (got (handler t)).
Proof.
  intros Hg Hpc. pose proof (ei_place _ _ _ _ _ (proj1 Hg)) as Hp. unfold place_ok in Hp.
  rewrite Hpc in Hp. destruct (at_op t) eqn:Ea; try done.
  destruct (gone_submit t (do_write d ((handler t) <| submitted := true |>)) Ea) as [|Hr];
    [by eauto | unfold echo_step; by rewrite Hpc | by left |].
  destruct (gone_writing recv _ d (gone_run recv _ _ _ Hg submit_ours Hr) eq_refl)
    as [H|(evs & t' & Hr' & Hf' & Hpc' & Hgot)].
  - left. by apply (returns_more _ _ _ Hr submit_ours).
  - right. exists ([VSubmit rv] ++ evs), t'. split; [by rewrite erun_app, Hr|].
    split; [by apply Forall_app; split; [apply submit_ours|] | done].
Qed.

Lemma own_ours evs : Forall (fun e => own e = true) evs -> Forall (fun e => ours e = true) evs.
Proof. intros H. eapply Forall_impl; [exact H|]. by intros []. Qed.

(** Every turn of the read loop takes bytes off the stream. *)
Lemma gone_reading n recv t :
  gone recv t -> pc (handler t) = Reading -> length recv - length (got (handler t)) < n -> returns t.
Proof.
  revert t; induction n as [|n IH]; intros t Hg Hpc Hn; [lia|].
  destruct (reading_stage buffer buffer_window buffer_room pre id cl recv t (gone_live _ _ Hg) Hpc)
    as (evs & y & [er v] & s' & [Hr Hf%own_ours] & Hs & Hne).
  pose proof (gone_run recv _ _ _ Hg Hf Hr) as Hg'. apply (returns_more _ _ _ Hr Hf).
  unfold echo_step in Hs. rewrite Hpc in Hs. cbn [ec value] in Hs, Hne. destruct er as [er|].
  - injection Hs as <-. by apply (gone_after_body recv).
  - assert (Hstage : goes_on (enter s' y) (got (handler t) ++ read_mem v)).
    { destruct (submitted (handler t)) eqn:Esub; cbn in Hs; rewrite Esub in Hs; injection Hs as <-.
      - exact (gone_writing recv _ (read_mem v) Hg' eq_refl).
      - exact (gone_first_submit recv _ (read_mem v) Hg' eq_refl). }
    destruct Hstage as [|(evs' & t' & Hr' & Hf' & Hpc' & Hgot)]; [done|].
    apply (returns_more _ _ _ Hr' Hf'). pose proof (gone_run recv _ _ _ Hg' Hf' Hr') as Hg''.
    apply IH; [done|done|]. pose proof (got_le buffer buffer_room pre id cl recv t' (proj1 Hg'')) as Hle.
    rewrite Hgot, length_app in *. specialize (Hne eq_refl). destruct (read_mem v); [done|]. simpl in *. lia.
Qed.

(** Whatever the handler is suspended in. *)
Lemma gone_returns recv t : gone recv t -> returns t.
Proof.
  intros Hg.
  assert (Hread : forall t', gone recv t' -> pc (handler t') = Reading -> returns t')
    by (intros t' Hg' Hp'; eapply (gone_reading _ recv); [done|done|apply Nat.lt_succ_diag_r]).
  assert (Hgo : forall t g, gone recv t -> goes_on t g -> returns t).
  { intros t1 g Hg1 [|(evs & t' & Hr & Hf & Hp & _)]; [done|].
    apply (returns_more _ _ _ Hr Hf), Hread; [exact (gone_run recv _ _ _ Hg1 Hf Hr) | done]. }
  pose proof (ei_place _ _ _ _ _ (proj1 Hg)) as Hp. unfold place_ok in Hp.
  destruct (pc (handler t)) as [| |d|d| | |r] eqn:Hpc.
  - destruct (at_op t) eqn:Ea; try done.
    destruct (gone_submit t ((handler t) <| submitted := true |> <| pc := Reading |>) Ea) as [|Hr];
      [by auto | unfold echo_step; by rewrite Hpc | done |].
    apply (returns_more _ _ _ Hr submit_ours), Hread; [exact (gone_run recv _ _ _ Hg submit_ours Hr) | done].
  - by apply Hread.
  - by eapply Hgo, (gone_first_submit recv t d).
  - by eapply Hgo, (gone_writing recv t d).
  - destruct (at_op t) eqn:Ea; try done.
    destruct (gone_submit t (do_write_eof (handler t)) Ea) as [|Hr];
      [by auto | unfold echo_step; by rewrite Hpc | done |].
    apply (returns_more _ _ _ Hr submit_ours), (gone_ending recv); [|done].
    exact (gone_run recv _ _ _ Hg submit_ours Hr).
  - by apply (gone_ending recv).
  - by exists [], t, r.
Qed.

End EchoEnd.
