(* ===== verification/SessionEcho.v ===== *)
(** * A session full of echo handlers

    The server program: a session whose request handler is [echo] (echo_handler.cpp).
    Every request nghttp2 completes spawns [handle_request] on its stream, which runs
    the handler; any number of handlers take turns, interleaved with nghttp2's callbacks
    and pulls, with the loops and with the end of run().  What is shown of one handler
    on one stream (EchoStream, EchoLive) holds of each of them. *)

From S2P Require Import Prelude Capy Nghttp2 Charconv Stream StreamRead StreamWrite StreamSys StreamProps.
From S2P Require Import Session SessionSys SessionProps SessionHeaders Messages Composed Echo.
From S2P Require Import EchoStream EchoLive EchoSafe.

Section SessionEcho.
Context {C : CapyOps} {G : NgConsts} {W : CapyWrite}.
Context (buffer : buffer_param).

(** ** State *)

(** A handler under way: the request it was called with, where it stands. *)
Record htask := mkHtask { ht_request : Request; ht_echo : echo_state; ht_doing : doing }.

Record hsess := mkHsess { sess : Session; tasks : gmap addr htask }.

Definition hsess_new : hsess := mkHsess (Session_new server true) ∅.

Definition etask_of (k : htask) (y : sys) : etask := mkEtask (ht_echo k) (ht_doing k) y.
Definition htask_of (rq : Request) (t : etask) : htask := mkHtask rq (handler t) (at_op t).

(** ** Turns *)

Inductive hev :=
| HCall (e : xev)                 (* nghttp2, the loops, the end of run() *)
| HStart (a : addr)               (* the task spawned for the stream at [a] starts *)
| HTask (a : addr) (e : eev).     (* a turn of its handler *)

(** What is not a turn of a handler.  nghttp2 delivers no DATA after END_STREAM. *)
Definition outside (e : xev) (x : Session) : bool :=
  match e with
  | XDataChunk id _ =>
      match find_stream id x with
      | Some a => match heap x !! a with Some y => negb (read_eof_ (st y)) | None => true end
      | None => true
      end
  | XTurn _ (EProduce _) => true
  | XTurn _ _ | XSubmitRequest _ _ _ _ | XSubmitResponse _ _ _ _ => false
  | _ => true
  end.

(** What a turn of the handler does to its stream, ... *)
Definition turn_of (e : eev) (t : etask) : option sev :=
  match e, at_op t with
  | VRead, _ => Some (ERead buffer)
  | VReadWake w, _ => Some (EReadWake w)
  | VTurn, ABody (WAt (WCall bufs fin _)) => Some (EWrite (array_of bufs) fin)
  | VWake w, _ => Some (EWriteWake w)
  | _, _ => None
  end.

(** ... and to the session. *)
Definition event_of (a : addr) (e : eev) (t : etask) : option xev :=
  match e with
  | VSubmit rv => Some (XSubmitResponse a 200 (submit_headers (response (handler t)) []) rv)
  | _ => XTurn a <$> turn_of e t
  end.

Definition opt_xstep (e : option xev) (x : Session) : option Session :=
  match e with Some e => xstep e x | None => Some x end.

Definition hstep (e : hev) (h : hsess) : option hsess :=
  let x := sess h in
  match e with
  | HCall e =>
      if outside e x
      then match xstep e x with Some x' => Some (mkHsess x' (tasks h)) | None => None end
      else None
  | HStart a =>
      if bool_decide (a ∈ spawned x) && bool_decide (tasks h !! a = None) then
        match heap x !! a, handle_request a 0 x with
        | Some y, Some (HandlerCalled rq r, x') =>
            Some (mkHsess x' (<[a := htask_of rq (enter (echo rq r) y)]> (tasks h)))
        | _, _ => None
        end
      else None
  | HTask _ (VEnv _) => None
  | HTask a e =>
      match tasks h !! a, heap x !! a with
      | Some k, Some y =>
          match estep buffer e (etask_of k y), opt_xstep (event_of a e (etask_of k y)) x with
          | Some t', Some x' => Some (mkHsess x' (<[a := htask_of (ht_request k) t']> (tasks h)))
          | _, _ => None
          end
      | _, _ => None
      end
  end.

(** Reachable states, with the body bytes routed to each stream. *)
Inductive hreach : list hev -> (addr -> bytes) -> hsess -> Prop :=
| hreach_new : hreach [] (fun _ => []) hsess_new
| hreach_step evs r h e h' :
    hreach evs r h -> hstep e h = Some h' ->
    hreach (evs ++ [e])
      (fun a => r a ++ match e with HCall e => routed e (sess h) a | _ => [] end) h'.

Fixpoint hrun (evs : list hev) (h : hsess) : option hsess :=
  match evs with
  | [] => Some h
  | e :: evs => match hstep e h with Some h => hrun evs h | None => None end
  end.

(** The same, with the routed bytes. *)
Fixpoint htrace (evs : list hev) (r : addr -> bytes) (h : hsess) : option ((addr -> bytes) * hsess) :=
  match evs with
  | [] => Some (r, h)
  | e :: evs =>
      match hstep e h with
      | Some h' => htrace evs (fun a => r a ++ match e with HCall e => routed e (sess h) a | _ => [] end) h'
      | None => None
      end
  end.

Lemma htrace_reach evs0 evs r0 h0 r h :
  hreach evs0 r0 h0 -> htrace evs r0 h0 = Some (r, h) -> hreach (evs0 ++ evs) r h.
Proof.
  revert evs0 r0 h0; induction evs as [|e evs IH]; intros evs0 r0 h0 Hr H; simpl in H.
  - injection H as <- <-. by rewrite app_nil_r.
  - destruct (hstep e h0) as [h1|] eqn:E; [|done].
    replace (evs0 ++ e :: evs) with ((evs0 ++ [e]) ++ evs) by by rewrite <-app_assoc.
    eapply IH; [by apply hreach_step | exact H].
Qed.

(** The turns of handlers are among those [ok] allows. *)
Definition hallowed (ok : eev -> bool) (e : hev) : bool :=
  match e with HTask _ e => ok e | _ => true end.

(** No wait of a handler is cancelled. *)
Definition hcalm : hev -> bool := hallowed calm.

End SessionEcho.

(** ** Callbacks as turns of the streams *)

Section Callbacks.
Context {C : CapyOps} {G : NgConsts} {W : CapyWrite}.
Context (buffer : buffer_param).

(** [y] becomes [y'] by turns of others that bring in [d], whoever waits on it. *)
Definition env_evolves (y y' : sys) (d : bytes) : Prop :=
  exists es, data_of es = d /\
    forall s w, erun buffer (map VEnv es) (mkEtask s w y) = Some (mkEtask s w y').

Lemma env_refl y : env_evolves y y [].
Proof. by exists []. Qed.

Lemma env_trans y1 y2 y3 d d' :
  env_evolves y1 y2 d -> env_evolves y2 y3 d' -> env_evolves y1 y3 (d ++ d').
Proof.
  intros (es & <- & H) (es' & <- & H'). exists (es ++ es'). unfold data_of.
  split; [by rewrite map_app, concat_app|]. intros s w. by rewrite map_app, erun_app, H.
Qed.

Lemma env_one e y y' : of_env e y = true -> step e y = Some y' -> env_evolves y y' (data_of [e]).
Proof. intros He Hs. exists [e]. split; [done|]. intros s w. cbn. by rewrite He, Hs. Qed.

Lemma member_env f e y :
  member f e -> of_env e y = true -> env_evolves y (y <| st := f (st y) |>) (data_of [e]).
Proof. intros Hm He. apply env_one; [done|]. by destruct Hm. Qed.

Lemma with_stream_env id f e x a y' :
  member f e -> heap (with_stream id f x) !! a = Some y' ->
  (forall y, heap x !! a = Some y -> find_stream id x = Some a -> of_env e y = true) ->
  exists y, heap x !! a = Some y /\
    env_evolves y y' (if bool_decide (find_stream id x = Some a) then data_of [e] else []).
Proof.
  intros Hm H He. rewrite with_stream_heap in H.
  destruct (bool_decide_reflect (find_stream id x = Some a)) as [Hf|Hf].
  - destruct (heap x !! a) as [y|] eqn:Ey; [|done]. injection H as <-. exists y.
    split; [done|]. apply member_env; auto.
  - exists y'. split; [done | apply env_refl].
Qed.

(** The same for a member function that brings no body bytes. *)
Lemma with_stream_quiet id f e x a y' :
  member f e -> (forall d, e <> EData d) -> heap (with_stream id f x) !! a = Some y' ->
  exists y, heap x !! a = Some y /\ env_evolves y y' [].
Proof.
  intros Hm Hd H.
  destruct (with_stream_env id f e x a y' Hm H) as (y & Hy & Hev).
  { intros y _ _. by destruct Hm as [| |d| |]; try done; destruct (Hd d). }
  exists y. split; [done|]. destruct (bool_decide _); [|done].
  replace [] with (data_of [e]); [done|]. destruct Hm as [| |d| |]; try done. by destruct (Hd d).
Qed.

Lemma header_env f name value x a y' :
  heap (on_header_callback f name value x) !! a = Some y' ->
  exists y, heap x !! a = Some y /\ env_evolves y y' [].
Proof.
  unfold on_header_callback.
  case_bool_decide; [by apply (with_stream_quiet _ _ _ _ _ _ (member_meta (MSetPath value)))|].
  case_bool_decide; [by apply (with_stream_quiet _ _ _ _ _ _ (member_status _))|].
  destruct (is_pseudo name); [intros H'; exists y'; split; [done | apply env_refl]|].
  intros H'.
  destruct (with_stream_quiet _ _ _ _ _ _ (member_meta (MAddHeader name value)) ltac:(done) H')
    as (y1 & H1 & Hev).
  assert (Hlen : exists y, heap x !! a = Some y /\ env_evolves y y1 []).
  { case_bool_decide; [|exists y1; split; [done | apply env_refl]].
    destruct (fc_ec _); [exists y1; split; [done | apply env_refl]|].
    destruct (fc_value _) as [n|]; [|exists y1; split; [done | apply env_refl]].
    destruct (_ =? _); [|exists y1; split; [done | apply env_refl]].
    by apply (with_stream_quiet _ _ _ _ _ _ (member_meta (MSetContentLength n)) ltac:(done)) in H1. }
  destruct Hlen as (y & Hy & Hev'). exists y. split; [done|]. apply (env_trans y y1 y' [] []); done.
Qed.

Lemma close_list_env l x a y' :
  heap (foldr (upd on_close) x l) !! a = Some y' ->
  exists y, heap x !! a = Some y /\ env_evolves y y' [].
Proof.
  revert y'; induction l as [|a' l IH]; intros y'; cbn [foldr].
  - intros H. exists y'. split; [done | apply env_refl].
  - rewrite lookup_upd. case_decide; [|apply IH].
    destruct (heap _ !! a) as [y1|] eqn:E1; [|done]. intros [= <-].
    destruct (IH y1 eq_refl) as (y & Hy & Hev). exists y. split; [done|].
    apply (env_trans y y1 _ [] []); [done|]. by apply (member_env _ _ _ member_close).
Qed.

(** What an event from outside does to the stream objects. *)
Lemma outside_env r e x x' a y' :
  xinv r x -> outside e x = true -> xstep e x = Some x' -> heap x' !! a = Some y' ->
  (exists y, heap x !! a = Some y /\ env_evolves y y' (routed e x a)) \/
  (next_addr x <= a /\ r a = [] /\ routed e x a = [] /\ exists pre id, y' = sys_new pre id).
Proof.
  intros Hi Ho Hs Hy. destruct e as [f|f n v|f|id d|id|a' e|path n hs ret|a' n hs rv| | |];
    try done; cbn [xstep routed] in *.
  - injection Hs as <-. unfold on_begin_headers_callback in Hy.
    destruct (is_request_headers f); [|left; exists y'; split; [done | apply env_refl]].
    unfold create_stream, emplace in Hy. simpl in Hy.
    assert (Hy' : <[next_addr x := sys_new (log_prefix x) (hd_stream_id f)]> (heap x) !! a = Some y')
      by by destruct (streams_ x !! hd_stream_id f).
    destruct (decide (next_addr x = a)) as [<-|Hne].
    + rewrite lookup_insert_eq in Hy'. injection Hy' as <-. right.
      destruct (xi_fresh _ _ Hi (next_addr x) ltac:(lia)). repeat (split; [done|]). by eexists _, _.
    + rewrite lookup_insert_ne in Hy' by done. left. exists y'. split; [done | apply env_refl].
  - injection Hs as <-. left. by apply header_env in Hy.
  - injection Hs as <-. left. unfold on_frame_recv_callback in Hy. destruct (end_stream f).
    + apply (with_stream_quiet _ _ _ _ _ _ member_eof ltac:(done)) in Hy as (y & Hy & Hev).
      exists y. split; [|done]. destruct (is_request_headers f); [|done]. by destruct (find_stream _ x).
    + exists y'. split; [|apply env_refl]. destruct (is_request_headers f); [|done].
      by destruct (find_stream _ x).
  - injection Hs as <-. left. unfold on_data_chunk_recv_callback in Hy.
    apply (with_stream_env _ _ _ _ _ _ (member_data d)) in Hy as (y & Hy & Hev).
    + exists y. split; [done|]. unfold find_stream in *. simpl in Hev.
      destruct (bool_decide _); [|done]. unfold data_of in Hev. simpl in Hev. by rewrite app_nil_r in Hev.
    + intros y Hy' Hf. simpl in Hy'. unfold outside in Ho. unfold find_stream in *. simpl in Hf.
      by rewrite Hf, Hy' in Ho.
  - injection Hs as <-. left. unfold on_stream_close_callback, close_stream in Hy.
    destruct (streams_ x !! id) as [a'|]; [|exists y'; split; [done | apply env_refl]].
    by apply (close_list_env [a']).
  - left. destruct e as [m|d| | |p|w|b fin|w|len|k| |w]; try done. cbn [is_turn] in Hs. destruct (heap x !! a') as [y0|] eqn:E0; [|done].
    destruct (step _ y0) as [y1|] eqn:E1; [|done]. injection Hs as <-.
    destruct (perform_all_frame (drop (length (calls y0)) (calls y1))
                (x <| heap := <[a' := y1]> (heap x) |>)) as (E2 & _ & _). rewrite E2 in Hy. simpl in Hy.
    destruct (decide (a' = a)) as [->|Hne].
    + rewrite lookup_insert_eq in Hy. injection Hy as <-. exists y0. split; [done|].
      by apply (env_one (EProduce len)).
    + rewrite lookup_insert_ne in Hy by done. exists y'. split; [done | apply env_refl].
  - injection Hs as <-. left. exists y'. split; [done | apply env_refl].
  - injection Hs as <-. left. exists y'. split; [done | apply env_refl].
  - injection Hs as <-. left. unfold close_all in Hy. by apply close_list_env in Hy.
Qed.

Lemma outside_next e x x' : outside e x = true -> xstep e x = Some x' -> next_addr x <= next_addr x'.
Proof.
  intros Ho Hs. destruct (target e) as [id|] eqn:Et.
  { exact (lt_next _ _ _ (callback_local _ _ _ _ Et Hs)). }
  destruct e as [f|f n v|f|id d|id|a' e|path n hs ret|a' n hs rv| | |]; try done; cbn [xstep] in Hs.
  - destruct (is_turn e); [|done]. destruct (heap x !! a') as [y0|]; [|done].
    destruct (step e y0) as [y1|]; [|done]. injection Hs as <-.
    by destruct (perform_all_frame (drop (length (calls y0)) (calls y1))
                (x <| heap := <[a' := y1]> (heap x) |>)) as (_ & _ & ->).
  - by injection Hs as <-.
  - by injection Hs as <-.
  - injection Hs as <-. unfold close_all.
    by destruct (close_list_next (map_to_list (streams_ x)).*2 (x <| streams_ := ∅ |>)) as [-> _].
Qed.

(** A turn of a handler, as the session sees it. *)
Lemma turn_agrees e t t' :
  estep buffer e t = Some t' -> (forall se, e <> VEnv se) ->
  match turn_of buffer e t with
  | Some se => is_turn se = true /\ step se (stream t) = Some (stream t') /\
      (forall p, se = ERead p -> p = buffer)
  | None => stream t' = stream t
  end.
Proof.
  intros H Hn. destruct e as [e|rv| |w| |w|]; cbn [estep turn_of] in *.
  - by destruct (Hn e).
  - destruct (at_op t); try done. unfold completed in H. destruct (echo_step _ _); [|done]. by injection H as <-.
  - destruct (at_op t); try done. destruct (pc (handler t)); try done.
    destruct (step _ _) as [y'|] eqn:Es; [|done]. split; [done|]. split; [|by intros ? [= <-]].
    unfold after_read, completed in H. destruct (read_result _ _); [destruct (echo_step _ _); [|done]|];
      injection H as <-; done.
  - destruct (at_op t); try done. destruct (step _ _) as [y'|] eqn:Es; [|done].
    split; [done|]. split; [|done].
    unfold after_read, completed in H. destruct (read_result _ _); [destruct (echo_step _ _); [|done]|];
      injection H as <-; done.
  - unfold body_turn in H. destruct (at_op t) as [| |[[bufs fin f|]|]]; try done. cbn [bstep bst bsys] in H.
    destruct (step _ _) as [y'|] eqn:Es; [|done]. by injection H as <-.
  - unfold body_turn in H. destruct (at_op t) as [| |[|f]]; try done. cbn [bstep bst bsys] in H.
    destruct (step _ _) as [y'|] eqn:Es; [|done]. by injection H as <-.
  - destruct (at_op t) as [| |[[|r]|]]; try done. unfold completed in H.
    destruct (echo_step _ _); [|done]. by injection H as <-.
Qed.

(** What it does to the session. *)
Lemma event_heap a e t t' x x' :
  estep buffer e t = Some t' -> (forall se, e <> VEnv se) -> heap x !! a = Some (stream t) ->
  opt_xstep (event_of buffer a e t) x = Some x' ->
  heap x' = <[a := stream t']> (heap x) /\ next_addr x' = next_addr x.
Proof.
  intros He Hn Hx Hs. pose proof (turn_agrees _ _ _ He Hn) as Ht. unfold event_of in Hs.
  assert (Hturn : opt_xstep (XTurn a <$> turn_of buffer e t) x = Some x' ->
            heap x' = <[a := stream t']> (heap x) /\ next_addr x' = next_addr x).
  { destruct (turn_of buffer e t) as [se|]; cbn [fmap option_fmap option_map opt_xstep xstep].
    - destruct Ht as (Hit & Hst & _). rewrite Hit, Hx, Hst. intros [= <-].
      by destruct (perform_all_frame (drop (length (calls (stream t))) (calls (stream t')))
                (x <| heap := <[a := stream t']> (heap x) |>)) as (-> & _ & ->).
    - intros [= <-]. split; [|done]. by rewrite Ht, insert_id. }
  destruct e as [e|rv| |w| |w|]; auto. cbn [turn_of] in Ht. cbn [opt_xstep xstep] in Hs.
  injection Hs as <-. unfold submit_response. rewrite Ht, insert_id by done. by destruct (negb _).
Qed.

End Callbacks.

(** ** The invariant *)

Section SessionEchoProps.
Context {C : CapyOps} {L : CapyLaws C} {G : NgConsts} {GL : NgLaws G}.
Context {W : CapyWrite} {WL : CapyWriteLaws W}.
Context (buffer : buffer_param).
Hypothesis buffer_window : bp_one_window buffer = true.
Hypothesis buffer_room : 0 < bp_room buffer.

(** A handler that has not been called yet has done nothing: it stands where one
    does that is about to read. *)
Definition idle : echo_state := echo (mkRequest "" None [] 0) (mkResponse 0 None).

Definition task_at (h : hsess) (a : addr) (y : sys) : etask :=
  match tasks h !! a with Some k => etask_of k y | None => mkEtask idle ARun y end.

Definition length_at (h : hsess) (a : addr) : option N :=
  match tasks h !! a with Some k => rq_content_length (ht_request k) | None => None end.

(** What holds of a handler on a stream it has just been given, and is kept by its own
    turns (those that [ok] allows) and by those of others, holds of every handler of a
    session: of [P recv cl t], [recv] is what was delivered and [cl] the content-length
    of the request. *)
Class HandlerInv (P : bytes -> option N -> etask -> Prop) (ok : eev -> bool) : Prop := {
  ho_env recv cl s w y y' d :
    env_evolves buffer y y' d -> P recv cl (mkEtask s w y) -> P (recv ++ d) cl (mkEtask s w y');
  ho_fresh pre id : P [] None (mkEtask idle ARun (sys_new pre id));
  ho_start recv y rq rs :
    P recv None (mkEtask idle ARun y) -> P recv (rq_content_length rq) (enter (echo rq rs) y);
  ho_step recv cl t e t' :
    P recv cl t -> ok e = true -> (forall se, e <> VEnv se) -> estep buffer e t = Some t' ->
    P recv cl t';
}.

(** The handler on the stream at [a] is one that EchoStream, EchoLive and EchoSafe speak
    of. *)
Definition serves (recv : bytes) (cl : option N) (t : etask) : Prop :=
  exists pre id, einv pre id cl recv t /\ linv t /\ winv recv t.

Lemma received_env es : received_body (map VEnv es) = data_of es.
Proof. unfold received_body, data_of. by rewrite map_map. Qed.

Lemma serves_env recv cl s w y y' d :
  env_evolves buffer y y' d -> serves recv cl (mkEtask s w y) -> serves (recv ++ d) cl (mkEtask s w y').
Proof.
  intros (es & <- & Hrun) (pre & id & Hi & Hl & Hw). exists pre, id.
  assert (Hc : Forall (fun e => calm e = true) (map VEnv es)) by (apply Forall_map, Forall_true; done).
  rewrite <-received_env. split; [|split].
  - by apply (einv_run buffer buffer_window buffer_room pre id cl recv _ (mkEtask s w y)).
  - by apply (linv_run buffer buffer_window buffer_room pre id cl recv (map VEnv es) (mkEtask s w y)).
  - by apply (winv_run buffer buffer_window buffer_room pre id cl recv _ (mkEtask s w y)).
Qed.

Lemma serves_fresh pre id : serves [] None (mkEtask idle ARun (sys_new pre id)).
Proof.
  exists pre, id. set (rq := mkRequest "" None [] 0).
  split; [exact (einv_new pre id None rq (mkResponse 0 None) eq_refl)|].
  split; [exact (linv_new pre id rq (mkResponse 0 None)) | by apply (winv_enter [] idle)].
Qed.

(** The handler is called. *)
Lemma serves_start recv y rq rs :
  serves recv None (mkEtask idle ARun y) -> serves recv (rq_content_length rq) (enter (echo rq rs) y).
Proof.
  intros (pre & id & [Hr Hg He Hp _] & Hl & _). exists pre, id. split; [|split].
  - assert (Hgot : got (echo rq rs) = []) by (unfold echo; by destruct (has_header _ _)).
    split; simpl; rewrite ?Hgot; try done.
    + apply echo_inv_start.
    + apply enter_ok; [destruct Hr as (es & Hr & _); by eapply reach_write_inv|].
      destruct Hp as [Hw Hrep]. unfold echo, entry_ok. by destruct (has_header _ _).
    + unfold echo, end_ok. by destruct (has_header _ _).
  - apply enter_live; [|by destruct Hl]. intros _. by apply (linv_no_eof _ Hl).
  - apply winv_enter. destruct Hl as [Hl _]. unfold eof_place in Hl. simpl in Hl. by rewrite Hl.
Qed.

Lemma serves_step recv cl t e t' :
  serves recv cl t -> calm e = true -> (forall se, e <> VEnv se) -> estep buffer e t = Some t' ->
  serves recv cl t'.
Proof.
  intros (pre & id & Hi & Hl & Hw) Hc Hn H. exists pre, id. split; [|split].
  - pose proof (einv_step buffer buffer_window buffer_room pre id cl recv t e t' Hi Hc H) as Hi'.
    destruct e; [by destruct (Hn e)|..]; by rewrite app_nil_r in Hi'.
  - by apply (linv_step buffer buffer_window buffer_room pre id cl recv t e).
  - pose proof (winv_step buffer buffer_window buffer_room pre id cl recv t e t' Hi Hl Hw Hc H) as Hw'.
    destruct e; [by destruct (Hn e)|..]; by rewrite app_nil_r in Hw'.
Qed.

Lemma serves_inv : HandlerInv serves calm.
Proof. split; [exact serves_env | exact serves_fresh | exact serves_start | exact serves_step]. Qed.

End SessionEchoProps.

(** ** The invariant of a session *)

Section HandlersInv.
Context {C : CapyOps} {L : CapyLaws C} {G : NgConsts} {GL : NgLaws G}.
Context {W : CapyWrite} {WL : CapyWriteLaws W}.
Context (buffer : buffer_param).
Hypothesis buffer_window : bp_one_window buffer = true.
Context (P : bytes -> option N -> etask -> Prop) (ok : eev -> bool) {HI : HandlerInv buffer P ok}.

Record hinv (r : addr -> bytes) (h : hsess) : Prop := {
  hi_sess : exists evs r', xreach server true evs r' (sess h) /\ Forall fits evs /\
    forall a, r' a = r a;
  hi_task a y : heap (sess h) !! a = Some y -> P (r a) (length_at h a) (task_at h a y);
  hi_known a k : tasks h !! a = Some k -> a < next_addr (sess h);
}.

Lemma hinv_xinv r h : hinv r h -> xinv r (sess h).
Proof.
  intros [(evs & r' & Hr & Hf & E) _ _]. by apply (xinv_ext r' r), (xreach_inv _ _ _ _ _ Hr Hf).
Qed.

Lemma hinv_new : hinv (fun _ => []) hsess_new.
Proof.
  split; simpl.
  - exists [], (fun _ => []). split; [constructor | done].
  - intros a y. by rewrite lookup_empty.
  - intros a k. by rewrite lookup_empty.
Qed.

Lemma hinv_call r h e h' :
  hinv r h -> hstep buffer (HCall e) h = Some h' ->
  hinv (fun a => r a ++ routed e (sess h) a) h'.
Proof.
  intros Hi H. pose proof (hinv_xinv _ _ Hi) as Hx. cbn [hstep] in H.
  destruct (outside e (sess h)) eqn:Eo; [|done]. destruct (xstep e (sess h)) as [x'|] eqn:Es; [|done].
  injection H as <-. destruct Hi as [(evs & r' & Hr & Hf & E) Ht Hk]. split; cbn [sess tasks].
  - exists (evs ++ [e]), (fun a => r' a ++ routed e (sess h) a).
    split; [by apply (xreach_step _ _ _ _ (sess h))|]. split; [|intros a; by rewrite E].
    apply Forall_app; split; [done|]. apply Forall_singleton. destruct e as [| | | | |a0 e| | | | |]; try done.
    by destruct e.
  - intros a y' Hy'. unfold length_at, task_at. cbn [tasks].
    destruct (outside_env buffer r e _ _ a y' Hx Eo Es Hy')
      as [(y & Hy & Hev)|(Hge & -> & -> & pre & id & ->)].
    + specialize (Ht a y Hy). unfold length_at, task_at in Ht.
      destruct (tasks h !! a); by eapply (ho_env buffer).
    + destruct (tasks h !! a) as [k|] eqn:Ek; [by pose proof (Hk a k Ek); lia|].
      eapply (ho_fresh buffer).
  - intros a k Ha. pose proof (Hk a k Ha). pose proof (outside_next _ _ _ Eo Es). lia.
Qed.

Lemma hinv_start r h a h' :
  hinv r h -> hstep buffer (HStart a) h = Some h' -> hinv r h'.
Proof.
  intros Hi H. pose proof (hinv_xinv _ _ Hi) as Hx. cbn [hstep] in H.
  destruct (bool_decide_reflect (a ∈ spawned (sess h))); [|done].
  destruct (bool_decide_reflect (tasks h !! a = None)) as [En|]; [|done]. cbn [andb] in H.
  destruct (heap (sess h) !! a) as [y|] eqn:Ey; [|done].
  unfold handle_request in H. rewrite Ey in H. destruct (handler_set (sess h)).
  2: { by destruct (xstep _ _). }
  injection H as <-. destruct Hi as [Hs Ht Hk]. split; cbn [sess tasks]; [done|..].
  - intros a' y' Hy'. unfold length_at, task_at. cbn [tasks].
    specialize (Ht a' y' Hy'). unfold length_at, task_at in Ht.
    destruct (decide (a = a')) as [<-|Hne].
    + rewrite lookup_insert_eq, En in *. rewrite Ey in Hy'. injection Hy' as <-.
      by apply (ho_start buffer _ y (request_of a (st y)) (mkResponse a None)) in Ht.
    + by rewrite !lookup_insert_ne.
  - intros a' k. destruct (decide (a = a')) as [<-|Hne]; [|rewrite lookup_insert_ne by done; apply Hk].
    intros _. destruct (Nat.lt_ge_cases a (next_addr (sess h))) as [|Hge]; [done|].
    destruct (xi_fresh _ _ Hx a Hge). congruence.
Qed.

(** A turn of a handler, taken apart. *)
Lemma htask_inv a e h h' :
  hstep buffer (HTask a e) h = Some h' ->
  (forall se, e <> VEnv se) /\ exists k y t' x', tasks h !! a = Some k /\ heap (sess h) !! a = Some y /\
    estep buffer e (etask_of k y) = Some t' /\
    opt_xstep (event_of buffer a e (etask_of k y)) (sess h) = Some x' /\
    h' = mkHsess x' (<[a := htask_of (ht_request k) t']> (tasks h)).
Proof.
  intros H. split; [by intros se ->|].
  assert (Hb : match tasks h !! a, heap (sess h) !! a with
               | Some k, Some y =>
                   match estep buffer e (etask_of k y), opt_xstep (event_of buffer a e (etask_of k y)) (sess h) with
                   | Some t', Some x' => Some (mkHsess x' (<[a := htask_of (ht_request k) t']> (tasks h)))
                   | _, _ => None
                   end
               | _, _ => None
               end = Some h') by by destruct e.
  destruct (tasks h !! a) as [k|]; [|done]. destruct (heap (sess h) !! a) as [y|]; [|done].
  destruct (estep _ _ _) as [t'|] eqn:Ee; [|done]. destruct (opt_xstep _ _) as [x'|] eqn:Ex; [|done].
  injection Hb as <-. eauto 10.
Qed.

Lemma event_fits a e t t' xe :
  estep buffer e t = Some t' -> (forall se, e <> VEnv se) -> event_of buffer a e t = Some xe -> fits xe.
Proof.
  intros He Hn Hx. pose proof (turn_agrees buffer _ _ _ He Hn) as Ht. unfold event_of in Hx.
  assert (Hturn : XTurn a <$> turn_of buffer e t = Some xe -> fits xe).
  { destruct (turn_of buffer e t) as [se|]; [|done]. intros [= <-]. destruct Ht as (_ & _ & Hp).
    destruct se; try done. simpl. by rewrite (Hp _ eq_refl). }
  destruct e; auto. by injection Hx as <-.
Qed.

Lemma event_routed a e t xe x b : event_of buffer a e t = Some xe -> routed xe x b = [].
Proof.
  assert (Hturn : XTurn a <$> turn_of buffer e t = Some xe -> routed xe x b = []).
  { destruct (turn_of _ _ _); [|done]. by intros [= <-]. }
  destruct e; cbn [event_of]; auto. by intros [= <-].
Qed.

Lemma hinv_htask r h a e h' :
  hinv r h -> ok e = true -> hstep buffer (HTask a e) h = Some h' -> hinv r h'.
Proof.
  intros Hi Hc H. destruct (htask_inv _ _ _ _ H) as (Hn & k & y & t' & x' & Ek & Ey & Ee & Ex & ->).
  destruct Hi as [(evs & r' & Hr & Hf & E) Ht Hk].
  destruct (event_heap buffer a e _ _ _ _ Ee Hn Ey Ex) as [Eh En]. split; cbn [sess tasks].
  - unfold opt_xstep in Ex. destruct (event_of _ _ _ _) as [xe|] eqn:Exe; [|injection Ex as <-; eauto].
    exists (evs ++ [xe]), (fun b => r' b ++ routed xe (sess h) b).
    split; [by apply (xreach_step _ _ _ _ (sess h))|]. split.
    + apply Forall_app. split; [done|]. apply Forall_singleton. by eapply event_fits.
    + intros b. rewrite E. by rewrite (event_routed _ _ _ _ _ _ Exe), app_nil_r.
  - intros b yb Hb. rewrite Eh in Hb. unfold length_at, task_at. cbn [tasks].
    destruct (decide (a = b)) as [<-|Hne].
    + rewrite lookup_insert_eq in Hb. injection Hb as <-. rewrite lookup_insert_eq.
      specialize (Ht a y Ey). unfold length_at, task_at in Ht. rewrite Ek in Ht.
      pose proof (ho_step buffer _ _ _ _ _ Ht Hc Hn Ee) as Hs. by destruct t'.
    + rewrite lookup_insert_ne in Hb by done. rewrite !lookup_insert_ne by done. exact (Ht b yb Hb).
  - intros b kb. rewrite En. destruct (decide (a = b)) as [<-|Hne]; [intros _; by apply (Hk a k)|].
    rewrite lookup_insert_ne by done. apply Hk.
Qed.

Lemma hreach_inv evs r h :
  hreach buffer evs r h -> Forall (fun e => hallowed ok e = true) evs -> hinv r h.
Proof.
  intros Hr Hc. assert (Hext : forall r h, hinv r h -> hinv (fun a => r a ++ []) h).
  { intros r0 h0 [(evs0 & r' & ? & ? & E) Ht Hk]. split; [|..|done].
    - exists evs0, r'. split; [done|]. split; [done|]. intros a. by rewrite app_nil_r.
    - intros a y Hy. rewrite app_nil_r. by apply Ht. }
  induction Hr as [|evs r h e h' _ IH Hs]; [apply hinv_new|].
  apply Forall_app in Hc as [Hc He]. apply Forall_inv in He. specialize (IH Hc).
  destruct e as [e|a|a e]; [by apply hinv_call | by apply Hext, (hinv_start r h a)|].
  by apply Hext, (hinv_htask r h a e).
Qed.

End HandlersInv.

(** ** A handler of a session can go on *)

Section Lift.
Context {C : CapyOps} {G : NgConsts} {W : CapyWrite}.
Context (buffer : buffer_param).

(** A turn of a handler or a pull from its stream, in the session. *)
Definition hlift (a : addr) (e : eev) : hev :=
  match e with VEnv se => HCall (XTurn a se) | _ => HTask a e end.

(** Events that concern one stream only: the start of its handler, turns in which what
    it awaits succeeds, pulls. *)
Definition about (a : addr) (e : hev) : bool :=
  match e with
  | HStart a' => bool_decide (a' = a)
  | HTask a' e => bool_decide (a' = a) && ebenign e
  | HCall (XTurn a' (EProduce _)) => bool_decide (a' = a)
  | _ => false
  end.

(** The handler on [a] stands at [t], and nothing else has changed since [h]. *)
Record stands (a : addr) (rq : Request) (t : etask) (h h' : hsess) : Prop := {
  sd_task : tasks h' !! a = Some (htask_of rq t);
  sd_heap : heap (sess h') !! a = Some (stream t);
  sd_frame b : b <> a -> tasks h' !! b = tasks h !! b /\ heap (sess h') !! b = heap (sess h) !! b;
}.

Lemma turn_enabled a e t x :
  estep buffer e t <> None -> (forall se, e <> VEnv se) -> heap x !! a = Some (stream t) ->
  is_Some (opt_xstep (event_of buffer a e t) x).
Proof.
  intros He Hn Hx. destruct (estep buffer e t) as [t'|] eqn:Ee; [|done].
  pose proof (turn_agrees buffer _ _ _ Ee Hn) as Ht.
  assert (Hturn : is_Some (opt_xstep (XTurn a <$> turn_of buffer e t) x)).
  { destruct (turn_of buffer e t) as [se|]; cbn [fmap option_fmap option_map opt_xstep xstep];
      [|by eexists]. destruct Ht as (Hit & Hst & _). rewrite Hit, Hx, Hst. by eexists. }
  destruct e; try exact Hturn. by eexists.
Qed.

Lemma stands_step a rq t t' e h0 h :
  stands a rq t h0 h -> ebenign e = true -> estep buffer e t = Some t' ->
  exists h', hstep buffer (hlift a e) h = Some h' /\ stands a rq t' h0 h'.
Proof.
  intros [Hk Hy Hfr] Hb He.
  assert (Hother : (forall se, e <> VEnv se) -> exists h', hstep buffer (HTask a e) h = Some h' /\ stands a rq t' h0 h').
  { intros Hn. assert (Ht : etask_of (htask_of rq t) (stream t) = t) by by destruct t.
    destruct (turn_enabled a e t (sess h)) as [x' Hx]; [by rewrite He | done | done |].
    destruct (event_heap buffer a e t t' _ _ He Hn Hy Hx) as [Eh _].
    exists (mkHsess x' (<[a := htask_of rq t']> (tasks h))). split.
    - assert (Hs : hstep buffer (HTask a e) h =
                match estep buffer e t, opt_xstep (event_of buffer a e t) (sess h) with
                | Some t', Some x' => Some (mkHsess x' (<[a := htask_of rq t']> (tasks h)))
                | _, _ => None end).
      { destruct e; [by destruct (Hn e)|..]; cbn [hstep]; by rewrite Hk, Hy, Ht. }
      by rewrite Hs, He, Hx.
    - split; cbn [tasks sess]; rewrite ?Eh; [apply lookup_insert_eq..|].
      intros b Hne. rewrite !lookup_insert_ne by done. by apply Hfr. }
  destruct e as [se|rv| |w| |w|]; cbn [hlift]; try (by apply Hother).
  destruct se as [m|d| | |p|w|b fin|w|len|n| |w]; try done. cbn [estep of_env] in He.
  destruct (step (EProduce len) (stream t)) as [y'|] eqn:Es; [|done]. injection He as <-.
  destruct (xstep_turn a (EProduce len) (sess h) _ _ Hy eq_refl Es) as (x' & Hx & Hx').
  exists (mkHsess x' (tasks h)). split; [cbn [hstep outside]; by rewrite Hx|].
  split; cbn [tasks sess handler at_op stream]; [done | done |]. intros b Hne.
  cbn [xstep is_turn] in Hx. rewrite Hy, Es in Hx. injection Hx as <-.
  destruct (perform_all_frame (drop (length (calls (stream t))) (calls y'))
              ((sess h) <| heap := <[a := y']> (heap (sess h)) |>)) as (-> & _ & _).
  simpl. rewrite lookup_insert_ne by done. by apply Hfr.
Qed.

Lemma stands_run a rq evs t t' h0 h :
  stands a rq t h0 h -> erun_ok buffer evs t t' ->
  exists h', hrun buffer (map (hlift a) evs) h = Some h' /\ stands a rq t' h0 h'.
Proof.
  intros Hs [Hr Hf]. revert t h Hs Hr; induction evs as [|e evs IH]; intros t h Hs Hr; simpl in Hr.
  - injection Hr as <-. by exists h.
  - inversion Hf as [|? ? He Hf']; subst. destruct (estep buffer e t) as [t1|] eqn:E; [|done].
    destruct (stands_step a rq t t1 e h0 h Hs He E) as (h1 & H1 & Hs1).
    destruct (IH Hf' t1 h1 Hs1 Hr) as (h' & H' & Hs'). exists h'. cbn [map hrun]. by rewrite H1.
Qed.

Lemma hrun_app evs evs' h :
  hrun buffer (evs ++ evs') h = match hrun buffer evs h with Some h => hrun buffer evs' h | None => None end.
Proof.
  revert h; induction evs as [|e evs IH]; intros h; simpl; [done|].
  destruct (hstep buffer e h); [apply IH | done].
Qed.

Lemma lift_about a evs :
  Forall (fun e => ebenign e = true) evs -> Forall (fun e => about a e = true) (map (hlift a) evs).
Proof.
  intros H. apply Forall_map. eapply Forall_impl; [exact H|]. intros e He. simpl.
  destruct e as [[]|rv| |w| |w|]; try done; cbn [about hlift]; rewrite bool_decide_true by done; done.
Qed.

End Lift.

(** ** Every request is echoed *)

Section SessionEchoes.
Context {C : CapyOps} {L : CapyLaws C} {G : NgConsts} {GL : NgLaws G}.
Context {W : CapyWrite} {WL : CapyWriteLaws W}.
Context (buffer : buffer_param).
Hypothesis buffer_window : bp_one_window buffer = true.
Hypothesis buffer_room : 0 < bp_room buffer.
Local Abbreviation hinv := (hinv serves).

Lemma hreach_serves evs r h :
  hreach buffer evs r h -> Forall (fun e => hcalm e = true) evs -> hinv r h.
Proof. apply (hreach_inv buffer buffer_window serves calm (HI := serves_inv buffer buffer_window buffer_room)). Qed.


(** The handler for [a] is called, if it has not been yet. *)
Lemma started r h a y :
  hinv r h -> a ∈ spawned (sess h) -> heap (sess h) !! a = Some y ->
  exists evs h1 k, hrun buffer evs h = Some h1 /\ Forall (fun e => about a e = true) evs /\
    tasks h1 !! a = Some k /\ sess h1 = sess h /\ hinv r h1 /\
    (forall b, b <> a -> tasks h1 !! b = tasks h !! b) /\
    (tasks h !! a = Some k \/ forall e, pc (ht_echo k) <> Returned (Some e)).
Proof.
  intros Hi Hsp Hy. destruct (tasks h !! a) as [k|] eqn:Ek; [by exists [], h, k; eauto 10|].
  destruct (hi_sess _ _ _ Hi) as (evs & r' & Hr & _ & _).
  assert (Hh : handle_request a 0 (sess h)
               = Some (HandlerCalled (request_of a (st y)) (mkResponse a None), sess h)).
  { unfold handle_request. by rewrite Hy, (xreach_handler _ _ _ _ _ Hr). }
  set (k := htask_of (request_of a (st y)) (enter (echo (request_of a (st y)) (mkResponse a None)) y)).
  assert (Hs : hstep buffer (HStart a) h = Some (mkHsess (sess h) (<[a := k]> (tasks h)))).
  { cbn [hstep]. by rewrite !bool_decide_true, Hy, Hh. }
  exists [HStart a], (mkHsess (sess h) (<[a := k]> (tasks h))), k.
  split; [cbn [hrun]; by rewrite Hs|]. split; [repeat constructor; cbn [about]; by rewrite bool_decide_true|].
  split; [apply lookup_insert_eq|]. split; [done|]. split; [by apply (hinv_start buffer _ _ (HI := serves_inv buffer buffer_window buffer_room) r h a)|].
  split; [intros b Hne; cbn [tasks]; by rewrite lookup_insert_ne|].
  right. intros e. unfold k, echo. simpl. by destruct (has_header _ _).
Qed.

(** C20 No request is left hanging: in every reachable session, for every request that was
    dispatched and whose stream is open and has received END_STREAM, whatever state its
    handler is in (not called yet, suspended anywhere; only a failed [submit()] is
    excluded), its own turns and pulls from its stream alone, with no help from any other
    stream and without disturbing any, bring the handler to a successful return with
    the whole body echoed and ended. *)
Theorem session_echo_completes evs r h a y :
  hreach buffer evs r h -> Forall (fun e => hcalm e = true) evs ->
  a ∈ spawned (sess h) -> heap (sess h) !! a = Some y ->
  closed_ (st y) = false -> read_eof_ (st y) = true ->
  (forall k e, tasks h !! a = Some k -> pc (ht_echo k) <> Returned (Some e)) ->
  exists evs' h' k' y', hrun buffer evs' h = Some h' /\ Forall (fun e => about a e = true) evs' /\
    tasks h' !! a = Some k' /\ heap (sess h') !! a = Some y' /\ pc (ht_echo k') = Returned None /\
    pulled (log y') = r a /\ provider_eof y' = true /\
    (forall b, b <> a -> tasks h' !! b = tasks h !! b /\ heap (sess h') !! b = heap (sess h) !! b).
Proof.
  intros Hr Hc Hsp Hy Ho He Hne.
  pose proof (hreach_serves evs r h Hr Hc) as Hi.
  destruct (started r h a y Hi Hsp Hy) as (evs1 & h1 & k & Hrun1 & Hab1 & Hk & Es & Hi1 & Hfr & Hor).
  destruct (hi_task _ _ _ Hi1 a y) as (pre & id & Hei & Hl & _); [by rewrite Es|].
  unfold length_at, task_at in Hei, Hl. rewrite Hk in Hei, Hl.
  set (t := etask_of k y) in *.
  assert (Hg : good pre id (rq_content_length (ht_request k)) (r a) t) by (split; done).
  destruct (good_finishes buffer buffer_window buffer_room pre id _ _ t Hg) as (evs2 & t' & Hrun2 & Hpc).
  { destruct Hor as [Hk0|Hk0]; [|exact Hk0]. intros e. exact (Hne k e Hk0). }
  assert (Hst : stands a (ht_request k) t h h1).
  { split; [by destruct k | by rewrite Es |]. intros b Hb. rewrite Es. split; [by apply Hfr | done]. }
  destruct (stands_run buffer a _ _ _ _ h h1 Hst Hrun2) as (h' & Hrun' & [Hk' Hy' Hfr']).
  exists (evs1 ++ map (hlift a) evs2), h', (htask_of (ht_request k) t'), (stream t').
  destruct (good_run buffer buffer_window buffer_room pre id _ _ _ _ _ Hg Hrun2) as [Hei' _ Ho' _].
  destruct (einv_returned pre id _ _ t' Hei' Hpc) as (_ & _ & Hall). destruct (Hall Ho') as (Hp & _ & Hpe).
  split; [by rewrite hrun_app, Hrun1|].
  split; [apply Forall_app; split; [done | by apply lift_about, (proj2 Hrun2)] | done].
Qed.

End SessionEchoes.

(** ** Concrete sessions *)

Module SessionEchoDemo.
#[local] Existing Instance capy_ref.
#[local] Existing Instance ng_ref.
#[local] Existing Instance capy_write_ref.

Definition buf : buffer_param := dest [3].

Definition headers (id : Z) : frame := mkFrame NGHTTP2_HEADERS id 4 NGHTTP2_HCAT_REQUEST.
Definition last_data (id : Z) : frame := mkFrame NGHTTP2_DATA id 1 NGHTTP2_HCAT_HEADERS.

Definition arrive (id : Z) (path len : string) : list hev :=
  [HCall (XBeginHeaders (headers id)); HCall (XHeader (headers id) ":path" path);
   HCall (XHeader (headers id) "content-length" len); HCall (XFrameRecv (headers id))].

(** Two requests, their bodies interleaved; the first is served, the second has been
    received and its handler has not been called. *)
Definition evs : list hev :=
  arrive 1 "/a" "4" ++ [HStart 0; HTask 0 VRead] ++ arrive 3 "/b" "2" ++
  [HCall (XDataChunk 3 (bytes_of "x")); HCall (XDataChunk 1 (bytes_of "abcd"));
   HCall (XFrameRecv (last_data 1)); HTask 0 (VReadWake None); HTask 0 (VSubmit 0); HTask 0 VTurn;
   HCall (XTurn 0 (EProduce 9)); HTask 0 (VWake None); HTask 0 VReturn; HTask 0 VRead;
   HCall (XDataChunk 3 (bytes_of "y")); HTask 0 VTurn; HCall (XTurn 0 (EProduce 9));
   HTask 0 (VWake None); HTask 0 VReturn; HTask 0 VRead; HTask 0 VTurn;
   HCall (XTurn 0 (EProduce 9)); HTask 0 (VWake None); HTask 0 VReturn;
   HCall (XFrameRecv (last_data 3))].

Definition state : (addr -> bytes) * hsess :=
  default (fun _ => [], hsess_new) (htrace buf evs (fun _ => []) hsess_new).
Definition obj (a : addr) : sys := default (sys_new (fun _ => "") 0) (heap (sess state.2) !! a).

Lemma state_reach : hreach buf evs state.1 state.2.
Proof.
  apply (htrace_reach buf [] evs (fun _ => []) hsess_new); [constructor|].
  unfold state. destruct (htrace _ _ _ _) as [[r h]|] eqn:E; [done|]. by vm_compute in E.
Qed.


(** The second request can still be served, without touching the first. *)
Lemma session_echo_completes_witness :
  exists evs' h' k' y', hrun buf evs' state.2 = Some h' /\ tasks h' !! 1 = Some k' /\
    heap (sess h') !! 1 = Some y' /\ pc (ht_echo k') = Returned None /\
    pulled (log y') = bytes_of "xy" /\ tasks h' !! 0 = tasks state.2 !! 0.
Proof.
  destruct (session_echo_completes buf eq_refl ltac:(vm_compute; lia) evs state.1 state.2 1 (obj 1)
              state_reach) as (evs' & h' & k' & y' & H1 & _ & H3 & H4 & H5 & H6 & _ & H8).
  - by repeat constructor.
  - vm_compute. by right; left.
  - by vm_compute.
  - by vm_compute.
  - by vm_compute.
  - intros k e H. by vm_compute in H.
  - exists evs', h', k', y'. do 4 (split; [assumption|]).
    split; [rewrite H6; by vm_compute|]. by destruct (H8 0) as [-> _].
Defined.

End SessionEchoDemo.
