(* ===== verification/EchoCancel.v ===== *)
(** * A cancelled echo handler

    A stop request reaches a coroutine through its stop token: every wait it is in, and
    every wait it starts afterwards, returns [canceled] (a wait that had already been
    satisfied may still return success).  An echo handler whose waits are cancelled comes
    to its end in a bounded number of its own turns, whatever it was doing, and whatever
    nghttp2 still does to its stream meanwhile. *)

From S2P Require Import Prelude Capy Nghttp2 Charconv Stream StreamRead StreamWrite StreamSys StreamProps.
From S2P Require Import Session SessionSys SessionProps SessionHeaders Messages Composed Echo.
From S2P Require Import EchoStream EchoLive EchoSafe EchoEnd SessionEcho.

Section Turns.
Context {C : CapyOps} {G : NgConsts} {W : CapyWrite}.

(** ** Turns *)

(** The turns of a handler once a stop was requested. *)
Definition stop_turn (e : eev) : bool :=
  match e with
  | VSubmit _ | VRead | VTurn | VReturn | VReadWake (Some _) | VWake (Some _) => true
  | _ => false
  end.

(** A wait that was satisfied before the stop request returns. *)
Definition late_turn (e : eev) : bool :=
  match e with VReadWake None | VWake None => true | _ => false end.

(** The next turn of a handler whose waits are cancelled; nghttp2_submit_response2
    returns [rv] if it is called. *)
Definition stop_next (rv : Z) (s : echo_state) (a : doing) : option eev :=
  match pc s, a with
  | (EagerSubmit | FirstSubmit _ | LastSubmit), ARun => Some (VSubmit rv)
  | Reading, ARun => Some VRead
  | Reading, ARead => Some (VReadWake (Some canceled))
  | (Writing _ | Ending), ABody (WAt (WCall _ _ _)) => Some VTurn
  | (Writing _ | Ending), ABody (WIn _) => Some (VWake (Some canceled))
  | (Writing _ | Ending), ABody (WAt (WReturn _)) => Some VReturn
  | _, _ => None
  end.

(** ** How many turns are left *)

Definition body_left (w : wstate) : nat :=
  match w with WAt (WCall _ _ _) => 2 | WIn _ => 1 | WAt (WReturn _) => 0 end.

(** At most: up to a [submit()], one read of what is there, a [submit()], a [write()]
    that is cancelled, a [submit()], a [write_eof()] that is cancelled. *)
Definition turns_left (s : echo_state) (a : doing) : nat :=
  match pc s, a with
  | Returned _, _ => 0
  | Ending, ABody w => 1 + body_left w
  | LastSubmit, _ => 4
  | Writing _, ABody (WAt (WReturn r)) => match ec r with None => 11 | Some _ => 5 end
  | Writing _, ABody w => 5 + body_left w
  | FirstSubmit _, _ => 8
  | Reading, ARead => 9
  | Reading, _ => 10
  | _, _ => 11
  end.

Lemma turns_left_bound s a : turns_left s a <= 11.
Proof.
  unfold turns_left. destruct (pc s) as [| |d|d| | |e], a as [| |[[bufs fin f|r]|f]]; simpl; try lia.
  destruct (ec r); lia.
Qed.

End Turns.

(** ** Where a handler can be *)

Section EchoCancel.
Context {C : CapyOps} {L : CapyLaws C} {G : NgConsts} {GL : NgLaws G}.
Context {W : CapyWrite} {WL : CapyWriteLaws W}.
Context (buffer : buffer_param).
Hypothesis buffer_window : bp_one_window buffer = true.
Hypothesis buffer_room : 0 < bp_room buffer.

(** Its place agrees with that of its coroutines on the stream; it was given only
    chunks with bytes in them. *)
Definition place_of (s : echo_state) (a : doing) (y : sys) : Prop :=
  match pc s, a with
  | (EagerSubmit | LastSubmit | Returned _ | Reading), ARun => writer y = None
  | FirstSubmit d, ARun => writer y = None /\ d <> []
  | Reading, ARead => writer y = None
  | Writing d, ABody w => exists base, binv base (BWrite [d]) (mkBtask y w)
  | Ending, ABody w => exists base, binv base BWriteEof (mkBtask y w)
  | _, _ => False
  end.

Record able (t : etask) : Prop := {
  ab_reach : exists pre id es, reach pre id es (stream t) /\ reads_fit es;
  ab_place : place_of (handler t) (at_op t) (stream t);
  ab_sink : sink_place t;
}.

(** *** Its turns, and those of others, keep it *)

Lemma able_enter s y :
  (exists pre id es, reach pre id es y /\ reads_fit es) -> writer y = None ->
  read_sink_ (st y) = None -> (forall d, pc s = FirstSubmit d -> d <> []) -> able (enter s y).
Proof.
  intros Hr Hw Hk Hd. pose proof Hr as (pre & id & es & Hy & _).
  pose proof (reach_write_inv _ _ _ _ Hy) as Hi. split; [done|..].
  - unfold place_of, enter. simpl. destruct (pc s) as [| |d|d| | |r]; simpl; auto.
    + exists (reported (log y)). by apply (binv_start (BWrite [d]) y).
    + exists (reported (log y)). by apply (binv_start BWriteEof y).
  - unfold sink_place, enter. simpl. by destruct (pc s).
Qed.

Lemma reach_on e y y' :
  (exists pre id es, reach pre id es y /\ reads_fit es) -> step e y = Some y' ->
  (forall p, e = ERead p -> p = buffer) -> exists pre id es, reach pre id es y' /\ reads_fit es.
Proof.
  intros (pre & id & es & Hr & Hf) Hs Hp. exists pre, id, (es ++ [e]).
  split; [by apply (reach_step _ _ _ y)|]. apply Forall_app. split; [done|].
  apply Forall_singleton. destruct e; try done. by rewrite (Hp _ eq_refl).
Qed.

Lemma able_env e t t' : able t -> estep buffer (VEnv e) t = Some t' -> able t'.
Proof.
  intros [Hr Hp Hk] H. cbn [estep] in H. destruct (of_env e (stream t)) eqn:Ee; [|done].
  destruct (step e (stream t)) as [y'|] eqn:Es; [|done]. injection H as <-.
  destruct (env_read_frame _ _ _ Ee Es) as (Ho & _). destruct (env_frame _ _ _ Ho Es) as [Hw _].
  destruct (env_quiet _ _ _ Ee Es) as [Hsink _].
  assert (Hb : forall w, bstep (BEnv e) (mkBtask (stream t) w) = Some (mkBtask y' w))
    by (intros w; cbn [bstep bsys bst]; by rewrite Ho, Es).
  split; cbn [handler at_op stream].
  - apply (reach_on e (stream t)); [done|done|]. by intros p ->.
  - unfold place_of in *. destruct (pc (handler t)) as [| |d|d| | |r], (at_op t) as [| |w]; try done;
      rewrite ?Hw; try done; destruct Hp as [base Hb']; exists base;
      by apply (binv_step base _ (BEnv e) (mkBtask (stream t) w)).
  - unfold sink_place in *. cbn [at_op stream] in *. destruct (at_op t); [|by apply Hsink|];
      rewrite Hk in Hsink; apply eq_None_not_Some; rewrite <-Hsink; by intros [].
Qed.

(** [read_some()] returns, or the handler is parked in it. *)
Lemma able_read e t y' t' :
  able t -> pc (handler t) = Reading -> writer (stream t) = None ->
  match e with ERead p => p = buffer | EReadWake _ => True | _ => False end ->
  step e (stream t) = Some y' -> after_read (stream t) y' (handler t) = Some t' -> able t'.
Proof.
  intros [Hr Hp Hk] Hpc Hwn He Hs H. pose proof Hr as (pre & id & es & Hy & Hf).
  destruct (read_sink_after buffer buffer_window buffer_room e _ _ (sr_rd _ _ (reach_read_inv _ _ _ _ Hy Hf)) He Hs)
    as [_ Hres].
  assert (He' : match e with ERead _ | EReadWake _ => True | _ => False end) by by destruct e.
  destruct (read_turn _ _ _ He' Hs) as (Hw & _).
  assert (Hr' : exists pre id es, reach pre id es y' /\ reads_fit es).
  { apply (reach_on e (stream t)); [done|done|]. by intros p ->. }
  unfold after_read in H. destruct (read_result _ _) as [r|].
  - unfold completed in H. destruct (echo_step _ _) as [s'|] eqn:Es; [|done]. injection H as <-.
    destruct Hres as [Hn Hne]. apply able_enter; [done | congruence | done |].
    intros d Hd. unfold echo_step, after_body in Es. rewrite Hpc in Es. destruct (ec r).
    + injection Es as <-. by destruct (submitted _).
    + simpl in Es. destruct (submitted _); injection Es as <-; [done|].
      injection Hd as <-. by apply Hne.
  - injection H as <-. split; [done| |done]. unfold place_of. cbn [handler at_op stream].
    rewrite Hpc. congruence.
Qed.

Lemma able_body e t t' :
  able t -> e = BTurn \/ (exists w, e = BWake w) -> body_turn e t = Some t' -> able t'.
Proof.
  intros [Hr Hp Hk] He H. unfold body_turn in H. unfold place_of, sink_place in *.
  destruct (at_op t) as [| |w]; try done. destruct (bstep e _) as [b|] eqn:Eb; [|done].
  injection H as <-. destruct (body_step _ _ _ He Eb) as (se & Hw & Hs). simpl in Hs.
  destruct (writer_quiet _ _ _ Hw Hs) as [_ Hsink]. split; cbn [handler at_op stream].
  - apply (reach_on se (stream t)); [done|done|]. by intros p ->.
  - unfold place_of. destruct (pc (handler t)) as [| |d|d| | |r]; try done;
      destruct Hp as [base Hb]; exists base; destruct b as [y' w'];
      by apply (binv_step base _ e (mkBtask (stream t) w)).
  - unfold sink_place. cbn [at_op stream]. by rewrite Hsink.
Qed.

Lemma able_step e t t' : able t -> estep buffer e t = Some t' -> able t'.
Proof.
  intros Ha H. destruct e as [e|rv| |w| |w|]; [by apply (able_env e t)|..]; cbn [estep] in H;
    pose proof Ha as [Hr Hp Hk]; unfold place_of, sink_place in *.
  - destruct (at_op t); try done. unfold completed in H. destruct (echo_step _ _) as [s'|] eqn:Es; [|done].
    injection H as <-. unfold echo_step in Es.
    apply able_enter; try done; destruct (pc (handler t)) as [| |d|d| | |r], (rv =? 0)%Z; simpl in Es; try done;
      injection Es as <-; try done; by destruct Hp.
  - destruct (at_op t) eqn:Ea; try done. destruct (pc (handler t)) eqn:Ep; try done.
    destruct (step _ _) as [y'|] eqn:Es; [|done]. by apply (able_read (ERead buffer) t y').
  - destruct (at_op t) eqn:Ea; try done. destruct (step _ _) as [y'|] eqn:Es; [|done].
    destruct (pc (handler t)) eqn:Ep; try done. by apply (able_read (EReadWake w) t y').
  - apply (able_body BTurn t); auto.
  - apply (able_body (BWake w) t); eauto.
  - destruct (at_op t) as [| |[[|r]|]]; try done. unfold completed in H.
    destruct (echo_step _ _) as [s'|] eqn:Es; [|done]. injection H as <-. unfold echo_step, after_body in Es.
    destruct (pc (handler t)) as [| |d|d| | |r']; try done; destruct Hp as (base & _ & sent & _ & Hw & _);
      (apply able_enter; [done|done|done|]); intros d' Hd;
      [destruct (ec r); [destruct (submitted _)|]|]; injection Es as <-; done.
Qed.

(** ** Every turn brings the end nearer *)

Lemma write_calls (d : bytes) : d <> [] -> exists bufs f, w_start (BWrite [d]) = WCall bufs false f.
Proof.
  intros Hd. simpl. unfold w_loop. destruct (cw_next (cw_start [d])) as [bufs|] eqn:En; [by eauto|].
  pose proof (cw_next_none _ En) as Hl. rewrite cw_start_left, cw_start_result in Hl.
  destruct Hd. rewrite <-Hl by done. simpl. by rewrite app_nil_r.
Qed.

(** Where the handler stands after an operation. *)
Definition entry_left (p : echo_pc) : nat :=
  match p with
  | EagerSubmit => 11
  | Reading => 10
  | FirstSubmit _ => 8
  | Writing _ => 7
  | LastSubmit => 4
  | Ending => 3
  | Returned _ => 0
  end.

Lemma enter_left s y :
  (forall d, pc s = Writing d -> d <> []) ->
  turns_left (handler (enter s y)) (at_op (enter s y)) = entry_left (pc s).
Proof.
  intros Hd. unfold turns_left, enter. cbn [handler at_op].
  destruct (pc s) as [| |d|d| | |r]; try done.
  destruct (write_calls d (Hd d eq_refl)) as (bufs & f & E). simpl in *. by rewrite E.
Qed.

Local Abbreviation left t := (turns_left (handler t) (at_op t)).

Lemma read_decreases e t y' t' :
  able t -> pc (handler t) = Reading ->
  match e with ERead p => p = buffer | EReadWake w => is_Some w | _ => False end ->
  step e (stream t) = Some y' -> after_read (stream t) y' (handler t) = Some t' ->
  left t' <= if match e with ERead _ => true | _ => false end then 9 else 8.
Proof.
  intros [Hr Hp Hk] Hpc He Hs H. destruct Hr as (pre & id & es & Hy & Hf).
  assert (He' : match e with ERead p => p = buffer | EReadWake _ => True | _ => False end) by by destruct e.
  destruct (read_sink_after buffer buffer_window buffer_room e _ _
              (sr_rd _ _ (reach_read_inv _ _ _ _ Hy Hf)) He' Hs) as [_ Hres].
  unfold after_read in H. destruct (read_result _ _) as [r|] eqn:Er.
  - unfold completed in H. destruct (echo_step _ _) as [s'|] eqn:Es; [|done]. injection H as <-.
    destruct Hres as [_ Hne]. unfold echo_step, after_body in Es. rewrite Hpc in Es.
    assert (Hle : entry_left (pc s') <= 8 /\ (forall d, pc s' = Writing d -> d <> [])).
    { destruct (ec r); [|simpl in Es; specialize (Hne eq_refl)];
        destruct (submitted _); injection Es as <-; simpl; (split; [lia|]); try done.
      by intros d [= <-]. }
    rewrite enter_left by apply Hle. destruct Hle as [Hle _]. destruct e; lia.
  - injection H as <-. unfold turns_left. cbn [handler at_op]. rewrite Hpc.
    destruct e as [| | | |p|w| | | | | |]; try done. exfalso. destruct He as [w' ->].
    cbn [step] in Hs. destruct (read_sink_ _) as [k|]; [|done]. cbn [completes] in Hs.
    unfold read_result in Er. unfold read_some_resume in Hs.
    destruct (0 <? copied k); injection Hs as <-; simpl in Er; by rewrite drop_app_length in Er.
Qed.

Lemma body_decreases e t t' :
  able t -> e = BTurn \/ (exists w, e = BWake (Some w)) -> body_turn e t = Some t' -> left t' < left t.
Proof.
  intros [Hr Hp Hk] He H. unfold body_turn in H. unfold place_of, turns_left in *.
  destruct (at_op t) as [| |w]; try done. destruct (bstep e _) as [b|] eqn:Eb; [|done].
  injection H as <-. cbn [handler at_op].
  assert (Hb : body_left (bst b) < body_left w /\
               (forall r, bst b = WAt (WReturn r) -> is_Some (ec r)) /\
               (forall r, w <> WAt (WReturn r))).
  { destruct He as [->|[ec' ->]]; cbn [bstep bst bsys] in Eb.
    - destruct w as [[bufs fin f|]|]; try done. destruct (step _ _) as [y'|] eqn:Es; [|done].
      injection Eb as <-. destruct (call_turn _ _ _ _ Es) as (_ & _ & _ & Hif).
      unfold after_write. cbn [bst]. destruct (closed_ _); destruct Hif as [-> _]; [|simpl; split; [lia|done]].
      destruct (failed_ends eof 0 f) as (r & -> & Hr'). simpl. split; [lia|]. split; [|done].
      by intros ? [= <-].
    - destruct w as [|f]; [done|]. destruct (step _ _) as [y'|] eqn:Es; [|done]. injection Eb as <-.
      assert (Hw : exists n, write_result (stream t) y' = Some (IoResult (Some ec') n)).
      { cbn [step] in Es. destruct (writer (stream t)) as [[a fin]|]; [|done]. cbn [completes] in Es.
        injection Es as <-. unfold write_result. simpl. rewrite drop_app_length. by eexists. }
      destruct Hw as [n Hw]. unfold after_write. cbn [bst]. rewrite Hw.
      destruct (failed_ends ec' n f) as (r & -> & Hr'). simpl. split; [lia|]. split; [|done].
      by intros ? [= <-]. }
  destruct Hb as (Hlt & Herr & Hnr).
  destruct (pc (handler t)) as [| |d|d| | |r]; try done; [|lia].
  destruct w as [[bufs fin f|r]|f]; [| by destruct (Hnr r) |];
    (destruct (bst b) as [[bufs' fin' f'|r]|f'] eqn:Ebs; try lia;
     destruct (Herr r eq_refl) as [? ->]; simpl in *; lia).
Qed.

Lemma stop_decreases e t t' :
  able t -> stop_turn e = true -> estep buffer e t = Some t' -> left t' < left t.
Proof.
  intros Ha He H. pose proof Ha as [_ Hp _]. unfold place_of in Hp.
  destruct e as [e|rv| |[w|]| |[w|]|]; try done; cbn [estep] in H.
  - destruct (at_op t) eqn:Ea; try done. unfold completed in H.
    destruct (echo_step _ _) as [s'|] eqn:Es; [|done]. injection H as <-.
    assert (Hd : forall d, pc s' = Writing d -> d <> []).
    { unfold echo_step in Es. intros d' Hd. destruct (pc (handler t)) as [| |d|d| | |r], (rv =? 0)%Z; simpl in Es;
        try done; injection Es as <-; try done. injection Hd as <-. by destruct Hp. }
    rewrite enter_left by done. unfold turns_left, echo_step in *.
    destruct (pc (handler t)) as [| |d|d| | |r], (rv =? 0)%Z; simpl in Es; try done;
      injection Es as <-; simpl; lia.
  - destruct (at_op t) eqn:Ea; try done. destruct (pc (handler t)) eqn:Ep; try done.
    destruct (step _ _) as [y'|] eqn:Es; [|done].
    pose proof (read_decreases (ERead buffer) t y' t' Ha Ep eq_refl Es H) as Hle. cbn iota in Hle.
    unfold turns_left at 2. rewrite Ep. lia.
  - destruct (at_op t) eqn:Ea; try done. destruct (pc (handler t)) eqn:Ep; try done.
    destruct (step _ _) as [y'|] eqn:Es; [|done].
    pose proof (read_decreases (EReadWake (Some w)) t y' t' Ha Ep (mk_is_Some _ _ eq_refl) Es H) as Hle. cbn iota in Hle.
    unfold turns_left at 2. rewrite Ep. lia.
  - apply (body_decreases BTurn); auto.
  - apply (body_decreases (BWake (Some w))); eauto.
  - destruct (at_op t) as [| |[[|r]|]] eqn:Ea; try done. unfold completed in H.
    destruct (echo_step _ _) as [s'|] eqn:Es; [|done]. injection H as <-.
    unfold echo_step, after_body in Es. unfold turns_left at 2.
    destruct (pc (handler t)) as [| |d|d| | |r']; try done.
    + destruct (ec r); [destruct (submitted _)|]; injection Es as <-; rewrite enter_left by done; simpl; lia.
    + injection Es as <-. rewrite enter_left by done. simpl. lia.
Qed.

(** ** The next turn is always possible *)

Lemma stop_enabled rv t :
  able t -> (forall r, pc (handler t) <> Returned r) ->
  exists e, stop_next rv (handler t) (at_op t) = Some e /\ stop_turn e = true /\
    is_Some (estep buffer e t).
Proof.
  intros [Hr Hp Hk] Hn. unfold place_of, sink_place, stop_next in *.
  assert (Hdone : forall y e, pc (handler t) = Reading ->
            step e (stream t) = Some y -> is_Some (after_read (stream t) y (handler t))).
  { intros y e Hpc Hs. unfold after_read, completed, echo_step. rewrite Hpc.
    destruct (read_result _ _) as [[[] v]|]; [by eexists | | by eexists].
    simpl. by destruct (submitted _); eexists. }
  assert (Hbody : forall w, at_op t = ABody w -> (exists base op, binv base op (mkBtask (stream t) w)) ->
            (exists d, pc (handler t) = Writing d) \/ pc (handler t) = Ending ->
            exists e, match w with WAt (WCall _ _ _) => Some VTurn
                      | WIn _ => Some (VWake (Some canceled))
                      | WAt (WReturn _) => Some VReturn end = Some e /\
              stop_turn e = true /\ is_Some (estep buffer e t)).
  { intros w Ea (base & op & Hi & sent & _ & Hst) Hpc. cbn [bst bsys] in *.
    destruct w as [[bufs fin f|r]|f].
    - exists VTurn. split; [done|]. split; [done|]. cbn [estep]. unfold body_turn. rewrite Ea.
      cbn [bstep bst bsys step]. destruct Hst as [-> _]. destruct (write_impl _ _ _) as [[]]. by eexists.
    - exists VReturn. split; [done|]. split; [done|]. cbn [estep]. rewrite Ea. unfold completed, echo_step.
      destruct Hpc as [[d ->]| ->]; [|by eexists]. by destruct (ec r); eexists.
    - exists (VWake (Some canceled)). split; [done|]. split; [done|]. cbn [estep]. unfold body_turn.
      rewrite Ea. destruct Hst as (bufs & fin & Hw & _).
      cbn [bstep bst bsys step]. rewrite Hw. simpl. by eexists. }
  destruct (pc (handler t)) as [| |d|d| | |r] eqn:Ep; [..|by destruct (Hn r)];
    destruct (at_op t) as [| |w] eqn:Ea; try done;
    try (by apply Hbody; [done | by destruct Hp as [base Hp]; eauto | eauto]);
    try (exists (VSubmit rv); split; [done|]; split; [done|]; cbn [estep]; rewrite Ea;
         unfold completed, echo_step; rewrite Ep; by destruct (rv =? 0)%Z; eexists).
  - exists VRead. split; [done|]. split; [done|]. cbn [estep]. rewrite Ea, Ep.
    destruct (step (ERead buffer) (stream t)) as [y'|] eqn:Es; [by apply (Hdone y' (ERead buffer))|].
    cbn [step] in Es. rewrite Hk in Es. by destruct (read_some _ _) as [[]].
  - exists (VReadWake (Some canceled)). split; [done|]. split; [done|]. cbn [estep]. rewrite Ea.
    destruct (step (EReadWake (Some canceled)) (stream t)) as [y'|] eqn:Es; [by apply (Hdone y' (EReadWake (Some canceled)))|].
    cbn [step] in Es. destruct Hk as [k Hk]. rewrite Hk in Es. cbn [completes] in Es.
    by destruct (read_some_resume _ _ _) as [[]].
Qed.

(** ** In a session *)

Lemma able_run evs t t' : able t -> erun buffer evs t = Some t' -> able t'.
Proof.
  revert t; induction evs as [|e evs IH]; intros t Ha H; simpl in H; [by injection H as <-|].
  destruct (estep buffer e t) as [t1|] eqn:E; [|done]. by apply (IH t1); [apply (able_step e t)|].
Qed.

(** Whether waits are cancelled or not. *)
Definition any_turn (e : eev) : bool := true.

Lemma able_inv : HandlerInv buffer (fun _ _ => able) any_turn.
Proof.
  split.
  - intros _ _ s w y y' _ (es & _ & Hrun) Ha. by apply (able_run _ (mkEtask s w y) _ Ha (Hrun s w)).
  - intros pre id. apply (able_enter idle (sys_new pre id)); try done.
    exists pre, id, []. split; constructor.
  - intros _ y rq rs [Hr Hp Hk]. apply able_enter; [done | exact Hp | exact Hk |].
    unfold echo. by destruct (has_header _ _).
  - intros _ _ t e t' Ha _ _ H. by apply (able_step e t).
Qed.

End EchoCancel.
