(* ===== verification/EchoClosed.v ===== *)
(** * The turns of an echo handler on a closed stream

    EchoEnd shows a way in which the handler on a closed stream comes to its end; here,
    that every way does: each turn it can take, with waits cancelled or not, is one of at
    most ten. *)

From S2P Require Import Prelude Capy Nghttp2 Charconv Stream StreamRead StreamWrite StreamSys StreamProps.
From S2P Require Import Session SessionSys SessionProps SessionHeaders Messages Composed Echo.
From S2P Require Import EchoStream EchoLive EchoSafe EchoEnd SessionEcho EchoCancel.

Section ClosedTurns.
Context {C : CapyOps} {L : CapyLaws C} {G : NgConsts} {GL : NgLaws G}.
Context {W : CapyWrite} {WL : CapyWriteLaws W}.

(** ** How many turns are left *)

(** A body operation: resumed, it starts another write, which fails. *)
Definition closed_body_left (w : wstate) : nat :=
  match w with WIn _ => 3 | WAt (WCall _ _ _) => 2 | WAt (WReturn _) => 1 end.

(** At most: a write that was on offer succeeds, what is queued is read once, written in
    vain, and the response ended in vain. *)
Definition closed_left (s : echo_state) (a : doing) : nat :=
  match pc s, a with
  | Returned _, _ => 0
  | Ending, ABody w => closed_body_left w
  | LastSubmit, _ => 4
  | Writing _, ABody (WAt (WReturn r)) => match ec r with None => 9 | Some _ => 5 end
  | Writing _, ABody (WAt (WCall _ _ _)) => 6
  | FirstSubmit _, _ => 7
  | Reading, _ => 8
  | EagerSubmit, _ => 9
  | _, _ => 10
  end.

Lemma closed_left_bound s a : closed_left s a <= 10.
Proof.
  unfold closed_left, closed_body_left.
  destruct (pc s) as [| |d|d| | |e], a as [| |[[bufs fin f|r]|f]]; simpl; try lia. destruct (ec r); lia.
Qed.

Lemma closed_left_zero s a : closed_left s a = 0 -> exists r, pc s = Returned r.
Proof.
  unfold closed_left, closed_body_left.
  destruct (pc s) as [| |d|d| | |e], a as [| |[[bufs fin f|r]|f]]; simpl; try lia; eauto. destruct (ec r); lia.
Qed.

Local Abbreviation left t := (closed_left (handler t) (at_op t)).

Definition closed_entry (p : echo_pc) : nat :=
  match p with
  | EagerSubmit => 9 | Reading => 8 | FirstSubmit _ => 7 | Writing _ => 6
  | LastSubmit => 4 | Ending => 2 | Returned _ => 0
  end.

Lemma closed_enter s y :
  (forall d, pc s = Writing d -> d <> []) -> left (enter s y) = closed_entry (pc s).
Proof.
  intros Hd. unfold closed_left, enter. cbn [handler at_op].
  destruct (pc s) as [| |d|d| | |r]; try done.
  destruct (write_calls d (Hd d eq_refl)) as (bufs & f & E). simpl in *. by rewrite E.
Qed.

(** ** Every turn is one of them *)

(** A read does not wait on a closed stream. *)
Lemma closed_read e y y' :
  closed_ (st y) = true -> match e with ERead _ | EReadWake _ => True | _ => False end ->
  step e y = Some y' -> read_sink_ (st y') = None.
Proof.
  intros Hc He H. destruct e as [| | | |p|w| | | | | |]; try done; cbn [step] in H.
  - destruct (read_sink_ (st y)) eqn:Ek; [done|]. unfold read_some in H. destruct (drain _ _) as [d|].
    + destruct (0 <? d_total d); [by injection H as <-|]. simpl in H. rewrite Hc, orb_true_r in H. by injection H as <-.
    + by injection H as <-.
  - destruct (read_sink_ (st y)) as [k|]; [|done]. destruct (completes _ _); [|done]. unfold read_some_resume in H.
    destruct (0 <? copied k); [by injection H as <-|]. destruct w; [by injection H as <-|].
    simpl in H. rewrite Hc, orb_true_r in H. by injection H as <-.
Qed.

End ClosedTurns.

Section EchoClosed.
Context {C : CapyOps} {L : CapyLaws C} {G : NgConsts} {GL : NgLaws G}.
Context {W : CapyWrite} {WL : CapyWriteLaws W}.
Context (buffer : buffer_param).
Hypothesis buffer_window : bp_one_window buffer = true.
Hypothesis buffer_room : 0 < bp_room buffer.

Local Abbreviation left t := (closed_left (handler t) (at_op t)).

Lemma closed_read_decreases e t y' t' :
  able t -> closed_ (st (stream t)) = true -> pc (handler t) = Reading ->
  match e with ERead p => p = buffer | EReadWake _ => True | _ => False end ->
  step e (stream t) = Some y' -> after_read (stream t) y' (handler t) = Some t' -> left t' < 8.
Proof.
  intros [Hr Hp Hk] Hc Hpc He Hs H. destruct Hr as (pre & id & es & Hy & Hf).
  destruct (read_sink_after buffer buffer_window buffer_room e _ _
              (sr_rd _ _ (reach_read_inv _ _ _ _ Hy Hf)) He Hs) as [_ Hres].
  pose proof (closed_read e (stream t) y' Hc ltac:(by destruct e) Hs) as Hn. unfold after_read in H.
  destruct (read_result (stream t) y') as [r|]; [|rewrite Hn in Hres; by destruct Hres]. destruct Hres as [_ Hne].
  unfold completed in H. destruct (echo_step _ _) as [s'|] eqn:Es; [|done]. injection H as <-.
  unfold echo_step, after_body in Es. rewrite Hpc in Es.
  assert (Hle : closed_entry (pc s') < 8 /\ (forall d, pc s' = Writing d -> d <> [])).
  { destruct (ec r); [|simpl in Es; specialize (Hne eq_refl)];
      destruct (submitted _); injection Es as <-; simpl; (split; [lia|]); try done.
    by intros d [= <-]. }
  rewrite closed_enter by apply Hle. apply Hle.
Qed.

Lemma closed_body_decreases e t t' :
  able t -> closed_ (st (stream t)) = true -> e = BTurn \/ (exists w, e = BWake w) ->
  body_turn e t = Some t' -> left t' < left t.
Proof.
  intros [Hr Hp Hk] Hc He H. unfold body_turn in H. unfold place_of, closed_left in *.
  destruct (at_op t) as [| |w]; try done. destruct (bstep e _) as [b|] eqn:Eb; [|done].
  injection H as <-. cbn [handler at_op].
  assert (Hb : (exists bufs fin f r, w = WAt (WCall bufs fin f) /\ bst b = WAt (WReturn r) /\ is_Some (ec r)) \/
               (exists f, w = WIn f /\ (forall f', bst b <> WIn f'))).
  { destruct He as [->|[ec' ->]]; cbn [bstep bst bsys] in Eb.
    - left. destruct w as [[bufs fin f|]|]; try done. destruct (step _ _) as [y'|] eqn:Es; [|done].
      injection Eb as <-. destruct (call_turn _ _ _ _ Es) as (_ & _ & _ & Hif). rewrite Hc in Hif.
      destruct (failed_ends eof 0 f) as (r & Hw & Hr'). exists bufs, fin, f, r. split; [done|].
      unfold after_write. cbn [bst]. by rewrite (proj1 Hif), Hw.
    - right. destruct w as [|f]; [done|]. destruct (step _ _) as [y'|] eqn:Es; [|done]. injection Eb as <-.
      exists f. split; [done|]. intros f'. unfold after_write. cbn [bst].
      assert (Hw : exists n, write_result (stream t) y' = Some (IoResult ec' n)).
      { cbn [step] in Es. destruct (writer (stream t)) as [[a fin]|]; [|done].
        destruct (completes _ _); [|done]. injection Es as <-. unfold write_result. simpl.
        rewrite drop_app_length. by eexists. }
      destruct Hw as [n ->]. by destruct (w_resume _ f). }
  destruct Hb as [(bufs & fin & f & r & -> & -> & [e' He'])|(f & -> & Hn)].
  - destruct (pc (handler t)) as [| |d|d| | |r']; try done; simpl; rewrite ?He'; lia.
  - destruct (bst b) as [[bufs fin f'|r]|f'] eqn:Ebs; [..|by destruct (Hn f')];
      destruct (pc (handler t)) as [| |d|d| | |r']; try done; simpl; try lia. destruct (ec r); lia.
Qed.

Lemma closed_decreases e t t' :
  able t -> closed_ (st (stream t)) = true -> (forall se, e <> VEnv se) ->
  estep buffer e t = Some t' -> left t' < left t.
Proof.
  intros Ha Hc He H. pose proof Ha as [_ Hp _]. unfold place_of in Hp.
  destruct e as [e|rv| |w| |w|]; [by destruct (He e)|..]; cbn [estep] in H.
  - destruct (at_op t) eqn:Ea; try done. unfold completed in H.
    destruct (echo_step _ _) as [s'|] eqn:Es; [|done]. injection H as <-.
    assert (Hd : forall d, pc s' = Writing d -> d <> []).
    { unfold echo_step in Es. intros d' Hd. destruct (pc (handler t)) as [| |d|d| | |r], (rv =? 0)%Z; simpl in Es;
        try done; injection Es as <-; try done. injection Hd as <-. by destruct Hp. }
    rewrite closed_enter by done. unfold closed_left, echo_step in *.
    destruct (pc (handler t)) as [| |d|d| | |r], (rv =? 0)%Z; simpl in Es; try done;
      injection Es as <-; simpl; lia.
  - destruct (at_op t) eqn:Ea; try done. destruct (pc (handler t)) eqn:Ep; try done.
    destruct (step _ _) as [y'|] eqn:Es; [|done].
    pose proof (closed_read_decreases (ERead buffer) t y' t' Ha Hc Ep eq_refl Es H) as Hle.
    unfold closed_left at 2. rewrite Ep. lia.
  - destruct (at_op t) eqn:Ea; try done. destruct (pc (handler t)) eqn:Ep; try done.
    destruct (step _ _) as [y'|] eqn:Es; [|done].
    pose proof (closed_read_decreases (EReadWake w) t y' t' Ha Hc Ep I Es H) as Hle.
    unfold closed_left at 2. rewrite Ep. lia.
  - apply (closed_body_decreases BTurn); auto.
  - apply (closed_body_decreases (BWake w)); eauto.
  - destruct (at_op t) as [| |[[|r]|]] eqn:Ea; try done. unfold completed in H.
    destruct (echo_step _ _) as [s'|] eqn:Es; [|done]. injection H as <-.
    unfold echo_step, after_body in Es. unfold closed_left at 2.
    destruct (pc (handler t)) as [| |d|d| | |r']; try done.
    + destruct (ec r); [destruct (submitted _)|]; injection Es as <-; rewrite closed_enter by done; simpl; lia.
    + injection Es as <-. rewrite closed_enter by done. simpl. lia.
Qed.

(** The stream stays closed. *)
Lemma closed_stays e t t' :
  closed_ (st (stream t)) = true -> estep buffer e t = Some t' -> closed_ (st (stream t')) = true.
Proof.
  assert (Hafter : forall y', closed_ (st y') = true -> after_read (stream t) y' (handler t) = Some t' ->
            closed_ (st (stream t')) = true).
  { intros y' Hc. unfold after_read, completed. destruct (read_result _ _); [|by intros [= <-]].
    destruct (echo_step _ _); [|done]. by intros [= <-]. }
  assert (Hbody : forall e, e = BTurn \/ (exists w, e = BWake w) -> closed_ (st (stream t)) = true ->
            body_turn e t = Some t' -> closed_ (st (stream t')) = true).
  { intros be He Hc. unfold body_turn. destruct (at_op t) as [| |w]; try done.
    destruct (bstep be _) as [b|] eqn:Eb; [|done]. intros [= <-].
    destruct (body_step _ _ _ He Eb) as (se & _ & Hs). by apply (step_closed se _ _ Hs). }
  intros Hc H. destruct e as [e|rv| |w| |w|]; cbn [estep] in H.
  - destruct (of_env _ _); [|done]. destruct (step e _) as [y'|] eqn:Es; [|done]. injection H as <-.
    by apply (step_closed e _ _ Es).
  - destruct (at_op t); try done. unfold completed in H. destruct (echo_step _ _); [|done]. by injection H as <-.
  - destruct (at_op t); try done. destruct (pc (handler t)); try done.
    destruct (step _ _) as [y'|] eqn:Es; [|done]. apply (Hafter y'); [by apply (step_closed _ _ _ Es) | done].
  - destruct (at_op t); try done. destruct (step _ _) as [y'|] eqn:Es; [|done].
    apply (Hafter y'); [by apply (step_closed _ _ _ Es) | done].
  - apply (Hbody BTurn); auto.
  - apply (Hbody (BWake w)); eauto.
  - destruct (at_op t) as [| |[[|r]|]]; try done. unfold completed in H. destruct (echo_step _ _); [|done].
    by injection H as <-.
Qed.

End EchoClosed.
