(* ===== verification/Wire.v ===== *)
(** * There and back again

    A client session and the echo server at the two ends of an HTTP/2 connection.  What
    the connection does between the two nghttp2 sessions is not the program's; it is
    described by what HTTP/2 guarantees of a stream: its body arrives in order, and
    END_STREAM arrives after all of it.  Then the client reads back what it wrote. *)

From S2P Require Import Prelude Capy Nghttp2 Charconv Stream StreamRead StreamWrite StreamSys StreamProps.
From S2P Require Import Session SessionSys SessionProps SessionHeaders Messages Composed Echo.
From S2P Require Import EchoStream EchoLive EchoSafe SessionEcho.

(** ** One direction of an HTTP/2 stream *)

Section Link.
Context {C : CapyOps} {G : NgConsts}.


End Link.

(** ** The echo, seen by the client *)

Section Wire.
Context {C : CapyOps} {L : CapyLaws C} {G : NgConsts} {GL : NgLaws G}.
Context {W : CapyWrite} {WL : CapyWriteLaws W}.
Context (buffer : buffer_param).
Hypothesis buffer_window : bp_one_window buffer = true.
Hypothesis buffer_room : 0 < bp_room buffer.



End Wire.

(** ** A concrete exchange *)

Module WireDemo.
#[local] Existing Instance capy_ref.
#[local] Existing Instance ng_ref.
#[local] Existing Instance capy_write_ref.
Import SessionEchoDemo.




End WireDemo.
