(* ===== verification/EchoConnection.v ===== *)
(** * A connection served by echo handlers

    Everything at once: [run()] of Connection, its loops and the nghttp2 engine, and on
    top of it the handler coroutines of SessionEcho, one per request.  A handler's calls
    reach the engine and wake the send loop; the engine's callbacks and pulls reach the
    handler.  The composition is a run of both. *)

From S2P Require Import Prelude Capy Nghttp2 Charconv Stream StreamRead StreamWrite StreamSys StreamProps.
From S2P Require Import Session SessionSys SessionProps SessionHeaders Messages Composed Echo.
From S2P Require Import EchoStream EchoLive EchoSafe SessionEcho.
From S2P Require Import Loops LoopProps Connection ConnectionProps.

Section EchoConnection.
Context {C : CapyOps} {G : NgConsts} {W : CapyWrite} {E : Type} {N : NgEngine E}.
Context (buffer : buffer_param) (capacity : nat).

(** ** State and turns *)

Record eserver := mkEserver { econn : connection (E := E); etasks : gmap addr htask }.

Definition eserver_new (e : E) : eserver := mkEserver (connection_new server true e) ∅.

Inductive qev :=
| QLoop (e : kev)                 (* a turn of a loop, the end of run() *)
| QStart (a : addr)               (* a spawned task starts *)
| QTask (a : addr) (e : eev).     (* a turn of its handler *)

(** What the turn does to the session, if anything, it does through the connection. *)
Definition opt_kturn (e : option xev) (k : connection) : option connection :=
  match e with Some e => kstep capacity (KTurn e) k | None => Some k end.

Definition qstep (e : qev) (s : eserver) : option eserver :=
  let x := session_of (econn s) in
  match e with
  | QLoop (KTurn _) => None
  | QLoop e =>
      match kstep capacity e (econn s) with Some k => Some (mkEserver k (etasks s)) | None => None end
  | QStart a =>
      if bool_decide (a ∈ spawned x) && bool_decide (etasks s !! a = None) then
        match heap x !! a, handle_request a 0 x with
        | Some y, Some (HandlerCalled rq r, _) =>
            Some (mkEserver (econn s) (<[a := htask_of rq (enter (echo rq r) y)]> (etasks s)))
        | _, _ => None
        end
      else None
  | QTask _ (VEnv _) => None
  | QTask a e =>
      match etasks s !! a, heap x !! a with
      | Some k, Some y =>
          match estep buffer e (etask_of k y), opt_kturn (event_of buffer a e (etask_of k y)) (econn s) with
          | Some t', Some c => Some (mkEserver c (<[a := htask_of (ht_request k) t']> (etasks s)))
          | _, _ => None
          end
      | _, _ => None
      end
  end.

Inductive qreach (e0 : E) : list qev -> eserver -> Prop :=
| qreach_new : qreach e0 [] (eserver_new e0)
| qreach_step evs s e s' : qreach e0 evs s -> qstep e s = Some s' -> qreach e0 (evs ++ [e]) s'.

Fixpoint qrun (evs : list qev) (s : eserver) : option eserver :=
  match evs with
  | [] => Some s
  | e :: evs => match qstep e s with Some s => qrun evs s | None => None end
  end.

Lemma qrun_reach e0 evs0 evs s0 s :
  qreach e0 evs0 s0 -> qrun evs s0 = Some s -> qreach e0 (evs0 ++ evs) s.
Proof.
  revert evs0 s0; induction evs as [|e evs IH]; intros evs0 s0 Hr H; simpl in H.
  - injection H as <-. by rewrite app_nil_r.
  - destruct (qstep e s0) as [s1|] eqn:Es; [|done].
    replace (evs0 ++ e :: evs) with ((evs0 ++ [e]) ++ evs) by by rewrite <-app_assoc.
    by apply (IH _ s1); [apply (qreach_step _ _ s0)|].
Qed.

(** The turns of handlers are among those [ok] allows. *)
Definition qallowed (ok : eev -> bool) (e : qev) : bool :=
  match e with QTask _ e => ok e | _ => true end.

(** No wait is cancelled. *)
Definition qcalm : qev -> bool := qallowed calm.

Definition trace_of (s : eserver) : list xev := trace (world (loops (econn s))).

(** nghttp2 delivers no DATA after END_STREAM, as seen along the session's events. *)
Fixpoint polite (evs : list xev) (x : Session) : bool :=
  match evs with
  | [] => true
  | e :: evs =>
      (coroutine e || outside e x) && match xstep e x with Some x => polite evs x | None => true end
  end.

Definition session0 : Session := Session_new server true.

End EchoConnection.

(** ** Event sequences *)

Section Sequences.
Context {C : CapyOps} {G : NgConsts}.

Lemma polite_app es es' x :
  polite (es ++ es') x =
  polite es x && match xrun es x with Some x' => polite es' x' | None => true end.
Proof.
  revert x; induction es as [|e es IH]; intros x; simpl; [done|].
  destruct (xstep e x); [rewrite IH; by rewrite andb_assoc | by rewrite !andb_true_r].
Qed.

Lemma routes_app es es' x a :
  routes (es ++ es') x a =
  routes es x a ++ match xrun es x with Some x' => routes es' x' a | None => [] end.
Proof.
  revert x; induction es as [|e es IH]; intros x; simpl; [done|].
  destruct (xstep e x); [rewrite IH; by rewrite app_assoc | by rewrite !app_nil_r].
Qed.

End Sequences.

(** ** The connection and its handlers are a session with its handlers *)

Section EchoConnectionProps.
Context {C : CapyOps} {L : CapyLaws C} {G : NgConsts} {GL : NgLaws G}.
Context {W : CapyWrite} {WL : CapyWriteLaws W} {E : Type} {N : NgEngine E}.
Context (buffer : buffer_param) (capacity : nat).
Hypothesis buffer_window : bp_one_window buffer = true.
Hypothesis buffer_room : 0 < bp_room buffer.
Implicit Types (s : eserver (E := E)) (k : connection (E := E)).

(** The turns of handlers that are allowed. *)
Context (ok : eev -> bool).

(** *** The loops *)

(** Events of the session, none of them a coroutine's. *)
Definition esteps (w w' : world_ (E := E)) : Prop :=
  exists es, trace w' = trace w ++ es /\ xrun es (sess w) = Some (sess w') /\
    Forall (fun e => coroutine e = false) es.

Lemma wsteps_esteps w w' : wsteps w w' -> esteps w w'.
Proof. intros (es & ? & ? & ? & _). by exists es. Qed.

Lemma esteps_sync w c e :
  esteps w (world c) -> coroutine e = false -> xstep e (sess (world c)) <> None ->
  esteps w (world (sync e c)).
Proof.
  intros (es & T & X & F) He Hx. destruct (xstep e (sess (world c))) as [x|] eqn:Ex; [|done].
  exists (es ++ [e]). unfold sync. simpl. rewrite T, app_assoc, xrun_app, X. simpl.
  unfold sess_event. rewrite Ex. split; [done|]. split; [done|]. apply Forall_app. by repeat constructor.
Qed.

Lemma send_esteps k e k' :
  match e with CSendStart | CWritten _ _ | CWake _ => True | _ => False end ->
  send_event capacity k e = Some k' -> esteps (world (loops k)) (world (loops k')).
Proof.
  intros He. unfold send_event. destruct (cstep capacity e (loops k)) as [c|] eqn:Hs; [|done].
  intros [= <-]. destruct (cstep_send_wsteps capacity _ _ _ He Hs) as [Hw%wsteps_esteps _].
  simpl. unfold sync_send. destruct (sphase c); try done. by apply esteps_sync.
Qed.

Lemma recv_esteps k e o k' c :
  recv_event capacity k e o = Some k' -> cstep capacity e (loops k) = Some c ->
  world c = ro_world o -> wsteps (world (loops k)) (ro_world o) ->
  esteps (world (loops k)) (world (loops k')).
Proof.
  intros Hk Hs Ew Hw%wsteps_esteps. unfold recv_event in Hk. rewrite Hs in Hk. injection Hk as <-.
  simpl. unfold starts_loop. rewrite <-Ew in Hw. destruct (ro_start_write o); [|done].
  by apply esteps_sync.
Qed.

Lemma loop_esteps e k k' :
  (forall xe, e <> KTurn xe) -> kstep capacity e k = Some k' ->
  esteps (world (loops k)) (world (loops k')).
Proof.
  intros He H. destruct e as [| |ec n|ec|ec d|xe|].
  - by apply (send_esteps k CSendStart).
  - cbn [kstep] in H. pose proof H as H'. unfold recv_event in H'.
    destruct (cstep capacity CRecvStart (loops k)) as [c|] eqn:Ec; [|done].
    apply (recv_esteps _ _ _ _ c H Ec); [|apply recv_check_wsteps].
    simpl in Ec. destruct (rphase (loops k)); try done. injection Ec as <-. apply recv_turn_ready.
  - by apply (send_esteps k (CWritten ec n)).
  - by apply (send_esteps k (CWake ec)).
  - cbn [kstep] in H. pose proof H as H'. unfold recv_event in H'.
    destruct (cstep capacity (CRead ec d) (loops k)) as [c|] eqn:Ec; [|done].
    apply (recv_esteps _ _ _ _ c H Ec); [|apply recv_resume_wsteps].
    simpl in Ec. destruct (rphase (loops k)); try done. destruct (_ <=? _); [|done].
    injection Ec as <-.
    match goal with |- context [recv_turn ?o ?c] => destruct (recv_turn_ready o c) as [H1 _] end.
    by destruct ec.
  - by destruct (He xe).
  - cbn [kstep] in H. destruct (sphase (loops k)); try done. destruct (rphase (loops k)); try done.
    destruct (over k); [done|]. injection H as <-. simpl. apply esteps_sync; [|done|done].
    apply wsteps_esteps, wsteps_refl; done.
Qed.

(** *** The invariant *)

(** The session after [tr], with its handlers, is one that SessionEcho speaks of. *)
Definition joined (tr : list xev) (x : Session) (T : gmap addr htask) : Prop :=
  xrun tr session0 = Some x /\
  exists hevs r, hreach buffer hevs r (mkHsess x T) /\ Forall (fun e => hallowed ok e = true) hevs /\
    forall a, r a = routes tr session0 a.

Lemma joined_new : joined [] session0 ∅.
Proof. split; [done|]. exists [], (fun _ => []). by repeat constructor. Qed.

Lemma hreach_snoc hevs r h e h' :
  hreach buffer hevs r h -> hstep buffer e h = Some h' ->
  Forall (fun e => hallowed ok e = true) hevs -> hallowed ok e = true ->
  exists r', hreach buffer (hevs ++ [e]) r' h' /\ Forall (fun e => hallowed ok e = true) (hevs ++ [e]) /\
    forall a, r' a = r a ++ match e with HCall e => routed e (SessionEcho.sess h) a | _ => [] end.
Proof.
  intros Hr Hs Hc He. eexists. split; [by apply (hreach_step _ _ _ _ _ _ Hr Hs)|].
  split; [apply Forall_app; by repeat constructor | done].
Qed.

Lemma joined_call tr x T e x' :
  joined tr x T -> outside e x = true -> xstep e x = Some x' -> joined (tr ++ [e]) x' T.
Proof.
  intros (Hx & hevs & r & Hr & Hc & E') Ho Hs. split; [rewrite xrun_app, Hx; simpl; by rewrite Hs|].
  destruct (hreach_snoc hevs r (mkHsess x T) (HCall e) (mkHsess x' T)) as (r' & Hr' & Hc' & E''); try done.
  { cbn [hstep SessionEcho.sess]. by rewrite Ho, Hs. }
  exists (hevs ++ [HCall e]), r'. split; [done|]. split; [done|]. intros a.
  rewrite E'', routes_app, Hx, E'. simpl. rewrite Hs. by rewrite app_nil_r.
Qed.

Lemma joined_calls tr x T es x' :
  joined tr x T -> Forall (fun e => coroutine e = false) es -> polite es x = true ->
  xrun es x = Some x' -> joined (tr ++ es) x' T.
Proof.
  revert tr x; induction es as [|e es IH]; intros tr x Hj Hc Hp Hx; simpl in *.
  - injection Hx as <-. by rewrite app_nil_r.
  - inversion Hc as [|? ? He Hc']; subst. rewrite He in Hp. apply andb_true_iff in Hp as [Ho Hp].
    destruct (xstep e x) as [x1|] eqn:Es; [|done].
    replace (tr ++ e :: es) with ((tr ++ [e]) ++ es) by by rewrite <-app_assoc.
    apply (IH _ x1); [by apply (joined_call tr x) | done | done | done].
Qed.

Lemma handler_called a rv x rq rs x' :
  handle_request a rv x = Some (HandlerCalled rq rs, x') -> x' = x.
Proof.
  unfold handle_request. destruct (heap x !! a); [|done]. destruct (handler_set x); [by intros [= <- <- <-]|].
  by destruct (xstep _ _).
Qed.

Lemma joined_start tr x T a y rq rs x' :
  joined tr x T -> a ∈ spawned x -> T !! a = None -> heap x !! a = Some y ->
  handle_request a 0 x = Some (HandlerCalled rq rs, x') ->
  joined tr x (<[a := htask_of rq (enter (echo rq rs) y)]> T).
Proof.
  intros (Hx & hevs & r & Hr & Hc & E') Hsp Ht Hy Hh. split; [done|].
  destruct (hreach_snoc hevs r (mkHsess x T) (HStart a)
              (mkHsess x (<[a := htask_of rq (enter (echo rq rs) y)]> T))) as (r' & Hr' & Hc' & E''); try done.
  { cbn [hstep SessionEcho.sess SessionEcho.tasks]. rewrite !bool_decide_true, Hy, Hh by done. simpl.
    by rewrite (handler_called _ _ _ _ _ _ Hh). }
  exists (hevs ++ [HStart a]), r'. split; [done|]. split; [done|]. intros b. by rewrite E'', app_nil_r.
Qed.

Lemma event_coroutine a e t xe : event_of buffer a e t = Some xe -> coroutine xe = true.
Proof.
  assert (Hturn : XTurn a <$> turn_of buffer e t = Some xe -> coroutine xe = true).
  { unfold turn_of. destruct e, (at_op t) as [| |[[]|]]; try done; by intros [= <-]. }
  destruct e; cbn [event_of]; auto. by intros [= <-].
Qed.

(** A handler's turn in the session and in the connection. *)
Lemma opt_kturn_steps e k k' :
  opt_kturn capacity e k = Some k' ->
  opt_xstep e (session_of k) = Some (session_of k') /\
  trace (world (loops k')) = trace (world (loops k)) ++ (match e with Some e => [e] | None => [] end).
Proof.
  destruct e as [e|]; cbn [opt_kturn opt_xstep]; [|intros [= <-]; by rewrite app_nil_r].
  cbn [kstep]. destruct (coroutine e); [|done]. destruct (xstep e (session_of k)); [|done].
  intros [= <-]. by destruct (starts_write _ _).
Qed.

Lemma joined_task tr x T a e tk y t' x' :
  joined tr x T -> ok e = true -> (forall se, e <> VEnv se) ->
  T !! a = Some tk -> heap x !! a = Some y -> estep buffer e (etask_of tk y) = Some t' ->
  opt_xstep (event_of buffer a e (etask_of tk y)) x = Some x' ->
  joined (tr ++ match event_of buffer a e (etask_of tk y) with Some e => [e] | None => [] end) x'
    (<[a := htask_of (ht_request tk) t']> T).
Proof.
  intros (Hx & hevs & r & Hr & Hc & E') Hcalm Hn Ht Hy Hs Hxs. split.
  { rewrite xrun_app, Hx. destruct (event_of _ _ _ _); simpl in *; [by rewrite Hxs | done]. }
  destruct (hreach_snoc hevs r (mkHsess x T) (HTask a e)
              (mkHsess x' (<[a := htask_of (ht_request tk) t']> T))) as (r' & Hr' & Hc' & E''); try done.
  { destruct e; [by destruct (Hn e)|..]; cbn [hstep SessionEcho.sess SessionEcho.tasks];
      by rewrite Ht, Hy, Hs, Hxs. }
  exists (hevs ++ [HTask a e]), r'. split; [done|]. split; [done|]. intros b.
  rewrite E'', app_nil_r, E', routes_app, Hx.
  destruct (event_of _ _ _ _) as [xe|] eqn:Ee; simpl; [|by rewrite app_nil_r].
  rewrite (event_routed _ _ _ _ _ _ _ Ee). simpl in Hxs. by rewrite Hxs, app_nil_r.
Qed.

(** Turns, taken apart. *)
Lemma qloop_inv e s s' :
  qstep buffer capacity (QLoop e) s = Some s' ->
  (forall xe, e <> KTurn xe) /\
  exists k', kstep capacity e (econn s) = Some k' /\ s' = mkEserver k' (etasks s).
Proof.
  intros H. split; [by intros xe ->|]. cbn [qstep] in H.
  destruct e as [| |? ?|?|? ?|xe|]; [..|done|];
    (destruct (kstep capacity _ (econn s)) as [k'|]; [|done]); injection H as <-; eauto.
Qed.

Lemma qstart_inv a s s' :
  qstep buffer capacity (QStart a) s = Some s' ->
  a ∈ spawned (session_of (econn s)) /\ etasks s !! a = None /\
  exists y rq rs x', heap (session_of (econn s)) !! a = Some y /\
    handle_request a 0 (session_of (econn s)) = Some (HandlerCalled rq rs, x') /\
    s' = mkEserver (econn s) (<[a := htask_of rq (enter (echo rq rs) y)]> (etasks s)).
Proof.
  intros H. cbn [qstep] in H.
  destruct (bool_decide_reflect (a ∈ spawned (session_of (econn s)))); [|done].
  destruct (bool_decide_reflect (etasks s !! a = None)); [|done]. cbn [andb] in H.
  destruct (heap _ !! a) as [y|]; [|done].
  destruct (handle_request _ _ _) as [[[rq rs|] x']|]; try done. injection H as <-. eauto 10.
Qed.

Lemma qtask_inv a e s s' :
  qstep buffer capacity (QTask a e) s = Some s' ->
  (forall se, e <> VEnv se) /\ exists tk y t' k', etasks s !! a = Some tk /\
    heap (session_of (econn s)) !! a = Some y /\ estep buffer e (etask_of tk y) = Some t' /\
    opt_kturn capacity (event_of buffer a e (etask_of tk y)) (econn s) = Some k' /\
    s' = mkEserver k' (<[a := htask_of (ht_request tk) t']> (etasks s)).
Proof.
  intros H. split; [by intros se ->|].
  assert (Hb : match etasks s !! a, heap (session_of (econn s)) !! a with
               | Some tk, Some y =>
                   match estep buffer e (etask_of tk y),
                         opt_kturn capacity (event_of buffer a e (etask_of tk y)) (econn s) with
                   | Some t', Some k' => Some (mkEserver k' (<[a := htask_of (ht_request tk) t']> (etasks s)))
                   | _, _ => None
                   end
               | _, _ => None
               end = Some s') by by destruct e.
  destruct (etasks s !! a) as [tk|]; [|done]. destruct (heap _ !! a) as [y|]; [|done].
  destruct (estep _ _ _) as [t'|] eqn:Ee; [|done]. destruct (opt_kturn _ _ _) as [k'|] eqn:Ek; [|done].
  injection Hb as <-. eauto 10.
Qed.

Definition joins s : Prop := joined (trace_of s) (session_of (econn s)) (etasks s).

(** Along a turn the trace grows; if the engine is polite, the invariant is kept. *)
Lemma joins_step e s s' :
  qstep buffer capacity e s = Some s' -> qallowed ok e = true ->
  exists es, trace_of s' = trace_of s ++ es /\
    (joins s -> polite es (session_of (econn s)) = true -> joins s').
Proof.
  intros H Hc. destruct e as [e|a|a e].
  - destruct (qloop_inv _ _ _ H) as (Hne & k' & Hk & ->).
    destruct (loop_esteps e _ _ Hne Hk) as (es & T & X & F).
    exists es. split; [done|]. intros Hj Hp. unfold joins, trace_of in *. simpl. rewrite T.
    by apply (joined_calls _ (session_of (econn s))).
  - destruct (qstart_inv _ _ _ H) as (Hsp & Hn & y & rq & rs & x' & Hy & Hh & ->).
    exists []. rewrite app_nil_r. split; [done|]. intros Hj _. by apply (joined_start _ _ _ a y rq rs x').
  - destruct (qtask_inv _ _ _ _ H) as (Hn & tk & y & t' & k' & Et & Ey & Ee & Ek & ->).
    destruct (opt_kturn_steps _ _ _ Ek) as [Hx T]. eexists. split; [exact T|]. intros Hj _.
    unfold joins, trace_of in *. cbn [econn etasks]. rewrite T.
    by apply (joined_task _ (session_of (econn s)) _ a e tk y).
Qed.

Lemma qreach_joins e0 evs s :
  qreach buffer capacity e0 evs s -> Forall (fun e => qallowed ok e = true) evs ->
  polite (trace_of s) session0 = true -> joins s.
Proof.
  induction 1 as [|evs s e s' _ IH Hs]; intros Hc Hp; [apply joined_new|].
  apply Forall_app in Hc as [Hc He]. apply Forall_inv in He.
  destruct (joins_step _ _ _ Hs He) as (es & T & Hstep). rewrite T, polite_app in Hp.
  apply andb_true_iff in Hp as [Hp Hp']. pose proof (IH Hc Hp) as Hj. apply Hstep; [done|].
  pose proof Hj as [Hx _]. by rewrite Hx in Hp'.
Qed.

End EchoConnectionProps.

Section ConnectionEchoes.
Context {C : CapyOps} {L : CapyLaws C} {G : NgConsts} {GL : NgLaws G}.
Context {W : CapyWrite} {WL : CapyWriteLaws W} {E : Type} {N : NgEngine E}.
Context (buffer : buffer_param) (capacity : nat).
Hypothesis buffer_window : bp_one_window buffer = true.
Hypothesis buffer_room : 0 < bp_room buffer.

(** C12 The server echoes, from socket to handler and back: while both loops of run(),
    nghttp2 (any engine that delivers no DATA after END_STREAM) and the handlers of all
    requests take turns in any order, no wait of a handler being cancelled, every handler that has returned success has
    submitted one response, 200 with its request's content-length, and the bytes nghttp2
    pulled for it are leading bytes of the DATA nghttp2 delivered for its stream; on a
    stream that is still open they are all of them, END_STREAM had been received, and
    nghttp2 was told of the end of the response. *)
Theorem connection_echoes e0 evs s a tk y :
  qreach buffer capacity e0 evs s -> Forall (fun e => qcalm e = true) evs ->
  polite (trace_of s) session0 = true ->
  etasks s !! a = Some tk -> heap (session_of (econn s)) !! a = Some y ->
  pc (ht_echo tk) = Returned None ->
  (exists chunks, concat chunks = pulled (log y) /\
     acts (ht_echo tk) = Submit 200 (length_field (rq_content_length (ht_request tk)))
                         :: map WriteBody chunks ++ [WriteEof]) /\
  pulled (log y) `prefix_of` routes (trace_of s) session0 a /\
  (closed_ (st y) = false ->
     pulled (log y) = routes (trace_of s) session0 a /\ read_eof_ (st y) = true /\
     provider_eof y = true).
Proof.
  intros Hr Hc Hp Ht Hy Hpc.
  destruct (qreach_joins buffer capacity calm e0 evs s Hr Hc Hp) as (_ & hevs & r & Hh & Hhc & <-).
  destruct (hreach_serves buffer buffer_window buffer_room hevs r _ Hh Hhc) as [_ Hk _].
  destruct (Hk a y Hy) as (pre & id & Hi & _). unfold length_at, task_at in Hi.
  cbn [SessionEcho.tasks] in Hi. rewrite Ht in Hi. exact (einv_returned pre id _ _ _ Hi Hpc).
Qed.

End ConnectionEchoes.
