(* ===== verification/EchoConnectionEnd.v ===== *)
(** * A connection and its handlers come to their end

    When the input of a connection has ended, run() returns (ConnectionEnd) and closes
    every stream; each handler that is still suspended on one, or that has not even been
    started, then comes to its end by its own turns (EchoEnd).  Nothing is left behind. *)

From S2P Require Import Prelude Capy Nghttp2 Charconv Stream StreamRead StreamWrite StreamSys StreamProps.
From S2P Require Import Session SessionSys SessionProps SessionHeaders Messages Composed Echo.
From S2P Require Import EchoStream EchoLive EchoSafe EchoEnd SessionEcho.
From S2P Require Import Loops LoopProps Connection ConnectionProps ConnectionEnd EchoConnection.

(** ** What sending does to a session *)

Section Emits.
Context {C : CapyOps}.

(** The events of a session that nghttp2 causes while it sends, and those of the loops. *)
Definition silent (e : xev) : Prop :=
  match e with
  | XStreamClose _ | XTurn _ (EProduce _) | XClearReady | XStartWrite | XEnd => True
  | _ => False
  end.

(** [P] holds of every event the program causes. *)
Fixpoint emits {A} (P : xev -> Prop) (p : ng_prog A) : Prop :=
  match p with
  | NgRet _ => True
  | NgCallback cb k => P (cb_event cb) /\ forall cs, emits P (k cs)
  | NgPull a len k => P (XTurn a (EProduce len)) /\ forall ret flags buf, emits P (k ret flags buf)
  end.

(** Documented: the callbacks for received frames are made by [mem_recv2] only; while it
    sends, nghttp2 reads from data providers and may close streams. *)
Class NgSendQuiet (E : Type) {N : NgEngine E} := {
  send_quiet e : emits silent (eng_send e);
}.

End Emits.

Section Silent.
Context {C : CapyOps} {G : NgConsts} {E : Type} {N : NgEngine E} {Q : NgSendQuiet E}.
Context (capacity : nat).
Implicit Types (w : world_ (E := E)) (k : connection (E := E)).

Lemma silent_polite es x : Forall silent es -> polite es x = true.
Proof.
  intros H. revert x; induction H as [|e es He _ IH]; intros x; simpl; [done|].
  apply andb_true_iff. split; [|by destruct (xstep e x)].
  destruct e as [| | | | |a e| | | | |]; try done. by destruct e.
Qed.

(** The trace grows by such events. *)
Definition grows w w' : Prop := exists es, trace w' = trace w ++ es /\ Forall silent es.

Lemma grows_refl w w' : trace w' = trace w -> grows w w'.
Proof. intros T. exists []. by rewrite T, app_nil_r. Qed.

Lemma grows_trans w1 w2 w3 : grows w1 w2 -> grows w2 w3 -> grows w1 w3.
Proof.
  intros (es & T & F) (es' & T' & F'). exists (es ++ es'). rewrite T', T, app_assoc.
  split; [done | by apply Forall_app].
Qed.

Lemma run_prog_grows {A} (p : ng_prog A) x evs :
  emits silent p -> exists es, (run_prog p x evs).2 = evs ++ es /\ Forall silent es.
Proof.
  revert x evs; induction p as [r|cb k IH|a len k IH]; intros x evs Hp.
  - exists []. by rewrite app_nil_r.
  - destruct Hp as [Hcb Hk]. cbn [run_prog].
    match goal with |- context [run_prog (k ?cs) ?x' ?evs'] =>
      destruct (IH cs x' evs' (Hk cs)) as (es & -> & F) end.
    exists (cb_event cb :: es). rewrite <-app_assoc. split; [done | by constructor].
  - destruct Hp as [Ha Hk]. cbn [run_prog].
    destruct (xstep (XTurn a (EProduce len)) x) as [x'|]; [|by apply IH].
    destruct (heap x !! a) as [y|]; [|by apply IH].
    destruct (pull_answer len y) as [[ret flags] buf].
    destruct (IH ret flags buf x' (evs ++ [XTurn a (EProduce len)]) (Hk ret flags buf)) as (es & -> & F).
    exists (XTurn a (EProduce len) :: es). rewrite <-app_assoc. split; [done | by constructor].
Qed.

Lemma mem_send2_grows w : grows w (mem_send2 w).2.
Proof.
  unfold grows. simpl.
  destruct (run_prog_grows (eng_send (eng w)) (sess w) (trace w) (send_quiet _)) as (es & T & F).
  destruct (run_prog (eng_send (eng w)) (sess w) (trace w)) as [[[[n data] e] x] evs]. by exists es.
Qed.

Lemma send_loop_grows fuel pending w polled o :
  send_loop capacity fuel pending w polled = Some o -> grows w (so_world o).
Proof.
  revert pending w polled; induction fuel as [|fuel IH]; intros pending w polled H; [done|].
  cbn [send_loop] in H. pose proof (mem_send2_grows w) as Hw.
  destruct (mem_send2 w) as [[n data] w']. simpl in Hw.
  destruct (n <? 0)%Z; [by injection H as <-|].
  destruct (_ && _)%bool; [apply IH in H; by eapply grows_trans|].
  destruct (0 <? _)%Z; [by injection H as <-|].
  destruct (_ && _)%bool; by injection H as <-.
Qed.

Lemma send_turn_grows (c c' : conn (W := world_ (E := E))) :
  send_turn capacity c = Some c' -> grows (world c) (world c').
Proof.
  unfold send_turn. destruct (send_loop _ _ _ _ _) as [o|] eqn:Eo; [|done].
  apply send_loop_grows in Eo. by intros [= <-].
Qed.

Lemma grows_sync w c e : grows w (world c) -> silent e -> grows w (world (sync e c)).
Proof.
  intros (es & T & F) He. exists (es ++ [e]). unfold sync. simpl. rewrite T, app_assoc.
  split; [done|]. apply Forall_app. by repeat constructor.
Qed.

Lemma send_event_grows k e k' :
  match e with CSendStart | CWritten None _ | CWake None => True | _ => False end ->
  send_event capacity k e = Some k' -> grows (world (loops k)) (world (loops k')).
Proof.
  intros He. unfold send_event. destruct (cstep capacity e (loops k)) as [c|] eqn:Hs; [|done].
  intros [= <-]. simpl.
  assert (Hg : grows (world (loops k)) (world c)).
  { destruct e as [| |[]|[]| | |]; try done; simpl in Hs; (destruct (sphase (loops k)); try done).
    - by apply send_turn_grows.
    - by apply send_turn_grows in Hs.
    - destruct (event_is_set _); [|done]. by apply send_turn_grows. }
  unfold sync_send. destruct (sphase c); try done. by apply grows_sync.
Qed.

Lemma completion_grows e k k' :
  completion e = true -> kstep capacity e k = Some k' -> grows (world (loops k)) (world (loops k')).
Proof.
  intros He H. destruct e as [| |[]|[]| | |]; try done.
  - by apply (send_event_grows k CSendStart).
  - by apply (send_event_grows k (CWritten None n)).
  - by apply (send_event_grows k (CWake None)).
  - cbn [kstep] in H. destruct (sphase (loops k)); try done. destruct (rphase (loops k)); try done.
    destruct (over k); [done|]. injection H as <-. simpl. apply grows_sync; [|done]. by apply grows_refl.
Qed.

End Silent.

(** ** Streams with a handler *)

Section Spawned.
Context {C : CapyOps} {L : CapyLaws C} {G : NgConsts}.

Lemma perform_all_spawned cs x : spawned (perform_all x cs) = spawned x.
Proof. revert x; induction cs as [|c cs IH]; intros x; simpl; [done|]. rewrite IH. by destruct c. Qed.

Lemma with_stream_spawned id f x : spawned (with_stream id f x) = spawned x.
Proof. unfold with_stream. by destruct (find_stream id x). Qed.

Lemma close_list_spawned l x : spawned (foldr (upd on_close) x l) = spawned x.
Proof. by induction l. Qed.

(** A handler is spawned for a registered stream only. *)
Lemma spawned_step e x x' a :
  xstep e x = Some x' -> a ∈ spawned x' -> a ∈ spawned x \/ exists id, find_stream id x = Some a.
Proof.
  intros Hs Ha.
  assert (Hsame : spawned x' = spawned x -> a ∈ spawned x) by (by intros <-).
  destruct e as [f|f n v|f|id d|id|a' e|path n hs ret|a' n hs rv| | |]; simpl in Hs;
    try (injection Hs as <-).
  - left. apply Hsame. unfold on_begin_headers_callback, create_stream, emplace. by break.
  - left. apply Hsame. unfold on_header_callback. break; rewrite ?with_stream_spawned; done.
  - unfold on_frame_recv_callback in Ha.
    assert (Hd : a ∈ spawned (if is_request_headers f then match find_stream (hd_stream_id f) x with
                   Some a => dispatch_request a x | None => x end else x)).
    { destruct (end_stream f); [by rewrite with_stream_spawned in Ha | done]. }
    destruct (is_request_headers f); [|by left].
    destruct (find_stream (hd_stream_id f) x) as [b|] eqn:Eb; [|by left]. simpl in Hd.
    apply elem_of_app in Hd as [Hd|Hd]; [by left|]. apply list_elem_of_singleton in Hd as ->. eauto.
  - left. apply Hsame. unfold on_data_chunk_recv_callback. by rewrite with_stream_spawned.
  - left. apply Hsame. unfold on_stream_close_callback, close_stream. by break.
  - left. apply Hsame. break. by rewrite perform_all_spawned.
  - left. apply Hsame. unfold submit_request, emplace. by break.
  - left. apply Hsame. unfold submit_response. by break.
  - by left.
  - by left.
  - left. apply Hsame. unfold close_all. by rewrite close_list_spawned.
Qed.

Lemma spawned_kept role handler evs r x a :
  xreach role handler evs r x -> Forall fits evs -> a ∈ spawned x -> kept a x.
Proof.
  induction 1 as [|evs r x e x' Hr IH Hs]; intros Hf Ha; [by apply elem_of_nil in Ha|].
  apply Forall_app in Hf as [Hf _]. apply (kept_step r e x); [by eapply xreach_inv | done |].
  destruct (spawned_step _ _ _ _ Hs Ha) as [H|H]; [by apply IH | by left].
Qed.

End Spawned.

(** ** Handlers of a connection go on *)

Section WindDown.
Context {C : CapyOps} {L : CapyLaws C} {G : NgConsts} {GL : NgLaws G}.
Context {W : CapyWrite} {WL : CapyWriteLaws W}.
Context {E : Type} {N : NgEngine E} {NL : NgEngineLaws E} {Q : NgSendQuiet E}.
Context (buffer : buffer_param) (capacity : nat).
Hypothesis buffer_window : bp_one_window buffer = true.
Hypothesis buffer_room : 0 < bp_room buffer.
Implicit Types (s : eserver (E := E)) (k : connection (E := E)).

(** What nghttp2_submit_response2 returns, should a handler call it. *)
Context (rv : Z).

Local Abbreviation session s := (session_of (econn s)).

(** The turns of a connection that winds down: completions of the loops, none of them
    an error, starts of handlers, and turns of handlers in which no wait is cancelled. *)
Definition winding (e : qev) : bool :=
  match e with QLoop e => completion e | QStart _ => true | QTask _ e => ours rv e end.

Definition winding_run (evs : list qev) s s' : Prop :=
  qrun buffer capacity evs s = Some s' /\ Forall (fun e => winding e = true) evs.

Lemma qrun_app evs evs' s :
  qrun buffer capacity (evs ++ evs') s =
  match qrun buffer capacity evs s with Some s => qrun buffer capacity evs' s | None => None end.
Proof.
  revert s; induction evs as [|e evs IH]; intros s; simpl; [done|].
  destruct (qstep buffer capacity e s); [apply IH | done].
Qed.

Lemma winding_trans evs evs' s1 s2 s3 :
  winding_run evs s1 s2 -> winding_run evs' s2 s3 -> winding_run (evs ++ evs') s1 s3.
Proof. intros [H F] [H' F']. split; [by rewrite qrun_app, H | by apply Forall_app]. Qed.

(** *** The connection of a server *)

Lemma qreach_kreach e0 evs s :
  qreach buffer capacity e0 evs s -> kreach capacity server true e0 (econn s).
Proof.
  induction 1 as [|evs s e s' _ IH Hs]; [constructor|]. destruct e as [e|a|a e].
  - destruct (qloop_inv _ _ _ _ _ Hs) as (_ & k' & Hk & ->). by eapply kreach_step.
  - by destruct (qstart_inv _ _ _ _ _ Hs) as (_ & _ & ? & ? & ? & ? & _ & _ & ->).
  - destruct (qtask_inv _ _ _ _ _ _ Hs) as (_ & tk & y & t' & k' & _ & _ & _ & Ek & ->). simpl.
    unfold opt_kturn in Ek. destruct (event_of _ _ _ _); [by eapply kreach_step | by injection Ek as <-].
Qed.

Lemma qreach_fits e0 evs s : qreach buffer capacity e0 evs s -> Forall fits (trace_of s).
Proof.
  induction 1 as [|evs s e s' _ IH Hs]; [constructor|]. destruct e as [e|a|a e].
  - destruct (qloop_inv _ _ _ _ _ Hs) as (Hne & k' & Hk & ->).
    destruct (loop_esteps capacity e _ _ Hne Hk) as (es & T & _ & F).
    unfold trace_of in *. simpl. rewrite T. apply Forall_app. split; [done | by apply engine_fits].
  - by destruct (qstart_inv _ _ _ _ _ Hs) as (_ & _ & ? & ? & ? & ? & _ & _ & ->).
  - destruct (qtask_inv _ _ _ _ _ _ Hs) as (Hn & tk & y & t' & k' & _ & _ & Ee & Ek & ->).
    destruct (opt_kturn_steps _ _ _ _ Ek) as [_ T]. unfold trace_of in *. simpl. rewrite T.
    apply Forall_app. split; [done|]. destruct (event_of _ _ _ _) as [xe|] eqn:Exe; [|done].
    apply Forall_singleton. by eapply (event_fits buffer buffer_window).
Qed.

(** *** The loops wind down *)

Lemma completions_joins evs s k' :
  krun capacity evs (econn s) = Some k' -> Forall (fun e => completion e = true) evs -> joins buffer calm s ->
  winding_run (map QLoop evs) s (mkEserver k' (etasks s)) /\ joins buffer calm (mkEserver k' (etasks s)).
Proof.
  revert s; induction evs as [|e evs IH]; intros s Hr Hf Hj; simpl in Hr.
  - injection Hr as <-. destruct s as [k T]. split; [by split | done].
  - inversion Hf as [|? ? He Hf']; subst. destruct (kstep capacity e (econn s)) as [k1|] eqn:Ek; [|done].
    assert (Hq : qstep buffer capacity (QLoop e) s = Some (mkEserver k1 (etasks s))).
    { cbn [qstep]. destruct e; try done; by rewrite Ek. }
    destruct (joins_step buffer capacity calm _ _ _ Hq eq_refl) as (es & T & Hstep).
    destruct (completion_grows capacity e _ _ He Ek) as (es' & T' & F).
    assert (es' = es) as ->. { unfold trace_of in T. simpl in T. rewrite T' in T. by apply app_inv_head in T. }
    destruct (IH (mkEserver k1 (etasks s)) Hr Hf' (Hstep Hj (silent_polite _ _ F))) as [[Hrun Hw] Hj'].
    split; [|done]. split; [cbn [map qrun]; by rewrite Hq | by constructor].
Qed.

(** *** Handlers come to their end *)

(** Turns of a handler leave the table, the spawned tasks and [run()] alone. *)
Lemma turn_frame a e t k k' :
  opt_kturn capacity (event_of buffer a e t) k = Some k' ->
  streams_ (session_of k') = streams_ (session_of k) /\
  spawned (session_of k') = spawned (session_of k) /\ over k' = over k.
Proof.
  intros H. destruct (event_of buffer a e t) as [xe|] eqn:Ee; [|by injection H as <-].
  destruct (kturn_inv _ _ _ _ H) as (_ & Hx & Ho & _).
  assert (Hs : match xe with XTurn _ _ | XSubmitResponse _ _ _ _ => True | _ => False end).
  { destruct e; cbn [event_of] in Ee; try (destruct (turn_of _ _ _); [|done]); by injection Ee as <-. }
  destruct xe as [| | | | |b se| |b n hs v| | |]; try done; cbn [xstep] in Hx.
  - destruct (is_turn se); [|done]. destruct (heap _ !! b) as [y|]; [|done].
    destruct (step se y) as [y'|]; [|done]. injection Hx as <-. rewrite perform_all_spawned.
    by destruct (perform_all_frame (drop (length (calls y)) (calls y'))
                   ((session_of k) <| heap := <[b := y']> (heap (session_of k)) |>)) as (_ & -> & _).
  - injection Hx as <-. unfold submit_response. by destruct (negb _).
Qed.

(** The handler on [a] stands at [t]; but for it, nothing has changed since [s0]. *)
Record estands (a : addr) (rq : Request) (t : etask) (s0 s : eserver (E := E)) : Prop := {
  es_joins : joins buffer calm s;
  es_task : etasks s !! a = Some (htask_of rq t);
  es_heap : heap (session s) !! a = Some (stream t);
  es_frame b : b <> a -> etasks s !! b = etasks s0 !! b /\ heap (session s) !! b = heap (session s0) !! b;
  es_table : streams_ (session s) = streams_ (session s0);
  es_spawned : spawned (session s) = spawned (session s0);
  es_over : over (econn s) = over (econn s0);
}.

Lemma estands_step a rq t t' e s0 s :
  estands a rq t s0 s -> ours rv e = true -> estep buffer e t = Some t' ->
  exists s', qstep buffer capacity (QTask a e) s = Some s' /\ estands a rq t' s0 s'.
Proof.
  intros [Hj Hk Hy Hfr Htab Hsp Hov] Ho He.
  assert (Hn : forall se, e <> VEnv se) by by destruct e.
  assert (Hc : calm e = true) by (by destruct e as [|?| |[]| |[]|]).
  assert (Ht : etask_of (htask_of rq t) (stream t) = t) by by destruct t.
  destruct (turn_enabled buffer a e t (session s)) as [x' Hx]; [by rewrite He | done | done |].
  assert (Hturn : exists k', opt_kturn capacity (event_of buffer a e t) (econn s) = Some k').
  { destruct (event_of buffer a e t) as [xe|] eqn:Exe; [|by eexists]. cbn [opt_kturn opt_xstep] in *.
    cbn [kstep]. rewrite (event_coroutine _ _ _ _ _ Exe), Hx. by eexists. }
  destruct Hturn as [k' Hk']. destruct (opt_kturn_steps _ _ _ _ Hk') as [Hx' _].
  destruct (event_heap buffer a e t t' _ _ He Hn Hy Hx') as [Eh _].
  destruct (turn_frame _ _ _ _ _ Hk') as (Et & Es & Eo).
  set (s' := mkEserver k' (<[a := htask_of rq t']> (etasks s))).
  assert (Hq : qstep buffer capacity (QTask a e) s = Some s').
  { destruct e; [by destruct (Hn e)|..]; cbn [qstep]; by rewrite Hk, Hy, Ht, He, Hk'. }
  exists s'. split; [done|].
  destruct (joins_step buffer capacity calm _ _ _ Hq Hc) as (es & T & Hstep).
  split; cbn [s' etasks econn]; rewrite ?Eh, ?lookup_insert_eq; try done; try congruence.
  - destruct (opt_kturn_steps _ _ _ _ Hk') as [_ T']. unfold trace_of in T. simpl in T. rewrite T' in T.
    apply app_inv_head in T as <-. apply Hstep; [done|].
    destruct (event_of buffer a e t) as [xe|] eqn:Exe; [|done]. cbn [polite].
    rewrite (event_coroutine _ _ _ _ _ Exe). simpl. by destruct (xstep xe (session s)).
  - intros b Hne. rewrite !lookup_insert_ne by done. by apply Hfr.
Qed.

Lemma estands_run a rq evs t t' s0 s :
  estands a rq t s0 s -> erun buffer evs t = Some t' -> Forall (fun e => ours rv e = true) evs ->
  exists s', winding_run (map (QTask a) evs) s s' /\ estands a rq t' s0 s'.
Proof.
  revert t s; induction evs as [|e evs IH]; intros t s Hs Hr Hf; simpl in Hr.
  - injection Hr as <-. exists s. split; [by split | done].
  - inversion Hf as [|? ? He Hf']; subst. destruct (estep buffer e t) as [t1|] eqn:Ee; [|done].
    destruct (estands_step a rq t t1 e s0 s Hs He Ee) as (s1 & H1 & Hs1).
    destruct (IH t1 s1 Hs1 Hr Hf') as (s' & [H' F'] & Hs'). exists s'. split; [|done].
    split; [cbn [map qrun]; by rewrite H1 | by constructor].
Qed.

(** Every stream that has, or should have, a handler is closed. *)
Definition settled s : Prop :=
  joins buffer calm s /\
  forall a, a ∈ spawned (session s) -> exists y, heap (session s) !! a = Some y /\ closed_ (st y) = true.

Definition returned (a : addr) s : Prop :=
  exists tk r, etasks s !! a = Some tk /\ pc (ht_echo tk) = Returned r.

Lemma joins_hinv s : joins buffer calm s -> exists r, hinv serves r (mkHsess (session s) (etasks s)).
Proof.
  intros (_ & hevs & r & Hr & Hc & _). exists r. by apply (hreach_serves buffer buffer_window buffer_room hevs).
Qed.

(** The handler for [a] is called, if it has not been yet. *)
Lemma called s a y :
  joins buffer calm s -> a ∈ spawned (session s) -> heap (session s) !! a = Some y ->
  exists evs s1 tk, winding_run evs s s1 /\
    estands a (ht_request tk) (etask_of tk y) s s1.
Proof.
  intros Hj Hsp Hy. destruct (etasks s !! a) as [tk|] eqn:Ek.
  { exists [], s, tk. split; [done|]. by split; [..|destruct tk| | | | |]. }
  destruct (joins_hinv s Hj) as [r Hi]. destruct (hi_sess _ _ _ Hi) as (evs & r' & Hr & _ & _).
  cbn [SessionEcho.sess] in Hr. set (rq := request_of a (st y)). set (rs := mkResponse a None).
  assert (Hh : handle_request a 0 (session s) = Some (HandlerCalled rq rs, session s)).
  { unfold handle_request. by rewrite Hy, (xreach_handler _ _ _ _ _ Hr). }
  set (tk := htask_of rq (enter (echo rq rs) y)).
  assert (Hs : qstep buffer capacity (QStart a) s = Some (mkEserver (econn s) (<[a := tk]> (etasks s)))).
  { cbn [qstep]. by rewrite !bool_decide_true, Hy, Hh. }
  exists [QStart a], (mkEserver (econn s) (<[a := tk]> (etasks s))), tk. split.
  { split; [cbn [qrun]; by rewrite Hs | by repeat constructor]. }
  destruct (joins_step buffer capacity calm _ _ _ Hs eq_refl) as (es & T & Hstep).
  split; cbn [econn etasks]; try done.
  - apply Hstep; [done|]. unfold trace_of in T. simpl in T. symmetry in T.
    rewrite <-(app_nil_r (trace _)) in T at 2. by apply app_inv_head in T as ->.
  - apply lookup_insert_eq.
  - intros b Hne. by rewrite lookup_insert_ne.
Qed.

Lemma handler_ends s a :
  settled s -> a ∈ spawned (session s) ->
  exists evs s', winding_run evs s s' /\ settled s' /\ returned a s' /\
    (forall b, b <> a -> etasks s' !! b = etasks s !! b) /\
    streams_ (session s') = streams_ (session s) /\ spawned (session s') = spawned (session s) /\
    over (econn s') = over (econn s).
Proof.
  intros [Hj Hcl] Hsp. destruct (Hcl a Hsp) as (y & Hy & Hc).
  destruct (called s a y Hj Hsp Hy) as (evs1 & s1 & tk & Hrun1 & Hst).
  destruct (joins_hinv s1 (es_joins _ _ _ _ _ Hst)) as [r Hi].
  destruct (hi_task _ _ _ Hi a y (es_heap _ _ _ _ _ Hst)) as (pre & id & Hei & Hl & _).
  unfold length_at, task_at in Hei, Hl. cbn [SessionEcho.tasks] in Hei, Hl.
  rewrite (es_task _ _ _ _ _ Hst) in Hei, Hl.
  set (t := etask_of tk y) in *. set (cl := rq_content_length (ht_request tk)).
  assert (Hg : gone pre id cl (r a) t) by (split; [exact Hei | split; [exact Hl | exact Hc]]).
  destruct (gone_returns buffer buffer_window buffer_room pre id cl rv (r a) t Hg) as (evs2 & t' & res & Hr2 & Hf2 & Hpc).
  destruct (gone_run buffer buffer_window buffer_room pre id cl rv (r a) evs2 t t' Hg Hf2 Hr2) as (_ & _ & Hc').
  destruct (estands_run a _ evs2 t t' s s1 Hst Hr2 Hf2) as (s' & Hrun2 & [Hj' Hk' Hy' Hfr' Ht' Hs' Ho']).
  exists (evs1 ++ map (QTask a) evs2), s'. split; [by eapply winding_trans|]. split.
  - split; [done|]. intros b. rewrite Hs'. intros Hb. destruct (decide (b = a)) as [->|Hne]; [by eauto|].
    destruct (Hfr' b Hne) as [_ ->]. by apply Hcl.
  - split; [by exists (htask_of (ht_request tk) t'), res|]. split; [|done]. intros b Hne. by apply Hfr'.
Qed.

(** One after the other. *)
Lemma handlers_end (l : list addr) s :
  settled s -> (forall a, a ∈ l -> a ∈ spawned (session s)) ->
  exists evs s', winding_run evs s s' /\ (forall a, a ∈ l -> returned a s') /\
    (forall b, b ∉ l -> etasks s' !! b = etasks s !! b) /\
    streams_ (session s') = streams_ (session s) /\ spawned (session s') = spawned (session s) /\
    over (econn s') = over (econn s).
Proof.
  revert s; induction l as [|a l IH]; intros s Hs Hl.
  - exists [], s. split; [by split|]. split; [by intros a ?%elem_of_nil | done].
  - destruct (handler_ends s a Hs (Hl a (list_elem_of_here _ _)))
      as (evs1 & s1 & Hr1 & Hs1 & Hret & Hfr1 & Ht1 & Hsp1 & Ho1).
    destruct (IH s1 Hs1) as (evs2 & s' & Hr2 & Hret2 & Hfr2 & Ht2 & Hsp2 & Ho2).
    { intros b Hb. rewrite Hsp1. apply Hl. by apply list_elem_of_further. }
    exists (evs1 ++ evs2), s'. split; [by eapply winding_trans|].
    split; [|split; [|split; [congruence | split; congruence]]].
    + intros b Hb. destruct (decide (b ∈ l)) as [|Hn]; [by apply Hret2|].
      apply elem_of_cons in Hb as [->|]; [|done]. unfold returned. by rewrite Hfr2.
    + intros b Hb. apply not_elem_of_cons in Hb as [Hne Hb]. by rewrite Hfr2, Hfr1.
Qed.

(** Whatever its loops and the handlers of its requests are doing, a connection whose
    input has ended can come to its end, with every handler. *)
Lemma connection_can_end e0 evs s :
  qreach buffer capacity e0 evs s -> Forall (fun e => qcalm e = true) evs ->
  polite (trace_of s) session0 = true ->
  rphase (loops (econn s)) = RDone -> over (econn s) = false ->
  exists evs' s', qrun buffer capacity evs' s = Some s' /\ Forall (fun e => winding e = true) evs' /\
    over (econn s') = true /\ streams_ (session_of (econn s')) = ∅ /\
    forall a, a ∈ spawned (session_of (econn s')) -> returned a s'.
Proof.
  intros Hr Hc Hp Hrd Hov. pose proof (qreach_joins buffer capacity calm e0 evs s Hr Hc Hp) as Hj.
  destruct (winds_down capacity server true e0 (econn s)) as (kevs & k' & _ & Hkc & Hkr & Ho & Ht & _).
  { by apply kreach_inv, (qreach_kreach e0 evs). }
  { split; [by apply (qreach_fits e0 evs) | done]. }
  destruct (completions_joins kevs s k' Hkr Hkc Hj) as [Hw1 Hj1].
  set (s1 := mkEserver k' (etasks s)) in *.
  assert (Hset : settled s1).
  { split; [done|]. intros a Ha. destruct (joins_hinv s1 Hj1) as [r Hi].
    destruct (hi_sess _ _ _ Hi) as (evs0 & r' & Hx & Hf & _).
    destruct (spawned_kept _ _ _ _ _ a Hx Hf Ha) as [[id H]|H]; [|done].
    unfold find_stream in H. cbn [SessionEcho.sess s1 econn] in H. by rewrite Ht, lookup_empty in H. }
  destruct (handlers_end (spawned (session s1)) s1 Hset) as (evs2 & s' & Hw2 & Hret & _ & Ht2 & Hsp & Ho2); [done|].
  destruct (winding_trans _ _ _ _ _ Hw1 Hw2) as [Hrun Hf].
  exists (map QLoop kevs ++ evs2), s'. split; [done|]. split; [done|]. rewrite Ho2, Ht2, Hsp.
  split; [done|]. split; [done|]. exact Hret.
Qed.

End WindDown.
