(* ===== verification/EchoConnectionStop.v ===== *)
(** * A connection whose coroutines are cancelled

    A stop request cancels whatever the two loops of run() and the handlers of a
    connection are suspended in.  From then on every turn of any of them, in any order,
    brings run() and all handlers nearer to their end, and as long as one of them has not
    come to it, some turn is possible. *)

From S2P Require Import Prelude Capy Nghttp2 Charconv Stream StreamRead StreamWrite StreamSys StreamProps.
From S2P Require Import Session SessionSys SessionProps SessionHeaders Messages Composed Echo.
From S2P Require Import EchoStream EchoLive EchoSafe EchoEnd SessionEcho EchoCancel.
From S2P Require Import Loops LoopProps Connection ConnectionProps ConnectionEnd EchoConnection.
From S2P Require Import EchoConnectionEnd.

Section Stop.
Context {C : CapyOps} {G : NgConsts} {W : CapyWrite} {E : Type} {N : NgEngine E}.
Implicit Types (s : eserver (E := E)) (k : connection (E := E)).

(** ** Turns *)

(** The turns of a connection once a stop was requested: reads, writes and waits are
    cancelled (a cancelled read or write may have moved bytes). *)
Definition stop_event (e : qev) : bool :=
  match e with
  | QLoop (KSendStart | KRecvStart | KEnd) => true
  | QLoop (KWritten (Some _) _ | KWake (Some _) | KRead (Some _) _) => true
  | QLoop _ => false
  | QStart _ => true
  | QTask _ e => stop_turn e
  end.

(** A wait for an event that was set before the stop request returns. *)
Definition late_event (e : qev) : bool :=
  match e with
  | QLoop (KWake None) => true
  | QTask _ e => late_turn e
  | _ => false
  end.

(** ** How many turns are left *)

Definition loops_left k : nat :=
  match sphase (loops k) with SNew => 2 | SWriting _ _ | SWaiting => 1 | SDone => 0 end +
  match rphase (loops k) with RNew => 2 | RReading => 1 | RDone => 0 end +
  (if over k then 0 else 1).

(** A handler that was not started yet has one turn more. *)
Definition task_left (T : gmap addr htask) (a : addr) : nat :=
  match T !! a with Some tk => turns_left (ht_echo tk) (ht_doing tk) | None => 12 end.

(** The streams whose requests were dispatched. *)
Definition dispatched s : list addr := remove_dups (spawned (session_of (econn s))).

Definition left_of s : nat := loops_left (econn s) + sum_list (task_left (etasks s) <$> dispatched s).

(** A turn that is possible: of the loops, ... *)
Definition conn_pick k : option kev :=
  match sphase (loops k) with
  | SNew => Some KSendStart
  | SWriting _ _ => Some (KWritten (Some canceled) 0)
  | SWaiting => Some (KWake (Some canceled))
  | SDone =>
      match rphase (loops k) with
      | RNew => Some KRecvStart
      | RReading => Some (KRead (Some canceled) [])
      | RDone => if over k then None else Some KEnd
      end
  end.

(** ... or of a handler. *)
Definition stop_pick (rv : Z) s : option qev :=
  match conn_pick (econn s) with
  | Some e => Some (QLoop e)
  | None =>
      match filter (fun a => task_left (etasks s) a <> 0) (dispatched s) with
      | [] => None
      | a :: _ =>
          match etasks s !! a with
          | None => Some (QStart a)
          | Some tk =>
              match stop_next rv (ht_echo tk) (ht_doing tk) with
              | Some e => Some (QTask a e)
              | None => None
              end
          end
      end
  end.

(** ** Sums *)

Lemma sum_update (f f' : addr -> nat) a l :
  NoDup l -> a ∈ l -> (forall b, b <> a -> f' b = f b) ->
  sum_list (f' <$> l) + f a = sum_list (f <$> l) + f' a.
Proof.
  intros Hn Ha Hf. induction Hn as [|b l Hb _ IH]; [by apply elem_of_nil in Ha|].
  rewrite !fmap_cons. simpl. destruct (decide (b = a)) as [->|Hne].
  - assert (Hsame : f' <$> l = f <$> l).
    { apply list_fmap_ext. intros i x Hx. apply Hf. intros ->. by apply list_elem_of_lookup_2 in Hx. }
    rewrite Hsame. lia.
  - apply elem_of_cons in Ha as [->|Ha]; [done|]. specialize (IH Ha). rewrite (Hf b) by done. lia.
Qed.

Lemma sum_in (f : addr -> nat) a l : a ∈ l -> f a <= sum_list (f <$> l).
Proof.
  induction l as [|b l IH]; intros Ha; [by apply elem_of_nil in Ha|]. rewrite fmap_cons. simpl.
  apply elem_of_cons in Ha as [->|Ha]; [lia | specialize (IH Ha); lia].
Qed.

Lemma sum_zero (f : addr -> nat) l : (forall a, a ∈ l -> f a = 0) -> sum_list (f <$> l) = 0.
Proof.
  induction l as [|a l IH]; intros H; [done|]. rewrite fmap_cons. simpl.
  rewrite H by apply list_elem_of_here. apply IH. intros b Hb. by apply H, list_elem_of_further.
Qed.

(** ** No turns left *)

Lemma left_returned st a : turns_left st a = 0 -> exists r, pc st = Returned r.
Proof.
  unfold turns_left. destruct (pc st) as [| |d|d| | |r], a as [| |[[bufs fin f|r']|f]]; simpl; try lia;
    eauto. destruct (ec r'); lia.
Qed.

Lemma left_zero s :
  left_of s = 0 -> over (econn s) = true /\ forall a, a ∈ spawned (session_of (econn s)) -> returned a s.
Proof.
  intros H. unfold left_of in H. split.
  - unfold loops_left in H. destruct (over _); [done|lia].
  - intros a Ha. pose proof (sum_in (task_left (etasks s)) a (dispatched s)) as Hle.
    unfold dispatched in Hle at 1. rewrite elem_of_remove_dups in Hle. specialize (Hle Ha).
    unfold task_left in Hle at 1. unfold returned. destruct (etasks s !! a) as [tk|]; [|lia].
    destruct (left_returned (ht_echo tk) (ht_doing tk)) as [r Hr]; [lia|]. eauto.
Qed.

End Stop.

(** ** What the turns do to a session *)

Section StopSteps.
Context {C : CapyOps} {L : CapyLaws C} {G : NgConsts} {E : Type} {N : NgEngine E}.
Context (capacity : nat).
Implicit Types (k : connection (E := E)).

(** The list of dispatched requests only grows, ... *)
Lemma spawned_grows e x x' : xstep e x = Some x' -> exists l, spawned x' = spawned x ++ l.
Proof.
  assert (Hsame : spawned x' = spawned x -> exists l, spawned x' = spawned x ++ l)
    by (intros ->; exists []; by rewrite app_nil_r).
  intros Hs. destruct e as [f|f n v|f|id d|id|a' e|path n hs ret|a' n hs rv| | |]; simpl in Hs;
    try (injection Hs as <-).
  - apply Hsame. unfold on_begin_headers_callback, create_stream, emplace. by break.
  - apply Hsame. unfold on_header_callback. break; rewrite ?with_stream_spawned; done.
  - unfold on_frame_recv_callback.
    set (x1 := if is_request_headers f then _ else x).
    assert (Hx1 : exists l, spawned x1 = spawned x ++ l).
    { unfold x1. destruct (is_request_headers f); [|exists []; by rewrite app_nil_r].
      destruct (find_stream _ x); [by eexists | exists []; by rewrite app_nil_r]. }
    destruct (end_stream f); [by rewrite with_stream_spawned | done].
  - apply Hsame. unfold on_data_chunk_recv_callback. by rewrite with_stream_spawned.
  - apply Hsame. unfold on_stream_close_callback, close_stream. by break.
  - apply Hsame. break. by rewrite perform_all_spawned.
  - apply Hsame. unfold submit_request, emplace. by break.
  - apply Hsame. unfold submit_response. by break.
  - by apply Hsame.
  - by apply Hsame.
  - apply Hsame. unfold close_all. by rewrite close_list_spawned.
Qed.

Lemma spawned_run es x x' : xrun es x = Some x' -> exists l, spawned x' = spawned x ++ l.
Proof.
  revert x; induction es as [|e es IH]; intros x H; simpl in H.
  - injection H as <-. exists []. by rewrite app_nil_r.
  - destruct (xstep e x) as [x1|] eqn:Es; [|done]. destruct (spawned_grows _ _ _ Es) as [l Hl].
    destruct (IH x1 H) as [l' Hl']. exists (l ++ l'). by rewrite Hl', Hl, app_assoc.
Qed.

(** ... and not while nghttp2 sends. *)
Lemma silent_spawned es x x' : Forall silent es -> xrun es x = Some x' -> spawned x' = spawned x.
Proof.
  intros Hf. revert x; induction Hf as [|e es He _ IH]; intros x H; simpl in H; [by injection H as <-|].
  destruct (xstep e x) as [x1|] eqn:Es; [|done]. rewrite (IH x1 H).
  destruct e as [| | | |id|a' e| | | | |]; try done; simpl in Es; try (injection Es as <-); try done.
  - unfold on_stream_close_callback, close_stream. by break.
  - destruct e; try done. destruct (is_turn _); [|done]. destruct (heap x !! a') as [y|]; [|done].
    destruct (step _ y); [|done]. injection Es as <-. by rewrite perform_all_spawned.
  - unfold close_all. by rewrite close_list_spawned.
Qed.

Context {Q : NgSendQuiet E}.

(** A cancelled read ends [recv_loop]. *)
Lemma recv_stop_grows k e o k' :
  recv_event capacity k e o = Some k' ->
  (forall c, cstep capacity e (loops k) = Some c -> trace (world c) = trace (world (loops k))) ->
  grows (world (loops k)) (world (loops k')).
Proof.
  unfold recv_event. destruct (cstep capacity e (loops k)) as [c|]; [|done]. intros [= <-] Hc.
  simpl. unfold starts_loop. specialize (Hc c eq_refl).
  destruct (ro_start_write o); [apply grows_sync; [|done]|]; by apply grows_refl.
Qed.

Lemma stop_grows e k k' :
  stop_event (QLoop e) || late_event (QLoop e) = true -> kstep capacity e k = Some k' ->
  grows (world (loops k)) (world (loops k')).
Proof.
  intros He H. destruct e as [| |[we|] n|[we|]|[re|] d|xe|]; try done; cbn [kstep] in H.
  - by apply (send_event_grows capacity k CSendStart).
  - apply (recv_stop_grows _ _ _ _ H). intros c. simpl. destruct (rphase (loops k)); try done.
    intros [= <-]. destruct (recv_turn_ready (recv_check false (world (loops k))) (loops k)) as [-> _].
    unfold recv_check. by destruct (want_read _ || want_write _).
  - unfold send_event in H. destruct (cstep _ _ _) as [c|] eqn:Ec; [|done]. injection H as <-.
    simpl in Ec. destruct (sphase (loops k)); try done. injection Ec as <-. by apply grows_refl.
  - unfold send_event in H. destruct (cstep _ _ _) as [c|] eqn:Ec; [|done]. injection H as <-.
    simpl in Ec. destruct (sphase (loops k)); try done. injection Ec as <-. by apply grows_refl.
  - by apply (send_event_grows capacity k (CWake None)).
  - apply (recv_stop_grows _ _ _ _ H). intros c. simpl. destruct (rphase (loops k)); try done.
    destruct (_ <=? _); [|done]. by intros [= <-].
  - by apply (completion_grows capacity KEnd).
Qed.

Lemma stop_loop_spawned e k k' :
  stop_event (QLoop e) || late_event (QLoop e) = true -> kstep capacity e k = Some k' ->
  spawned (session_of k') = spawned (session_of k).
Proof.
  intros He Hk. assert (Hne : forall xe, e <> KTurn xe) by by destruct e.
  destruct (loop_esteps capacity e _ _ Hne Hk) as (es & T & Hx & _).
  destruct (stop_grows e _ _ He Hk) as (es' & T' & Hf). rewrite T' in T.
  apply app_inv_head in T as ->. by apply (silent_spawned es).
Qed.

(** *** The loops come nearer to their end *)

Lemma send_turn_phase (c c' : conn (W := world_ (E := E))) :
  send_turn capacity c = Some c' -> sphase c' <> SNew /\ rphase c' = rphase c.
Proof.
  unfold send_turn. destruct (send_loop _ _ _ _ _) as [o|] eqn:Eo; [|done]. intros [= <-]. simpl.
  split; [|done]. revert Eo. generalize (send_fuel capacity (spending c)) as fuel.
  intros fuel. generalize (spending c) (world c) ([] : list bytes).
  induction fuel as [|fuel IH]; intros pending w polled Eo; [done|]. cbn [send_loop] in Eo.
  destruct (mem_send2 w) as [[n data] w']. destruct (n <? 0)%Z; [by injection Eo as <-|].
  destruct (_ && _)%bool; [by apply IH in Eo|]. destruct (0 <? _)%Z; [by injection Eo as <-|].
  destruct (_ && _)%bool; by injection Eo as <-.
Qed.

Lemma sync_send_phases (c : conn (W := world_ (E := E))) :
  sphase (sync_send c) = sphase c /\ rphase (sync_send c) = rphase c.
Proof. unfold sync_send. by destruct (sphase c) eqn:Es; simpl; rewrite ?Es. Qed.

Lemma starts_loop_phases o (c : conn (W := world_ (E := E))) :
  sphase (starts_loop o c) = sphase c /\ rphase (starts_loop o c) = rphase c.
Proof. unfold starts_loop. by destruct (ro_start_write o). Qed.

Lemma stop_loops_left e k k' :
  stop_event (QLoop e) = true -> kstep capacity e k = Some k' -> loops_left k' < loops_left k.
Proof.
  intros He H. unfold loops_left. destruct e as [| |[we|] n|[we|]|[re|] d|xe|]; try done; cbn [kstep] in H;
    unfold send_event, recv_event in H;
    try (destruct (cstep _ _ _) as [c|] eqn:Ec; [|done]; injection H as <-; simpl in Ec).
  - destruct (sphase (loops k)) eqn:Es; try done. destruct (send_turn_phase _ _ Ec) as [Hn Hr].
    destruct (sync_send_phases c) as [E1 E2]. simpl. rewrite E1, E2, Hr.
    destruct (sphase c); try done; lia.
  - destruct (rphase (loops k)) eqn:Er; try done. injection Ec as <-. simpl.
    destruct (starts_loop_phases (recv_check false (world (loops k)))
                (recv_turn (recv_check false (world (loops k))) (loops k))) as [-> ->].
    unfold recv_turn, recv_check. destruct (want_read _ || want_write _); simpl; lia.
  - destruct (sphase (loops k)) eqn:Es; try done. injection Ec as <-. simpl. lia.
  - destruct (sphase (loops k)) eqn:Es; try done. injection Ec as <-. simpl. lia.
  - destruct (rphase (loops k)) eqn:Er; try done. destruct (_ <=? _); [|done]. injection Ec as <-. simpl. lia.
  - destruct (sphase (loops k)) eqn:Es; try done. destruct (rphase (loops k)) eqn:Er; try done.
    destruct (over k); [done|]. injection H as <-. simpl. rewrite Es, Er. lia.
Qed.

Lemma late_loops_left e k k' :
  late_event (QLoop e) = true -> kstep capacity e k = Some k' -> loops_left k' <= loops_left k.
Proof.
  intros He H. unfold loops_left. destruct e as [| |[we|] n|[we|]|[re|] d|xe|]; try done; cbn [kstep] in H.
  unfold send_event in H. destruct (cstep _ _ _) as [c|] eqn:Ec; [|done]; injection H as <-; simpl in Ec.
  destruct (sphase (loops k)) eqn:Es; try done. destruct (event_is_set _); [|done].
  destruct (send_turn_phase _ _ Ec) as [Hn Hr]. destruct (sync_send_phases c) as [E1 E2]. simpl.
  rewrite E1, E2, Hr. destruct (sphase c); try done; lia.
Qed.

End StopSteps.

(** *** While the loops have not come to it, a turn is possible *)

Section ConnPossible.
Context {C : CapyOps} {L : CapyLaws C} {G : NgConsts} {E : Type} {N : NgEngine E} {NL : NgEngineLaws E}.
Context (capacity : nat) (role : Role) (handler : bool) (e0 : E).
Implicit Types (k : connection (E := E)).

Lemma conn_idle k : loops_left k = 0 -> conn_pick k = None.
Proof.
  unfold loops_left, conn_pick. destruct (sphase (loops k)), (rphase (loops k)), (over k); simpl; done || lia.
Qed.

Lemma conn_possible k :
  kreach capacity role handler e0 k -> loops_left k <> 0 ->
  exists e, conn_pick k = Some e /\ stop_event (QLoop e) = true /\ is_Some (kstep capacity e k).
Proof.
  intros Hk Hl. destruct (kreach_inv capacity role handler e0 _ Hk) as [_ Hc _].
  destruct (send_turn_ok capacity _ (ci_size _ _ (creach_inv _ _ _ Hc))) as (o & ds & Eo & _).
  unfold loops_left, conn_pick in *. destruct (sphase (loops k)) eqn:Es.
  1-3: eexists; split; [done|]; split; [done|]; cbn [kstep]; unfold send_event; simpl; rewrite Es;
    unfold send_turn; rewrite ?Eo; by eexists.
  destruct (rphase (loops k)) eqn:Er.
  1-2: eexists; split; [done|]; split; [done|]; cbn [kstep]; unfold recv_event; simpl; rewrite Er; by eexists.
  destruct (over k) eqn:Eov; [done|]. eexists; split; [done|]; split; [done|]. cbn [kstep].
  rewrite Es, Er, Eov. by eexists.
Qed.

End ConnPossible.

(** ** The invariant *)

Section StopInv.
Context {C : CapyOps} {L : CapyLaws C} {G : NgConsts} {GL : NgLaws G}.
Context {W : CapyWrite} {WL : CapyWriteLaws W} {E : Type} {N : NgEngine E}.
Context (buffer : buffer_param) (capacity : nat).
Hypothesis buffer_window : bp_one_window buffer = true.
Hypothesis buffer_room : 0 < bp_room buffer.
Implicit Types (s : eserver (E := E)) (k : connection (E := E)).
Local Abbreviation session s := (session_of (econn s)).

Record sinv s : Prop := {
  si_conn : exists e0, kreach capacity server true e0 (econn s);
  si_joins : joins buffer any_turn s;
  si_tasks a tk : etasks s !! a = Some tk -> a ∈ spawned (session s);
  si_over : over (econn s) = true -> streams_ (session s) = ∅;
}.

Lemma sinv_new e0 : sinv (eserver_new e0).
Proof.
  split; [eexists; constructor | apply joined_new | intros a tk; simpl; by rewrite lookup_empty | done].
Qed.

(** The events of a turn. *)
Definition events_of s s' : list xev := drop (length (trace_of s)) (trace_of s').

Lemma loop_over e s k' :
  sinv s -> (forall xe, e <> KTurn xe) -> kstep capacity e (econn s) = Some k' ->
  over (econn s) = false /\ (over k' = true -> e = KEnd /\ streams_ (session_of k') = ∅).
Proof.
  intros [[e0 Hk] _ _ _] Hne H. destruct (over (econn s)) eqn:Eo.
  { destruct (done_step capacity e _ _ (over_done capacity server true e0 _ Hk Eo) H) as [_ [xe ->]].
    by destruct (Hne xe). }
  split; [done|]. destruct e as [| |ec n|ec|ec d|xe|]; [| | | | |by destruct (Hne xe)|].
  6: { cbn [kstep] in H. destruct (sphase _); try done. destruct (rphase _); try done.
       rewrite Eo in H. injection H as <-. intros _. split; [done|]. unfold session_of. simpl.
       unfold sess_event. simpl. unfold close_all. by rewrite (proj2 (close_list_next _ _)). }
  all: cbn [kstep] in H; unfold send_event, recv_event in H;
    destruct (cstep _ _ _); [|done]; injection H as <-; simpl; congruence.
Qed.

Lemma sinv_step e s s' :
  sinv s -> qstep buffer capacity e s = Some s' -> polite (events_of s s') (session s) = true ->
  sinv s'.
Proof.
  intros Hi Hs Hp. pose proof Hi as [[e0 Hk] Hj Ht Ho].
  destruct (joins_step buffer capacity any_turn e s s' Hs) as (es & T & Hstep); [by destruct e|].
  unfold events_of in Hp. rewrite T, drop_app_length in Hp. specialize (Hstep Hj Hp).
  destruct e as [e|a|a e].
  - destruct (qloop_inv _ _ _ _ _ Hs) as (Hne & k' & Hk' & ->).
    destruct (loop_over e s k' Hi Hne Hk') as [_ Hov].
    destruct (loop_esteps capacity e _ _ Hne Hk') as (es' & _ & Hx & _).
    destruct (spawned_run _ _ _ Hx) as [l Hl].
    split; cbn [econn etasks]; [|done| |by intros H; apply Hov].
    + exists e0. by eapply kreach_step.
    + intros a tk Ha. unfold session_of. rewrite Hl. apply elem_of_app. left. by eapply Ht.
  - destruct (qstart_inv _ _ _ _ _ Hs) as (Hsp & Hn & y & rq & rs & x' & Hy & Hh & ->).
    split; cbn [econn etasks]; [by exists e0 | done | | done].
    intros b tk. destruct (decide (a = b)) as [<-|Hne]; [done|]. rewrite lookup_insert_ne by done. apply Ht.
  - destruct (qtask_inv _ _ _ _ _ _ Hs) as (Hn & tk & y & t' & k' & Et & Ey & Ee & Ek & ->).
    destruct (turn_frame _ _ _ _ _ _ _ Ek) as (E1 & E2 & E3).
    split; cbn [econn etasks]; [|done| |rewrite E1, E3; done].
    + exists e0. unfold opt_kturn in Ek. destruct (event_of _ _ _ _); [by eapply kreach_step | by injection Ek as <-].
    + intros b tb. rewrite E2. destruct (decide (a = b)) as [<-|Hne]; [intros _; by eapply Ht|].
      rewrite lookup_insert_ne by done. apply Ht.
Qed.

(** Every handler is where one can be, every dispatched request has its stream. *)
Lemma sinv_able s a tk y :
  sinv s -> etasks s !! a = Some tk -> heap (session s) !! a = Some y -> able (etask_of tk y).
Proof.
  intros [_ (_ & hevs & r & Hr & Hc & _) _ _] Ht Hy.
  pose proof (hreach_inv buffer buffer_window _ any_turn
                (HI := able_inv buffer buffer_window buffer_room) _ _ _ Hr Hc) as [_ Hk _].
  specialize (Hk a y Hy). unfold task_at in Hk. cbn [SessionEcho.tasks] in Hk. by rewrite Ht in Hk.
Qed.

Lemma sinv_heap s a : sinv s -> a ∈ spawned (session s) -> is_Some (heap (session s) !! a).
Proof.
  intros [_ (_ & hevs & r & Hr & Hc & _) _ _] Ha.
  pose proof (hreach_inv buffer buffer_window _ any_turn
                (HI := able_inv buffer buffer_window buffer_room) _ _ _ Hr Hc) as Hi.
  pose proof (hinv_xinv _ _ _ Hi) as Hx. destruct (hi_sess _ _ _ Hi) as (evs & r' & Hx' & Hf & _).
  destruct (spawned_kept _ _ _ _ _ a Hx' Hf Ha) as [[id H]|(y & Hy & _)]; [|by exists y].
  destruct (xi_table _ _ Hx _ _ H) as (_ & y & Hy & _). by exists y.
Qed.

Lemma sinv_handler s : sinv s -> handler_set (session s) = true.
Proof.
  intros [_ (_ & hevs & r & Hr & Hc & _) _ _].
  pose proof (hreach_inv buffer buffer_window _ any_turn
                (HI := able_inv buffer buffer_window buffer_room) _ _ _ Hr Hc) as Hi.
  destruct (hi_sess _ _ _ Hi) as (evs & r' & Hx' & _ & _). exact (xreach_handler _ _ _ _ _ Hx').
Qed.

(** ** Every turn brings the end nearer *)

(** The handler for [a] has a turn. *)
Lemma task_update s k' a tk' :
  a ∈ spawned (session s) -> spawned (session_of k') = spawned (session s) ->
  loops_left k' = loops_left (econn s) ->
  left_of (mkEserver k' (<[a := tk']> (etasks s))) + task_left (etasks s) a
  = left_of s + turns_left (ht_echo tk') (ht_doing tk').
Proof.
  intros Ha Hsp Hl. unfold left_of, dispatched. cbn [econn etasks]. rewrite Hsp, Hl.
  rewrite <-!Nat.add_assoc. f_equal.
  rewrite (sum_update (task_left (etasks s)) (task_left (<[a := tk']> (etasks s))) a).
  - unfold task_left at 2. by rewrite lookup_insert_eq.
  - apply NoDup_remove_dups.
  - by apply elem_of_remove_dups.
  - intros b Hne. unfold task_left. by rewrite lookup_insert_ne.
Qed.

Lemma turn_loops_left a e t k k' :
  opt_kturn capacity (event_of buffer a e t) k = Some k' -> loops_left k' = loops_left k.
Proof.
  unfold opt_kturn. destruct (event_of _ _ _ _); [|by intros [= <-]].
  intros H. destruct (kturn_inv _ _ _ _ H) as (_ & _ & Eo & Es & Er). unfold loops_left. by rewrite Eo, Es, Er.
Qed.

Context {Q : NgSendQuiet E}.

Lemma stop_loop_frame e s s' :
  stop_event (QLoop e) || late_event (QLoop e) = true -> qstep buffer capacity (QLoop e) s = Some s' ->
  spawned (session s') = spawned (session s) /\ etasks s' = etasks s /\
  kstep capacity e (econn s) = Some (econn s').
Proof.
  intros He H. destruct (qloop_inv _ _ _ _ _ H) as (Hne & k' & Hk & ->).
  split; [by apply (stop_loop_spawned capacity e) | done].
Qed.

Lemma stop_decreases_all e s s' :
  sinv s -> stop_event e = true -> qstep buffer capacity e s = Some s' -> left_of s' < left_of s.
Proof.
  intros Hi He H. destruct e as [e|a|a e].
  - destruct (stop_loop_frame e s s') as (Hsp & Ht & Hk); [by rewrite He | done |].
    pose proof (stop_loops_left capacity e _ _ He Hk) as Hl. unfold left_of, dispatched.
    rewrite Hsp, Ht. lia.
  - destruct (qstart_inv _ _ _ _ _ H) as (Hsp & Hn & y & rq & rs & x' & Hy & Hh & ->).
    pose proof (task_update s _ a (htask_of rq (enter (echo rq rs) y)) Hsp eq_refl eq_refl) as Hu.
    unfold task_left in Hu at 1. rewrite Hn in Hu.
    pose proof (turns_left_bound (ht_echo (htask_of rq (enter (echo rq rs) y)))
                  (ht_doing (htask_of rq (enter (echo rq rs) y)))). lia.
  - destruct (qtask_inv _ _ _ _ _ _ H) as (Hn & tk & y & t' & k' & Et & Ey & Ee & Ek & ->).
    destruct (turn_frame _ _ _ _ _ _ _ Ek) as (_ & Hsp & _).
    pose proof (turn_loops_left _ _ _ _ _ Ek) as Hl.
    pose proof (task_update s _ a (htask_of (ht_request tk) t') (si_tasks _ Hi _ _ Et) Hsp Hl) as Hu.
    unfold task_left in Hu at 1. rewrite Et in Hu.
    pose proof (stop_decreases buffer buffer_window buffer_room e _ _ (sinv_able s a tk y Hi Et Ey) He Ee) as Hd.
    cbn [etask_of htask_of ht_echo ht_doing handler at_op] in *.
    lia.
Qed.

Lemma late_bounded e s s' :
  sinv s -> late_event e = true -> qstep buffer capacity e s = Some s' -> left_of s' <= left_of s + 11.
Proof.
  intros Hi He H. destruct e as [e|a|a e]; [..|done|].
  - destruct (stop_loop_frame e s s') as (Hsp & Ht & Hk); [by rewrite He, orb_true_r | done |].
    pose proof (late_loops_left capacity e _ _ He Hk) as Hl. unfold left_of, dispatched.
    rewrite Hsp, Ht. lia.
  - destruct (qtask_inv _ _ _ _ _ _ H) as (Hn & tk & y & t' & k' & Et & Ey & Ee & Ek & ->).
    destruct (turn_frame _ _ _ _ _ _ _ Ek) as (_ & Hsp & _).
    pose proof (turn_loops_left _ _ _ _ _ Ek) as Hl.
    pose proof (task_update s _ a (htask_of (ht_request tk) t') (si_tasks _ Hi _ _ Et) Hsp Hl) as Hu.
    unfold task_left in Hu at 1. rewrite Et in Hu.
    pose proof (turns_left_bound (ht_echo (htask_of (ht_request tk) t')) (ht_doing (htask_of (ht_request tk) t'))).
    lia.
Qed.

(** Stop turns are polite to the handlers, whatever the engine. *)
Lemma stop_polite e s s' :
  stop_event e || late_event e = true -> qstep buffer capacity e s = Some s' ->
  polite (events_of s s') (session s) = true.
Proof.
  intros He H. unfold events_of, trace_of. destruct e as [e|a|a e].
  - destruct (stop_loop_frame e s s' He H) as (_ & _ & Hk).
    destruct (stop_grows capacity e _ _ He Hk) as (es & -> & Hf). rewrite drop_app_length.
    by apply silent_polite.
  - destruct (qstart_inv _ _ _ _ _ H) as (_ & _ & y & rq & rs & x' & _ & _ & ->). simpl.
    by rewrite drop_all.
  - destruct (qtask_inv _ _ _ _ _ _ H) as (_ & tk & y & t' & k' & _ & _ & _ & Ek & ->).
    destruct (opt_kturn_steps _ _ _ _ Ek) as [_ T]. simpl. rewrite T, drop_app_length.
    destruct (event_of _ _ _ _) as [xe|] eqn:Exe; [|done]. simpl.
    rewrite (event_coroutine _ _ _ _ _ Exe). simpl. by destruct (xstep _ _).
Qed.

Lemma sinv_stop e s s' :
  sinv s -> stop_event e || late_event e = true -> qstep buffer capacity e s = Some s' -> sinv s'.
Proof. intros Hi He H. apply (sinv_step e s); [done | done | by apply (stop_polite e)]. Qed.

(** ** Some turn is always possible *)

Context {NL : NgEngineLaws E}.

Lemma handler_enabled rv s a :
  sinv s -> a ∈ spawned (session s) -> task_left (etasks s) a <> 0 ->
  exists e, match etasks s !! a with
            | None => Some (QStart a)
            | Some tk => match stop_next rv (ht_echo tk) (ht_doing tk) with
                         | Some e => Some (QTask a e) | None => None end
            end = Some e /\
    stop_event e = true /\ is_Some (qstep buffer capacity e s).
Proof.
  intros Hi Ha Hl. destruct (sinv_heap s a Hi Ha) as [y Hy]. unfold task_left in Hl.
  destruct (etasks s !! a) as [tk|] eqn:Et.
  - assert (Hn : forall r, pc (ht_echo tk) <> Returned r).
    { intros r Hr. unfold turns_left in Hl. by rewrite Hr in Hl. }
    destruct (stop_enabled buffer rv (etask_of tk y) (sinv_able s a tk y Hi Et Hy) Hn) as (e & He & Hst & [t' Ht']).
    cbn [etask_of handler at_op] in He. rewrite He. exists (QTask a e). split; [done|]. split; [done|].
    assert (Hne : forall se, e <> VEnv se) by by destruct e.
    destruct (turn_enabled buffer a e (etask_of tk y) (session s)) as [x' Hx]; [by rewrite Ht' | done | done |].
    assert (Hk : exists k', opt_kturn capacity (event_of buffer a e (etask_of tk y)) (econn s) = Some k').
    { destruct (event_of buffer a e (etask_of tk y)) as [xe|] eqn:Exe; [|by eexists].
      cbn [opt_kturn opt_xstep kstep] in *. rewrite (event_coroutine _ _ _ _ _ Exe), Hx. by eexists. }
    destruct Hk as [k' Hk'].
    destruct e; [by destruct (Hne e)|..]; cbn [qstep]; rewrite Et, Hy, Ht', Hk'; by eexists.
  - exists (QStart a). split; [done|]. split; [done|]. cbn [qstep].
    rewrite !bool_decide_true by done. rewrite Hy. cbn [andb]. unfold handle_request.
    rewrite Hy, (sinv_handler s Hi). by eexists.
Qed.

Lemma stop_possible rv s :
  sinv s -> left_of s <> 0 ->
  exists e, stop_pick rv s = Some e /\ stop_event e = true /\ is_Some (qstep buffer capacity e s).
Proof.
  intros Hi Hl. unfold stop_pick. destruct (decide (loops_left (econn s) = 0)) as [H0|Hn].
  - rewrite (conn_idle _ H0). destruct (filter _ (dispatched s)) as [|a l] eqn:Ef.
    { exfalso. apply Hl. unfold left_of. rewrite H0. apply sum_zero. intros a Ha.
      destruct (decide (task_left (etasks s) a = 0)); [done|].
      assert (Hin : a ∈ filter (fun a => task_left (etasks s) a <> 0) (dispatched s))
        by by apply list_elem_of_filter. rewrite Ef in Hin. by apply elem_of_nil in Hin. }
    assert (Hin : a ∈ filter (fun a => task_left (etasks s) a <> 0) (dispatched s))
      by (rewrite Ef; apply list_elem_of_here).
    apply list_elem_of_filter in Hin as [Hne Hin]. unfold dispatched in Hin.
    rewrite elem_of_remove_dups in Hin. by apply handler_enabled.
  - destruct (si_conn _ Hi) as [e0 Hk].
    destruct (conn_possible capacity server true e0 _ Hk Hn) as (e & He & Hst & [k' Hs]). rewrite He.
    exists (QLoop e). split; [done|]. split; [done|]. cbn [qstep]. destruct e; try done; rewrite Hs; by eexists.
Qed.

End StopInv.
