(* ===== verification/EchoConnectionClosed.v ===== *)
(** * Every way in which a server connection winds down

    When the input of a connection has ended, the completions of its loops bring run() to
    its end (ConnectionEnd), which closes every stream; then the turns of its handlers
    bring these to their end (EchoClosed), in whatever order they are taken. *)

From S2P Require Import Prelude Capy Nghttp2 Charconv Stream StreamRead StreamWrite StreamSys StreamProps.
From S2P Require Import Session SessionSys SessionProps SessionHeaders Messages Composed Echo.
From S2P Require Import EchoStream EchoLive EchoSafe EchoEnd SessionEcho EchoCancel EchoClosed.
From S2P Require Import Loops LoopProps Connection ConnectionProps ConnectionEnd EchoConnection.
From S2P Require Import EchoConnectionEnd EchoConnectionStop.

Section Closed.
Context {C : CapyOps} {L : CapyLaws C} {G : NgConsts} {GL : NgLaws G}.
Context {W : CapyWrite} {WL : CapyWriteLaws W} {E : Type} {N : NgEngine E}.
Context {NL : NgEngineLaws E} {Q : NgSendQuiet E}.
Context (buffer : buffer_param) (capacity : nat).
Hypothesis buffer_window : bp_one_window buffer = true.
Hypothesis buffer_room : 0 < bp_room buffer.
Implicit Types (s : eserver (E := E)).
Local Abbreviation session s := (session_of (econn s)).
Local Abbreviation sinv := (sinv buffer capacity).

(** ** Reachable connections *)

Lemma qreach_sinv e0 evs s :
  qreach buffer capacity e0 evs s -> polite (trace_of s) session0 = true -> sinv s.
Proof.
  induction 1 as [|evs s e s' _ IH Hs]; intros Hp; [apply sinv_new|].
  destruct (joins_step buffer capacity any_turn e s s' Hs) as (es & T & _); [by destruct e|].
  rewrite T, polite_app in Hp. apply andb_true_iff in Hp as [Hp Hp']. pose proof (IH Hp) as Hi.
  apply (sinv_step buffer capacity e s); [done | done |]. unfold events_of. rewrite T, drop_app_length.
  destruct (si_joins _ _ _ Hi) as [Hx _]. by rewrite Hx in Hp'.
Qed.

(** When run() is over, the stream of every handler is closed. *)
Lemma over_closed s a :
  sinv s -> over (econn s) = true -> a ∈ spawned (session s) ->
  exists y, heap (session s) !! a = Some y /\ closed_ (st y) = true.
Proof.
  intros Hi Ho Ha. pose proof (si_over _ _ _ Hi Ho) as Htab.
  destruct (si_joins _ _ _ Hi) as (_ & hevs & r & Hr & Hc & _).
  pose proof (hreach_inv buffer buffer_window _ any_turn
                (HI := able_inv buffer buffer_window buffer_room) _ _ _ Hr Hc) as Hh.
  destruct (hi_sess _ _ _ Hh) as (evs & r' & Hx & Hf & _).
  destruct (spawned_kept _ _ _ _ _ a Hx Hf Ha) as [[id H]|H]; [|done].
  unfold find_stream in H. cbn [SessionEcho.sess] in H. by rewrite Htab, lookup_empty in H.
Qed.

(** Handlers that were spawned stay so. *)
Lemma qrun_spawned evs s s' a :
  qrun buffer capacity evs s = Some s' -> a ∈ spawned (session s) -> a ∈ spawned (session s').
Proof.
  revert s; induction evs as [|e evs IH]; intros s H Ha; cbn [qrun] in H; [by injection H as <-|].
  destruct (qstep buffer capacity e s) as [s1|] eqn:Hq; [|done]. apply (IH s1 H). destruct e as [e|b|b e].
  - destruct (qloop_inv _ _ _ _ _ Hq) as (Hne & k' & Hk & ->).
    destruct (loop_esteps capacity e _ _ Hne Hk) as (es & _ & Hx & _).
    destruct (spawned_run _ _ _ Hx) as [l Hl]. unfold session_of. cbn [econn]. rewrite Hl. apply elem_of_app. by left.
  - by destruct (qstart_inv _ _ _ _ _ Hq) as (_ & _ & ? & ? & ? & ? & _ & _ & ->).
  - destruct (qtask_inv _ _ _ _ _ _ Hq) as (_ & tk & y & t' & k' & _ & _ & _ & Ek & ->).
    destruct (turn_frame _ _ _ _ _ _ _ Ek) as (_ & Hsp & _). cbn [econn]. by rewrite Hsp.
Qed.

(** ** Turns after run() *)

(** One that was not started yet has one turn more. *)
Definition closed_task_left (T : gmap addr htask) (a : addr) : nat :=
  match T !! a with Some tk => closed_left (ht_echo tk) (ht_doing tk) | None => 11 end.

Definition handlers_left s : nat := sum_list (closed_task_left (etasks s) <$> dispatched s).

Lemma handlers_left_bound s : handlers_left s <= 11 * length (dispatched s).
Proof.
  unfold handlers_left. induction (dispatched s) as [|a l IH]; [done|]. rewrite fmap_cons. simpl.
  assert (closed_task_left (etasks s) a <= 11); [|lia]. unfold closed_task_left.
  destruct (etasks s !! a) as [tk|]; [|done]. pose proof (closed_left_bound (ht_echo tk) (ht_doing tk)). lia.
Qed.

Lemma handlers_update s k' a tk' :
  a ∈ spawned (session s) -> spawned (session_of k') = spawned (session s) ->
  handlers_left (mkEserver k' (<[a := tk']> (etasks s))) + closed_task_left (etasks s) a
  = handlers_left s + closed_left (ht_echo tk') (ht_doing tk').
Proof.
  intros Ha Hsp. unfold handlers_left, dispatched. cbn [econn etasks]. rewrite Hsp.
  rewrite (sum_update (closed_task_left (etasks s)) (closed_task_left (<[a := tk']> (etasks s))) a).
  - unfold closed_task_left at 2. by rewrite lookup_insert_eq.
  - apply NoDup_remove_dups.
  - by apply elem_of_remove_dups.
  - intros b Hne. unfold closed_task_left. by rewrite lookup_insert_ne.
Qed.

Lemma over_step_decreases e s s' :
  sinv s -> over (econn s) = true -> qstep buffer capacity e s = Some s' ->
  sinv s' /\ over (econn s') = true /\ handlers_left s' < handlers_left s.
Proof.
  intros Hi Ho H. destruct e as [e|a|a e].
  - exfalso. destruct (qloop_inv _ _ _ _ _ H) as (Hne & k' & Hk & ->).
    destruct (loop_over buffer capacity e s k' Hi Hne Hk). congruence.
  - split; [by apply (sinv_stop buffer capacity (QStart a) s)|].
    destruct (qstart_inv _ _ _ _ _ H) as (Hsp & Hn & y & rq & rs & x' & Hy & Hh & ->). split; [done|].
    pose proof (handlers_update s (econn s) a (htask_of rq (enter (echo rq rs) y)) Hsp eq_refl) as Hu.
    unfold closed_task_left in Hu at 1. rewrite Hn in Hu.
    pose proof (closed_left_bound (ht_echo (htask_of rq (enter (echo rq rs) y)))
                  (ht_doing (htask_of rq (enter (echo rq rs) y)))). lia.
  - destruct (qtask_inv _ _ _ _ _ _ H) as (Hn & tk & y & t' & k' & Et & Ey & Ee & Ek & Es').
    split; [|rewrite Es'; destruct (turn_frame _ _ _ _ _ _ _ Ek) as (_ & Hsp & Ho'); cbn [econn]].
    { apply (sinv_stop buffer capacity (QTask a e) s); [done| |done]. simpl.
      by destruct e as [|?| |[]| |[]|]. }
    split; [congruence|].
    pose proof (si_tasks _ _ _ Hi a tk Et) as Hin. destruct (over_closed s a Hi Ho Hin) as (y0 & Ey0 & Hc).
    assert (y0 = y) as -> by congruence.
    pose proof (handlers_update s k' a (htask_of (ht_request tk) t') Hin Hsp) as Hu.
    unfold closed_task_left in Hu at 1. rewrite Et in Hu.
    pose proof (closed_decreases buffer buffer_window buffer_room e (etask_of tk y) t'
                  (sinv_able buffer capacity buffer_window buffer_room s a tk y Hi Et Ey) Hc Hn Ee) as Hd.
    cbn [etask_of htask_of ht_echo ht_doing handler at_op] in *. lia.
Qed.

Lemma over_run_bounded evs s s' :
  sinv s -> over (econn s) = true -> qrun buffer capacity evs s = Some s' ->
  length evs + handlers_left s' <= handlers_left s.
Proof.
  revert s; induction evs as [|e evs IH]; intros s Hi Ho H; cbn [qrun] in H; [by injection H as <-|].
  destruct (qstep buffer capacity e s) as [s1|] eqn:Hq; [|done].
  destruct (over_step_decreases e s s1 Hi Ho Hq) as (Hi1 & Ho1 & Hlt). specialize (IH s1 Hi1 Ho1 H). simpl. lia.
Qed.

(** ** The next turn is possible *)

(** What nghttp2_submit_response2 returns, should a handler call it. *)
Context (rv : Z).

(** A turn of the handler on [a]. *)
Definition turn_on (a : addr) (e : qev) : Prop := e = QStart a \/ exists v, e = QTask a v /\ ours rv v = true.

Lemma joins_settled s :
  joins buffer calm s -> sinv s -> over (econn s) = true -> settled buffer s.
Proof. intros Hj Hi Ho. split; [done|]. intros a Ha. by apply over_closed. Qed.

Lemma handler_goes_on s a :
  joins buffer calm s -> sinv s -> over (econn s) = true -> a ∈ spawned (session s) -> ~ returned a s ->
  exists e, turn_on a e /\ is_Some (qstep buffer capacity e s).
Proof.
  intros Hj Hi Ho Ha Hn. destruct (over_closed s a Hi Ho Ha) as (y & Hy & Hc).
  destruct (etasks s !! a) as [tk|] eqn:Et.
  - destruct (joins_hinv buffer buffer_window buffer_room s Hj) as [r Hh].
    destruct (hi_task _ _ _ Hh a y Hy) as (pre & id & Hei & Hl & _).
    unfold length_at, task_at in Hei, Hl. cbn [SessionEcho.tasks] in Hei, Hl. rewrite Et in Hei, Hl.
    set (t := etask_of tk y) in *.
    assert (Hg : gone pre id (rq_content_length (ht_request tk)) (r a) t) by (split; [exact Hei | split; [exact Hl | exact Hc]]).
    destruct (gone_returns buffer buffer_window buffer_room pre id _ rv (r a) t Hg) as (evs & t' & res & Hr & Hf & Hpc).
    destruct evs as [|e evs]; [injection Hr as <-; destruct Hn; by exists tk, res|].
    inversion Hf as [|? ? He _]; subst. cbn [erun] in Hr. destruct (estep buffer e t) as [t1|] eqn:Ee; [|done].
    assert (Hst : estands buffer a (ht_request tk) t s s).
    { split; try done. rewrite Et. by destruct tk. }
    destruct (estands_step buffer capacity rv a (ht_request tk) t t1 e s s Hst He Ee) as (s' & Hq & _).
    exists (QTask a e). split; [right; by exists e | by exists s'].
  - destruct (handler_enabled buffer capacity buffer_window buffer_room rv s a Hi Ha) as (e & He & _ & Hq).
    { unfold task_left. by rewrite Et. }
    rewrite Et in He. injection He as <-. exists (QStart a). split; [by left | done].
Qed.

(** ** The theorem *)

Lemma loops_qrun kevs s s' :
  qrun buffer capacity (map QLoop kevs) s = Some s' -> krun capacity kevs (econn s) = Some (econn s').
Proof.
  revert s; induction kevs as [|e kevs IH]; intros s H; cbn [map qrun] in H; [by injection H as <-|].
  destruct (qstep buffer capacity (QLoop e) s) as [s1|] eqn:Hq; [|done].
  destruct (qloop_inv _ _ _ _ _ Hq) as (_ & k' & Hk & ->). cbn [krun]. rewrite Hk. by apply IH in H.
Qed.

(** C15 A server connection winds down in every order of turns, and leaves nothing behind.
    In whatever state it is after [recv_loop] has returned, no handler's wait having been
    cancelled: while run() has not returned, a completion of its loops is possible, and at
    most [eng_left + 2] of them follow each other; once run() has returned, the stream
    table is empty, all that can happen are turns of handlers, at most eleven for each,
    and as long as a handler, started or not, has not returned, it has a turn.  So the
    connection can come to its end from there, with every handler that was ever spawned.
    Relied on: corosio resumes a coroutine whose event is set; nghttp2 delivers no DATA
    after END_STREAM. *)
Theorem connection_winds_down e0 evs s :
  qreach buffer capacity e0 evs s -> Forall (fun e => qcalm e = true) evs ->
  polite (trace_of s) session0 = true -> rphase (loops (econn s)) = RDone ->
  (over (econn s) = false ->
     (exists e, completion e = true /\ is_Some (qstep buffer capacity (QLoop e) s)) /\
     (forall kevs s', qrun buffer capacity (map QLoop kevs) s = Some s' ->
        Forall (fun e => completion e = true) kevs ->
        length kevs <= eng_left (eng (world (loops (econn s)))) + 2)) /\
  (over (econn s) = true ->
     streams_ (session s) = ∅ /\
     (forall evs' s', qrun buffer capacity evs' s = Some s' -> length evs' <= 11 * length (dispatched s)) /\
     (forall a, a ∈ spawned (session s) -> ~ returned a s ->
        exists e, turn_on a e /\ is_Some (qstep buffer capacity e s))) /\
  (exists evs' s', qrun buffer capacity evs' s = Some s' /\ Forall (fun e => winding rv e = true) evs' /\
     over (econn s') = true /\ streams_ (session s') = ∅ /\
     forall a, a ∈ spawned (session s') -> exists tk r, etasks s' !! a = Some tk /\ pc (ht_echo tk) = Returned r).
Proof.
  intros Hr Hc Hp Hrd. pose proof (qreach_sinv e0 evs s Hr Hp) as Hi.
  pose proof (qreach_joins buffer capacity calm e0 evs s Hr Hc Hp) as Hj.
  pose proof (qreach_kreach buffer capacity e0 evs s Hr) as Hk. pose proof (kreach_inv _ _ _ _ _ Hk) as Hki.
  split; [|split].
  - intros Ho. split.
    + destruct (completion_possible capacity server true e0 (econn s) Hki Hrd Ho) as (e & He & [k' Hs]).
      exists e. split; [done|]. cbn [qstep]. destruct e; try done; rewrite Hs; by eexists.
    + intros kevs s' Hrun Hf. apply loops_qrun in Hrun.
      destruct (completions_end capacity server true e0 kevs (econn s) (econn s') Hki) as [Hl _]; [|done|done|].
      * split; [by apply (qreach_fits buffer capacity buffer_window e0 evs) | done].
      * unfold rounds, left_ in Hl. destruct (sphase _); lia.
  - intros Ho. split; [by apply (si_over _ _ _ Hi)|]. split.
    + intros evs' s' Hrun. pose proof (over_run_bounded evs' s s' Hi Ho Hrun). pose proof (handlers_left_bound s). lia.
    + intros a. by apply handler_goes_on.
  - destruct (over (econn s)) eqn:Ho; [|by apply (connection_can_end buffer capacity buffer_window buffer_room rv e0 evs)].
    destruct (handlers_end buffer capacity buffer_window buffer_room rv (spawned (session s)) s (joins_settled s Hj Hi Ho))
      as (evs' & s' & [Hrun Hf] & Hret & _ & Ht & Hsp & Ho'); [done|].
    exists evs', s'. split; [done|]. split; [done|]. rewrite Ho', Ht, Hsp. split; [done|].
    split; [by apply (si_over _ _ _ Hi) | exact Hret].
Qed.

End Closed.
