(* ===== verification/ServerWorld.v ===== *)
(** * A server with its sessions and handlers

    The whole program: [Server::Impl] with its accept loop and task group (Server), a
    session per accepted connection with its loops, its nghttp2 engine and the echo
    handlers of its requests (EchoConnection), and the sessions of clients that share its
    context (client.cpp: a [Client] borrows an executor).  Every coroutine is a task of the group:
    a connection that is accepted or made, a request that is dispatched adds one; run() or a
    handler that returns takes it away. *)

From S2P Require Import Prelude Capy Nghttp2 Charconv Stream StreamRead StreamWrite StreamSys StreamProps.
From S2P Require Import Session SessionSys SessionProps SessionHeaders Messages Composed Echo.
From S2P Require Import EchoStream EchoLive EchoSafe EchoEnd SessionEcho EchoCancel.
From S2P Require Import Loops LoopProps Connection ConnectionProps ConnectionEnd EchoConnection.
From S2P Require Import EchoConnectionEnd EchoConnectionStop TaskGroup Endpoints Server.

Section ServerWorld.
Context {C : CapyOps} {G : NgConsts} {W : CapyWrite} {E : Type} {N : NgEngine E}.
Context (buffer : buffer_param) (capacity : nat).

(** ** State *)

Record server_world := mkServerWorld {
  sv : Server;
  sessions : gmap nat (eserver (E := E));  (* by the task that runs the session *)
  task_of : gmap (nat * addr) nat;         (* the task of the handler of a stream of a session *)
  clients : gmap nat (connection (E := E)); (* sessions of Clients on the same context *)
}.

(** server_main.cpp sets the echo handler. *)
Definition echoing (c : Config) : Config := c <| Endpoints.handler := true |>.

Definition server_world_new (c : Config) : server_world :=
  mkServerWorld (Server_new (echoing c)) ∅ ∅ ∅.

(** The handler on the stream at [a] has returned. *)
Definition is_returned (a : addr) (s : eserver (E := E)) : bool :=
  match etasks s !! a with
  | Some tk => match pc (ht_echo tk) with Returned _ => true | _ => false end
  | None => false
  end.

(** ** Turns *)

Inductive wev :=
| WAccept (accept_ec : error_code) (e0 : E)
| WHandshake (handshake_ec : error_code) (alpn : string) (e0 : E)
| WSession (session : nat) (e : qev)
| WConnect (tls : bool) (hostname : string) (connect_ec handshake_ec : error_code) (alpn : string) (e0 : E)
| WClient (session : nat) (e : kev)
| WStop
| WRestart
| WCancel.

Definition is_spawn (e : net_effect) : bool :=
  match e with spawn_session _ _ _ => true | _ => false end.

(** What a turn of the accept loop does to the task group. *)
Definition accept_tasks (r : accept_phase * list net_effect) : list gev :=
  (if existsb is_spawn r.2 then [GSpawn] else []) ++
  (match r.1 with ADone => [GFinish 0 false] | _ => [] end).

(** A turn of the accept loop; [e0] is the nghttp2 session of the connection, if one
    was accepted. *)
Definition accept_world (r : accept_phase * list net_effect) (e0 : E) (w : server_world)
  : list gev * server_world :=
  (accept_tasks r,
   mkServerWorld (accept_turn r (sv w))
     (if existsb is_spawn r.2
      then <[next_task (tasks_ (sv w)) := eserver_new e0]> (sessions w) else sessions w)
     (task_of w) (clients w)).

(** [dispatch_request()] in session [i], for the stream at [a]. *)
Definition dispatch_task (i : nat) (a : addr) (w : server_world) : server_world :=
  mkServerWorld (spawn_task KHandler (sv w)) (sessions w)
    (<[(i, a) := next_task (tasks_ (sv w))]> (task_of w)) (clients w).

Definition dispatch_tasks (i : nat) (l : list addr) (w : server_world) : server_world :=
  foldl (fun w a => dispatch_task i a w) w l.

Definition finish_world (j : nat) (w : server_world) : server_world :=
  mkServerWorld (finish_task j false (sv w)) (sessions w) (task_of w) (clients w).

(** The requests dispatched by a turn. *)
Definition new_requests (s s' : eserver (E := E)) : list addr :=
  drop (length (spawned (session_of (econn s)))) (spawned (session_of (econn s'))).

(** A turn of a session: of one of its loops, the end of run(), a turn of one of its
    handlers.  nghttp2 delivers no DATA after END_STREAM, and completes the HEADERS of a
    request once. *)
Definition session_world (i : nat) (e : qev) (w : server_world) : option (list gev * server_world) :=
  match sessions w !! i with
  | None => None
  | Some s =>
      match qstep buffer capacity e s with
      | None => None
      | Some s' =>
          if polite (events_of s s') (session_of (econn s))
             && bool_decide (NoDup (spawned (session_of (econn s')))) then
            let w' := mkServerWorld (sv w) (<[i := s']> (sessions w)) (task_of w) (clients w) in
            match e with
            | QLoop KEnd => Some ([GFinish i false], finish_world i w')
            | QLoop _ =>
                Some (map (fun _ => GSpawn) (new_requests s s'), dispatch_tasks i (new_requests s s') w')
            | QStart _ => Some ([], w')
            | QTask a _ =>
                if is_returned a s' then
                  match task_of w !! (i, a) with
                  | Some j => Some ([GFinish j false], finish_world j w')
                  | None => None
                  end
                else Some ([], w')
            end
          else None
      end
  end.

(** [Client::connect] on the same context. *)
Definition connect_world (r : io_result (option Role) * list net_effect) (e0 : E) (w : server_world)
  : list gev * server_world :=
  (if existsb is_spawn r.2 then [GSpawn] else [],
   mkServerWorld (perform_net r.2 (sv w)) (sessions w) (task_of w)
     (if existsb is_spawn r.2
      then <[next_task (tasks_ (sv w)) := connection_new client false e0]> (clients w) else clients w)).

(** A turn of a client's session: of its loops, the end of run(), a turn of a coroutine
    that uses it.  nghttp2 delivers no requests to a client. *)
Definition client_world (i : nat) (e : kev) (w : server_world) : option (list gev * server_world) :=
  match clients w !! i with
  | None => None
  | Some k =>
      match kstep capacity e k with
      | None => None
      | Some k' =>
          if bool_decide (spawned (session_of k') = spawned (session_of k)) then
            let w' := mkServerWorld (sv w) (sessions w) (task_of w) (<[i := k']> (clients w)) in
            match e with
            | KEnd => Some ([GFinish i false], finish_world i w')
            | _ => Some ([], w')
            end
          else None
      end
  end.

(** One turn, with what it does to the task group. *)
Definition wstep (e : wev) (w : server_world) : option (list gev * server_world) :=
  match e with
  | WAccept ec e0 =>
      match accepting (sv w) with
      | AAccepting =>
          Some (accept_world (accept_resume (config_ (sv w)) ec
                                (stop_requested (group (tasks_ (sv w))))) e0 w)
      | _ => None
      end
  | WHandshake ec alpn e0 =>
      match accepting (sv w) with
      | AHandshaking => Some (accept_world (handshake_resume (config_ (sv w)) ec alpn) e0 w)
      | _ => None
      end
  | WSession i e => session_world i e w
  | WConnect tls hostname cec hec alpn e0 => Some (connect_world (connect tls hostname cec hec alpn) e0 w)
  | WClient i e => client_world i e w
  | WStop => Some ([], mkServerWorld (stop (sv w)) (sessions w) (task_of w) (clients w))
  | WRestart => Some ([], mkServerWorld (ioc_restart (sv w)) (sessions w) (task_of w) (clients w))
  | WCancel => Some ([GStop], mkServerWorld (cancel_all (sv w)) (sessions w) (task_of w) (clients w))
  end.

Inductive wreach (c : Config) : server_world -> Prop :=
| wreach_new : wreach c (server_world_new c)
| wreach_step w e evs w' : wreach c w -> wstep e w = Some (evs, w') -> wreach c w'.

Fixpoint wrun (evs : list wev) (w : server_world) : option server_world :=
  match evs with
  | [] => Some w
  | e :: evs => match wstep e w with Some (_, w) => wrun evs w | None => None end
  end.

Lemma wrun_reach c evs w w' : wreach c w -> wrun evs w = Some w' -> wreach c w'.
Proof.
  revert w; induction evs as [|e evs IH]; intros w Hr H; simpl in H; [by injection H as <-|].
  destruct (wstep e w) as [[gs w1]|] eqn:Es; [|done]. by apply (IH w1); [eapply wreach_step|].
Qed.

End ServerWorld.

(** ** Turns of a session *)

Section SessionTurns.
Context {C : CapyOps} {L : CapyLaws C} {G : NgConsts} {GL : NgLaws G}.
Context {W : CapyWrite} {WL : CapyWriteLaws W} {E : Type} {N : NgEngine E}.
Context (buffer : buffer_param) (capacity : nat).
Hypothesis buffer_window : bp_one_window buffer = true.
Hypothesis buffer_room : 0 < bp_room buffer.
Implicit Types (s : eserver (E := E)).
Local Abbreviation session s := (session_of (econn s)).
Local Abbreviation sinv := (sinv buffer capacity).

(** A loop's turn may dispatch requests; its end is that of run(). *)
Lemma loop_turn e s s' :
  sinv s -> qstep buffer capacity (QLoop e) s = Some s' ->
  spawned (session s') = spawned (session s) ++ new_requests s s' /\ etasks s' = etasks s /\
  over (econn s) = false /\
  (e = KEnd -> over (econn s') = true /\ spawned (session s') = spawned (session s)) /\
  (e <> KEnd -> over (econn s') = false).
Proof.
  intros Hi H. destruct (qloop_inv _ _ _ _ _ H) as (Hne & k' & Hk & ->). cbn [econn etasks].
  destruct (loop_esteps capacity e _ _ Hne Hk) as (es & _ & Hx & _).
  destruct (spawned_run _ _ _ Hx) as [l Hl].
  destruct (loop_over buffer capacity e s k' Hi Hne Hk) as [Hov Hov'].
  assert (Hnew : spawned (session_of k') = spawned (session s) ++ new_requests s (mkEserver k' (etasks s))).
  { unfold new_requests, session_of in *. cbn [econn]. by rewrite Hl, drop_app_length. }
  split; [exact Hnew|]. split; [done|]. split; [done|]. split.
  - intros ->. cbn [kstep] in Hk. destruct (sphase _); try done. destruct (rphase _); try done.
    rewrite Hov in Hk. injection Hk as <-. split; [done|]. unfold session_of. simpl.
    unfold sess_event. simpl. unfold close_all. by rewrite close_list_spawned.
  - intros Hn. destruct (over k') eqn:Eo; [|done]. by destruct (Hov' eq_refl).
Qed.

Lemma start_turn a s s' :
  qstep buffer capacity (QStart a) s = Some s' ->
  econn s' = econn s /\ forall b, is_returned b s' = is_returned b s.
Proof.
  intros H. destruct (qstart_inv _ _ _ _ _ H) as (_ & Hn & y & rq & rs & x' & _ & _ & ->).
  split; [done|]. intros b. unfold is_returned. cbn [etasks].
  destruct (decide (a = b)) as [<-|Hne]; [|by rewrite lookup_insert_ne].
  rewrite lookup_insert_eq, Hn. cbn. unfold echo. by destruct (has_header _ _).
Qed.

Lemma task_turn a e s s' :
  sinv s -> qstep buffer capacity (QTask a e) s = Some s' ->
  a ∈ spawned (session s) /\ spawned (session s') = spawned (session s) /\
  over (econn s') = over (econn s) /\ is_returned a s = false /\
  forall b, b <> a -> is_returned b s' = is_returned b s.
Proof.
  intros Hi H. destruct (qtask_inv _ _ _ _ _ _ H) as (Hn & tk & y & t' & k' & Et & Ey & Ee & Ek & ->).
  destruct (turn_frame _ _ _ _ _ _ _ Ek) as (_ & Hsp & Hov). cbn [econn etasks].
  split; [by apply (si_tasks _ _ _ Hi a tk)|]. split; [done|]. split; [done|]. split.
  - unfold is_returned. rewrite Et. destruct (pc (ht_echo tk)) as [| |d|d| | |r] eqn:Ep; try done. exfalso.
    pose proof (ab_place _ (sinv_able buffer capacity buffer_window buffer_room s a tk y Hi Et Ey)) as Hp.
    unfold place_of in Hp. cbn [etask_of EchoStream.handler at_op] in Hp. rewrite Ep in Hp.
    destruct (ht_doing tk) eqn:Ed; try done.
    destruct e as [e|rv| |w| |w|]; [by destruct (Hn e)|..]; cbn [estep] in Ee; unfold body_turn, completed in Ee;
      cbn [etask_of EchoStream.handler at_op] in Ee; rewrite Ed in Ee; try done; unfold echo_step in Ee;
      rewrite Ep in Ee; try done. by destruct (rv =? 0)%Z.
  - intros b Hne. unfold is_returned. cbn [etasks]. by rewrite lookup_insert_ne.
Qed.

End SessionTurns.

(** ** The invariant *)

Section WorldInv.
Context {C : CapyOps} {L : CapyLaws C} {G : NgConsts} {GL : NgLaws G}.
Context {W : CapyWrite} {WL : CapyWriteLaws W} {E : Type} {N : NgEngine E}.
Context (buffer : buffer_param) (capacity : nat).
Hypothesis buffer_window : bp_one_window buffer = true.
Hypothesis buffer_room : 0 < bp_room buffer.
Context (c : Config).
Implicit Types (s : eserver (E := E)) (w : server_world (E := E)).
Local Abbreviation session s := (session_of (econn s)).
Local Abbreviation sinv := (sinv buffer capacity).
Local Abbreviation wstep := (wstep buffer capacity).

(** The live tasks are the accept loop, the sessions whose run() has not returned, and
    the handlers that have not. *)
Record winv w : Prop := {
  wi_sv : svreach (echoing c) (sv w);
  wi_session i : kinds (sv w) !! i = Some (KSession server) <->
    exists s, sessions w !! i = Some s /\ over (econn s) = false;
  wi_handler j : kinds (sv w) !! j = Some KHandler <->
    exists i a s, task_of w !! (i, a) = Some j /\ sessions w !! i = Some s /\ is_returned a s = false;
  wi_client i : kinds (sv w) !! i = Some (KSession client) <->
    exists k, clients w !! i = Some k /\ over k = false;
  wi_sinv i s : sessions w !! i = Some s -> sinv s /\ NoDup (spawned (session s));
  wi_task i a j : task_of w !! (i, a) = Some j ->
    j < next_task (tasks_ (sv w)) /\ exists s, sessions w !! i = Some s /\ a ∈ spawned (session s);
  wi_inj p p' j : task_of w !! p = Some j -> task_of w !! p' = Some j -> p = p';
  wi_known i s : sessions w !! i = Some s -> i < next_task (tasks_ (sv w));
  wi_conn i k : clients w !! i = Some k ->
    i < next_task (tasks_ (sv w)) /\ exists e0, kreach capacity client false e0 k;
}.

(** Every dispatched request has its task. *)
Definition tasked w : Prop :=
  forall i s a, sessions w !! i = Some s -> a ∈ spawned (session s) -> is_Some (task_of w !! (i, a)).

Lemma winv_new : winv (server_world_new c).
Proof.
  assert (Hk : forall i K, kinds (Server_new (echoing c)) !! i = Some K -> K = KAccept).
  { intros i K. simpl. rewrite lookup_insert_Some, lookup_empty. by intros [[_ <-]|[_ ?]]. }
  split; cbn [server_world_new sv sessions task_of clients].
  - constructor.
  - intros i. split; [by intros ?%Hk|]. intros (s & Hs & _). by rewrite lookup_empty in Hs.
  - intros i. split; [by intros ?%Hk|]. intros (? & ? & ? & Hs & _). by rewrite lookup_empty in Hs.
  - intros i. split; [by intros ?%Hk|]. intros (? & Hs & _). by rewrite lookup_empty in Hs.
  - intros i s. by rewrite lookup_empty.
  - intros i a j. by rewrite lookup_empty.
  - intros p p' j. by rewrite lookup_empty.
  - intros i s. by rewrite lookup_empty.
  - intros i k. by rewrite lookup_empty.
Qed.

Lemma fresh_kind w : winv w -> kinds (sv w) !! next_task (tasks_ (sv w)) = None.
Proof.
  intros Hi. pose proof (svreach_inv _ _ (wi_sv _ Hi)) as [Hg Hk _ _].
  apply eq_None_not_Some. intros H%Hk%(gi_fresh _ Hg). lia.
Qed.

(** *** A session has a turn, with which one of its tasks may end *)

Definition ends_task (fin : option nat) (x : Server) : Server :=
  match fin with Some j => finish_task j false x | None => x end.

Lemma ends_kinds fin x k K :
  kinds (ends_task fin x) !! k = Some K <-> fin <> Some k /\ kinds x !! k = Some K.
Proof.
  destruct fin as [j|]; simpl; [|naive_solver]. rewrite lookup_delete_Some. naive_solver.
Qed.

Section Turn.
Context (w : server_world (E := E)) (i : nat) (s s' : eserver (E := E)) (fin : option nat).
Hypothesis Hi : winv w.
Hypothesis Ei : sessions w !! i = Some s.
Hypothesis Hi' : sinv s'.
Hypothesis Hnd : NoDup (spawned (session s')).
Hypothesis Hsp : forall a, a ∈ spawned (session s) -> a ∈ spawned (session s').
(** What ends with the turn. *)
Hypothesis Hov : over (econn s') = false <-> over (econn s) = false /\ fin <> Some i.
Hypothesis Hret : forall a j, task_of w !! (i, a) = Some j ->
  is_returned a s' = false <-> is_returned a s = false /\ fin <> Some j.
Hypothesis Hfin : forall j, fin = Some j ->
  j = i /\ over (econn s) = false \/
  exists a, task_of w !! (i, a) = Some j /\ is_returned a s = false.

Local Abbreviation w' := (mkServerWorld (ends_task fin (sv w)) (<[i := s']> (sessions w)) (task_of w) (clients w)).

Lemma turn_ends j : fin = Some j -> kinds (sv w) !! j = Some (KSession server) \/ kinds (sv w) !! j = Some KHandler.
Proof.
  intros H. destruct (Hfin j H) as [[-> Ho]|(a & Ha & Hr)].
  - left. apply (wi_session _ Hi). eauto.
  - right. apply (wi_handler _ Hi). eauto 10.
Qed.

Lemma turn_refines : svreach (echoing c) (ends_task fin (sv w)).
Proof.
  pose proof (wi_sv _ Hi) as Hsv. pose proof turn_ends as He. destruct fin as [j|]; [|done]. simpl.
  apply (svreach_step _ (sv w) (SvFinish j false)); [done|]. cbn [svstep].
  destruct (He j eq_refl) as [Hk|Hk]; by rewrite Hk.
Qed.

Lemma turn_sessions k :
  kinds (sv w') !! k = Some (KSession server) <->
  exists s0, sessions w' !! k = Some s0 /\ over (econn s0) = false.
Proof.
  cbn [sv sessions]. rewrite ends_kinds, (wi_session _ Hi). destruct (decide (i = k)) as [<-|Hne].
  - rewrite lookup_insert_eq. split.
    + intros (Hf & s0 & E0 & H0). exists s'. split; [done|]. apply Hov. rewrite Ei in E0.
      by injection E0 as <-.
    + intros (s0 & [= <-] & H0). apply Hov in H0 as [Ho Hf]. eauto.
  - rewrite lookup_insert_ne by done. split; [by intros [_ ?]|]. intros (s0 & E0 & H0). split; [|eauto].
    intros Hf. destruct (Hfin k Hf) as [[-> _]|(a & Ha & Hr)]; [done|].
    assert (H1 : kinds (sv w) !! k = Some KHandler) by (apply (wi_handler _ Hi); eauto 10).
    assert (H2 : kinds (sv w) !! k = Some (KSession server)) by (apply (wi_session _ Hi); eauto).
    congruence.
Qed.

Lemma turn_handlers j :
  kinds (sv w') !! j = Some KHandler <->
  exists k a s0, task_of w' !! (k, a) = Some j /\ sessions w' !! k = Some s0 /\ is_returned a s0 = false.
Proof.
  cbn [sv sessions task_of]. rewrite ends_kinds, (wi_handler _ Hi). split.
  - intros (Hf & k & a & s0 & Ht0 & E0 & H0). destruct (decide (i = k)) as [<-|Hne].
    + exists i, a, s'. rewrite lookup_insert_eq. split; [done|]. split; [done|].
      apply (Hret a j Ht0). rewrite Ei in E0. by injection E0 as <-.
    + exists k, a, s0. by rewrite lookup_insert_ne.
  - intros (k & a & s0 & Ht0 & E0 & H0). destruct (decide (i = k)) as [<-|Hne].
    + rewrite lookup_insert_eq in E0. injection E0 as <-. apply (Hret a j Ht0) in H0 as [Hr Hf]. eauto 10.
    + rewrite lookup_insert_ne in E0 by done. split; [|eauto 10]. intros Hf.
      destruct (Hfin j Hf) as [[-> Ho]|(b & Hb & Hr)].
      * assert (H1 : kinds (sv w) !! i = Some KHandler) by (apply (wi_handler _ Hi); eauto 10).
        assert (H2 : kinds (sv w) !! i = Some (KSession server)) by (apply (wi_session _ Hi); eauto).
        congruence.
      * by injection (wi_inj _ Hi _ _ _ Hb Ht0) as <- _.
Qed.

Lemma winv_turn : winv w'.
Proof.
  assert (Hnext : next_task (tasks_ (ends_task fin (sv w))) = next_task (tasks_ (sv w))) by by destruct fin.
  split; [apply turn_refines | apply turn_sessions | apply turn_handlers | ..]; cbn [sv sessions task_of];
    rewrite ?Hnext; try apply (wi_inj _ Hi).
  - intros k. rewrite ends_kinds, (wi_client _ Hi). split; [by intros [_ ?]|]. intros Hk. split; [|done].
    intros Hf. apply (wi_client _ Hi) in Hk. destruct (turn_ends k Hf); congruence.
  - intros k s0. rewrite lookup_insert_Some. intros [[_ <-]|[_ E0]]; [done | by apply (wi_sinv _ Hi k)].
  - intros k a j Hj. destruct (wi_task _ Hi k a j Hj) as (Hlt & s0 & E0 & Ha). split; [done|].
    destruct (decide (i = k)) as [<-|Hne]; [|exists s0; by rewrite lookup_insert_ne].
    exists s'. rewrite lookup_insert_eq. split; [done|]. apply Hsp. congruence.
  - intros k s0. rewrite lookup_insert_Some. intros [[<- _]|[_ E0]]; by eapply (wi_known _ Hi).
  - apply (wi_conn _ Hi).
Qed.

End Turn.

(** *** A request is dispatched *)

Lemma winv_dispatch w i s a :
  winv w -> sessions w !! i = Some s -> over (econn s) = false -> a ∈ spawned (session s) ->
  task_of w !! (i, a) = None -> is_returned a s = false -> winv (dispatch_task i a w).
Proof.
  intros Hi Ei Hov Ha Hn Hret. pose proof (fresh_kind w Hi) as Hfresh.
  assert (Hk : kinds (sv w) !! i = Some (KSession server)) by (apply (wi_session _ Hi); eauto).
  destruct Hi as [Hsv Hs Hh Hcl Hsi Ht Hinj Hkn Hco]. set (n := next_task (tasks_ (sv w))) in *.
  split; simpl; try done.
  - apply (svreach_step _ (sv w) (SvDispatch i)); [done|]. cbn [svstep]. by rewrite decide_True.
  - intros j. fold n. destruct (decide (n = j)) as [<-|Hne].
    + rewrite lookup_insert_eq. split; [done|]. intros (s0 & E0 & _). apply Hkn in E0. unfold n in E0. lia.
    + rewrite lookup_insert_ne by done. apply Hs.
  - intros j. fold n. destruct (decide (n = j)) as [<-|Hne].
    + rewrite lookup_insert_eq. split; [|done]. intros _. exists i, a, s. by rewrite lookup_insert_eq.
    + rewrite lookup_insert_ne, Hh by done. split; intros (k & b & s0 & Ht0 & E0 & H0); exists k, b, s0.
      * rewrite lookup_insert_ne; [done|]. intros [= <- <-]. congruence.
      * destruct (decide ((i, a) = (k, b))) as [Heq|Hd]; [|by rewrite lookup_insert_ne in Ht0].
        rewrite Heq, lookup_insert_eq in Ht0. congruence.
  - intros j. fold n. destruct (decide (n = j)) as [<-|Hne].
    + rewrite lookup_insert_eq. split; [done|]. intros (k & E0 & _). apply Hco in E0 as [E0 _]. lia.
    + rewrite lookup_insert_ne by done. apply Hcl.
  - intros k b j. fold n. destruct (decide ((i, a) = (k, b))) as [[= <- <-]|Hd].
    + rewrite lookup_insert_eq. intros [= <-]. split; [lia|]. by exists s.
    + rewrite lookup_insert_ne by done. intros Hj. destruct (Ht k b j Hj) as (Hlt & H). fold n in Hlt.
      split; [lia | done].
  - assert (Hold : forall p, task_of w !! p = Some n -> False).
    { intros [k b] Hp. destruct (Ht k b n Hp) as [Hlt _]. unfold n in Hlt. lia. }
    intros p p' j. fold n. rewrite !lookup_insert_Some. intros [[<- <-]|[? H1]] [[<- E2]|[? H2]]; try done.
    + by destruct (Hold p').
    + subst j. by destruct (Hold p).
    + by apply (Hinj p p' j).
  - intros j s0 E0. apply Hkn in E0. fold n in E0. lia.
  - intros j k E0. destruct (Hco j k E0) as [Hlt ?]. fold n in Hlt. split; [lia | done].
Qed.

(** The requests of a turn are dispatched. *)
Lemma winv_dispatches w i s l :
  winv w -> sessions w !! i = Some s -> over (econn s) = false -> NoDup l ->
  (forall a, a ∈ l -> a ∈ spawned (session s) /\ task_of w !! (i, a) = None /\ is_returned a s = false) ->
  winv (dispatch_tasks i l w) /\ sessions (dispatch_tasks i l w) = sessions w /\
  (forall p, is_Some (task_of w !! p) \/ (exists a, a ∈ l /\ p = (i, a)) ->
     is_Some (task_of (dispatch_tasks i l w) !! p)) /\
  grun (map (fun _ => GSpawn) l) (tasks_ (sv w)) = Some (tasks_ (sv (dispatch_tasks i l w))).
Proof.
  intros Hi Ei Ho Hn. revert w Hi Ei; induction Hn as [|a l Ha Hn IH]; intros w Hi Ei Hl.
  - split; [done|]. split; [done|]. split; [|done]. intros p [?|(a & Ha & _)]; [done|].
    by apply elem_of_nil in Ha.
  - destruct (Hl a (list_elem_of_here _ _)) as (Hsp & Ht & Hr).
    destruct (IH (dispatch_task i a w)) as (H1 & H2 & H3 & H4); [by apply (winv_dispatch w i s) | done | |].
    { intros b Hb. destruct (Hl b (list_elem_of_further _ _ _ Hb)) as (? & ? & ?). split; [done|].
      split; [|done]. simpl. rewrite lookup_insert_ne; [done|]. intros [= ->]. done. }
    split; [exact H1|]. split; [exact H2|]. split; [|exact H4]. intros p Hp. apply H3. simpl.
    destruct Hp as [Hp|(b & [->|Hb]%elem_of_cons & ->)]; [left|left|right; eauto].
    + destruct (decide ((i, a) = p)) as [<-|Hne]; [by rewrite lookup_insert_eq | by rewrite lookup_insert_ne].
    + by rewrite lookup_insert_eq.
Qed.

(** *** A turn of a session *)

Lemma finish_grun w j K :
  winv w -> kinds (sv w) !! j = Some K ->
  grun [GFinish j false] (tasks_ (sv w)) = Some (tasks_ (finish_task j false (sv w))).
Proof.
  intros Hi Hk. pose proof (svreach_inv _ _ (wi_sv _ Hi)) as [_ Hl _ _]. cbn [grun gstep].
  rewrite decide_True; [done|]. apply Hl. by eexists.
Qed.

Lemma loop_world w i e s s' :
  winv w -> tasked w -> sessions w !! i = Some s -> qstep buffer capacity (QLoop e) s = Some s' ->
  e <> KEnd -> sinv s' -> NoDup (spawned (session s')) ->
  let l := new_requests s s' in
  let w1 := mkServerWorld (sv w) (<[i := s']> (sessions w)) (task_of w) (clients w) in
  winv (dispatch_tasks i l w1) /\ tasked (dispatch_tasks i l w1) /\
  grun (map (fun _ => GSpawn) l) (tasks_ (sv w)) = Some (tasks_ (sv (dispatch_tasks i l w1))).
Proof.
  intros Hi Ht Ei Hq Hne Hi' Hnd l w1. destruct (wi_sinv _ Hi i s Ei) as [Hs _].
  destruct (loop_turn buffer capacity e s s' Hs Hq) as (Hl & Het & Ho & _ & Ho').
  specialize (Ho' Hne). fold l in Hl. pose proof Hnd as Hnd'. rewrite Hl in Hnd'.
  apply NoDup_app in Hnd' as (_ & Hdis & Hndl).
  assert (Hw1 : winv w1).
  { apply (winv_turn w i s s' None); try done.
    - intros a Ha. rewrite Hl. apply elem_of_app. by left.
    - intros a j _. unfold is_returned. rewrite Het. naive_solver. }
  destruct (winv_dispatches w1 i s' l Hw1) as (H1 & H2 & H3 & H4); [apply lookup_insert_eq | done | done | |].
  { intros a Ha. assert (Hna : a ∉ spawned (session s)) by (intros H; by apply (Hdis a)).
    split; [rewrite Hl; apply elem_of_app; by right|]. split.
    - destruct (task_of w1 !! (i, a)) as [j|] eqn:Ej; [|done]. exfalso.
      destruct (wi_task _ Hi i a j Ej) as (_ & s0 & E0 & Ha0). rewrite Ei in E0. by injection E0 as <-.
    - unfold is_returned. rewrite Het. destruct (etasks s !! a) as [tk|] eqn:Ek; [|done]. exfalso.
      by apply Hna, (si_tasks _ _ _ Hs a tk). }
  split; [exact H1|]. split; [|exact H4]. intros k s0 a E0 Ha. apply H3. rewrite H2 in E0. cbn [w1 sessions task_of] in *.
  destruct (decide (i = k)) as [<-|Hd].
  - rewrite lookup_insert_eq in E0. injection E0 as <-. rewrite Hl in Ha.
    apply elem_of_app in Ha as [Ha|Ha]; [left; by apply (Ht i s)|right; eauto].
  - left. apply (Ht k s0); [by rewrite lookup_insert_ne in E0 | done].
Qed.

Lemma tasked_turn w i s s' x :
  tasked w -> sessions w !! i = Some s -> spawned (session s') = spawned (session s) ->
  tasked (mkServerWorld x (<[i := s']> (sessions w)) (task_of w) (clients w)).
Proof.
  intros Ht Ei Hsp k s0 a E0 Ha. simpl in *. apply lookup_insert_Some in E0 as [[<- <-]|[_ E0]].
  - apply (Ht i s); [done | congruence].
  - by apply (Ht k s0).
Qed.

Lemma task_world w i a e s s' fin :
  winv w -> tasked w -> sessions w !! i = Some s -> qstep buffer capacity (QTask a e) s = Some s' ->
  sinv s' -> NoDup (spawned (session s')) ->
  fin = (if is_returned a s' then task_of w !! (i, a) else None) ->
  let w1 := mkServerWorld (ends_task fin (sv w)) (<[i := s']> (sessions w)) (task_of w) (clients w) in
  winv w1 /\ tasked w1 /\ (is_returned a s' = true -> is_Some fin) /\
  forall j, fin = Some j -> kinds (sv w) !! j = Some KHandler.
Proof.
  intros Hi Ht Ei Hq Hi' Hnd Hf w1. destruct (wi_sinv _ Hi i s Ei) as [Hs _].
  destruct (task_turn buffer capacity buffer_window buffer_room a e s s' Hs Hq) as (Ha & Hsp & Ho & Hr & Hro).
  assert (Hfin : forall j, fin = Some j -> task_of w !! (i, a) = Some j /\ is_returned a s' = true)
    by (intros j ->; by destruct (is_returned a s')).
  assert (Hkind : forall j, fin = Some j -> kinds (sv w) !! j = Some KHandler).
  { intros j [Ej _]%Hfin. apply (wi_handler _ Hi). eauto 10. }
  split; [|split; [by apply (tasked_turn w i s)|split; [|done]]].
  - apply (winv_turn w i s s' fin); try done.
    + intros b. by rewrite Hsp.
    + rewrite Ho. split; [|by intros [? _]]. intros Ho'. split; [done|]. intros E'%Hkind.
      assert (kinds (sv w) !! i = Some (KSession server)) by (apply (wi_session _ Hi); eauto). congruence.
    + intros b j Hb. destruct (decide (b = a)) as [->|Hne].
      * rewrite Hr, Hf, Hb. destruct (is_returned a s'); naive_solver.
      * rewrite (Hro b Hne). split; [|by intros [? _]]. intros Hrb. split; [done|]. intros [E' _]%Hfin.
        injection (wi_inj _ Hi _ _ _ E' Hb) as <-. done.
    + intros j [Ej _]%Hfin. right. eauto.
  - intros E'. rewrite Hf, E'. by apply (Ht i s).
Qed.

Lemma session_turn w i e evs w' :
  winv w -> tasked w -> session_world buffer capacity i e w = Some (evs, w') ->
  winv w' /\ tasked w' /\ grun evs (tasks_ (sv w)) = Some (tasks_ (sv w')).
Proof.
  intros Hi Ht H. unfold session_world in H. destruct (sessions w !! i) as [s|] eqn:Ei; [|done].
  destruct (qstep buffer capacity e s) as [s'|] eqn:Hq; [|done].
  destruct (polite _ _) eqn:Hp; [|done]. destruct (bool_decide_reflect (NoDup (spawned (session s')))) as [Hnd|]; [|done].
  cbn [andb] in H. destruct (wi_sinv _ Hi i s Ei) as [Hs _].
  pose proof (sinv_step buffer capacity e s s' Hs Hq Hp) as Hs'. destruct e as [e|a|a e].
  - assert (Hdec : e = KEnd \/ e <> KEnd) by (destruct e; by (left + right)). destruct Hdec as [->|Hne].
    + injection H as <- <-.
      destruct (loop_turn buffer capacity KEnd s s' Hs Hq) as (_ & Het & Ho & He & _).
      destruct (He eq_refl) as [Ho' Hsp].
      assert (Hk : kinds (sv w) !! i = Some (KSession server)) by (apply (wi_session _ Hi); eauto).
      split; [|split; [by apply (tasked_turn w i s) | by apply (finish_grun w i (KSession server))]].
      apply (winv_turn w i s s' (Some i)); try done.
      * intros a. by rewrite Hsp.
      * rewrite Ho'. split; [done|]. by intros [_ ?].
      * intros a j Hj. unfold is_returned. rewrite Het. split; [|by intros [? _]]. intros Hr. split; [done|].
        intros [= ->]. assert (kinds (sv w) !! j = Some KHandler) by (apply (wi_handler _ Hi); eauto 10). congruence.
      * intros j [= <-]. by left.
    + assert (E' : (evs, w') = (map (fun _ => GSpawn) (new_requests s s'),
                dispatch_tasks i (new_requests s s') (mkServerWorld (sv w) (<[i := s']> (sessions w)) (task_of w) (clients w))))
        by (destruct e; try done; by injection H as <- <-).
      injection E' as -> ->. by apply (loop_world w i e s s').
  - injection H as <- <-. destruct (start_turn buffer capacity a s s' Hq) as [Hc Hr].
    split; [|split; [apply (tasked_turn w i s); [done|done|by rewrite Hc] | done]].
    apply (winv_turn w i s s' None); try done; rewrite ?Hc; try done.
    { naive_solver. }
    intros b j _. rewrite Hr. naive_solver.
  - destruct (task_world w i a e s s' _ Hi Ht Ei Hq Hs' Hnd eq_refl) as (H1 & H2 & H3 & H4).
    destruct (is_returned a s'); [|by injection H as <- <-].
    destruct (task_of w !! (i, a)) as [j|]; [|done]. injection H as <- <-.
    split; [done|]. split; [done|]. by apply (finish_grun w j KHandler), H4.
Qed.

(** *** A turn of the accept loop *)

(** It starts at most one session, and then goes on accepting. *)
Definition accepts (r : accept_phase * list net_effect) : Prop :=
  (existsb is_spawn r.2 = false /\ forall x, perform_net r.2 x = x) \/
  (existsb is_spawn r.2 = true /\ r.1 = AAccepting /\
     forall x, perform_net r.2 x = spawn_task (KSession server) x).

Lemma accept_accepts cfg ec st : accepts (accept_resume cfg ec st).
Proof. unfold accept_resume. destruct ec; [by destruct st; left|]. destruct (tls cfg); [by left | by right]. Qed.

Lemma handshake_accepts cfg ec alpn : accepts (handshake_resume cfg ec alpn).
Proof.
  unfold handshake_resume. destruct ec; [by left|].
  destruct (bool_decide (alpn = "h2")); [by right | by left].
Qed.

Lemma connect_spawns tls hn cec hec alpn :
  let r := connect tls hn cec hec alpn in
  (existsb is_spawn r.2 = false /\ forall x, perform_net r.2 x = x) \/
  (existsb is_spawn r.2 = true /\ forall x, perform_net r.2 x = spawn_task (KSession client) x).
Proof.
  unfold connect. destruct cec; [by left|]. destruct tls; [|by right].
  destruct (bool_decide (hn = "")), hec, (bool_decide (alpn = "h2")); simpl; by (left + right).
Qed.

(** Only the last turn ends run(). *)
Lemma step_over e k k' : e <> KEnd -> kstep capacity e k = Some k' -> over k' = over k.
Proof.
  intros Hne H. destruct e as [| |ec n|ec|ec d|xe|]; [..|done].
  6: { by destruct (kturn_inv capacity _ _ _ H) as (_ & _ & ? & _). }
  all: cbn [kstep] in H; unfold send_event, recv_event in H; destruct (cstep _ _ _); [|done]; by injection H as <-.
Qed.

Lemma winv_net w x :
  winv w -> svreach (echoing c) x -> kinds x = kinds (sv w) -> next_task (tasks_ x) = next_task (tasks_ (sv w)) ->
  winv (mkServerWorld x (sessions w) (task_of w) (clients w)).
Proof.
  intros [Hsv Hs Hh Hcl Hsi Ht Hinj Hkn Hco] Hx Ek En. split; simpl; rewrite ?Ek, ?En; try done.
Qed.

Lemma winv_finish_accept w x :
  winv w -> svreach (echoing c) x -> kinds x = delete 0 (kinds (sv w)) ->
  kinds (sv w) !! 0 = Some KAccept -> next_task (tasks_ x) = next_task (tasks_ (sv w)) ->
  winv (mkServerWorld x (sessions w) (task_of w) (clients w)).
Proof.
  intros [Hsv Hs Hh Hcl Hsi Ht Hinj Hkn Hco] Hx Ek E0 En.
  assert (Hsame : forall k K, K <> KAccept -> kinds x !! k = Some K <-> kinds (sv w) !! k = Some K).
  { intros k K HK. rewrite Ek, lookup_delete_Some. split; [by intros [_ ?]|]. intros H. split; [|done].
    intros <-. congruence. }
  split; simpl; rewrite ?En; try done.
  - intros k. by rewrite Hsame.
  - intros k. by rewrite Hsame.
  - intros k. by rewrite Hsame.
Qed.

Lemma winv_spawn_session w e0 x :
  winv w -> svreach (echoing c) x ->
  kinds x = <[next_task (tasks_ (sv w)) := KSession server]> (kinds (sv w)) ->
  next_task (tasks_ x) = S (next_task (tasks_ (sv w))) ->
  winv (mkServerWorld x (<[next_task (tasks_ (sv w)) := eserver_new e0]> (sessions w)) (task_of w) (clients w)).
Proof.
  intros Hi Hx Ek En. pose proof (fresh_kind w Hi) as Hfresh. destruct Hi as [Hsv Hs Hh Hcl Hsi Ht Hinj Hkn Hco].
  set (n := next_task (tasks_ (sv w))) in *. split; simpl; rewrite ?En; try done.
  - intros k. rewrite Ek. destruct (decide (n = k)) as [<-|Hne].
    + rewrite !lookup_insert_eq. split; [|done]. intros _. by exists (eserver_new e0).
    + rewrite !lookup_insert_ne by done. apply Hs.
  - intros k. rewrite Ek. destruct (decide (n = k)) as [<-|Hne].
    + rewrite lookup_insert_eq. split; [done|]. intros (i & a & s & Ht0 & _).
      destruct (Ht i a n Ht0) as [Hlt _]. lia.
    + rewrite lookup_insert_ne, Hh by done. split; intros (i & a & s & Ht0 & E0 & H0); exists i, a, s.
      * rewrite lookup_insert_ne; [done|]. intros <-. apply Hkn in E0. lia.
      * destruct (Ht i a k Ht0) as (_ & s0 & E1 & _). rewrite lookup_insert_ne in E0; [done|].
        intros <-. apply Hkn in E1. lia.
  - intros k. rewrite Ek. destruct (decide (n = k)) as [<-|Hne].
    + rewrite lookup_insert_eq. split; [done|]. intros (k & E0 & _). apply Hco in E0 as [E0 _]. lia.
    + by rewrite lookup_insert_ne.
  - intros k s. rewrite lookup_insert_Some. intros [[_ <-]|[_ E0]]; [|by apply (Hsi k)].
    split; [apply sinv_new | constructor].
  - intros i a j Hj. destruct (Ht i a j Hj) as (Hlt & s & E0 & Ha). split; [lia|]. exists s.
    rewrite lookup_insert_ne; [done|]. intros <-. apply Hkn in E0. lia.
  - intros k s. rewrite lookup_insert_Some. intros [[<- _]|[_ E0]]; [lia|]. apply Hkn in E0. lia.
  - intros k k0 E0. destruct (Hco k k0 E0). split; [lia | done].
Qed.

Lemma winv_spawn_client w e0 x :
  winv w -> svreach (echoing c) x ->
  kinds x = <[next_task (tasks_ (sv w)) := KSession client]> (kinds (sv w)) ->
  next_task (tasks_ x) = S (next_task (tasks_ (sv w))) ->
  winv (mkServerWorld x (sessions w) (task_of w)
          (<[next_task (tasks_ (sv w)) := connection_new client false e0]> (clients w))).
Proof.
  intros Hi Hx Ek En. pose proof (fresh_kind w Hi) as Hfresh. destruct Hi as [Hsv Hs Hh Hcl Hsi Ht Hinj Hkn Hco].
  set (n := next_task (tasks_ (sv w))) in *.
  assert (Hk : forall k K, K <> KSession client -> kinds x !! k = Some K <-> kinds (sv w) !! k = Some K).
  { intros k K HK. rewrite Ek, lookup_insert_Some. split; [intros [[_ <-]|[_ ?]]; done|].
    intros H. right. split; [|done]. intros <-. congruence. }
  split; simpl; rewrite ?En; try done.
  - intros k. by rewrite Hk.
  - intros k. by rewrite Hk.
  - intros k. rewrite Ek. destruct (decide (n = k)) as [<-|Hne].
    + rewrite !lookup_insert_eq. split; [|done]. intros _. by eexists.
    + rewrite !lookup_insert_ne by done. apply Hcl.
  - intros i a j Hj. destruct (Ht i a j Hj) as [Hlt H]. split; [lia | done].
  - intros i s E0. apply Hkn in E0. lia.
  - intros i k. rewrite lookup_insert_Some. intros [[<- <-]|[_ E0]].
    + split; [lia|]. eexists. constructor.
    + destruct (Hco i k E0) as [Hlt ?]. split; [lia | done].
Qed.

(** *** A turn of a client's session *)

Lemma winv_client w i k k' fin :
  winv w -> clients w !! i = Some k -> (exists e0, kreach capacity client false e0 k') ->
  over k = false \/ fin = None ->
  (over k' = false <-> over k = false /\ fin <> Some i) -> (forall j, fin = Some j -> j = i) ->
  winv (mkServerWorld (ends_task fin (sv w)) (sessions w) (task_of w) (<[i := k']> (clients w))).
Proof.
  intros Hi Ei Hr Hor Hov Hfin. pose proof (wi_sv _ Hi) as Hsv.
  assert (Hki : forall j, fin = Some j -> kinds (sv w) !! j = Some (KSession client)).
  { intros j Hj. rewrite (Hfin j Hj). apply (wi_client _ Hi). destruct Hor as [?| ->]; [eauto | done]. }
  assert (Hk : forall j K, K <> KSession client ->
            kinds (ends_task fin (sv w)) !! j = Some K <-> kinds (sv w) !! j = Some K).
  { intros j K HK. rewrite ends_kinds. split; [by intros [_ ?]|]. intros H. split; [|done].
    intros Hj%Hki. congruence. }
  assert (Hnext : next_task (tasks_ (ends_task fin (sv w))) = next_task (tasks_ (sv w))) by by destruct fin.
  destruct Hi as [_ Hs Hh Hcl Hsi Ht Hinj Hkn Hco]. split; cbn [sv sessions task_of clients]; rewrite ?Hnext; try done.
  - destruct fin as [j|]; [|done]. apply (svreach_step _ (sv w) (SvFinish j false)); [done|].
    cbn [svstep]. by rewrite (Hki j).
  - intros j. by rewrite Hk.
  - intros j. by rewrite Hk.
  - intros j. rewrite ends_kinds, Hcl. destruct (decide (i = j)) as [<-|Hne].
    + rewrite lookup_insert_eq, Ei. split.
      * intros (Hf & k0 & [= <-] & Ho). exists k'. split; [done | by apply Hov].
      * intros (k0 & [= <-] & [Ho Hf]%Hov). eauto.
    + rewrite lookup_insert_ne by done. split; [by intros [_ ?]|]. intros ?. split; [|done].
      intros Hj. by destruct Hne; rewrite (Hfin j Hj).
  - intros j k0. rewrite lookup_insert_Some. intros [[<- <-]|[_ E0]]; [|by apply Hco].
    split; [by destruct (Hco i k Ei) | done].
Qed.

Lemma client_turn w i e evs w' :
  winv w -> tasked w -> client_world capacity i e w = Some (evs, w') ->
  winv w' /\ tasked w' /\ grun evs (tasks_ (sv w)) = Some (tasks_ (sv w')).
Proof.
  intros Hi Ht H. unfold client_world in H. destruct (clients w !! i) as [k|] eqn:Ei; [|done].
  destruct (kstep capacity e k) as [k'|] eqn:Hk; [|done]. destruct (bool_decide _); [|done].
  destruct (wi_conn _ Hi i k Ei) as [_ [e0 Hr]].
  assert (Hr' : exists e0, kreach capacity client false e0 k') by (exists e0; by eapply kreach_step).
  assert (Hdec : e = KEnd \/ e <> KEnd) by (destruct e; by (left + right)). destruct Hdec as [->|Hne].
  - injection H as <- <-. cbn [kstep] in Hk. destruct (sphase _); try done. destruct (rphase _); try done.
    destruct (over k) eqn:Eo; [done|]. injection Hk as <-.
    assert (HK : kinds (sv w) !! i = Some (KSession client)) by (apply (wi_client _ Hi); eauto).
    split; [|split; [done | by apply (finish_grun w i (KSession client))]].
    apply (winv_client w i k _ (Some i)); simpl; try done; [by left | by split; [|intros [_ ?]] | by intros j [= <-]].
  - assert (E' : (evs, w') = ([], mkServerWorld (sv w) (sessions w) (task_of w) (<[i := k']> (clients w))))
      by (destruct e; try done; by injection H as <- <-).
    injection E' as -> ->. split; [|done].
    apply (winv_client w i k k' None); try done; [by right|]. rewrite (step_over e k k' Hne Hk). by split; [|intros [? _]].
Qed.

Lemma accept_inv w r e0 ev :
  winv w -> tasked w -> accepts r -> accepting (sv w) <> ADone ->
  svstep ev (sv w) = Some (accept_turn r (sv w)) ->
  winv (accept_world r e0 w).2 /\ tasked (accept_world r e0 w).2 /\
  grun (accept_world r e0 w).1 (tasks_ (sv w)) = Some (tasks_ (sv (accept_world r e0 w).2)).
Proof.
  intros Hi Ht Hr Ha Hs. assert (Hx : svreach (echoing c) (accept_turn r (sv w)))
    by (eapply svreach_step; [apply Hi | done]).
  pose proof (svreach_inv _ _ (wi_sv _ Hi)) as [_ Hk Hacc _].
  assert (H0 : kinds (sv w) !! 0 = Some KAccept) by by apply Hacc.
  unfold accept_world, accept_tasks, accept_turn in *.
  destruct Hr as [[Hn Hp]|(Hn & Hph & Hp)]; cbn [fst snd sv]; rewrite Hp in *; rewrite Hn.
  - split; [|split; [done|]]; (destruct r.1;
      [|..|]); cbn [app grun] in *; try done; try (by apply winv_net); try (by apply winv_finish_accept).
    cbn [gstep]. rewrite decide_True; [done|]. apply Hk. by eexists.
  - rewrite Hph in *. split; [by apply winv_spawn_session|]. split; [|done].
    intros i s a E' Ha'. cbn [sessions task_of] in *. apply lookup_insert_Some in E' as [[_ <-]|[_ E']].
    + by apply elem_of_nil in Ha'.
    + by apply (Ht i s).
Qed.

(** *** Every turn keeps it *)

Lemma world_step w e evs w' :
  winv w -> tasked w -> wstep e w = Some (evs, w') ->
  winv w' /\ tasked w' /\ grun evs (tasks_ (sv w)) = Some (tasks_ (sv w')).
Proof.
  intros Hi Ht H. destruct e as [ec e0|ec alpn e0|i e|tls hn cec hec alpn e0|i e| | |]; cbn [ServerWorld.wstep] in H.
  - destruct (accepting (sv w)) eqn:Ea; try done.
    set (r := accept_resume _ _ _) in H. assert (E' : accept_world r e0 w = (evs, w')) by congruence.
    rewrite (surjective_pairing (accept_world r e0 w)) in E'. injection E' as <- <-.
    apply (accept_inv w r e0 (SvAccept ec)); [done|done|apply accept_accepts|congruence|].
    cbn [svstep]. by rewrite Ea.
  - destruct (accepting (sv w)) eqn:Ea; try done.
    set (r := handshake_resume _ _ _) in H. assert (E' : accept_world r e0 w = (evs, w')) by congruence.
    rewrite (surjective_pairing (accept_world r e0 w)) in E'. injection E' as <- <-.
    apply (accept_inv w r e0 (SvHandshake ec alpn)); [done|done|apply handshake_accepts|congruence|].
    cbn [svstep]. by rewrite Ea.
  - by apply (session_turn w i e).
  - injection H as <- <-. unfold connect_world. set (r := connect _ _ _ _ _). cbn [fst snd sv sessions task_of].
    assert (Hx : svreach (echoing c) (perform_net r.2 (sv w)))
      by (apply (svreach_step _ (sv w) (SvConnect tls hn cec hec alpn)); [apply Hi | done]).
    destruct (connect_spawns tls hn cec hec alpn) as [[Hn Hp]|[Hn Hp]]; fold r in Hn, Hp; rewrite Hp in *; rewrite Hn.
    + split; [by apply winv_net | done].
    + split; [by apply winv_spawn_client | done].
  - by apply (client_turn w i e).
  - injection H as <- <-. split; [|done]. apply winv_net; try done.
    by apply (svreach_step _ (sv w) SvStop); [apply Hi|].
  - injection H as <- <-. split; [|done]. apply winv_net; try done.
    by apply (svreach_step _ (sv w) SvRestart); [apply Hi|].
  - injection H as <- <-. split; [|done]. apply winv_net; try done.
    by apply (svreach_step _ (sv w) SvCancel); [apply Hi|].
Qed.

Lemma wreach_inv w : wreach buffer capacity c w -> winv w /\ tasked w.
Proof.
  induction 1 as [|w e evs w' _ [Hi Ht] Hs].
  - split; [apply winv_new|]. intros i s a E'. simpl in E'. by rewrite lookup_empty in E'.
  - destruct (world_step w e evs w' Hi Ht Hs) as (? & ? & _). done.
Qed.

End WorldInv.

(** ** The server and its parts *)

Section ServerTracks.
Context {C : CapyOps} {L : CapyLaws C} {G : NgConsts} {GL : NgLaws G}.
Context {W : CapyWrite} {WL : CapyWriteLaws W} {E : Type} {N : NgEngine E}.
Context (buffer : buffer_param) (capacity : nat).
Hypothesis buffer_window : bp_one_window buffer = true.
Hypothesis buffer_room : 0 < bp_room buffer.
Context (c : Config).
Implicit Types (s : eserver (E := E)) (w : server_world (E := E)).

(** C29 The bookkeeping of a server agrees with what runs: in every state the whole server
    can reach (accept loop, sessions with their loops and nghttp2, echo handlers, sessions
    of clients on its context, all interleaved), its [Server] part is one that Server
    speaks of; the tasks its group counts are exactly the accept loop, the sessions, of
    the server's connections and of clients, whose run() has not returned and the
    handlers that have not returned; and every dispatched request has a task, no two
    the same one. *)
Theorem server_world_refines w :
  wreach buffer capacity c w -> (N.of_nat (size (live (tasks_ (sv w)))) <= SIZE_MAX)%N ->
  svreach (echoing c) (sv w) /\
  count_ (group (tasks_ (sv w))) = N.of_nat (size (live (tasks_ (sv w)))) /\
  (forall j, j ∈ live (tasks_ (sv w)) <->
     j = 0 /\ accepting (sv w) <> ADone \/
     (exists s, sessions w !! j = Some s /\ over (econn s) = false) \/
     (exists k, clients w !! j = Some k /\ over k = false) \/
     (exists i a s, task_of w !! (i, a) = Some j /\ sessions w !! i = Some s /\ is_returned a s = false)) /\
  (forall i s a, sessions w !! i = Some s -> a ∈ spawned (session_of (econn s)) ->
     exists j, task_of w !! (i, a) = Some j /\ forall p, task_of w !! p = Some j -> p = (i, a)).
Proof.
  intros Hr Hb. destruct (wreach_inv buffer capacity buffer_window buffer_room c w Hr) as [Hi Ht].
  pose proof (svreach_inv _ _ (wi_sv _ _ _ _ Hi)) as [Hg Hk Hacc _].
  split; [apply Hi|]. split; [by apply (ginv_zero _ Hg Hb)|]. split.
  - intros j. rewrite Hk, <-Hacc, <-(wi_session _ _ _ _ Hi), <-(wi_client _ _ _ _ Hi), <-(wi_handler _ _ _ _ Hi).
    split.
    + intros [[|[|]|] HK]; auto.
    + intros [H|[H|[H|H]]]; rewrite H; by eexists.
  - intros i s a Ei Ha. destruct (Ht i s a Ei Ha) as [j Hj]. exists j. split; [done|].
    intros p Hp. by apply (wi_inj _ _ _ _ Hi p (i, a) j).
Qed.

(** *** What handlers do in it *)

(** No wait of a handler is cancelled. *)
Definition wcalm (e : wev (E := E)) : bool := match e with WSession _ e => qcalm e | _ => true end.

Lemma dispatch_sessions i l w : sessions (dispatch_tasks i l w) = sessions w.
Proof. revert w; induction l as [|a l IH]; intros w; simpl; [done|]. by rewrite IH. Qed.

Lemma session_world_inv w i e evs w' :
  session_world buffer capacity i e w = Some (evs, w') ->
  exists s s', sessions w !! i = Some s /\ qstep buffer capacity e s = Some s' /\
    polite (events_of s s') (session_of (econn s)) = true /\ sessions w' = <[i := s']> (sessions w).
Proof.
  intros H. unfold session_world in H. destruct (sessions w !! i) as [s|]; [|done].
  destruct (qstep buffer capacity e s) as [s'|] eqn:Hq; [|done]. destruct (polite _ _) eqn:Hp; [|done].
  exists s, s'. repeat (split; [done|]). destruct (bool_decide _); [|done]. cbn [andb] in H.
  destruct e as [e|a|a e].
  - destruct e; injection H as <- <-; (done || apply dispatch_sessions).
  - by injection H as <- <-.
  - destruct (is_returned a s'); [|by injection H as <- <-].
    destruct (task_of w !! (i, a)); [|done]. by injection H as <- <-.
Qed.

Lemma client_sessions w i e evs w' :
  client_world capacity i e w = Some (evs, w') -> sessions w' = sessions w.
Proof.
  unfold client_world. intros H. destruct (clients w !! i) as [k|]; [|done].
  destruct (kstep capacity e k); [|done]. destruct (bool_decide _); [|done].
  by destruct e; injection H as <- <-.
Qed.

Definition all_joined w : Prop := forall i s, sessions w !! i = Some s -> joins buffer calm s.

Lemma joined_step w e evs w' :
  all_joined w -> wcalm e = true -> wstep buffer capacity e w = Some (evs, w') -> all_joined w'.
Proof.
  intros Hj Hc H. assert (Haccept : forall r e0, accept_world r e0 w = (evs, w') -> all_joined w').
  { intros r e0 H'. injection H' as <- <-. intros k s. cbn [sessions].
    destruct (existsb is_spawn r.2); [|apply Hj]. rewrite lookup_insert_Some.
    intros [[_ <-]|[_ Hs]]; [apply joined_new | by apply (Hj k)]. }
  destruct e as [ec e0|ec alpn e0|i e|tls hn cec hec alpn e0|i e| | |]; cbn [wstep] in H;
    try (destruct (accepting (sv w)); try done; apply (inj Some) in H; by eapply Haccept);
    try (by injection H as <- <-).
  2: { intros j s. rewrite (client_sessions w i e evs w' H). apply Hj. }
  destruct (session_world_inv w i e evs w' H) as (s & s' & Ei & Hq & Hp & Es'). intros k s0.
  rewrite Es', lookup_insert_Some. intros [[_ <-]|[_ Hs]]; [|by apply (Hj k)].
  destruct (joins_step buffer capacity calm e s s' Hq Hc) as (es & T & Hstep).
  apply Hstep; [by apply (Hj i)|]. unfold events_of in Hp. by rewrite T, drop_app_length in Hp.
Qed.

Lemma joined_run evs w w' :
  all_joined w -> Forall (fun e => wcalm e = true) evs -> wrun buffer capacity evs w = Some w' -> all_joined w'.
Proof.
  revert w; induction evs as [|e evs IH]; intros w Hj Hc H; simpl in H; [by injection H as <-|].
  inversion Hc; subst. destruct (wstep buffer capacity e w) as [[gs w1]|] eqn:Es; [|done].
  by apply (IH w1); [apply (joined_step w e gs)|..].
Qed.

(** C13 The server program echoes: whatever connections a server accepts, and however
    its accept loop, the loops of its sessions, nghttp2 and the handlers of all requests of
    all connections take turns, no wait of a handler being cancelled, every handler that has returned success has submitted one
    response, 200 with its request's content-length, and the bytes nghttp2 pulled for it
    are leading bytes of the DATA delivered for its stream on its own connection; on a
    stream that is still open they are all of them, END_STREAM had been received, and
    nghttp2 was told of the end of the response. *)
Theorem server_echoes evs w i s a tk y :
  wrun buffer capacity evs (server_world_new c) = Some w -> Forall (fun e => wcalm e = true) evs ->
  sessions w !! i = Some s -> etasks s !! a = Some tk -> heap (session_of (econn s)) !! a = Some y ->
  pc (ht_echo tk) = Returned None ->
  (exists chunks, concat chunks = pulled (log y) /\
     acts (ht_echo tk) = Submit 200 (length_field (rq_content_length (ht_request tk)))
                         :: map WriteBody chunks ++ [WriteEof]) /\
  pulled (log y) `prefix_of` routes (trace_of s) session0 a /\
  (closed_ (st y) = false ->
     pulled (log y) = routes (trace_of s) session0 a /\ read_eof_ (st y) = true /\
     provider_eof y = true).
Proof.
  intros Hrun Hc Hs Ht Hy Hpc.
  assert (Hj : all_joined w).
  { apply (joined_run evs (server_world_new c)); [|done|done]. intros k s0. simpl. by rewrite lookup_empty. }
  destruct (Hj i s Hs) as (_ & hevs & r & Hh & Hhc & <-).
  destruct (hreach_serves buffer buffer_window buffer_room hevs r _ Hh Hhc) as [_ Hk _].
  destruct (Hk a y Hy) as (pre & id & Hi & _). unfold length_at, task_at in Hi.
  cbn [SessionEcho.tasks] in Hi. rewrite Ht in Hi. exact (einv_returned pre id _ _ _ Hi Hpc).
Qed.

End ServerTracks.
