(* ===== verification/ServerDrain.v ===== *)
(** * Destroying a server

    [Server::Impl::~Impl] (src/server.cpp) asks every coroutine of the server to stop and
    drives the io_context until none is left.  ServerWorld has the coroutines; here the
    io_context resumes them in any order, their waits being cancelled, and the
    destructor's loop (TaskGroup) comes to its end with everything finished.  This
    discharges, for the program's own coroutines, what TaskGroup assumes of a context. *)

From S2P Require Import Prelude Capy Nghttp2 Charconv Stream StreamRead StreamWrite StreamSys StreamProps.
From S2P Require Import Session SessionSys SessionProps SessionHeaders Messages Composed Echo.
From S2P Require Import EchoStream EchoLive EchoSafe EchoEnd SessionEcho EchoCancel.
From S2P Require Import Loops LoopProps Connection ConnectionProps ConnectionEnd EchoConnection.
From S2P Require Import EchoConnectionEnd EchoConnectionStop TaskGroup Endpoints Server ServerWorld.

Section Stopping.
Context {C : CapyOps} {G : NgConsts} {W : CapyWrite} {E : Type} {N : NgEngine E}.
Implicit Types (w : server_world (E := E)).

(** ** A server that was asked to stop *)

(** [late] counts the waits that were satisfied before the stop request and whose
    coroutines have not been resumed yet, and the turns that coroutines which use a
    client's session still take. *)
Record stopping := mkStopping { sw : server_world (E := E); late : nat }.

(** Turns after the stop request: accepts, handshakes, reads, writes and waits are
    cancelled. *)
Definition wstop (e : wev (E := E)) : bool :=
  match e with
  | WAccept (Some _) _ | WHandshake (Some _) _ _ => true
  | WSession _ e => stop_event e
  | WClient _ e => stop_event (QLoop e)
  | _ => false
  end.

(** A coroutine that uses a client's session is no task of the group: it may go on. *)
Definition wlate (e : wev (E := E)) : bool :=
  match e with
  | WSession _ e => late_event e
  | WClient _ (KTurn _) => true
  | WClient _ e => late_event (QLoop e)
  | _ => false
  end.

(** ** How many turns are left *)

Definition accept_left (p : accept_phase) : nat :=
  match p with AAccepting => 1 | AHandshaking => 2 | ADone => 0 end.

(** By task. *)
Definition total {A} (f : A -> nat) (m : gmap nat A) : nat := map_fold (fun _ x n => f x + n) 0 m.

Definition world_left w : nat :=
  accept_left (accepting (sv w)) + total left_of (sessions w) + total loops_left (clients w).

(** A satisfied wait gives a handler at most as many turns as it can have left. *)
Definition stopping_left (x : stopping) : nat := 12 * late x + world_left (sw x).

Section Total.
Context {A : Type} (f : A -> nat).
Implicit Types (m : gmap nat A).

Lemma total_insert m i x x' : m !! i = Some x -> total f (<[i := x']> m) + f x = total f m + f x'.
Proof.
  intros Hi. unfold total. rewrite <-insert_delete_eq.
  rewrite map_fold_insert_L; [|intros; lia|by rewrite lookup_delete_eq].
  rewrite (map_fold_delete_L _ _ i x m); [lia | intros; lia | done].
Qed.

Lemma total_in m i x : m !! i = Some x -> f x <= total f m.
Proof.
  intros Hi. unfold total. rewrite (map_fold_delete_L _ _ i x m); [lia | intros; lia | done].
Qed.

Lemma total_zero m : (forall i x, m !! i = Some x -> f x = 0) -> total f m = 0.
Proof.
  unfold total. induction m as [|i x m Hi IH] using map_ind; intros Hz; [done|].
  rewrite map_fold_insert_L; [|intros; lia|done]. rewrite (Hz i x) by apply lookup_insert_eq.
  apply IH. intros k y Hk. apply (Hz k). rewrite lookup_insert_ne; [done|]. intros ->. congruence.
Qed.

(** The first entry with turns left, with a turn for it. *)
Definition first_left {B} (pick : A -> option B) m : option (nat * B) :=
  match omap (fun '(i, x) => if f x =? 0 then None else (pair i) <$> pick x) (map_to_list m) with
  | p :: _ => Some p
  | [] => None
  end.

Lemma first_left_some {B} (pick : A -> option B) m i b :
  first_left pick m = Some (i, b) -> exists x, m !! i = Some x /\ f x <> 0 /\ pick x = Some b.
Proof.
  unfold first_left. destruct (omap _ _) as [|p l] eqn:Eo; [done|]. intros [= ->].
  assert (Hin : (i, b) ∈ (i, b) :: l) by apply list_elem_of_here. rewrite <-Eo in Hin.
  apply list_elem_of_omap in Hin as ([j x] & Hin & He). apply elem_of_map_to_list in Hin.
  destruct (Nat.eqb_spec (f x) 0); [done|]. destruct (pick x) as [b'|] eqn:Ep; [|done].
  injection He as -> ->. eauto.
Qed.

Lemma first_left_none {B} (pick : A -> option B) m :
  (forall i x, m !! i = Some x -> f x <> 0 -> is_Some (pick x)) -> first_left pick m = None -> total f m = 0.
Proof.
  intros Hp H. apply total_zero. intros i x Hx. destruct (decide (f x = 0)) as [|Hn]; [done|]. exfalso.
  destruct (Hp i x Hx Hn) as [b Hb]. unfold first_left in H. destruct (omap _ _) eqn:Eo; [|done].
  assert (Hin : (i, b) ∈ @nil (nat * B)); [|by apply elem_of_nil in Hin].
  rewrite <-Eo. apply list_elem_of_omap. exists (i, x). split; [by apply elem_of_map_to_list|].
  destruct (Nat.eqb_spec (f x) 0); [done|]. by rewrite Hb.
Qed.

End Total.

(** ** The io_context *)

Context (buffer : buffer_param) (capacity : nat).

(** Which coroutine is resumed next, with what; how many handlers [poll] finds ready. *)
Context (pick : stopping -> option (wev (E := E))) (burst : stopping -> nat).

Definition resume (x : stopping) : option (list gev * stopping) :=
  match pick x with
  | None => None
  | Some e =>
      match wstep buffer capacity e (sw x) with
      | Some (evs, w') => Some (evs, mkStopping w' (if wlate e then late x - 1 else late x))
      | None => None
      end
  end.

Fixpoint resume_many (n : nat) (x : stopping) : nat * list gev * stopping :=
  match n with
  | O => (0, [], x)
  | S n =>
      match resume x with
      | None => (0, [], x)
      | Some (evs, x) => let '(k, evs', x) := resume_many n x in (S k, evs ++ evs', x)
      end
  end.

(** A stopped context runs nothing until it is restarted. *)
Instance stopping_io : IoContext stopping := {
  restart x := mkStopping (mkServerWorld (ioc_restart (sv (sw x))) (sessions (sw x)) (task_of (sw x))
                          (clients (sw x))) (late x);
  poll x := if stopped (sv (sw x)) then (0, [], x) else resume_many (burst x) x;
  run_one x := if stopped (sv (sw x)) then (0, [], x) else resume_many 1 x;
}.

End Stopping.

(** ** Turns after the stop request *)

Section StoppingTurns.
Context {C : CapyOps} {L : CapyLaws C} {G : NgConsts} {GL : NgLaws G}.
Context {W : CapyWrite} {WL : CapyWriteLaws W} {E : Type} {N : NgEngine E}.
Context {NL : NgEngineLaws E} {Q : NgSendQuiet E}.
Context (buffer : buffer_param) (capacity : nat).
Hypothesis buffer_window : bp_one_window buffer = true.
Hypothesis buffer_room : 0 < bp_room buffer.
Context (c : Config).
Implicit Types (s : eserver (E := E)) (w : server_world (E := E)).
Local Abbreviation session s := (session_of (econn s)).
Local Abbreviation winv := (winv buffer capacity c).

(** No request is dispatched any more. *)
Lemma stop_spawned e s s' :
  stop_event e || late_event e = true -> qstep buffer capacity e s = Some s' ->
  spawned (session s') = spawned (session s).
Proof.
  intros He H. destruct e as [e|a|a e].
  - by destruct (stop_loop_frame buffer capacity e s s' He H) as (? & _).
  - by destruct (start_turn buffer capacity a s s' H) as [-> _].
  - destruct (qtask_inv _ _ _ _ _ _ H) as (_ & tk & y & t' & k' & _ & _ & _ & Ek & ->).
    by destruct (turn_frame _ _ _ _ _ _ _ Ek) as (_ & ? & _).
Qed.

(** The requests that were dispatched, by session. *)
Definition requests w : gmap nat (list addr) := (fun s => spawned (session s)) <$> sessions w.

(** What a turn leaves as it is. *)
Record settled_step w w' : Prop := {
  ss_stop : stop_requested (group (tasks_ (sv w'))) = stop_requested (group (tasks_ (sv w)));
  ss_stopped : stopped (sv w') = stopped (sv w);
  ss_live : live (tasks_ (sv w')) ⊆ live (tasks_ (sv w));
  ss_requests : requests w' = requests w;
  ss_clients : dom (clients w') = dom (clients w);
}.

Lemma session_stop w i e evs w' :
  stop_event e || late_event e = true -> session_world buffer capacity i e w = Some (evs, w') ->
  settled_step w w' /\ accepting (sv w') = accepting (sv w) /\ clients w' = clients w /\
  exists s s', sessions w !! i = Some s /\ qstep buffer capacity e s = Some s' /\
    sessions w' = <[i := s']> (sessions w).
Proof.
  intros He H. unfold session_world in H. destruct (sessions w !! i) as [s|] eqn:Ei; [|done].
  destruct (qstep buffer capacity e s) as [s'|] eqn:Hq; [|done]. destruct (_ && _); [|done].
  assert (Hnew : new_requests s s' = []).
  { unfold new_requests. rewrite (stop_spawned e s s' He Hq). apply drop_all. }
  assert (Hsame : forall x, w' = mkServerWorld x (<[i := s']> (sessions w)) (task_of w) (clients w) ->
            x = sv w \/ (exists j, x = finish_task j false (sv w)) ->
            settled_step w w' /\ accepting (sv w') = accepting (sv w) /\ clients w' = clients w /\
            exists s1 s2, Some s = Some s1 /\ qstep buffer capacity e s1 = Some s2 /\
              sessions w' = <[i := s2]> (sessions w)).
  { intros x -> Hx. split; [|split; [|split; [done | by exists s, s']]].
    - assert (Hreq : requests (mkServerWorld x (<[i := s']> (sessions w)) (task_of w) (clients w)) = requests w).
      { unfold requests. simpl. rewrite fmap_insert, (stop_spawned e s s' He Hq).
        apply insert_id. by rewrite lookup_fmap, Ei. }
      destruct Hx as [->|[j ->]]; split; try done. simpl. set_solver.
    - by destruct Hx as [->|[j ->]]. }
  destruct e as [e|a|a e].
  - rewrite Hnew in H. destruct e; try done; injection H as <- <-; eapply Hsame; try done; eauto.
  - injection H as <- <-. by eapply Hsame; [|left].
  - destruct (is_returned a s'); [|injection H as <- <-; by eapply Hsame; [|left]].
    destruct (task_of w !! (i, a)) as [j|]; [|done]. injection H as <- <-. eapply Hsame; [done|]. eauto.
Qed.

Lemma client_stop w i e evs w' :
  wstop (WClient (E := E) i e) || wlate (WClient (E := E) i e) = true ->
  client_world capacity i e w = Some (evs, w') ->
  settled_step w w' /\ accepting (sv w') = accepting (sv w) /\ sessions w' = sessions w /\
  exists k k', clients w !! i = Some k /\ kstep capacity e k = Some k' /\
    clients w' = <[i := k']> (clients w).
Proof.
  intros He H. pose proof (client_sessions capacity w i e evs w' H) as Hs. unfold client_world in H.
  destruct (clients w !! i) as [k|] eqn:Ei; [|done]. destruct (kstep capacity e k) as [k'|] eqn:Hk; [|done].
  destruct (bool_decide _); [|done].
  assert (Hw : sv w' = sv w \/ sv w' = finish_task i false (sv w)) by (destruct e; injection H as <- <-; auto).
  assert (Hc : clients w' = <[i := k']> (clients w)) by (by destruct e; injection H as <- <-).
  assert (Hr : requests w' = requests w) by (unfold requests; by rewrite Hs).
  split; [|split; [by destruct Hw as [->| ->] | split; [done|eauto]]].
  assert (Hd : dom (clients w') = dom (clients w)) by (rewrite Hc; by apply dom_insert_lookup_L).
  destruct Hw as [Hw|Hw]; split; rewrite ?Hw; try done. simpl. set_solver.
Qed.

(** Turns of a client's session. *)
Lemma client_left i e k k' :
  kstep capacity e k = Some k' ->
  (wstop (WClient (E := E) i e) = true -> loops_left k' < loops_left k) /\
  (wlate (WClient (E := E) i e) = true -> loops_left k' <= loops_left k).
Proof.
  intros Hk. split; cbn [wstop wlate]; intros He; [by apply (stop_loops_left capacity e)|].
  destruct e as [| |ec n|ec|ec d|xe|]; try done; [by apply (late_loops_left capacity (KWake ec))|].
  destruct (kturn_inv capacity _ _ _ Hk) as (_ & _ & Eo & Es & Er). unfold loops_left. by rewrite Eo, Es, Er.
Qed.

Lemma stop_step w e evs w' :
  winv w -> stop_requested (group (tasks_ (sv w))) = true -> wstop e || wlate e = true ->
  wstep buffer capacity e w = Some (evs, w') ->
  settled_step w w' /\
  (wstop e = true -> world_left w' < world_left w) /\
  (wlate e = true -> world_left w' <= world_left w + 11).
Proof.
  intros Hi Hst He H. destruct e as [ec e0|ec alpn e0|i e|tls hn cec hec alpn e0|i e| | |]; try done; cbn [wstep] in H.
  - destruct (accepting (sv w)) eqn:Ea; try done. destruct ec as [e|]; [|done].
    unfold accept_resume in H. rewrite Hst in H. injection H as <- <-.
    split; [split; try done; simpl; set_solver|]. split; [|done]. intros _. unfold world_left. simpl.
    rewrite Ea. simpl. lia.
  - destruct (accepting (sv w)) eqn:Ea; try done. destruct ec as [e|]; [|done]. injection H as <- <-.
    split; [by split|]. split; [|done]. intros _. unfold world_left. simpl. rewrite Ea. simpl. lia.
  - cbn [wstop wlate] in *. destruct (session_stop w i e evs w' He H) as (Hss & Ha & Hc & s & s' & Ei & Hq & Es').
    split; [done|]. unfold world_left. rewrite Ha, Hc, Es'.
    pose proof (total_insert left_of _ i s s' Ei) as Hins.
    destruct (wi_sinv _ _ _ _ Hi i s Ei) as [Hs _]. split; intros Hk.
    + pose proof (stop_decreases_all buffer capacity buffer_window buffer_room e s s' Hs Hk Hq). lia.
    + pose proof (late_bounded buffer capacity buffer_room e s s' Hs Hk Hq). lia.
  - destruct (client_stop w i e evs w' He H) as (Hss & Ha & Hs & k & k' & Ei & Hk & Ec).
    split; [done|]. unfold world_left. rewrite Ha, Hs, Ec.
    pose proof (total_insert loops_left _ i k k' Ei) as Hins.
    destruct (client_left i e k k' Hk) as [H1 H2]. split; intros Hx; [specialize (H1 Hx) | specialize (H2 Hx)]; lia.
Qed.

(** ** Some turn is always possible *)

Lemma session_enabled w i e s s' :
  winv w -> tasked w -> sessions w !! i = Some s -> stop_event e || late_event e = true ->
  qstep buffer capacity e s = Some s' -> is_Some (session_world buffer capacity i e w).
Proof.
  intros Hi Ht Ei He Hq. unfold session_world. rewrite Ei, Hq.
  destruct (wi_sinv _ _ _ _ Hi i s Ei) as [Hs Hnd].
  rewrite (stop_polite buffer capacity e s s' He Hq), bool_decide_true
    by by rewrite (stop_spawned e s s' He Hq).
  cbn [andb]. destruct e as [e|a|a e]; [by destruct e; eexists | by eexists |].
  destruct (is_returned a s'); [|by eexists].
  destruct (task_turn buffer capacity buffer_window buffer_room a e s s' Hs Hq) as (Ha & _).
  destruct (Ht i s a Ei Ha) as [j ->]. by eexists.
Qed.

Lemma client_enabled w i e k k' :
  clients w !! i = Some k -> stop_event (QLoop e) = true -> kstep capacity e k = Some k' ->
  is_Some (client_world capacity i e w).
Proof.
  intros Ei He Hk. unfold client_world. rewrite Ei, Hk, bool_decide_true; [by destruct e; eexists|].
  apply (stop_loop_spawned capacity e); [by rewrite He | done].
Qed.

(** A turn that is possible, if there is one; [e0] is not used. *)
Definition first_turn (rv : Z) (e0 : E) w : option (wev (E := E)) :=
  match accepting (sv w) with
  | AAccepting => Some (WAccept (Some canceled) e0)
  | AHandshaking => Some (WHandshake (Some canceled) "" e0)
  | ADone =>
      match first_left left_of (stop_pick rv) (sessions w) with
      | Some (i, e) => Some (WSession i e)
      | None =>
          match first_left loops_left conn_pick (clients w) with
          | Some (i, e) => Some (WClient i e)
          | None => None
          end
      end
  end.

Lemma first_turn_ok rv e0 w e :
  winv w -> tasked w -> first_turn rv e0 w = Some e ->
  wstop e = true /\ is_Some (wstep buffer capacity e w).
Proof.
  intros Hi Ht H. unfold first_turn in H. destruct (accepting (sv w)) eqn:Ea.
  1,2: injection H as <-; split; [done|]; cbn [wstep]; rewrite Ea; by eexists.
  destruct (first_left left_of _ _) as [[i qe]|] eqn:Ef.
  - injection H as <-. destruct (first_left_some _ _ _ _ _ Ef) as (s & Hs & Hl & Hp).
    destruct (wi_sinv _ _ _ _ Hi i s Hs) as [Hsi _].
    destruct (stop_possible buffer capacity buffer_window buffer_room rv s Hsi Hl) as (e & Hp' & Hst & [s' Hq]).
    assert (e = qe) as -> by congruence. split; [done|].
    apply (session_enabled w i qe s s'); [done | done | done | by rewrite Hst | done].
  - destruct (first_left loops_left _ _) as [[i ke]|] eqn:Ec; [|done]. injection H as <-.
    destruct (first_left_some _ _ _ _ _ Ec) as (k & Hk & Hl & Hp).
    destruct (wi_conn _ _ _ _ Hi i k Hk) as [_ [e1 Hr]].
    destruct (conn_possible capacity client false e1 k Hr Hl) as (e & Hp' & Hst & [k' Hs]).
    assert (e = ke) as -> by congruence. split; [done|]. by apply (client_enabled w i ke k k').
Qed.

(** While a task is live, some coroutine has turns left. *)
Lemma live_left w : winv w -> live (tasks_ (sv w)) <> ∅ -> world_left w <> 0.
Proof.
  intros Hi Hl H0. apply Hl, leibniz_equiv, elem_of_equiv_empty. intros j Hj.
  pose proof (svreach_inv _ _ (wi_sv _ _ _ _ Hi)) as [_ Hk Hacc _]. apply Hk in Hj as [K HK].
  unfold world_left in H0.
  assert (Hsess : forall i s, sessions w !! i = Some s -> left_of s = 0).
  { intros i s Hs. pose proof (total_in left_of _ i s Hs). lia. }
  destruct K as [|[|]|].
  - apply Hacc in HK as [_ HK]. destruct (accepting (sv w)); simpl in H0; (done || lia).
  - apply (wi_session _ _ _ _ Hi) in HK as (s & Hs & Ho).
    destruct (left_zero s (Hsess j s Hs)). congruence.
  - apply (wi_client _ _ _ _ Hi) in HK as (k & Hc & Ho). pose proof (total_in loops_left _ j k Hc) as Hle.
    unfold loops_left in Hle at 1. rewrite Ho in Hle. lia.
  - apply (wi_handler _ _ _ _ Hi) in HK as (i & a & s & Ht & Hs & Hr).
    destruct (wi_task _ _ _ _ Hi i a j Ht) as (_ & s0 & E0 & Ha).
    assert (s0 = s) as -> by congruence.
    destruct (left_zero s (Hsess i s Hs)) as [_ Hret].
    destruct (Hret a Ha) as (tk & r & Htk & Hpc). unfold is_returned in Hr. by rewrite Htk, Hpc in Hr.
Qed.

Lemma first_turn_some rv e0 w :
  winv w -> live (tasks_ (sv w)) <> ∅ -> is_Some (first_turn rv e0 w).
Proof.
  intros Hi Hl. pose proof (live_left w Hi Hl) as Hne. unfold first_turn. unfold world_left in Hne.
  destruct (accepting (sv w)); [by eexists..|]. simpl in Hne.
  destruct (first_left left_of _ _) as [[i e]|] eqn:Ef; [by eexists|].
  destruct (first_left loops_left _ _) as [[i e]|] eqn:Ec; [by eexists|]. exfalso. apply Hne.
  rewrite (first_left_none left_of (stop_pick rv) (sessions w)); [|..|exact Ef].
  - apply (first_left_none loops_left conn_pick); [|exact Ec]. intros i k Hk Hl'.
    destruct (wi_conn _ _ _ _ Hi i k Hk) as [_ [e1 Hr]].
    destruct (conn_possible capacity client false e1 k Hr Hl') as (e & -> & _). by eexists.
  - intros i s Hs Hn. destruct (wi_sinv _ _ _ _ Hi i s Hs) as [Hsi _].
    destruct (stop_possible buffer capacity buffer_window buffer_room rv s Hsi Hn) as (e & -> & _). by eexists.
Qed.

End StoppingTurns.

(** ** The destructor *)

Section Destroyed.
Context {C : CapyOps} {L : CapyLaws C} {G : NgConsts} {GL : NgLaws G}.
Context {W : CapyWrite} {WL : CapyWriteLaws W} {E : Type} {N : NgEngine E}.
Context {NL : NgEngineLaws E} {Q : NgSendQuiet E}.
Context (buffer : buffer_param) (capacity : nat) (c : Config).
Implicit Types (w : server_world (E := E)) (x : stopping (E := E)).
Local Abbreviation session s := (session_of (econn s)).

Definition stop_asked w : Prop := stop_requested (group (tasks_ (sv w))) = true.

(** What is relied on of the order in which a context resumes cancelled coroutines: it
    resumes one that can go on, with a cancelled operation or (once each) a wait that had
    been satisfied; and while a task is live there is one, since every operation that was
    cancelled completes. *)
Class Scheduler (pick : stopping (E := E) -> option (wev (E := E))) : Prop := {
  pick_ok x e : wreach buffer capacity c (sw x) -> stop_asked (sw x) -> pick x = Some e ->
    is_Some (wstep buffer capacity e (sw x)) /\
    (wstop e = true \/ wlate e = true /\ 0 < late x);
  pick_some x : wreach buffer capacity c (sw x) -> stop_asked (sw x) ->
    live (tasks_ (sv (sw x))) <> ∅ -> is_Some (pick x);
}.

Hypothesis buffer_window : bp_one_window buffer = true.
Hypothesis buffer_room : 0 < bp_room buffer.

(** Such an order exists. *)
Lemma first_scheduler rv e0 : Scheduler (fun x => first_turn rv e0 (sw x)).
Proof.
  split; intros x.
  - intros e Hr Ha H. destruct (wreach_inv buffer capacity buffer_window buffer_room c _ Hr) as [Hi Ht].
    destruct (first_turn_ok buffer capacity buffer_window buffer_room c rv e0 _ e Hi Ht H). auto.
  - intros Hr Ha Hl. destruct (wreach_inv buffer capacity buffer_window buffer_room c _ Hr) as [Hi _].
    by apply (first_turn_some buffer capacity buffer_window buffer_room c).
Qed.

Context (pick : stopping (E := E) -> option (wev (E := E))) {SL : Scheduler pick}.
Context (burst : stopping (E := E) -> nat).
Local Abbreviation resume := (resume buffer capacity pick).
Local Abbreviation resume_many := (resume_many buffer capacity pick).

(** The tasks of a reachable world that was asked to stop, in which the requests [R]
    had been dispatched and the clients [D] had been connected. *)
Context (R : gmap nat (list addr)) (D : gset nat).

Definition tracks_world x (t : TaskGroup.tasks) : Prop :=
  t = tasks_ (sv (sw x)) /\ wreach buffer capacity c (sw x) /\ stop_asked (sw x) /\
  (N.of_nat (size (live t)) <= SIZE_MAX)%N /\ requests (sw x) = R /\ dom (clients (sw x)) = D.

Lemma grun_app evs evs' t :
  grun (evs ++ evs') t = match grun evs t with Some t => grun evs' t | None => None end.
Proof. revert t; induction evs as [|e evs IH]; intros t; simpl; [done|]. destruct (gstep e t); auto. Qed.

Lemma resume_tracks x t evs x' :
  tracks_world x t -> resume x = Some (evs, x') ->
  (exists t', grun evs t = Some t' /\ tracks_world x' t') /\
  stopping_left x' < stopping_left x /\ stopped (sv (sw x')) = stopped (sv (sw x)).
Proof.
  intros (-> & Hr & Ha & Hb & HR & HD) H. unfold ServerDrain.resume in H.
  destruct (pick x) as [e|] eqn:Ep; [|done]. destruct (pick_ok x e Hr Ha Ep) as [_ Hadm].
  destruct (wstep buffer capacity e (sw x)) as [[evs' w']|] eqn:Es; [|done]. injection H as <- <-.
  destruct (wreach_inv buffer capacity buffer_window buffer_room c _ Hr) as [Hi Ht].
  destruct (world_step buffer capacity buffer_window buffer_room c _ e _ _ Hi Ht Es) as (_ & _ & Hg).
  assert (He : wstop e || wlate e = true) by (destruct Hadm as [->|[-> _]]; by rewrite ?orb_true_r).
  destruct (stop_step buffer capacity buffer_window buffer_room c _ e _ _ Hi Ha He Es) as ([H1 H2 H3 H4 H5] & Hs & Hl).
  split; [|split; [|done]].
  - exists (tasks_ (sv w')). split; [done|]. split; [done|]. cbn [sw].
    split; [by eapply wreach_step|]. split; [unfold stop_asked in *; congruence|]. split; [|split; congruence].
    pose proof (subseteq_size _ _ H3). lia.
  - unfold stopping_left. cbn [sw late]. destruct Hadm as [Hst|[Hlt Hpos]].
    + specialize (Hs Hst). destruct (wlate e); lia.
    + specialize (Hl Hlt). rewrite Hlt. lia.
Qed.

Lemma resume_some x t : tracks_world x t -> live t <> ∅ -> is_Some (resume x).
Proof.
  intros (-> & Hr & Ha & _) Hl. unfold ServerDrain.resume. destruct (pick_some x Hr Ha Hl) as [e He].
  rewrite He. destruct (pick_ok x e Hr Ha He) as [[[evs w'] ->] _]. by eexists.
Qed.

Lemma resume_many_ok n x t :
  tracks_world x t ->
  let '(k, evs, x') := resume_many n x in
  (exists t', grun evs t = Some t' /\ tracks_world x' t') /\
  stopped (sv (sw x')) = stopped (sv (sw x)) /\
  (k = 0 -> stopping_left x' <= stopping_left x /\ evs = []) /\
  (0 < k -> stopping_left x' < stopping_left x).
Proof.
  revert x t; induction n as [|n IH]; intros x t Ht; cbn [ServerDrain.resume_many].
  { split; [by exists t|]. split; [done|]. split; [done|lia]. }
  destruct (resume x) as [[evs x1]|] eqn:Er; [|split; [by exists t|]; split; [done|]; split; [done|lia]].
  destruct (resume_tracks x t evs x1 Ht Er) as ((t1 & Hg & Ht1) & Hlt & Hst).
  specialize (IH x1 t1 Ht1). destruct (resume_many n x1) as [[k evs'] x2].
  destruct IH as ((t2 & Hg2 & Ht2) & Hst2 & H0 & Hk).
  split; [exists t2; by rewrite grun_app, Hg|]. split; [congruence|]. split; [done|]. intros _.
  destruct (decide (k = 0)) as [->|Hn]; [destruct (H0 eq_refl); lia | specialize (Hk ltac:(lia)); lia].
Qed.

#[local] Instance drain_io : IoContext (stopping (E := E)) := stopping_io buffer capacity pick burst.

(** The program's coroutines, cancelled, are such a context. *)
#[local] Instance drain_laws : IoContextLaws (stopping (E := E)).
Proof.
  refine {| tracks := tracks_world; running x := stopped (sv (sw x)) = false; todo := stopping_left |}.
  - by intros x t (_ & _ & _ & Hb & _).
  - intros x t (-> & Hr & Ha & Hb & HR). split; [|done]. split; [done|]. split; [|done].
    by apply (wreach_step _ _ c (sw x) WRestart []).
  - intros x t Ht Hrun. cbn [poll drain_io stopping_io]. rewrite Hrun.
    pose proof (resume_many_ok (burst x) x t Ht) as H.
    destruct (resume_many (burst x) x) as [[k evs] x']. rewrite Hrun in H. exact H.
  - intros x t Ht Hrun. cbn [run_one drain_io stopping_io]. rewrite Hrun.
    pose proof (resume_many_ok 1 x t Ht) as H. cbn [ServerDrain.resume_many] in *.
    destruct (resume x) as [[evs x']|] eqn:Er.
    + destruct H as (H1 & _ & _ & H4). split; [done|]. intros _. apply H4. lia.
    + destruct H as (H1 & _). split; [done|]. intros Hl. destruct (resume_some x t Ht Hl). congruence.
Defined.

(** Nothing is left of a server whose tasks have all completed. *)
Lemma empty_world w :
  winv buffer capacity c w -> live (tasks_ (sv w)) = ∅ ->
  accepting (sv w) = ADone /\
  (forall i s, sessions w !! i = Some s -> over (econn s) = true /\ streams_ (session s) = ∅ /\
    forall a j, task_of w !! (i, a) = Some j -> returned a s) /\
  (forall i k, clients w !! i = Some k -> over k = true).
Proof.
  intros Hi Hl. pose proof (svreach_inv _ _ (wi_sv _ _ _ _ Hi)) as [_ Hk Hacc _].
  assert (Hnone : forall j K, kinds (sv w) !! j = Some K -> False).
  { intros j K HK. assert (Hj : j ∈ live (tasks_ (sv w))) by (apply Hk; by eexists). rewrite Hl in Hj. by apply elem_of_empty in Hj. }
  split; [|split].
  - destruct (accepting (sv w)) eqn:Ea; [..|done]; exfalso; apply (Hnone 0 KAccept), Hacc; done.
  - intros i s Hs. destruct (wi_sinv _ _ _ _ Hi i s Hs) as [Hsi _].
    assert (Ho : over (econn s) = true).
    { destruct (over (econn s)) eqn:Eo; [done|]. exfalso.
      apply (Hnone i (KSession server)), (wi_session _ _ _ _ Hi). eauto. }
    split; [done|]. split; [by apply (si_over _ _ _ Hsi)|]. intros a j Hj.
    destruct (is_returned a s) eqn:Er.
    + unfold is_returned in Er. unfold returned. destruct (etasks s !! a) as [tk|]; [|done].
      destruct (pc (ht_echo tk)) eqn:Ep; try done. eauto.
    + exfalso. apply (Hnone j KHandler), (wi_handler _ _ _ _ Hi). eauto 10.
  - intros i k Hc. destruct (over k) eqn:Eo; [done|]. exfalso.
    apply (Hnone i (KSession client)), (wi_client _ _ _ _ Hi). eauto.
Qed.

End Destroyed.

Section ServerDestroyed.
Context {C : CapyOps} {L : CapyLaws C} {G : NgConsts} {GL : NgLaws G}.
Context {W : CapyWrite} {WL : CapyWriteLaws W} {E : Type} {N : NgEngine E}.
Context {NL : NgEngineLaws E} {Q : NgSendQuiet E}.
Context (buffer : buffer_param) (capacity : nat) (c : Config).
Hypothesis buffer_window : bp_one_window buffer = true.
Hypothesis buffer_room : 0 < bp_room buffer.
Context (pick : stopping (E := E) -> option (wev (E := E))) {SL : Scheduler buffer capacity c pick}.
Context (burst : stopping (E := E) -> nat).

Definition cancelled (w : server_world (E := E)) : server_world :=
  mkServerWorld (cancel_all (sv w)) (sessions w) (task_of w) (clients w).

(** C16 Destroying a running server ends, and leaves nothing behind: whatever a server has
    accepted, whatever its connections, loops and echo handlers are doing (including
    handlers that were dispatched and not started yet), whatever clients are connected
    on its context, and in whatever order the
    io_context resumes the cancelled coroutines, with any number of waits that had been
    satisfied just before, stopped or not, the drain loop of [Server::Impl::~Impl] comes
    to its end within a number of rounds that can be computed beforehand.  Then the task
    group counts zero, the accept loop has returned, run() of every session has returned
    with an empty stream table, every handler of every request has returned, and so has
    run() of every client's session. *)
Theorem server_shuts_down w n :
  wreach buffer capacity c w -> (N.of_nat (size (live (tasks_ (sv w)))) <= SIZE_MAX)%N ->
  let x := mkStopping (cancelled w) n in
  exists t x',
    server_destroy (I := stopping_io buffer capacity pick burst) (S (stopping_left x)) (tasks_ (sv w)) x
      = Some (t, x') /\
    live t = ∅ /\ count_ (group t) = 0%N /\ accepting (sv (sw x')) = ADone /\
    (forall i s, sessions w !! i = Some s ->
      exists s', sessions (sw x') !! i = Some s' /\ over (econn s') = true /\
        streams_ (session_of (econn s')) = ∅ /\
        forall a, a ∈ spawned (session_of (econn s)) ->
          exists tk r, etasks s' !! a = Some tk /\ pc (ht_echo tk) = Returned r) /\
    (forall i k, clients w !! i = Some k -> exists k', clients (sw x') !! i = Some k' /\ over k' = true).
Proof.
  intros Hr Hb x. destruct (wreach_inv buffer capacity buffer_window buffer_room c _ Hr) as [Hi _].
  set (t0 := tasks_ (cancel_all (sv w))).
  assert (Ht0 : tracks_world buffer capacity c (requests w) (dom (clients w)) x t0).
  { split; [done|]. split; [|done]. by apply (wreach_step _ _ c w WCancel [GStop]). }
  pose proof (sv_group _ (svreach_inv _ _ (wi_sv _ _ _ _ Hi))) as Hg.
  assert (Hg0 : ginv t0) by (by destruct Hg).
  destruct (drain_completes (L := drain_laws buffer capacity c buffer_window buffer_room pick burst (requests w) (dom (clients w)))
              (S (stopping_left x)) t0 x) as (t & x' & Hd & Hl & Ht); [apply Nat.lt_succ_diag_r | done | done |].
  exists t, x'. split; [exact Hd|]. split; [done|].
  pose proof (drain_inv _ _ _ _ _ Hg0 Hd) as Hgt. destruct Ht as (-> & Hr' & _ & Hb' & HR & HD).
  split; [by apply (ginv_zero _ Hgt Hb')|].
  destruct (wreach_inv buffer capacity buffer_window buffer_room c _ Hr') as [Hi' Htk].
  destruct (empty_world buffer capacity c _ Hi' Hl) as (Ha & Hs & Hc). split; [done|]. split.
  2: { intros i k Hk. apply elem_of_dom_2 in Hk. rewrite <-HD in Hk. apply elem_of_dom in Hk as [k' Hk']. eauto. }
  intros i s Hsi. assert (HRi : requests (sw x') !! i = requests w !! i) by by rewrite HR.
  unfold requests in HRi. rewrite !lookup_fmap, Hsi in HRi.
  destruct (sessions (sw x') !! i) as [s'|] eqn:Es'; [|done]. injection HRi as HRi.
  destruct (Hs i s' Es') as (Ho & Htab & Hret). exists s'. split; [done|]. split; [done|]. split; [done|].
  intros a Hain. rewrite <-HRi in Hain. destruct (Htk i s' a Es' Hain) as [j Hj]. exact (Hret a j Hj).
Qed.

End ServerDestroyed.
