(* ===== verification/EchoConnectionDemo.v ===== *)
(** * A concrete echo server

    The server of EchoConnection on the engine of ConnectionDemo: a request is echoed
    through both loops, and a connection that is cut off winds down. *)

From S2P Require Import Prelude Capy Nghttp2 Charconv Stream StreamRead StreamWrite StreamSys StreamProps.
From S2P Require Import Session SessionSys SessionProps SessionHeaders Messages Composed Echo.
From S2P Require Import EchoStream EchoLive EchoSafe EchoEnd SessionEcho.
From S2P Require Import Loops LoopProps Connection ConnectionProps ConnectionEnd ConnectionDemo.
From S2P Require Import EchoCancel EchoClosed EchoConnection EchoConnectionEnd EchoConnectionStop EchoConnectionClosed.

Module EchoConnectionDemo.
#[local] Existing Instance capy_ref.
#[local] Existing Instance ng_ref.
#[local] Existing Instance capy_write_ref.
Import ConnectionDemo.
#[local] Existing Instance engine_ops.
#[local] Existing Instance engine_laws.

#[local] Instance engine_quiet : NgSendQuiet engine.
Proof. constructor. intros [[|[b d] q] [a|] s []]; by simpl. Defined.

Definition buf : buffer_param := dest [8].

(** The request and its body arrive while its handler is at work. *)
Definition half : list qev :=
  [QLoop KSendStart; QLoop KRecvStart; QLoop (KWritten None 8); QLoop (KRead None (bytes_of "H"));
   QStart 0; QTask 0 VRead; QLoop (KRead None (bytes_of "hello")); QTask 0 (VReadWake None);
   QTask 0 (VSubmit 0); QTask 0 VTurn].
Definition rest : list qev :=
  [QLoop (KWake None); QTask 0 (VWake None); QTask 0 VReturn; QTask 0 VRead;
   QLoop (KWritten None 12); QLoop (KRead None (bytes_of "E")); QTask 0 (VReadWake None); QTask 0 VTurn;
   QLoop (KWake None); QTask 0 (VWake None); QTask 0 VReturn].

Definition at_ (evs : list qev) : eserver :=
  default (eserver_new e0) (qrun buf 32 evs (eserver_new e0)).
Definition obj (s : eserver (E := engine)) : sys :=
  default (sys_new (fun _ => "") 0) (heap (session_of (econn s)) !! 0).
Definition task (s : eserver (E := engine)) : htask :=
  default (mkHtask (mkRequest "" None [] 0) idle ARun) (etasks s !! 0).

Example echoed : pc (ht_echo (task (at_ (half ++ rest)))) = Returned None.
Proof. vm_compute. reflexivity. Qed.

Lemma run_reaches evs :
  is_Some (qrun buf 32 evs (eserver_new e0)) -> qreach buf 32 e0 evs (at_ evs).
Proof.
  intros [s Hs]. unfold at_. rewrite Hs. apply (qrun_reach buf 32 e0 [] evs (eserver_new e0)); [constructor|done].
Qed.

Lemma connection_echoes_witness :
  pulled (log (obj (at_ (half ++ rest)))) = bytes_of "hello" /\
  provider_eof (obj (at_ (half ++ rest))) = true.
Proof.
  destruct (connection_echoes buf 32 eq_refl ltac:(vm_compute; lia) e0 (half ++ rest) (at_ (half ++ rest)) 0
              (task (at_ (half ++ rest))) (obj (at_ (half ++ rest)))) as (_ & _ & H).
  - apply run_reaches. vm_compute. by eexists.
  - by repeat constructor.
  - by vm_compute.
  - by vm_compute.
  - by vm_compute.
  - by vm_compute.
  - destruct H as (H1 & _ & H3); [by vm_compute|]. split; [rewrite H1; by vm_compute | exact H3].
Defined.

(** The peer goes away in the middle of the body: the handler is suspended in a write. *)
Definition cut : list qev := half ++ [QLoop (KRead (Some eof) [])].

(** run() returns, the handler being still suspended. *)
Definition ended : list qev := cut ++ map QLoop [KWake None; KWritten None 0; KEnd].

Lemma connection_winds_down_witness :
  (exists e, completion e = true /\ is_Some (qstep buf 32 (QLoop e) (at_ cut))) /\
  pc (ht_echo (task (at_ ended))) = Writing (bytes_of "hello") /\
  (exists e, turn_on (-1) 0 e /\ is_Some (qstep buf 32 e (at_ ended))) /\
  exists evs' s', qrun buf 32 evs' (at_ ended) = Some s' /\ length evs' <= 11 /\
    exists tk r, etasks s' !! 0 = Some tk /\ pc (ht_echo tk) = Returned r.
Proof.
  destruct (connection_winds_down buf 32 eq_refl ltac:(vm_compute; lia) (-1) e0 cut (at_ cut)) as (H1 & _).
  1: apply run_reaches; vm_compute; by eexists.
  1: by repeat constructor.
  1, 2: by vm_compute.
  destruct (connection_winds_down buf 32 eq_refl ltac:(vm_compute; lia) (-1) e0 ended (at_ ended))
    as (_ & H2 & evs' & s' & Hr & _ & _ & _ & H3).
  1: apply run_reaches; vm_compute; by eexists.
  1: by repeat constructor.
  1, 2: by vm_compute.
  destruct H2 as (_ & Hb & Hn); [by vm_compute|].
  assert (Hpc : pc (ht_echo (task (at_ ended))) = Writing (bytes_of "hello")) by by vm_compute.
  split; [apply H1; by vm_compute|]. split; [exact Hpc|]. split.
  - apply Hn; [vm_compute; by constructor|]. intros (tk & r & Ht & Hp).
    assert (Ht' : etasks (at_ ended) !! 0 = Some (task (at_ ended))) by by vm_compute.
    rewrite Ht' in Ht. apply (inj Some) in Ht. rewrite <-Ht, Hpc in Hp. discriminate Hp.
  - assert (Hd : length (dispatched (at_ ended)) = 1) by by vm_compute. specialize (Hb evs' s' Hr). rewrite Hd in Hb.
    exists evs', s'. split; [exact Hr|]. split; [exact Hb|]. apply H3.
    apply (qrun_spawned buf 32 evs' (at_ ended) s' 0 Hr). vm_compute. by constructor.
Defined.

End EchoConnectionDemo.
