(* ===== verification/ServerWorldDemo.v ===== *)
(** * A concrete server

    The server of ServerWorld on the engine of ConnectionDemo: it accepts two
    connections, echoes a request of the first, and is destroyed while another handler
    has been dispatched and not started yet and a client is connected. *)

From S2P Require Import Prelude Capy Nghttp2 Charconv Stream StreamRead StreamWrite StreamSys StreamProps.
From S2P Require Import Session SessionSys SessionProps SessionHeaders Messages Composed Echo.
From S2P Require Import EchoStream EchoLive EchoSafe EchoEnd SessionEcho EchoCancel.
From S2P Require Import Loops LoopProps Connection ConnectionProps ConnectionEnd ConnectionDemo.
From S2P Require Import EchoConnection EchoConnectionEnd EchoConnectionDemo EchoConnectionStop.
From S2P Require Import TaskGroup Endpoints Server ServerWorld ServerDrain.

Module ServerWorldDemo.
#[local] Existing Instance capy_ref.
#[local] Existing Instance ng_ref.
#[local] Existing Instance capy_write_ref.
Import ConnectionDemo.
#[local] Existing Instance engine_ops.
#[local] Existing Instance engine_laws.
#[local] Existing Instance EchoConnectionDemo.engine_quiet.

Definition buf : buffer_param := dest [8].
Definition new : server_world (E := engine) := server_world_new Config_default.
Definition after (evs : list wev) : server_world := default new (wrun buf 32 evs new).

(** The first connection sends half a request, the second one a request; a client is
    connected on the same context. *)
Definition busy : list wev :=
  WAccept None e0 :: map (WSession 1) EchoConnectionDemo.half ++
  [WAccept None e0; WSession 3 (QLoop KSendStart); WSession 3 (QLoop KRecvStart);
   WSession 3 (QLoop (KWritten None 8)); WSession 3 (QLoop (KRead None (bytes_of "H")));
   WConnect false "localhost" None None "" e0; WClient 5 KSendStart].

Definition served : list wev := busy ++ map (WSession 1) EchoConnectionDemo.rest.

Definition sess1 (w : server_world (E := engine)) : eserver := default (eserver_new e0) (sessions w !! 1).

Lemma demo_reach evs : is_Some (wrun buf 32 evs new) -> wreach buf 32 Config_default (after evs).
Proof.
  intros [w Hw]. unfold after. rewrite Hw. by apply (wrun_reach buf 32 Config_default evs new); [constructor|].
Qed.

(** The accept loop, two sessions, two handlers, a client's session. *)
Lemma server_world_refines_witness :
  count_ (group (tasks_ (sv (after busy)))) = 6%N /\ 4 ∈ live (tasks_ (sv (after busy))).
Proof.
  destruct (server_world_refines buf 32 eq_refl ltac:(vm_compute; lia) Config_default (after busy))
    as (_ & Hc & Hl & _).
  - apply demo_reach. vm_compute. by eexists.
  - by vm_compute.
  - split; [rewrite Hc; by vm_compute|]. apply Hl. right. right. right. exists 3, 0.
    exists (default (eserver_new e0) (sessions (after busy) !! 3)).
    split; [by vm_compute|]. split; [by vm_compute | by vm_compute].
Defined.

Lemma server_echoes_witness :
  pulled (log (EchoConnectionDemo.obj (sess1 (after served)))) = bytes_of "hello".
Proof.
  destruct (server_echoes buf 32 eq_refl ltac:(vm_compute; lia) Config_default served (after served) 1
              (sess1 (after served)) 0 (EchoConnectionDemo.task (sess1 (after served)))
              (EchoConnectionDemo.obj (sess1 (after served)))) as (_ & _ & H).
  - by vm_compute.
  - by repeat constructor.
  - by vm_compute.
  - by vm_compute.
  - by vm_compute.
  - by vm_compute.
  - destruct H as (H1 & _); [by vm_compute|]. rewrite H1. by vm_compute.
Defined.

(** The io_context resumes the first coroutine that can go on, at most three at a poll. *)
Definition pick : stopping (E := engine) -> option (wev (E := engine)) := fun x => first_turn 0 e0 (sw x).
Definition burst : stopping (E := engine) -> nat := fun _ => 3.

Lemma server_shuts_down_witness :
  exists t x', server_destroy (I := stopping_io buf 32 pick burst)
      (S (stopping_left (mkStopping (cancelled (after busy)) 1))) (tasks_ (sv (after busy)))
      (mkStopping (cancelled (after busy)) 1) = Some (t, x') /\
    count_ (group t) = 0%N /\ accepting (sv (sw x')) = ADone /\
    exists s', sessions (sw x') !! 3 = Some s' /\ over (econn s') = true /\
      (exists tk r, etasks s' !! 0 = Some tk /\ pc (ht_echo tk) = Returned r) /\
      exists k', clients (sw x') !! 5 = Some k' /\ over k' = true.
Proof.
  destruct (server_shuts_down buf 32 Config_default eq_refl ltac:(vm_compute; lia) pick
              (SL := first_scheduler buf 32 Config_default eq_refl ltac:(vm_compute; lia) 0 e0)
              burst (after busy) 1) as (t & x' & Hd & _ & Hc & Ha & Hs & Hk).
  - apply demo_reach. vm_compute. by eexists.
  - by vm_compute.
  - exists t, x'. split; [exact Hd|]. split; [exact Hc|]. split; [exact Ha|].
    destruct (Hs 3 (default (eserver_new e0) (sessions (after busy) !! 3))) as (s' & E' & Ho & _ & Hret);
      [by vm_compute|].
    exists s'. split; [exact E'|]. split; [exact Ho|].
    split; [apply Hret; vm_compute; by constructor|].
    apply (Hk 5 (default (connection_new client false e0) (clients (after busy) !! 5))). by vm_compute.
Defined.

End ServerWorldDemo.
