(* ===== verification/BodyRead.v ===== *)
(** * Reading a body

    [Request::read_some], [Request::read] and [ClientResponse::read_some] (session.hpp):
    [read_some] awaits the stream's once, [read] is capy's composed [read] over it, a
    parameter with the behaviour it documents.  The counterpart of Composed. *)

From S2P Require Import Prelude Capy Nghttp2 Stream StreamRead StreamWrite StreamSys StreamProps.
From S2P Require Import Session SessionSys SessionProps Messages Composed Echo EchoStream.

(** ** The composed [capy::read]

    A suspended call, the destination it passes to [read_some] next ([None] once it has
    its result), what it does with the outcome, its result.  [sizes] are the sizes of
    the caller's buffers. *)

Class CapyRead {C : CapyOps} := {
  crd : Type;
  crd_start : list nat -> crd;
  crd_next : crd -> option buffer_param;
  crd_put : io_result read_out -> crd -> crd;
  crd_result : crd -> io_result read_out;
}.

(** It passes on the unfilled rest, one window at a time; it returns at the first error
    or when nothing is left to fill, with all that was read.  [crd_left] observes the
    bytes left to fill. *)
Class CapyReadLaws {C : CapyOps} (R : CapyRead) := {
  crd_left : crd -> nat;
  crd_start_left sizes : crd_left (crd_start sizes) = sum sizes;
  crd_start_result sizes : crd_result (crd_start sizes) = IoResult None (Read 0 []);
  crd_next_some w p : crd_next w = Some p ->
    bp_one_window p = true /\ 0 < bp_room p /\ bp_room p <= crd_left w;
  crd_next_none w : crd_next w = None -> ec (crd_result w) = None -> crd_left w = 0;
  crd_put_left r w p : crd_next w = Some p -> read_n (value r) <= bp_room p ->
    crd_left (crd_put r w) = crd_left w - read_n (value r);
  crd_put_result r w : crd_result (crd_put r w)
    = IoResult (ec r) (Read (read_n (value (crd_result w)) + read_n (value r))
                         (read_mem (value (crd_result w)) ++ read_mem (value r)));
  crd_put_error r w : is_Some (ec r) -> crd_next (crd_put r w) = None;
}.

(** An instance: all that is left, as one buffer. *)
Definition capy_read_ref : @CapyRead capy_ref := {|
  crd := nat * io_result read_out;
  crd_start sizes := (sum sizes, IoResult None (Read 0 []));
  crd_next w := match w with (S n, IoResult None _) => Some (dest [S n]) | _ => None end;
  crd_put r w := (w.1 - read_n (value r),
    IoResult (ec r) (Read (read_n (value w.2) + read_n (value r)) (read_mem (value w.2) ++ read_mem (value r))));
  crd_result w := w.2;
|}.

#[export] Instance capy_read_ref_laws : CapyReadLaws (C := capy_ref) capy_read_ref.
Proof.
  refine {| crd_left := (fun w => w.1) : @crd capy_ref capy_read_ref -> nat |}; simpl; try done.
  - intros [[|n] [[e|] v]] p; try done. intros [= <-]. unfold Ref.one_window, Ref.room, Ref.iovec_cap. simpl. lia.
  - by intros [[|n] [[e|] v]].
  - intros [e v] [n r] [e' [= ->]]. cbn. by destruct (n - read_n v).
Defined.

Section BodyRead.
Context {C : CapyOps} {G : NgConsts} {R : CapyRead}.

(** ** The operations *)

Inductive read_op :=
| RdSome (p : buffer_param)      (* read_some(buffers) *)
| RdAll (sizes : list nat).      (* read(buffers) *)

(** What the frame of a suspended operation keeps. *)
Inductive rframe := RfSome | RfLoop (w : crd).

Inductive rnext :=
| RCall (p : buffer_param) (f : rframe)
| RReturn (r : io_result read_out).

Definition r_loop (w : crd) : rnext :=
  match crd_next w with Some p => RCall p (RfLoop w) | None => RReturn (crd_result w) end.

Definition r_start (op : read_op) : rnext :=
  match op with RdSome p => RCall p RfSome | RdAll sizes => r_loop (crd_start sizes) end.

(** The awaited [read_some] of the stream returned [r]. *)
Definition r_resume (r : io_result read_out) (f : rframe) : rnext :=
  match f with RfSome => RReturn r | RfLoop w => r_loop (crd_put r w) end.

(** ** An operation under way on a stream *)

(** Suspended with the destination [p] it passed. *)
Inductive rstate := RAt (n : rnext) | RIn (p : buffer_param) (f : rframe).

Record rtask := mkRtask { rsys : sys; rst : rstate }.

Definition after_read_some (y y' : sys) (p : buffer_param) (f : rframe) : rtask :=
  mkRtask y' (match read_result y y' with Some r => RAt (r_resume r f) | None => RIn p f end).

(** Turns of others; nghttp2 delivers no DATA after END_STREAM. *)
Definition not_reader (e : sev) (y : sys) : bool :=
  match e with ERead _ | EReadWake _ => false | EData _ => negb (read_eof_ (st y)) | _ => true end.

Inductive rd_ev :=
| REnv (e : sev)                   (* anybody else *)
| RTurn                            (* the operation goes on *)
| RWake (wait_ec : error_code).    (* read_ready_.wait() returns *)

Definition rstep (e : rd_ev) (t : rtask) : option rtask :=
  let y := rsys t in
  match e, rst t with
  | REnv e, _ =>
      if not_reader e y
      then match step e y with Some y' => Some (mkRtask y' (rst t)) | None => None end
      else None
  | RTurn, RAt (RCall p f) =>
      match step (ERead p) y with Some y' => Some (after_read_some y y' p f) | None => None end
  | RWake w, RIn p f =>
      match step (EReadWake w) y with Some y' => Some (after_read_some y y' p f) | None => None end
  | _, _ => None
  end.

Fixpoint rrun (es : list rd_ev) (t : rtask) : option rtask :=
  match es with
  | [] => Some t
  | e :: es => match rstep e t with Some t => rrun es t | None => None end
  end.

Definition rd_start (op : read_op) (y : sys) : rtask := mkRtask y (RAt (r_start op)).

(** The room of the destination. *)
Definition read_size (op : read_op) : nat :=
  match op with RdSome p => bp_room p | RdAll sizes => sum sizes end.

(** Body bytes delivered meanwhile. *)
Definition rdata (es : list rd_ev) : bytes :=
  concat (map (fun e => match e with REnv (EData d) => d | _ => [] end) es).

End BodyRead.

(** ** Properties *)

Section BodyReadProps.
Context {C : CapyOps} {L : CapyLaws C} {G : NgConsts} {GL : NgLaws G}.
Context {R : CapyRead} {RL : CapyReadLaws R}.
Context (pre : Z -> string) (id : Z).

(** A destination that [read_some] can be given. *)
Definition dest_ok (p : buffer_param) : Prop := bp_one_window p = true /\ 0 < bp_room p.

(** A read into [p] is parked. *)
Definition parked (p : buffer_param) (s : Stream) : Prop :=
  exists k, read_sink_ s = Some k /\ length (out k) + bp_room (bp k) = bp_room p.

Definition stream_ok (recv : bytes) (y : sys) : Prop :=
  exists es, reach pre id es y /\ reads_fit es /\ reads_roomy es /\ data_of es = recv.

Lemma stream_ok_step recv e y y' :
  stream_ok recv y -> step e y = Some y' -> (forall p, e = ERead p -> dest_ok p) ->
  stream_ok (recv ++ match e with EData d => d | _ => [] end) y'.
Proof.
  intros (es & Hr & Hf & Hm & <-) Hs Hp. exists (es ++ [e]).
  split; [by apply (reach_step _ _ _ y)|]. unfold reads_fit, reads_roomy.
  rewrite !Forall_app, !Forall_singleton, data_of_snoc.
  repeat split; try done; destruct e; try done; by apply Hp.
Qed.

(** *** A turn of [read_some] *)

(** What a turn reports of a read into [p], ... *)
Definition read_shape (p : buffer_param) (y y' : sys) : Prop :=
  match read_result y y' with
  | Some r => log y' = log y ++ [ORead r] /\ read_sink_ (st y') = None /\
      read_n (value r) = length (read_mem (value r)) /\ read_n (value r) <= bp_room p /\
      (ec r = None -> 0 < read_n (value r))
  | None => log y' = log y /\ parked p (st y')
  end.

(** ... and what its end means. *)
Definition read_end_ok (recv : bytes) (y y' : sys) : Prop :=
  match read_result y y' with
  | Some r => ec r = Some eof -> read_eof_ (st y') = true /\ recv = delivered (log y')
  | None => True
  end.

Lemma call_shape recv p y y' :
  stream_ok recv y -> dest_ok p -> step (ERead p) y = Some y' -> read_shape p y y'.
Proof.
  intros (es & Hr & Hf & _) Hp Hs.
  pose proof (sr_rd _ _ (reach_read_inv pre id es y Hr Hf)) as [Hwf _ _].
  cbn [step] in Hs. destruct (read_sink_ (st y)) eqn:Ek; [done|]. unfold read_shape, read_result.
  destruct (decide (available p (st y) = 0)) as [H0|H0].
  - rewrite read_some_empty in Hs by done. destruct (read_eof_ (st y) || closed_ (st y)) eqn:Ee;
      injection Hs as <-; simpl.
    + rewrite drop_app_length. simpl. repeat split; (done || lia).
    + rewrite drop_all. split; [done|]. eexists. split; [done|]. simpl. lia.
  - destruct (read_some_data p (st y) Hwf) as (chunks & front & E & _ & _); [lia|].
    rewrite E in Hs. injection Hs as <-. simpl. rewrite drop_app_length. simpl.
    unfold available in *. rewrite length_take. repeat split; (done || lia).
Qed.

Lemma wake_shape recv w p y y' :
  stream_ok recv y -> parked p (st y) -> step (EReadWake w) y = Some y' -> read_shape p y y'.
Proof.
  intros (es & Hr & Hf & _) (k & Hk & Hroom) Hs.
  pose proof (sr_rd _ _ (reach_read_inv pre id es y Hr Hf)) as [_ Hsink _].
  destruct (Hsink k Hk) as (Hc & _ & _). cbn [step] in Hs. rewrite Hk in Hs.
  destruct (completes w _); [|done]. unfold read_shape, read_result.
  unfold read_some_resume in Hs. destruct (Nat.ltb_spec 0 (copied k)) as [Hpos|Hz].
  { injection Hs as <-. simpl. rewrite drop_app_length. simpl. repeat split; (done || lia). }
  assert (Ho : out k = []) by (destruct (out k); [done | simpl in *; lia]).
  destruct w as [e|]; [injection Hs as <-; simpl; rewrite drop_app_length; simpl; rewrite Ho;
    repeat split; (done || lia)|]. simpl in Hs.
  destruct (read_eof_ (st y) || closed_ (st y)) eqn:Ee; injection Hs as <-; simpl.
  - rewrite drop_app_length. simpl. rewrite Ho. repeat split; (done || lia).
  - rewrite drop_all. split; [done|]. by exists k.
Qed.

Lemma turn_end recv e y y' :
  stream_ok recv y -> (forall p, e = ERead p -> dest_ok p) -> e <> EReadWake (Some eof) ->
  match e with ERead _ | EReadWake _ => True | _ => False end ->
  step e y = Some y' -> read_end_ok recv y y'.
Proof.
  intros (es & Hr & Hf & Hm & <-) Hp Hne Hev Hs. unfold read_end_ok.
  destruct (read_turn e y y' Hev Hs) as (_ & _ & -> & _ & Hlog).
  destruct (read_result y y') as [[o v]|]; [|done]. simpl. intros ->.
  assert (reads_fit [e] /\ reads_roomy [e]) as [Hf1 Hm1].
  { split; apply Forall_singleton; destruct e; try done; by apply Hp. }
  apply (eof_means_complete pre id es e y y' v); try done; by apply Forall_app.
Qed.

(** *** Turns of others *)

Lemma parked_side p s s' : read_side s' = read_side s -> parked p s -> parked p s'.
Proof. intros [= _ _ E _ _ _] (k & Hk & Hr). exists k. by rewrite E. Qed.

Lemma parked_data p d s : rd_inv s -> parked p s -> parked p (on_data d s).
Proof.
  intros [_ Hs _] (k & Hk & Hr). destruct (Hs k Hk) as (_ & H1 & _).
  unfold on_data. rewrite Hk. pose proof (put_window k d H1) as Hput. destruct (put k d) as [n k'].
  destruct Hput as (Hn & _ & Hr' & _ & Ho). exists k'. split; [by break|].
  rewrite Ho, Hr', length_app, length_take. lia.
Qed.

Lemma not_reader_frame e y y' :
  rd_inv (st y) -> not_reader e y = true -> step e y = Some y' ->
  delivered (log y') = delivered (log y) /\
  (read_eof_ (st y) = true -> read_eof_ (st y') = true) /\
  (read_sink_ (st y) = None -> read_sink_ (st y') = None) /\
  (forall p, parked p (st y) -> parked p (st y')).
Proof.
  intros Hrd He H. destruct e as [m|d| | |p|w|a fin|w|len|n| |w]; try done; cbn [step] in H.
  - injection H as <-. by destruct m.
  - injection H as <-. split; [done|]. split; [unfold on_data; simpl; by break|].
    split; [|intros p; by apply parked_data]. unfold on_data. simpl. intros Hk. rewrite Hk. by break.
  - by injection H as <-.
  - by injection H as <-.
  - destruct (writer y); [done|]. pose proof (write_impl_read_side a fin (st y)) as Hs.
    destruct (write_impl a fin (st y)) as [[s cs] o]. injection H as <-. simpl in Hs. pose proof Hs as [= _ _ E1 E2 _ _].
    destruct o; simpl; autorewrite with stream_log; rewrite ?E1, ?E2;
      (split; [done|]; split; [done|]; split; [done|]; intros p; by apply parked_side).
  - destruct (writer y) as [[a fin]|]; [|done]. destruct (completes _ _); [|done]. injection H as <-.
    simpl. by autorewrite with stream_log.
  - destruct (_ || _); [done|]. pose proof (producer_read_side len 0 (st y)) as Hs.
    destruct (producer_callback len 0 (st y)) as [[[s ret] f] buf]. injection H as <-. simpl in *.
    pose proof Hs as [= _ _ E1 E2 _ _]. autorewrite with stream_log. rewrite E1, E2.
    split; [done|]. split; [done|]. split; [done|]. intros p. by apply parked_side.
  - by injection H as <-.
  - destruct (status_waiter y); [done|]. pose proof (status_sides (st y)) as [Hs _].
    destruct (status (st y)) as [s o]. injection H as <-. simpl in Hs. pose proof Hs as [= _ _ E1 E2 _ _].
    destruct o; simpl; autorewrite with stream_log; rewrite ?E1, ?E2;
      (split; [done|]; split; [done|]; split; [done|]; intros p; by apply parked_side).
  - destruct (_ && _); [|done]. injection H as <-. unfold status_resume. break; simpl;
      by autorewrite with stream_log.
Qed.

(** *** The invariant of an operation *)

(** [acc] has been read; the frame [f] awaits a read into [p]. *)
Definition rframe_ok (op : read_op) (acc : bytes) (p : buffer_param) (f : rframe) : Prop :=
  dest_ok p /\
  match f with
  | RfSome => op = RdSome p /\ acc = []
  | RfLoop w => exists sizes, op = RdAll sizes /\ crd_next w = Some p /\
      crd_result w = IoResult None (Read (length acc) acc) /\ length acc + crd_left w = sum sizes
  end.

Definition rreturn_ok (op : read_op) (acc recv : bytes) (y : sys) (r : io_result read_out) : Prop :=
  value r = Read (length acc) acc /\ length acc <= read_size op /\
  (ec r = None -> match op with RdSome _ => 0 < length acc | RdAll _ => length acc = read_size op end) /\
  (ec r = Some eof -> read_eof_ (st y) = true /\ recv = delivered (log y)).

Definition rnext_ok (op : read_op) (acc recv : bytes) (y : sys) (n : rnext) : Prop :=
  match n with RCall p f => rframe_ok op acc p f | RReturn r => rreturn_ok op acc recv y r end.

Definition rinv (recv base : bytes) (op : read_op) (t : rtask) : Prop :=
  let y := rsys t in
  stream_ok recv y /\ exists acc, delivered (log y) = base ++ acc /\
  match rst t with
  | RAt n => read_sink_ (st y) = None /\ rnext_ok op acc recv y n
  | RIn p f => parked p (st y) /\ rframe_ok op acc p f
  end.

Lemma rloop_ok sizes acc recv y w :
  value (crd_result w) = Read (length acc) acc -> length acc + crd_left w = sum sizes ->
  (is_Some (ec (crd_result w)) -> crd_next w = None) ->
  (ec (crd_result w) = Some eof -> read_eof_ (st y) = true /\ recv = delivered (log y)) ->
  rnext_ok (RdAll sizes) acc recv y (r_loop w).
Proof.
  intros Hv Hl Hn He. unfold r_loop. destruct (crd_next w) as [p|] eqn:En; simpl.
  - destruct (crd_next_some w p En) as (H1 & H2 & _). split; [done|]. exists sizes.
    repeat split; try done. destruct (crd_result w) as [[e|] v]; simpl in *; [by specialize (Hn ltac:(eauto))|].
    by subst v.
  - pose proof (crd_next_none w En) as H0. split; [done|]. simpl. split; [lia|].
    split; [|done]. intros E. rewrite (H0 E) in Hl. lia.
Qed.

Lemma rstart_ok op recv y :
  match op with RdSome p => dest_ok p | _ => True end -> rnext_ok op [] recv y (r_start op).
Proof.
  destruct op as [p|sizes]; simpl; [done|]. intros _.
  apply rloop_ok; rewrite ?crd_start_result, ?crd_start_left; simpl; try done.
Qed.

Lemma rresume_ok op acc recv p f y r :
  rframe_ok op acc p f -> read_n (value r) = length (read_mem (value r)) ->
  read_n (value r) <= bp_room p -> (ec r = None -> 0 < read_n (value r)) ->
  (ec r = Some eof -> read_eof_ (st y) = true /\ recv = delivered (log y)) ->
  rnext_ok op (acc ++ read_mem (value r)) recv y (r_resume r f).
Proof.
  intros [Hp Hf] Hn Hle Hpos He. destruct f as [|w]; simpl.
  - destruct Hf as [-> ->]. destruct r as [e [n m]]. simpl in *. subst n.
    split; [done|]. split; [done|]. split; [done|]. done.
  - destruct Hf as (sizes & -> & En & Hres & Hl). destruct (crd_next_some w p En) as (_ & _ & Hroom).
    apply rloop_ok; rewrite ?crd_put_result, ?Hres; simpl.
    + by rewrite Hn, length_app.
    + rewrite (crd_put_left r w p En Hle), length_app. lia.
    + apply crd_put_error.
    + done.
Qed.

(** No wait is cancelled with the very error that ends a body. *)
Definition rcalm (e : rd_ev) : Prop := e <> RWake (Some eof).

(** The operation is told what its read returned. *)
Lemma rinv_after recv base op acc p f y y' :
  stream_ok recv y' -> delivered (log y) = base ++ acc -> rframe_ok op acc p f ->
  read_shape p y y' -> read_end_ok recv y y' -> rinv recv base op (after_read_some y y' p f).
Proof.
  intros Hok Hd Hf Hsh He. split; [done|]. unfold read_shape, read_end_ok in *.
  unfold after_read_some. simpl. destruct (read_result y y') as [r|].
  - destruct Hsh as (Hlog & Hk & Hn & Hle & Hpos). exists (acc ++ read_mem (value r)).
    split; [rewrite Hlog, delivered_snoc, Hd; by rewrite <-app_assoc|].
    split; [done|]. by apply (rresume_ok op acc recv p f).
  - destruct Hsh as [Hlog Hk]. exists acc. rewrite Hlog. by split; [|split].
Qed.

Lemma rinv_step recv base op e t t' :
  rinv recv base op t -> rcalm e -> rstep e t = Some t' ->
  rinv (recv ++ match e with REnv (EData d) => d | _ => [] end) base op t'.
Proof.
  intros (Hok & acc & Hd & Hst) Hc Hs. destruct e as [e| |w]; cbn [rstep] in Hs; rewrite ?app_nil_r.
  - destruct (not_reader e (rsys t)) eqn:En; [|done].
    destruct (step e (rsys t)) as [y'|] eqn:Es; [|done]. injection Hs as <-.
    pose proof Hok as (es & Hr & Hf & _). pose proof (sr_rd _ _ (reach_read_inv pre id es _ Hr Hf)) as Hrd.
    destruct (not_reader_frame e _ _ Hrd En Es) as (Hdel & Heof & Hnone & Hpark).
    split; [apply (stream_ok_step recv e (rsys t)); try done; by intros p ->|].
    exists acc. cbn [rsys rst]. rewrite Hdel. split; [done|].
    destruct (rst t) as [[p f|r]|p f]; [by destruct Hst; auto| |by destruct Hst; auto].
    destruct Hst as (Hk & H1 & H2 & H3 & H4). split; [auto|]. split; [done|]. split; [done|].
    split; [done|]. intros E. rewrite Hdel. destruct (H4 E) as [Hre ->]. split; [auto|].
    destruct e; rewrite ?app_nil_r; try done. simpl in En. by rewrite Hre in En.
  - destruct (rst t) as [[p f|]|]; try done. destruct Hst as [Hk Hf].
    destruct (step (ERead p) (rsys t)) as [y'|] eqn:Es; [|done]. injection Hs as <-.
    pose proof (proj1 Hf) as Hp. rewrite <-(app_nil_r recv) at 1.
    apply (rinv_after _ base op acc); try done.
    + apply (stream_ok_step recv (ERead p) (rsys t)); try done. by intros ? [= <-].
    + by apply (call_shape recv).
    + rewrite app_nil_r. apply (turn_end recv (ERead p)); try done. by intros ? [= <-].
  - destruct (rst t) as [|p f]; [done|]. destruct Hst as [Hk Hf].
    destruct (step (EReadWake w) (rsys t)) as [y'|] eqn:Es; [|done]. injection Hs as <-.
    rewrite <-(app_nil_r recv) at 1. apply (rinv_after _ base op acc); try done.
    + by apply (stream_ok_step recv (EReadWake w) (rsys t)).
    + by apply (wake_shape recv w).
    + rewrite app_nil_r. apply (turn_end recv (EReadWake w)); try done. intros [= ->]. by apply Hc.
Qed.

Lemma rinv_run recv base op es t t' :
  rinv recv base op t -> Forall rcalm es -> rrun es t = Some t' -> rinv (recv ++ rdata es) base op t'.
Proof.
  revert recv t; induction es as [|e es IH]; intros recv t Hi Hc Hr; simpl in Hr.
  - injection Hr as <-. unfold rdata. simpl. by rewrite app_nil_r.
  - inversion Hc; subst. destruct (rstep e t) as [t1|] eqn:E; [|done].
    replace (rdata (e :: es)) with (match e with REnv (EData d) => d | _ => [] end ++ rdata es)
      by (unfold rdata; done).
    rewrite app_assoc. apply (IH _ t1); try done. by apply (rinv_step recv base op e t).
Qed.

Lemma rinv_start recv op y :
  stream_ok recv y -> read_sink_ (st y) = None ->
  match op with RdSome p => dest_ok p | _ => True end ->
  rinv recv (delivered (log y)) op (rd_start op y).
Proof.
  intros Hok Hk Hop. split; [done|]. exists []. rewrite app_nil_r. split; [done|].
  split; [done | by apply rstart_ok].
Qed.

(** C22 Reads tell the truth, on a stream all of whose reads have non-empty destinations of
    one window (a longer one may get bytes out of order, [read_reorders_windows]; an empty
    one gets [eof] before the end, [empty_read_ends]) and whose waits are not cancelled:
    when [read_some] or [read] of a message returns, whatever happened on the stream
    meanwhile, the caller's buffers hold exactly the next bytes of the body, as many as it reports; without an error they are full ([read]) or got at
    least one byte ([read_some]); and with [eof] the body had ended and every byte of
    it has been delivered. *)
Theorem body_read_exact evs y op es t r :
  reach pre id evs y -> reads_fit evs -> reads_roomy evs -> read_sink_ (st y) = None ->
  match op with RdSome p => dest_ok p | _ => True end -> Forall rcalm es ->
  rrun es (rd_start op y) = Some t -> rst t = RAt (RReturn r) ->
  delivered (log (rsys t)) = delivered (log y) ++ read_mem (value r) /\
  read_n (value r) = length (read_mem (value r)) /\ read_n (value r) <= read_size op /\
  (ec r = None ->
     match op with RdSome _ => 0 < read_n (value r) | RdAll _ => read_n (value r) = read_size op end) /\
  (ec r = Some eof ->
     read_eof_ (st (rsys t)) = true /\ delivered (log (rsys t)) = data_of evs ++ rdata es).
Proof.
  intros Hr Hf Hm Hk Hop Hc Hrun Hst.
  assert (Hok : stream_ok (data_of evs) y) by by exists evs.
  destruct (rinv_run _ _ op es _ t (rinv_start _ op y Hok Hk Hop) Hc Hrun) as (_ & acc & Hd & H).
  rewrite Hst in H. destruct H as (_ & Hv & Hle & Hn & He). rewrite Hv. simpl in *.
  split; [done|]. split; [done|]. split; [done|]. split; [done|].
  intros E. destruct (He E) as [? ->]. done.
Qed.

(** *** Completion *)

(** Bytes are there, or will not come any more. *)
Definition ended (y : sys) : bool := read_eof_ (st y) || closed_ (st y).

(** A [read_some] that need not wait. *)
Lemma call_returns p y :
  rd_inv (st y) -> read_sink_ (st y) = None -> dest_ok p ->
  buffered (st y) <> [] \/ ended y = true ->
  exists y' r, step (ERead p) y = Some y' /\ read_result y y' = Some r /\ ended y' = ended y /\
    (buffered (st y) <> [] -> ec r = None) /\
    (ec r = None -> 0 < read_n (value r) <= bp_room p /\
       length (buffered (st y')) = length (buffered (st y)) - read_n (value r)).
Proof.
  intros [Hwf _ _] Hk [_ Hroom] Hor. cbn [step]. rewrite Hk.
  destruct (decide (available p (st y) = 0)) as [H0|H0].
  - assert (Hb : buffered (st y) = []).
    { unfold available in H0. apply length_zero_iff_nil. lia. }
    rewrite read_some_empty by done. destruct Hor as [?|He]; [done|]. unfold ended in He.
    rewrite He. eexists _, _. split; [done|]. unfold read_result, ended. simpl. rewrite drop_app_length.
    split; [done|]. simpl. repeat split; done.
  - destruct (read_some_data p (st y) Hwf) as (chunks & front & -> & _ & Hb); [lia|].
    eexists _, _. split; [done|]. unfold read_result, ended. simpl. rewrite drop_app_length.
    split; [done|]. split; [done|]. split; [done|]. intros _. simpl.
    unfold buffered at 1. simpl. fold (queue_bytes chunks front). rewrite Hb, length_drop.
    unfold available in *. lia.
Qed.

(** [k] turns bring [t] to its return. *)
Definition returns_in (k : nat) (t : rtask) (ok : Prop) : Prop :=
  exists t' r, rrun (repeat RTurn k) t = Some t' /\ rst t' = RAt (RReturn r) /\ (ok -> ec r = None).

Lemma loop_returns m recv base op t w :
  rinv recv base op t -> rst t = RAt (r_loop w) -> crd_left w <= m ->
  ec (crd_result w) = None ->
  crd_left w <= length (buffered (st (rsys t))) \/ ended (rsys t) = true ->
  exists k, k <= crd_left w /\ returns_in k t (crd_left w <= length (buffered (st (rsys t)))).
Proof.
  revert recv t w; induction m as [|m IH]; intros recv t w Hi Hst Hm Hec Hor;
    pose proof Hst as Hst'; unfold r_loop in Hst'; destruct (crd_next w) as [p|] eqn:En;
    try (exists 0; split; [lia|]; by exists t, (crd_result w));
    destruct (crd_next_some w p En) as (Hwin & Hroom & Hle); [lia|].
  pose proof Hi as ((es & Hr & Hf & _) & acc & _ & H). rewrite Hst' in H. destruct H as [Hk _].
  destruct (call_returns p (rsys t) (sr_rd _ _ (reach_read_inv pre id es _ Hr Hf)) Hk (conj Hwin Hroom))
    as (y' & r & Es & Hres & Hend & Hok & Hn).
  { destruct Hor as [H|H]; [left|by right]. intros E. rewrite E in H. simpl in H. lia. }
  assert (Hrt : rstep RTurn t = Some (mkRtask y' (RAt (r_loop (crd_put r w))))).
  { cbn [rstep]. rewrite Hst', Es. unfold after_read_some. by rewrite Hres. }
  destruct (ec r) as [e|] eqn:Er.
  - exists 1. split; [lia|]. exists (mkRtask y' (RAt (RReturn (crd_result (crd_put r w))))), (crd_result (crd_put r w)).
    split; [|split; [done|]].
    + cbn [repeat rrun]. rewrite Hrt. unfold r_loop. rewrite crd_put_error by (by rewrite Er). done.
    + intros H. assert (Hx : Some e = None); [|done]. apply Hok. intros E. rewrite E in H. simpl in H. lia.
  - destruct (Hn eq_refl) as [[Hpos Hle'] Hb']. pose proof (crd_put_left r w p En Hle') as Hl.
    destruct (IH (recv ++ []) (mkRtask y' (RAt (r_loop (crd_put r w)))) (crd_put r w))
      as (k & Hkle & t' & r' & Hrun & Hret & Hgood); rewrite ?Hl, ?crd_put_result; try done.
    + by apply (rinv_step recv base op RTurn t).
    + lia.
    + cbn [rsys]. rewrite Hb', Hend. destruct Hor; [left; lia | by right].
    + exists (S k). split; [lia|]. exists t', r'. split; [cbn [repeat rrun]; by rewrite Hrt|].
      split; [done|]. intros H. apply Hgood. cbn [rsys]. rewrite Hl, Hb'. lia.
Qed.

(** C23 Reads finish: when the stream holds as many bytes as the destination has room for
    (one is enough for [read_some]), or the body or the stream has ended, the operation
    returns without waiting, after at most one turn per byte; in the first case with
    success.  The destination of a [read_some], and those of the reads before, are not
    empty and fit one window. *)
Theorem body_read_completes evs y op :
  reach pre id evs y -> reads_fit evs -> reads_roomy evs -> read_sink_ (st y) = None ->
  match op with RdSome p => dest_ok p | _ => True end ->
  let enough := match op with
                | RdSome _ => buffered (st y) <> []
                | RdAll sizes => sum sizes <= length (buffered (st y))
                end in
  enough \/ ended y = true ->
  exists k t r, k <= read_size op /\ rrun (repeat RTurn k) (rd_start op y) = Some t /\
    rst t = RAt (RReturn r) /\ (enough -> ec r = None).
Proof.
  intros Hr Hf Hm Hk Hop enough Hor.
  assert (Hok : stream_ok (data_of evs) y) by by exists evs. destruct op as [p|sizes].
  - destruct (call_returns p y (sr_rd _ _ (reach_read_inv pre id evs _ Hr Hf)) Hk Hop Hor)
      as (y' & r & Es & Hres & _ & Hgood & _).
    exists 1, (mkRtask y' (RAt (RReturn r))), r. split; [destruct Hop; simpl; lia|].
    split; [|done]. cbn [repeat rrun rstep rd_start r_start rst rsys]. rewrite Es.
    unfold after_read_some. by rewrite Hres.
  - pose proof (rinv_start _ (RdAll sizes) y Hok Hk I) as Hi.
    destruct (loop_returns (sum sizes) _ _ _ _ (crd_start sizes) Hi eq_refl) as (k & Hkle & t & r & H);
      rewrite ?crd_start_left, ?crd_start_result in *; try done. by exists k, t, r.
Qed.

End BodyReadProps.

(** ** Concrete reads *)

Module BodyReadDemo.
#[local] Existing Instance capy_ref.
#[local] Existing Instance ng_ref.
#[local] Existing Instance capy_read_ref.

Definition fresh : sys := sys_new (fun _ => "server.1") 1.

(** [read] of seven bytes, of a body of five that arrives in pieces. *)
Definition pieces : list rd_ev :=
  [RTurn; REnv (EData (bytes_of "ab")); RWake None; RTurn; REnv (EData (bytes_of "cde"));
   RWake None; RTurn; REnv EReadEof; RWake None].
Definition whole_t : rtask :=
  default (rd_start (RdAll [3; 4]) fresh) (rrun pieces (rd_start (RdAll [3; 4]) fresh)).

Lemma body_read_exact_witness :
  rst whole_t = RAt (RReturn (IoResult (Some eof) (Read 5 (bytes_of "abcde")))) /\
  delivered (log (rsys whole_t)) = bytes_of "abcde".
Proof.
  assert (Hst : rst whole_t = RAt (RReturn (IoResult (Some eof) (Read 5 (bytes_of "abcde"))))) by by vm_compute.
  destruct (body_read_exact (fun _ => "server.1") 1 [] fresh (RdAll [3; 4]) pieces whole_t
              (IoResult (Some eof) (Read 5 (bytes_of "abcde")))) as (_ & _ & _ & _ & H).
  - constructor.
  - constructor.
  - constructor.
  - done.
  - done.
  - by repeat constructor.
  - by vm_compute.
  - exact Hst.
  - split; [exact Hst|]. destruct (H eq_refl) as [_ ->]. by vm_compute.
Defined.

(** Five bytes are queued; four are read. *)
Definition queued : list sev := [EData (bytes_of "abc"); EData (bytes_of "de")].
Definition full : sys := default fresh (run queued fresh).

Lemma body_read_completes_witness :
  exists k t r, k <= 4 /\ rrun (repeat RTurn k) (rd_start (RdAll [3; 1]) full) = Some t /\
    rst t = RAt (RReturn r) /\ ec r = None.
Proof.
  destruct (body_read_completes (fun _ => "server.1") 1 queued full (RdAll [3; 1]))
    as (k & t & r & H1 & H2 & H3 & H4).
  - apply run_reach. by vm_compute.
  - by repeat constructor.
  - by repeat constructor.
  - done.
  - done.
  - left. vm_compute. lia.
  - exists k, t, r. split; [exact H1|]. split; [exact H2|]. split; [exact H3|]. apply H4. vm_compute. lia.
Defined.

End BodyReadDemo.
