(* ===== verification/Lifetime.v ===== *)
(** * Lifetimes

    Who keeps a [Stream] and a [Session::Impl] alive.  A stream is owned by the table
    [streams_] and by whoever holds a [shared_ptr] to it: the frame of [handle_request],
    the readers, writers and functions inside a [Request], [Response], [ClientRequest] or
    [ClientResponse]; message objects are moved around and leave husks.  A stream owns its
    session ([session_]), a session its streams.  An object is destroyed when its last
    owner is gone: here by looking for objects without owners after each event ([sweep]),
    which is what the reference counts of Refcount come to. *)

From S2P Require Import Prelude Capy Nghttp2 Charconv Stream StreamRead StreamWrite StreamSys StreamProps.
From S2P Require Import Session SessionSys SessionProps SessionHeaders.

(** ** Owners *)

(** [Request] and [Response] log their construction and their end; the others (frames,
    functions, [ClientRequest], [ClientResponse]) do not. *)
Inductive kind := KRequest | KResponse | KOther.

#[export] Instance kind_eq_dec : EqDecision kind.
Proof. solve_decision. Defined.

(** An object with a reader or writer bound to a stream, empty once moved from. *)
Record holder := mkHolder { hkind : kind; hold : option addr }.

Abbreviation hid := nat (only parsing).

(** Log lines of constructors and destructors. *)
Inductive line := Ctor (k : kind) | Dtor (k : kind).

#[export] Instance line_eq_dec : EqDecision line.
Proof. solve_decision. Defined.

Section Lifetime.
Context {C : CapyOps} {G : NgConsts}.

Record life := mkLife {
  lsess : Session;
  holders : gmap hid holder;
  owners : nat;               (* Session objects *)
  running : bool;             (* run() has not returned; its frame is an owner *)
  lines : list line;
}.

#[export] Instance life_eta : Eta life := {| eta := fun l =>
  mkLife (lsess l) (holders l) (owners l) (running l) (lines l) |}.

Definition life_new (role : Role) (handler : bool) (n : nat) : life :=
  mkLife (Session_new role handler) ∅ n true [].

(** ** Reference counts *)

Definition table_refs (a : addr) (x : Session) : nat :=
  size (filter (fun kv : Z * addr => kv.2 = a) (streams_ x)).

Definition holder_refs (a : addr) (l : life) : nat :=
  size (filter (fun kv : hid * holder => hold kv.2 = Some a) (holders l)).

(** [use_count()] of the stream at [a], a frame counting once. *)
Definition use_count (a : addr) (l : life) : nat := holder_refs a l + table_refs a (lsess l).

(** Streams without owners are destroyed. *)
Definition sweep (l : life) : life :=
  l <| lsess := (lsess l) <| heap := filter (fun kv : addr * sys => 0 < use_count kv.1 l)
                                       (heap (lsess l)) |> |>.

(** [Session::Impl] is owned by its handles, by the frame of run() and by its streams. *)
Definition impl_alive (l : life) : bool :=
  running l || (0 <? owners l) || negb (bool_decide (heap (lsess l) = ∅)).

(** ** Events *)

Inductive lev :=
| LEvent (e : xev)
| LSubmit (m : hid) (path : string) (n : option N) (hs : Headers) (ret : Z)
    (* submit_request; its ClientRequest is [m] *)
| LRequest (m : hid) (f : frame)   (* a frame; [m] is the frame of the handle_request it spawns *)
| LNew (m : hid) (k : kind) (src : hid)   (* an object bound to the stream [src] holds *)
| LMove (m src : hid)              (* constructed from std::move(src) *)
| LAssign (m src : hid)            (* m = std::move(src) *)
| LDrop (m : hid)                  (* destroyed *)
| LRelease.                        (* a Session object is destroyed *)

(** Who can do what, by the pointers there are: callbacks come from nghttp2, which only the
    loops of run() call; nghttp2 asks for the body of a stream through the address it was
    given until it has closed the stream, that is, while the table has it; a coroutine has a
    pointer to its stream. *)
Definition lguard (e : xev) (l : life) : bool :=
  match e with
  | XTurn a (EProduce _) => running l && (0 <? table_refs a (lsess l))
  | XTurn a _ | XSubmitResponse a _ _ _ => 0 <? holder_refs a l
  | XSubmitRequest _ _ _ _ | XFrameRecv _ => false
  | _ => running l
  end.

Definition is_end (e : xev) : bool := match e with XEnd => true | _ => false end.

(** Constructors and destructors log. *)
Definition log_line (k : kind) (s : line) : list line :=
  match k with KOther => [] | _ => [s] end.

(** The destructor: only an object that is not a husk logs. *)
Definition dtor_lines (h : holder) : list line :=
  match hold h with Some _ => log_line (hkind h) (Dtor (hkind h)) | None => [] end.

(** A new owner of the stream at [a]. *)
Definition adopt (m : hid) (k : kind) (a : addr) (l : life) : life :=
  l <| holders := <[m := mkHolder k (Some a)]> (holders l) |>
    <| lines := lines l ++ log_line k (Ctor k) |>.

(** [Session::submit_request]: on success a [ClientRequest] [m] bound to the stream. *)
Definition new_client_request (m : hid) (path : string) (n : option N) (hs : Headers) (ret : Z)
    (l : life) : option life :=
  match holders l !! m, owners l with
  | Some _, _ | _, O => None
  | None, S _ =>
      let '(r, x') := submit_request path n hs ret (lsess l) in
      let l' := l <| lsess := x' |> in
      Some (sweep (match value r with Some a => adopt m KOther a l' | None => l' end))
  end.

(** [on_frame_recv_callback]; [m] is the frame of the [handle_request] it spawns. *)
Definition spawn_handler (m : hid) (f : frame) (l : life) : option life :=
  if running l then
    match holders l !! m with
    | Some _ => None
    | None =>
        let l' := l <| lsess := on_frame_recv_callback f (lsess l) |> in
        Some (sweep (match is_request_headers f, find_stream (hd_stream_id f) (lsess l) with
                     | true, Some a => adopt m KOther a l'
                     | _, _ => l'
                     end))
    end
  else None.

(** A constructor given a reader, writer or function on the stream [src] holds. *)
Definition construct (m : hid) (k : kind) (src : hid) (l : life) : option life :=
  match holders l !! m, holders l !! src with
  | None, Some (mkHolder _ (Some a)) => Some (sweep (adopt m k a l))
  | _, _ => None
  end.

(** [m(std::move(src))]. *)
Definition move_construct (m src : hid) (l : life) : option life :=
  match holders l !! m, holders l !! src with
  | None, Some h =>
      Some (sweep (l <| holders := <[m := h]> (<[src := mkHolder (hkind h) None]> (holders l)) |>))
  | _, _ => None
  end.

(** [m = std::move(src)]: what [m] held is released without a line. *)
Definition move_assign (m src : hid) (l : life) : option life :=
  match holders l !! m, holders l !! src with
  | Some h0, Some h =>
      if bool_decide (m = src) || negb (bool_decide (hkind h0 = hkind h)) then None
      else Some (sweep (l <| holders := <[m := h]> (<[src := mkHolder (hkind h) None]> (holders l)) |>))
  | _, _ => None
  end.

Definition destroy (m : hid) (l : life) : option life :=
  match holders l !! m with
  | Some h =>
      Some (sweep (l <| holders := delete m (holders l) |> <| lines := lines l ++ dtor_lines h |>))
  | None => None
  end.

(** [Session::~Session] on a handle that owns the session. *)
Definition release_session (l : life) : option life :=
  match owners l with S n => Some (sweep (l <| owners := n |>)) | O => None end.

Definition lstep (e : lev) (l : life) : option life :=
  match e with
  | LEvent e =>
      if lguard e l then
        match xstep e (lsess l) with
        | Some x' => Some (sweep (l <| lsess := x' |> <| running := running l && negb (is_end e) |>))
        | None => None
        end
      else None
  | LSubmit m path n hs ret => new_client_request m path n hs ret l
  | LRequest m f => spawn_handler m f l
  | LNew m k src => construct m k src l
  | LMove m src => move_construct m src l
  | LAssign m src => move_assign m src l
  | LDrop m => destroy m l
  | LRelease => release_session l
  end.

Inductive lreach (role : Role) (handler : bool) (n : nat) : list lev -> life -> Prop :=
| lreach_new : lreach role handler n [] (life_new role handler n)
| lreach_step evs l e l' :
    lreach role handler n evs l -> lstep e l = Some l' -> lreach role handler n (evs ++ [e]) l'.

Fixpoint lrun (evs : list lev) (l : life) : option life :=
  match evs with
  | [] => Some l
  | e :: evs => match lstep e l with Some l => lrun evs l | None => None end
  end.

Lemma lrun_reach role handler n evs0 evs l0 l :
  lreach role handler n evs0 l0 -> lrun evs l0 = Some l -> lreach role handler n (evs0 ++ evs) l.
Proof.
  revert evs0 l0; induction evs as [|e evs IH]; intros evs0 l0 Hr H; simpl in H.
  - injection H as <-. by rewrite app_nil_r.
  - destruct (lstep e l0) as [l1|] eqn:E; [|done].
    replace (evs0 ++ e :: evs) with ((evs0 ++ [e]) ++ evs) by by rewrite <-app_assoc.
    eapply IH; [by eapply lreach_step | exact H].
Qed.

(** The session event of a step. *)
Definition event_in (e : lev) : option xev :=
  match e with
  | LEvent e => Some e
  | LSubmit _ path n hs ret => Some (XSubmitRequest path n hs ret)
  | LRequest _ f => Some (XFrameRecv f)
  | _ => None
  end.

End Lifetime.

(** The operations, opened. *)
Ltac lopen H :=
  cbn [lstep lguard] in H;
  unfold new_client_request, spawn_handler, construct, move_construct, move_assign, destroy,
    release_session in H.

(** ** Counting *)

Section Counting.
Context {C : CapyOps} {G : NgConsts}.

Lemma size_filter_pos `{Countable K} {A} (P : K * A -> Prop) `{!forall x, Decision (P x)} (m : gmap K A) :
  0 < size (filter P m) <-> exists i x, m !! i = Some x /\ P (i, x).
Proof.
  split.
  - intros Hs. destruct (decide (filter P m = ∅)) as [E|E]; [rewrite E, map_size_empty in Hs; lia|].
    apply map_choose in E as (i & x & Hx). apply map_lookup_filter_Some in Hx. eauto.
  - intros (i & x & Hx & HP). destruct (decide (size (filter P m) = 0)) as [E|]; [|lia].
    apply map_size_empty_iff in E.
    assert (Hf : filter P m !! i = Some x) by by apply map_lookup_filter_Some.
    by rewrite E, lookup_empty in Hf.
Qed.

Lemma table_refs_pos a x : 0 < table_refs a x <-> exists id, find_stream id x = Some a.
Proof. unfold table_refs, find_stream. rewrite size_filter_pos. split; [intros (i & ? & H & <-); eauto | intros [i H]; eauto]. Qed.

Lemma holder_refs_pos a l :
  0 < holder_refs a l <-> exists m h, holders l !! m = Some h /\ hold h = Some a.
Proof. unfold holder_refs. by rewrite size_filter_pos. Qed.

(** Somebody owns the stream at [a]. *)
Definition owned (a : addr) (l : life) : Prop :=
  (exists m h, holders l !! m = Some h /\ hold h = Some a) \/ (exists id, find_stream id (lsess l) = Some a).

Lemma use_count_pos a l : 0 < use_count a l <-> owned a l.
Proof. unfold use_count, owned. rewrite <-table_refs_pos, <-holder_refs_pos. lia. Qed.

Lemma sweep_heap a y l :
  heap (lsess (sweep l)) !! a = Some y <-> heap (lsess l) !! a = Some y /\ owned a l.
Proof. unfold sweep. simpl. rewrite map_lookup_filter_Some. simpl. by rewrite use_count_pos. Qed.

(** ** The same session, all objects kept *)

(** [x1] is [x2] with some objects missing. *)
Record sub (x1 x2 : Session) : Prop := {
  sb_heap : heap x1 ⊆ heap x2;
  sb_rest : x1 = x2 <| heap := heap x1 |>;
}.

Lemma sub_intro h x : h ⊆ heap x -> sub (x <| heap := h |>) x.
Proof. by split. Qed.

Lemma perform_all_sub cs h x :
  perform_all (x <| heap := h |>) cs = (perform_all x cs) <| heap := h |>.
Proof.
  unfold perform_all. revert x; induction cs as [|c cs IH]; intros x; simpl; [done|].
  rewrite <-IH. f_equal. by destruct c.
Qed.

Lemma upd_sub f a x1 x2 : sub x1 x2 -> sub (upd f a x1) (upd f a x2).
Proof. intros [Hh ->]. apply (sub_intro (alter _ a _) (upd f a x2)). simpl. by apply alter_mono. Qed.

Lemma with_stream_sub id f x1 x2 : sub x1 x2 -> sub (with_stream id f x1) (with_stream id f x2).
Proof.
  intros Hs. unfold with_stream. replace (find_stream id x1) with (find_stream id x2)
    by (destruct Hs as [_ ->]; done).
  destruct (find_stream id x2); [by apply upd_sub | done].
Qed.

Lemma close_list_sub l x1 x2 :
  sub x1 x2 -> sub (foldr (upd on_close) x1 l) (foldr (upd on_close) x2 l).
Proof. intros Hs. induction l; simpl; [done | by apply upd_sub]. Qed.

Lemma emplace_sub id a x1 x2 : sub x1 x2 -> sub (emplace id a x1) (emplace id a x2).
Proof.
  intros [Hh E]. unfold emplace. replace (streams_ x1) with (streams_ x2) by (by rewrite E).
  destruct (streams_ x2 !! id); [by split|]. rewrite E. by split.
Qed.

Lemma new_stream_sub id x1 x2 : sub x1 x2 -> sub (new_stream id x1).2 (new_stream id x2).2.
Proof.
  intros [Hh ->]. unfold new_stream. split; simpl; [by apply insert_mono | done].
Qed.

(** Every event has the same effect on both. *)
Lemma header_sub f name v x1 x2 :
  sub x1 x2 -> sub (on_header_callback f name v x1) (on_header_callback f name v x2).
Proof.
  intros Hs. unfold on_header_callback. break; try done; repeat apply with_stream_sub; done.
Qed.

Lemma submit_request_sub path n hs ret x1 x2 :
  sub x1 x2 -> sub (submit_request path n hs ret x1).2 (submit_request path n hs ret x2).2.
Proof.
  intros Hs. unfold submit_request. replace (role_ x1) with (role_ x2) by (by destruct Hs as [_ ->]).
  destruct (role_ x2); [done|].
  pose proof (new_stream_sub 0 x1 x2 Hs) as Hn.
  replace (next_addr x1) with (next_addr x2) by (by destruct Hs as [_ ->]).
  unfold new_stream in *. cbn [fst snd] in *.
  replace (next_addr x1) with (next_addr x2) in * by (by destruct Hs as [_ ->]).
  set (n1 := x1 <| heap := _ |> <| next_addr := _ |>) in *.
  set (n2 := x2 <| heap := _ |> <| next_addr := _ |>) in *.
  clearbody n1 n2. destruct Hn as [Hh ->].
  destruct (ret <? 0)%Z; simpl.
  - split; simpl; [by apply delete_mono | done].
  - assert (Hsub : forall y1 y2, sub y1 y2 -> sub (do_start_write y1) (do_start_write y2)).
    { intros y1 y2 [H1 ->]. by split. }
    apply Hsub, emplace_sub. split; simpl; [by apply alter_mono | done].
Qed.

Lemma xstep_sub e x1 x2 x1' :
  sub x1 x2 -> (forall a n hs rv, e = XSubmitResponse a n hs rv -> is_Some (heap x1 !! a)) ->
  xstep e x1 = Some x1' -> exists x2', xstep e x2 = Some x2' /\ sub x1' x2'.
Proof.
  intros Hs Hresp H. destruct e as [f|f n v|f|id d|id|a e|path n hs ret|a n hs rv| | |]; cbn [xstep] in *.
  - injection H as <-. eexists. split; [done|]. unfold on_begin_headers_callback.
    destruct (is_request_headers f); [|done]. unfold create_stream.
    pose proof (emplace_sub (hd_stream_id f) (next_addr x2) _ _ (new_stream_sub (hd_stream_id f) _ _ Hs)) as He.
    simpl in *. replace (next_addr x1) with (next_addr x2) in * by (by destruct Hs as [_ ->]).
    destruct He as [Hh ->]. by split.
  - injection H as <-. eexists. split; [done | by apply header_sub].
  - injection H as <-. eexists. split; [done|]. unfold on_frame_recv_callback.
    assert (Hd : sub (if is_request_headers f then match find_stream (hd_stream_id f) x1 with
                       Some a => dispatch_request a x1 | None => x1 end else x1)
                     (if is_request_headers f then match find_stream (hd_stream_id f) x2 with
                       Some a => dispatch_request a x2 | None => x2 end else x2)).
    { destruct (is_request_headers f); [|done].
      replace (find_stream (hd_stream_id f) x1) with (find_stream (hd_stream_id f) x2)
        by (by destruct Hs as [_ ->]).
      destruct (find_stream _ x2); [|done]. destruct Hs as [Hh ->]. by split. }
    destruct (end_stream f); [by apply with_stream_sub | done].
  - injection H as <-. eexists. split; [done|]. unfold on_data_chunk_recv_callback.
    apply with_stream_sub. destruct Hs as [Hh ->]. by split.
  - injection H as <-. eexists. split; [done|]. unfold on_stream_close_callback, close_stream.
    replace (streams_ x1) with (streams_ x2) by (by destruct Hs as [_ ->]).
    destruct (streams_ x2 !! id) as [a|]; [|done]. pose proof (upd_sub on_close a _ _ Hs) as [Hh ->].
    by split.
  - destruct (is_turn e); [|done]. destruct (heap x1 !! a) as [y|] eqn:Ey; [|done].
    destruct (step e y) as [y'|] eqn:Es; [|done]. injection H as <-. destruct Hs as [Hh E].
    rewrite (lookup_weaken _ _ _ _ Ey Hh), Es. eexists. split; [done|].
    rewrite E. change (?z <| heap := ?h1 |> <| heap := ?h2 |>) with (z <| heap := h2 |>).
    rewrite !perform_all_sub. split; simpl; [by apply insert_mono | done].
  - injection H as <-. eexists. split; [done | by apply submit_request_sub].
  - injection H as <-. eexists. split; [done|]. destruct (Hresp a n hs rv eq_refl) as [y Ey].
    destruct Hs as [Hh E]. unfold submit_response. rewrite (lookup_weaken _ _ _ _ Ey Hh), Ey, E.
    destruct (negb _); by split.
  - injection H as <-. eexists. split; [done|]. destruct Hs as [Hh ->]. by split.
  - injection H as <-. eexists. split; [done|]. destruct Hs as [Hh ->]. by split.
  - injection H as <-. eexists. split; [done|]. unfold close_all.
    replace (streams_ x1) with (streams_ x2) by (by destruct Hs as [_ ->]).
    apply close_list_sub. destruct Hs as [Hh ->]. by split.
Qed.

End Counting.
