(* ===== verification/LifetimeProps.v ===== *)
(** * What lives how long

    Theorems about Lifetime: the invariant (a session that destroys objects runs like one
    that keeps them all, and has those that are owned), nothing is left of a session that
    is over, a request submitted after its end is left for ever, and messages log one line
    each. *)

From S2P Require Import Prelude Capy Nghttp2 Charconv Stream StreamRead StreamWrite StreamSys StreamProps.
From S2P Require Import Session SessionSys SessionProps SessionHeaders Lifetime.

(** ** Nothing is destroyed too early or too late *)

Section LifetimeProps.
Context {C : CapyOps} {G : NgConsts}.

(** Objects stay, and the table points to objects. *)
Definition keeps (x x' : Session) : Prop := forall a, is_Some (heap x !! a) -> is_Some (heap x' !! a).

Definition table_ok (x : Session) : Prop := forall id a, find_stream id x = Some a -> is_Some (heap x !! a).

Lemma keeps_trans x1 x2 x3 : keeps x1 x2 -> keeps x2 x3 -> keeps x1 x3.
Proof. unfold keeps. auto. Qed.

Lemma upd_keeps f a x : keeps x (upd f a x).
Proof. intros a' H. rewrite lookup_upd. case_decide; [by apply fmap_is_Some | done]. Qed.

Lemma with_stream_keeps id f x : keeps x (with_stream id f x).
Proof. unfold with_stream. destruct (find_stream id x); [apply upd_keeps | by intros a]. Qed.

Lemma close_list_keeps l x : keeps x (foldr (upd on_close) x l).
Proof. induction l; simpl; [by intros a | eapply keeps_trans; [exact IHl | apply upd_keeps]]. Qed.

Lemma header_keeps f name v x :
  keeps x (on_header_callback f name v x) /\ streams_ (on_header_callback f name v x) = streams_ x.
Proof.
  assert (Hw : forall g x', keeps x x' /\ streams_ x' = streams_ x ->
            keeps x (with_stream (hd_stream_id f) g x') /\
            streams_ (with_stream (hd_stream_id f) g x') = streams_ x).
  { intros g x' [Hk <-]. split; [eapply keeps_trans; [exact Hk | apply with_stream_keeps]|].
    by destruct (with_stream_frame (hd_stream_id f) g x'). }
  assert (Hx : keeps x x /\ streams_ x = streams_ x) by by split; [intros a|].
  unfold on_header_callback. break; try exact Hx; repeat apply Hw; exact Hx.
Qed.

(** A table that only lost entries. *)
Lemma table_shrink x x' : keeps x x' -> streams_ x' ⊆ streams_ x -> table_ok x -> table_ok x'.
Proof. intros Hk Hs Ht id a H. apply Hk, (Ht id). by apply (lookup_weaken _ _ _ _ H). Qed.

Lemma emplace_ok id a x : is_Some (heap x !! a) -> table_ok x -> table_ok (emplace id a x).
Proof.
  intros Ha Ht id' a'. unfold emplace, find_stream. destruct (streams_ x !! id); [apply Ht|]. simpl.
  destruct (decide (id = id')) as [->|]; [rewrite lookup_insert_eq; by intros [= <-]|].
  rewrite lookup_insert_ne by done. apply Ht.
Qed.

Lemma emplace_heap id a x : heap (emplace id a x) = heap x.
Proof. unfold emplace. by destruct (streams_ x !! id). Qed.

Lemma new_stream_ok id x :
  heap x !! next_addr x = None -> table_ok x ->
  keeps x (new_stream id x).2 /\ table_ok (new_stream id x).2 /\
  is_Some (heap (new_stream id x).2 !! next_addr x).
Proof.
  intros Hf Ht. assert (Hk : keeps x (new_stream id x).2).
  { intros a Ha. simpl. destruct (decide (next_addr x = a)) as [<-|]; [by rewrite lookup_insert_eq|].
    by rewrite lookup_insert_ne. }
  split; [done|]. split; [by apply (table_shrink x) | simpl; by rewrite lookup_insert_eq].
Qed.

Lemma submit_request_ok path n hs ret x :
  heap x !! next_addr x = None -> table_ok x ->
  keeps x (submit_request path n hs ret x).2 /\ table_ok (submit_request path n hs ret x).2 /\
  (forall a, value (submit_request path n hs ret x).1 = Some a ->
     is_Some (heap (submit_request path n hs ret x).2 !! a)).
Proof.
  intros Hf Ht. unfold submit_request. destruct (role_ x); [by repeat split; [intros a|..]|].
  destruct (new_stream_ok 0 x Hf Ht) as (Hk & Hn & Ha). unfold new_stream in *. cbn [fst snd] in *.
  set (n1 := x <| heap := _ |> <| next_addr := _ |>) in *.
  destruct (ret <? 0)%Z; cbn [fst snd].
  - assert (Hd : forall a, is_Some (heap x !! a) -> is_Some (delete (next_addr x) (heap n1) !! a)).
    { intros a H. rewrite lookup_delete_ne; [by apply Hk|]. intros <-. rewrite Hf in H. by destruct H. }
    split; [exact Hd|]. split; [|done]. intros id a H. apply Hd, (Ht id). exact H.
  - set (n2 := upd _ _ _).
    assert (Hk2 : keeps n1 n2).
    { intros a H. unfold n2. rewrite lookup_upd. case_decide; [apply fmap_is_Some|]; exact H. }
    assert (Ht2 : table_ok n2) by (by apply (table_shrink n1)).
    assert (Ha2 : is_Some (heap n2 !! next_addr x)) by by apply Hk2.
    split; [|split].
    + intros a H. simpl. rewrite emplace_heap. by apply Hk2, Hk.
    + pose proof (emplace_ok ret (next_addr x) n2 Ha2 Ht2) as He. exact He.
    + intros a [= <-]. simpl. by rewrite emplace_heap.
Qed.

Lemma xstep_ok e x x' :
  xstep e x = Some x' -> heap x !! next_addr x = None -> table_ok x -> keeps x x' /\ table_ok x'.
Proof.
  intros H Hf Ht. destruct e as [f|f n v|f|id d|id|a e|path n hs ret|a n hs rv| | |]; cbn [xstep] in H.
  - injection H as <-. unfold on_begin_headers_callback.
    destruct (is_request_headers f); [|by split; [intros a|]].
    destruct (new_stream_ok (hd_stream_id f) x Hf Ht) as (Hk & Hn & Ha).
    pose proof (emplace_ok (hd_stream_id f) _ _ Ha Hn) as He. split; [|exact He].
    intros a H. unfold create_stream. cbn [snd new_stream]. simpl. rewrite emplace_heap. by apply Hk.
  - injection H as <-. destruct (header_keeps f n v x) as [Hk Es].
    split; [done | by apply (table_shrink x); rewrite ?Es].
  - injection H as <-. unfold on_frame_recv_callback.
    set (x0 := if is_request_headers f then _ else x).
    assert (Hx0 : heap x0 = heap x /\ streams_ x0 = streams_ x).
    { unfold x0. destruct (is_request_headers f); [|done]. by destruct (find_stream _ x). }
    clearbody x0. destruct Hx0 as [E1 E2].
    assert (Hk0 : keeps x x0) by (intros a; by rewrite E1).
    destruct (end_stream f); [|split; [done | by apply (table_shrink x); rewrite ?E2]].
    assert (Hk1 : keeps x (with_stream (hd_stream_id f) on_read_eof x0))
      by (eapply keeps_trans; [exact Hk0 | apply with_stream_keeps]).
    split; [done|]. apply (table_shrink x); try done.
    destruct (with_stream_frame (hd_stream_id f) on_read_eof x0) as (-> & _). by rewrite E2.
  - injection H as <-. unfold on_data_chunk_recv_callback.
    set (x0 := perform x _). assert (Hk1 : keeps x (with_stream id (on_data d) x0))
      by (apply (keeps_trans _ x0); [by intros a | apply with_stream_keeps]).
    split; [done|]. apply (table_shrink x); try done.
    by destruct (with_stream_frame id (on_data d) x0) as (-> & _).
  - injection H as <-. unfold on_stream_close_callback, close_stream.
    destruct (streams_ x !! id) as [a|]; [|by split; [intros a|]].
    assert (Hk1 : keeps x ((upd on_close a x) <| streams_ := delete id (streams_ x) |>)) by apply (upd_keeps on_close a).
    split; [done|]. apply (table_shrink x); try done. simpl. apply delete_subseteq.
  - destruct (is_turn e); [|done]. destruct (heap x !! a) as [y|] eqn:Ey; [|done].
    destruct (step e y) as [y'|]; [|done]. injection H as <-.
    destruct (perform_all_frame (drop (length (calls y)) (calls y')) (x <| heap := <[a := y']> (heap x) |>))
      as (E1 & E2 & _).
    set (x1 := perform_all _ _) in *. clearbody x1. simpl in E1, E2.
    assert (Hk1 : keeps x x1).
    { intros a' H. rewrite E1. destruct (decide (a = a')) as [<-|]; [by rewrite lookup_insert_eq|].
      by rewrite lookup_insert_ne. }
    split; [done|]. apply (table_shrink x); by rewrite ?E2.
  - injection H as <-. by destruct (submit_request_ok path n hs ret x Hf Ht) as (? & ? & _).
  - injection H as <-. unfold submit_response. destruct (negb _); (split; [by intros ?|]); exact Ht.
  - injection H as <-. split; [by intros ?|]. exact Ht.
  - injection H as <-. split; [by intros ?|]. exact Ht.
  - injection H as <-. unfold close_all. set (x0 := x <| streams_ := ∅ |>).
    set (al := (map_to_list (streams_ x)).*2).
    assert (Hk1 : keeps x (foldr (upd on_close) x0 al))
      by (apply (keeps_trans x x0); [by intros a | apply close_list_keeps]).
    split; [done|]. apply (table_shrink x); try done.
    destruct (close_list_next al x0) as [_ ->]. simpl. apply map_empty_subseteq.
Qed.

(** *** The invariant *)

Record life_inv (role : Role) (handler : bool) (evs : list lev) (l : life) : Prop := {
  lf_sub : exists r x, xreach role handler (omap event_in evs) r x /\ sub (lsess l) x;
  lf_owned a : owned a l -> is_Some (heap (lsess l) !! a);
  lf_alive a : is_Some (heap (lsess l) !! a) -> owned a l;
}.

Definition lfits (e : lev) : Prop := match event_in e with Some e => fits e | None => True end.

Lemma lfits_omap evs : Forall lfits evs -> Forall fits (omap event_in evs).
Proof.
  induction 1 as [|e evs He _ IH]; simpl; [constructor|]. unfold lfits in He.
  destruct (event_in e); [by constructor | done].
Qed.

(** Destroying what has no owner. *)
Lemma sweep_inv role handler evs l :
  (exists r x, xreach role handler (omap event_in evs) r x /\ sub (lsess l) x) ->
  (forall a, owned a l -> is_Some (heap (lsess l) !! a)) -> life_inv role handler evs (sweep l).
Proof.
  intros (r & x & Hr & Hh & E) Ho. assert (Hown : forall a, owned a (sweep l) <-> owned a l) by done.
  split.
  - exists r, x. split; [done|]. split; simpl.
    + etrans; [apply map_filter_subseteq | exact Hh].
    + by rewrite E.
  - intros a Ha. destruct (Ho a Ha) as [y Hy]. exists y. by apply sweep_heap.
  - intros a [y Hy]. by apply sweep_heap in Hy as [_ ?].
Qed.

(** A session event. *)
Lemma life_event role handler evs l e xe x' :
  life_inv role handler evs l -> Forall lfits evs -> event_in e = Some xe -> xstep xe (lsess l) = Some x' ->
  (forall a n hs rv, xe = XSubmitResponse a n hs rv -> is_Some (heap (lsess l) !! a)) ->
  (exists r x, xreach role handler (omap event_in (evs ++ [e])) r x /\ sub x' x) /\
  keeps (lsess l) x' /\ table_ok x'.
Proof.
  intros [(r & x & Hr & Hs) Ho _] Hf Ee Hx Hresp.
  assert (Htab : table_ok (lsess l)) by (intros id a H; apply Ho; right; eauto).
  assert (Hfresh : heap (lsess l) !! next_addr (lsess l) = None).
  { pose proof (xreach_inv _ _ _ _ _ Hr (lfits_omap _ Hf)) as Hi. destruct Hs as [Hh E].
    destruct (xi_fresh _ _ Hi (next_addr x)) as [Hn _]; [lia|].
    assert (Enx : next_addr (lsess l) = next_addr x) by (by rewrite E). rewrite Enx.
    destruct (heap (lsess l) !! next_addr x) eqn:Ey; [|done].
    by rewrite (lookup_weaken _ _ _ _ Ey Hh) in Hn. }
  destruct (xstep_sub xe _ _ _ Hs Hresp Hx) as (x2 & Hx2 & Hs2).
  split; [|by apply (xstep_ok xe)]. eexists _, x2. split; [|done].
  rewrite omap_app. cbn [omap list_omap]. rewrite Ee. by eapply xreach_step.
Qed.

Lemma adopt_owned m k a l b : owned b (adopt m k a l) -> holders l !! m = None -> b = a \/ owned b l.
Proof.
  intros [(m' & h & H & Hh)|H] Hm; [|right; by right]. simpl in H.
  destruct (decide (m = m')) as [<-|Hne].
  - rewrite lookup_insert_eq in H. injection H as <-. left. by injection Hh.
  - rewrite lookup_insert_ne in H by done. right; left. eauto.
Qed.

Lemma moved_owned m src h l b :
  holders l !! src = Some h ->
  owned b (l <| holders := <[m := h]> (<[src := mkHolder (hkind h) None]> (holders l)) |>) -> owned b l.
Proof.
  intros Hs [(m' & h' & H & Hh)|H]; [|by right]. left. simpl in H.
  destruct (decide (m = m')) as [<-|Hne]; [rewrite lookup_insert_eq in H; injection H as <-; eauto|].
  rewrite lookup_insert_ne in H by done.
  destruct (decide (src = m')) as [<-|Hne']; [rewrite lookup_insert_eq in H; by injection H as <-|].
  rewrite lookup_insert_ne in H by done. eauto.
Qed.

Lemma life_inv_step role handler evs l e l' :
  life_inv role handler evs l -> Forall lfits evs -> lstep e l = Some l' -> life_inv role handler (evs ++ [e]) l'.
Proof.
  intros Hi Hf H. pose proof Hi as [Hsub Ho Hal].
  assert (Hsame : forall l1, event_in e = None -> lsess l1 = lsess l ->
            (forall a, owned a l1 -> owned a l) -> life_inv role handler (evs ++ [e]) (sweep l1)).
  { intros l1 Ee Es Hown. apply sweep_inv; rewrite Es.
    - rewrite omap_app. cbn [omap list_omap]. rewrite Ee. by rewrite app_nil_r.
    - auto. }
  destruct e as [xe|m path n hs ret|m f|m k src|m src|m src|m|]; lopen H.
  - destruct (lguard xe l) eqn:Eg; [|done]. destruct (xstep xe (lsess l)) as [x'|] eqn:Ex; [|done].
    injection H as <-.
    destruct (life_event role handler evs l (LEvent xe) xe x' Hi Hf eq_refl Ex) as (Hr & Hk & Ht).
    { intros a n hs rv ->. simpl in Eg. apply Nat.ltb_lt, holder_refs_pos in Eg. apply Ho. by left. }
    apply sweep_inv; [done|]. intros a [H|[id H]]; [|by apply (Ht id)].
    apply Hk, Ho. by left.
  - destruct (holders l !! m) eqn:Em; [done|]. destruct (owners l); [done|].
    destruct (submit_request path n hs ret (lsess l)) as [r x'] eqn:Er. injection H as <-.
    assert (Ex : xstep (XSubmitRequest path n hs ret) (lsess l) = Some x') by (cbn [xstep]; by rewrite Er).
    destruct (life_event role handler evs l (LSubmit m path n hs ret) _ x' Hi Hf eq_refl Ex ltac:(done))
      as (Hr & Hk & Ht).
    assert (Hbase : forall a, owned a (l <| lsess := x' |>) -> is_Some (heap x' !! a)).
    { intros a [H|[id H]]; [apply Hk, Ho; by left | by apply (Ht id)]. }
    destruct (value r) as [a|] eqn:Ev; (apply sweep_inv; [done|]); [|exact Hbase].
    intros b Hb. apply adopt_owned in Hb as [->|Hb]; [|by apply Hbase|done]. simpl.
    assert (Htab : table_ok (lsess l)) by (intros id a' H; apply Ho; right; eauto).
    unfold submit_request in Er. destruct (role_ (lsess l)); [injection Er as <- <-; done|].
    cbn [new_stream] in Er. destruct (ret <? 0)%Z; injection Er as <- <-; [done|].
    injection Ev as <-. simpl. rewrite emplace_heap, lookup_upd, decide_True by done.
    simpl. rewrite lookup_insert_eq. by eexists.
  - destruct (running l); [|done]. destruct (holders l !! m) eqn:Em; [done|]. injection H as <-.
    destruct (life_event role handler evs l (LRequest m f) (XFrameRecv f) _ Hi Hf eq_refl eq_refl ltac:(done))
      as (Hr & Hk & Ht).
    assert (Hbase : forall a, owned a (l <| lsess := on_frame_recv_callback f (lsess l) |>) ->
                              is_Some (heap (on_frame_recv_callback f (lsess l)) !! a)).
    { intros a [H|[id H]]; [apply Hk, Ho; by left | by apply (Ht id)]. }
    destruct (is_request_headers f); [|apply sweep_inv; [done | exact Hbase]].
    destruct (find_stream (hd_stream_id f) (lsess l)) as [a|] eqn:Ea; (apply sweep_inv; [done|]); [|exact Hbase].
    intros b Hb. apply adopt_owned in Hb as [->|Hb]; [|by apply Hbase|done].
    apply Hk, Ho. right. eauto.
  - destruct (holders l !! m) eqn:Em; [done|]. destruct (holders l !! src) as [[k' [a|]]|] eqn:Es; try done.
    injection H as <-. apply Hsame; [done | done |]. intros b Hb.
    apply adopt_owned in Hb as [->|Hb]; [left; eauto | done | done].
  - destruct (holders l !! m) eqn:Em; [done|]. destruct (holders l !! src) as [h|] eqn:Es; [|done].
    injection H as <-. apply Hsame; [done | done |]. intros b. by apply moved_owned.
  - destruct (holders l !! m) as [h0|] eqn:Em; [|done]. destruct (holders l !! src) as [h|] eqn:Es; [|done].
    destruct (_ || _); [done|]. injection H as <-. apply Hsame; [done | done |]. intros b. by apply moved_owned.
  - destruct (holders l !! m) as [h|] eqn:Em; [|done]. injection H as <-. apply Hsame; [done | done |].
    intros b [(m' & h' & H & Hh)|H]; [|by right]. left. simpl in H.
    apply lookup_delete_Some in H as [_ H]. eauto.
  - destruct (owners l); [done|]. injection H as <-. apply Hsame; done.
Qed.

Lemma lreach_inv role handler n evs l :
  lreach role handler n evs l -> Forall lfits evs -> life_inv role handler evs l.
Proof.
  induction 1 as [|evs l e l' _ IH Hs]; intros Hf.
  - split.
    + exists (fun _ => []), (Session_new role handler). split; [constructor | by split].
    + unfold owned, find_stream. intros a [(m & h & H & _)|[id H]]; simpl in H; by rewrite lookup_empty in H.
    + intros a [y Hy]. simpl in Hy. by rewrite lookup_empty in Hy.
  - apply Forall_app in Hf as [Hf _]. apply (life_inv_step role handler evs l e); auto.
Qed.

End LifetimeProps.

(** ** Theorems *)

Section Reclaim.
Context {C : CapyOps} {G : NgConsts}.
Context (role : Role) (handler : bool) (n : nat).

(** *** After run() *)

Definition is_submit (e : lev) : bool := match e with LSubmit _ _ _ _ _ => true | _ => false end.

Lemma turn_table xe x x' :
  xstep xe x = Some x' ->
  match xe with XTurn _ _ | XSubmitResponse _ _ _ _ => True | _ => False end -> streams_ x' = streams_ x.
Proof.
  intros H He. destruct xe as [| | | | |a e| |a m hs rv| | |]; try done; cbn [xstep] in H.
  - destruct (is_turn e); [|done]. destruct (heap x !! a) as [y|]; [|done].
    destruct (step e y) as [y'|]; [|done]. injection H as <-.
    by destruct (perform_all_frame (drop (length (calls y)) (calls y')) (x <| heap := <[a := y']> (heap x) |>))
      as (_ & -> & _).
  - injection H as <-. unfold submit_response. by destruct (negb _).
Qed.

(** When run() is over, only a new request changes the table. *)
Lemma over_step e l l' :
  running l = false -> lstep e l = Some l' ->
  running l' = false /\
  (is_submit e = false -> streams_ (lsess l') = streams_ (lsess l)) /\
  (forall id a, find_stream id (lsess l) = Some a -> find_stream id (lsess l') = Some a).
Proof.
  intros Hr H. destruct e as [xe|m path k hs ret|m f|m k src|m src|m src|m|]; lopen H.
  - destruct (lguard xe l) eqn:Eg; [|done]. destruct (xstep xe (lsess l)) as [x'|] eqn:Ex; [|done].
    injection H as <-. simpl. rewrite Hr. split; [done|].
    assert (Es : streams_ x' = streams_ (lsess l)).
    { apply (turn_table xe _ _ Ex). unfold lguard in Eg. rewrite Hr in Eg. by destruct xe as [| | | | |? []| | | | |]. }
    unfold find_stream. simpl. by rewrite Es.
  - destruct (holders l !! m); [done|]. destruct (owners l); [done|].
    destruct (submit_request path k hs ret (lsess l)) as [r x'] eqn:Er. injection H as <-.
    assert (Es : forall id a, find_stream id (lsess l) = Some a -> find_stream id x' = Some a).
    { unfold submit_request in Er. destruct (role_ (lsess l)); [by injection Er as _ <-|].
      cbn [new_stream] in Er. destruct (ret <? 0)%Z; injection Er as _ <-; [done|].
      intros id a H. unfold find_stream, emplace in *. simpl.
      destruct (streams_ (lsess l) !! ret) eqn:E; simpl; [done|].
      rewrite lookup_insert_ne; [done | congruence]. }
    by destruct (value r).
  - by rewrite Hr in H.
  - destruct (holders l !! m); [done|]. destruct (holders l !! src) as [[k' [a|]]|]; try done. by injection H as <-.
  - destruct (holders l !! m); [done|]. destruct (holders l !! src); [|done]. by injection H as <-.
  - destruct (holders l !! m); [|done]. destruct (holders l !! src); [|done]. destruct (_ || _); [done|].
    by injection H as <-.
  - destruct (holders l !! m); [|done]. by injection H as <-.
  - destruct (owners l); [done|]. by injection H as <-.
Qed.

Lemma over_run evs l l' :
  running l = false -> lrun evs l = Some l' ->
  running l' = false /\
  (Forall (fun e => is_submit e = false) evs -> streams_ (lsess l') = streams_ (lsess l)) /\
  (forall id a, find_stream id (lsess l) = Some a -> find_stream id (lsess l') = Some a).
Proof.
  revert l; induction evs as [|e evs IH]; intros l Hr H; simpl in H; [by injection H as <-|].
  destruct (lstep e l) as [l1|] eqn:E; [|done]. destruct (over_step e l l1 Hr E) as (Hr1 & Hs1 & Ht1).
  destruct (IH l1 Hr1 H) as (Hr' & Hs' & Ht'). split; [done|]. split; [|auto].
  intros Hf. inversion Hf; subst. by rewrite Hs', Hs1.
Qed.

(** C25 Nothing leaks: once run() has ended a session, whatever state it was in, and no
    request is submitted on it any more, the disappearance of its last handle, message
    and coroutine leaves no stream object and no session behind. *)
Theorem session_reclaimed evs l evs' l' :
  lreach role handler n evs l -> Forall lfits (evs ++ LEvent XEnd :: evs') ->
  lrun (LEvent XEnd :: evs') l = Some l' -> Forall (fun e => is_submit e = false) evs' ->
  holders l' = ∅ -> owners l' = 0 ->
  heap (lsess l') = ∅ /\ impl_alive l' = false.
Proof.
  intros Hr Hf Hrun Hsub Hh Ho.
  pose proof (lrun_reach _ _ _ _ _ _ _ Hr Hrun) as Hr'.
  destruct (lreach_inv _ _ _ _ _ Hr' Hf) as [_ _ Ha].
  cbn [lrun] in Hrun. destruct (lstep (LEvent XEnd) l) as [l1|] eqn:E; [|done].
  lopen E. destruct (running l); [|done]. injection E as <-.
  apply over_run in Hrun as (Hr1 & Hs & _); [|done]. specialize (Hs Hsub).
  assert (Htab : streams_ (lsess l') = ∅).
  { rewrite Hs. simpl. unfold close_all. by apply close_list_next. }
  assert (Hheap : heap (lsess l') = ∅).
  { apply map_empty. intros a. apply eq_None_not_Some. intros H.
    apply Ha in H as [(m & h & H & _)|[id H]]; [by rewrite Hh, lookup_empty in H|].
    unfold find_stream in H. by rewrite Htab, lookup_empty in H. }
  split; [done|]. unfold impl_alive. by rewrite Hr1, Ho, Hheap, bool_decide_true.
Qed.

(** C36 A request submitted after run() has ended is never freed: nghttp2 having accepted
    it, the table owns its stream and the stream the session; no later event takes it out
    of the table, so that, whatever handles and messages are given up, both live on for
    ever. *)
Theorem late_request_leaks evs l m path k hs ret l1 evs' l2 :
  lreach role handler n evs l -> Forall lfits evs -> running l = false -> role_ (lsess l) = client ->
  (0 <= ret)%Z -> find_stream ret (lsess l) = None ->
  lstep (LSubmit m path k hs ret) l = Some l1 -> lrun evs' l1 = Some l2 -> Forall lfits evs' ->
  find_stream ret (lsess l2) = Some (next_addr (lsess l)) /\
  is_Some (heap (lsess l2) !! next_addr (lsess l)) /\ impl_alive l2 = true.
Proof.
  intros Hr Hf Hover Hrole Hret Hfree Hs Hrun Hf'.
  destruct (over_step _ _ _ Hover Hs) as (Hover1 & _ & _).
  assert (H1 : find_stream ret (lsess l1) = Some (next_addr (lsess l))).
  { lopen Hs. destruct (holders l !! m); [done|]. destruct (owners l); [done|].
    unfold submit_request in Hs. rewrite Hrole in Hs. cbn [new_stream] in Hs.
    destruct (Z.ltb_spec ret 0); [lia|]. injection Hs as <-. unfold find_stream, emplace in *. simpl.
    rewrite Hfree. simpl. apply lookup_insert_eq. }
  destruct (over_run evs' l1 l2 Hover1 Hrun) as (_ & _ & Ht). specialize (Ht _ _ H1).
  assert (Hr2 : lreach role handler n (evs ++ LSubmit m path k hs ret :: evs') l2)
    by (apply (lrun_reach _ _ _ evs (LSubmit m path k hs ret :: evs') l); [done | cbn [lrun]; by rewrite Hs]).
  assert (Hf2 : Forall lfits (evs ++ LSubmit m path k hs ret :: evs'))
    by (apply Forall_app; split; [done | by constructor]).
  assert (Ha : is_Some (heap (lsess l2) !! next_addr (lsess l))).
  { apply (lf_owned _ _ _ _ (lreach_inv _ _ _ _ _ Hr2 Hf2)). right. eauto. }
  split; [done|]. split; [done|]. unfold impl_alive. rewrite bool_decide_false; [by rewrite orb_true_r|].
  intros E. rewrite E, lookup_empty in Ha. by destruct Ha.
Qed.

End Reclaim.

(** ** Messages and their husks *)

Section Husks.
Context {C : CapyOps} {G : NgConsts}.

(** An object of kind [k] that is not a husk. *)
Definition holding (k : kind) (h : holder) : bool :=
  bool_decide (hkind h = k) && bool_decide (is_Some (hold h)).

Definition holding_count (k : kind) (hs : gmap hid holder) : nat :=
  size (filter (fun kv : hid * holder => holding k kv.2 = true) hs).

Definition weight (k : kind) (h : holder) : nat := if holding k h then 1 else 0.

Lemma count_fresh k m h hs :
  hs !! m = None -> holding_count k (<[m := h]> hs) = holding_count k hs + weight k h.
Proof.
  intros Hm. unfold holding_count, weight. destruct (holding k h) eqn:E.
  - rewrite map_filter_insert_True by done. rewrite map_size_insert_None; [lia|].
    apply map_lookup_filter_None. by left.
  - rewrite map_filter_insert_not'; [lia | simpl; by rewrite E|]. intros y. by rewrite Hm.
Qed.

Lemma count_delete k m h hs :
  hs !! m = Some h -> holding_count k hs = holding_count k (delete m hs) + weight k h.
Proof.
  intros Hm. rewrite <-(insert_delete_id hs m h Hm) at 1. apply count_fresh, lookup_delete_eq.
Qed.

Lemma count_replace k m h0 h hs :
  hs !! m = Some h0 ->
  holding_count k (<[m := h]> hs) + weight k h0 = holding_count k hs + weight k h.
Proof.
  intros Hm. rewrite (count_delete k m h0 hs Hm), <-insert_delete_eq.
  rewrite count_fresh by apply lookup_delete_eq. lia.
Qed.

Lemma weight_husk k k' : weight k (mkHolder k' None) = 0.
Proof. unfold weight, holding. simpl. by rewrite andb_false_r. Qed.

(** How often a line was logged. *)
Definition logged (s : line) (ls : list line) : nat := length (filter (fun s' => s' = s) ls).

Lemma logged_app s ls ls' : logged s (ls ++ ls') = logged s ls + logged s ls'.
Proof. unfold logged. by rewrite filter_app, length_app. Qed.

Definition move_assigns (e : lev) : bool := match e with LAssign _ _ => true | _ => false end.

(** Constructions are matched by destructions and objects still holding a body. *)
Definition balanced (k : kind) (l : life) : Prop :=
  logged (Ctor k) (lines l) = logged (Dtor k) (lines l) + holding_count k (holders l).

Lemma logged_ctor k k' : k <> KOther ->
  logged (Ctor k) (log_line k' (Ctor k')) = (if decide (k' = k) then 1 else 0) /\
  logged (Dtor k) (log_line k' (Ctor k')) = 0.
Proof. intros Hk. destruct k, k'; try done; by vm_compute. Qed.

Lemma logged_dtor k h : k <> KOther ->
  logged (Dtor k) (dtor_lines h) = weight k h /\ logged (Ctor k) (dtor_lines h) = 0.
Proof. intros Hk. destruct h as [k' [a|]]; destruct k, k'; try done; by vm_compute. Qed.

Lemma balanced_adopt k m k' a l :
  k <> KOther -> holders l !! m = None -> balanced k l -> balanced k (adopt m k' a l).
Proof.
  unfold balanced. intros Hk Hm Hb. simpl. rewrite !logged_app, count_fresh by done.
  destruct (logged_ctor k k' Hk) as [-> ->]. unfold weight, holding. simpl.
  case_decide; [subst; rewrite !bool_decide_true by done; simpl; lia|].
  rewrite bool_decide_false by done. simpl. lia.
Qed.

Lemma balanced_move k m src h l :
  holders l !! m = None -> holders l !! src = Some h -> balanced k l ->
  balanced k (l <| holders := <[m := h]> (<[src := mkHolder (hkind h) None]> (holders l)) |>).
Proof.
  unfold balanced. intros Hm Hs Hb. simpl. rewrite count_fresh.
  - pose proof (count_replace k src h (mkHolder (hkind h) None) (holders l) Hs) as Hc.
    rewrite weight_husk in Hc. lia.
  - rewrite lookup_insert_ne; [done | congruence].
Qed.

Lemma balanced_sess k l x : balanced k l -> balanced k (l <| lsess := x |>).
Proof. done. Qed.

Lemma balanced_step k e l l' :
  k <> KOther -> move_assigns e = false -> lstep e l = Some l' -> balanced k l -> balanced k l'.
Proof.
  intros Hk Ha H Hb. destruct e as [xe|m path c hs ret|m f|m k' src|m src|m src|m|]; try done; lopen H.
  - destruct (lguard xe l); [|done]. destruct (xstep xe (lsess l)); [|done]. by injection H as <-.
  - destruct (holders l !! m) eqn:Em; [done|]. destruct (owners l); [done|].
    destruct (submit_request _ _ _ _ _) as [r x']. injection H as <-.
    destruct (value r) as [a|]; [|done].
    by apply (balanced_adopt k m KOther a (l <| lsess := x' |>)).
  - destruct (running l); [|done]. destruct (holders l !! m) eqn:Em; [done|]. injection H as <-.
    destruct (is_request_headers f); [|done]. destruct (find_stream _ _) as [a|]; [|done].
    by apply (balanced_adopt k m KOther a (l <| lsess := on_frame_recv_callback f (lsess l) |>)).
  - destruct (holders l !! m) eqn:Em; [done|]. destruct (holders l !! src) as [[k'' [a|]]|]; try done.
    injection H as <-. by apply (balanced_adopt k m k' a l).
  - destruct (holders l !! m) eqn:Em; [done|]. destruct (holders l !! src) as [h|] eqn:Es; [|done].
    injection H as <-. by apply (balanced_move k m src h l).
  - destruct (holders l !! m) as [h|] eqn:Em; [|done]. injection H as <-. unfold balanced in *. simpl.
    rewrite !logged_app. destruct (logged_dtor k h Hk) as [-> ->].
    pose proof (count_delete k m h (holders l) Em). lia.
  - destruct (owners l); [done|]. by injection H as <-.
Qed.

(** One line per message: however [Request]s and [Response]s are passed on by move
    through layers of handlers, at every moment as many were constructed, by the log, as
    were destroyed, by the log, plus those that still hold a body; husks log nothing, and
    the last holder does (as long as no message is move-assigned over another). *)
Theorem one_line_per_message role handler n evs l k :
  lreach role handler n evs l -> Forall (fun e => move_assigns e = false) evs -> k <> KOther ->
  logged (Ctor k) (lines l) = logged (Dtor k) (lines l) + holding_count k (holders l).
Proof.
  intros Hr Hm Hk. change (balanced k l). induction Hr as [|evs l e l' _ IH Hs].
  - unfold balanced, holding_count. simpl. by rewrite map_filter_empty, map_size_empty.
  - apply Forall_app in Hm as [Hm He]. apply Forall_inv in He.
    apply (balanced_step k e l); auto.
Qed.

End Husks.

(** ** Concrete lifetimes *)

Module LifetimeDemo.
#[local] Existing Instance capy_ref.
#[local] Existing Instance ng_ref.

Definition headers (id : Z) : frame := mkFrame NGHTTP2_HEADERS id 4 NGHTTP2_HCAT_REQUEST.

(** A request: its frame (10) makes a Request (11) and a Response (12), which move into
    the handler (13, 14); the stream closes; all go. *)
Definition serve : list lev :=
  [LEvent (XBeginHeaders (headers 1)); LRequest 10 (headers 1); LNew 11 KRequest 10; LNew 12 KResponse 10;
   LMove 13 11; LMove 14 12; LEvent (XStreamClose 1); LDrop 13].
Definition served : life := default (life_new server true 0) (lrun serve (life_new server true 0)).
Definition over : list lev := [LDrop 14; LDrop 12; LDrop 11; LDrop 10].
Definition gone : life := default served (lrun (LEvent XEnd :: over) served).

Lemma served_reach : lreach server true 0 serve served.
Proof.
  apply (lrun_reach server true 0 [] serve (life_new server true 0)); [constructor|]. by vm_compute.
Qed.

Lemma session_reclaimed_witness : heap (lsess gone) = ∅ /\ impl_alive gone = false.
Proof.
  apply (session_reclaimed server true 0 serve served over gone).
  - exact served_reach.
  - by repeat constructor.
  - by vm_compute.
  - by repeat constructor.
  - by vm_compute.
  - by vm_compute.
Defined.

(** A client session that has ended; a request is submitted; all handles go. *)
Definition ended : list lev := [LEvent XEnd].
Definition cl0 : life := default (life_new client false 1) (lrun ended (life_new client false 1)).
Definition cl1 : life := default cl0 (lstep (LSubmit 1 "/" None [] 1) cl0).
Definition cl2 : life := default cl1 (lrun [LDrop 1; LRelease] cl1).

Lemma late_request_leaks_witness :
  holders cl2 = ∅ /\ owners cl2 = 0 /\ impl_alive cl2 = true.
Proof.
  split; [by vm_compute|]. split; [by vm_compute|].
  destruct (late_request_leaks client false 1 ended cl0 1 "/" None [] 1 cl1 [LDrop 1; LRelease] cl2)
    as (_ & _ & H).
  - apply (lrun_reach client false 1 [] ended (life_new client false 1)); [constructor|]. by vm_compute.
  - by repeat constructor.
  - by vm_compute.
  - by vm_compute.
  - done.
  - by vm_compute.
  - by vm_compute.
  - by vm_compute.
  - by repeat constructor.
  - exact H.
Defined.

Lemma one_line_per_message_witness :
  logged (Ctor KRequest) (lines served) = 1 /\
  logged (Ctor KRequest) (lines served) = logged (Dtor KRequest) (lines served) + holding_count KRequest (holders served).
Proof.
  split; [by vm_compute|].
  apply (one_line_per_message server true 0 serve served KRequest); [exact served_reach | by repeat constructor | done].
Defined.

End LifetimeDemo.
