(* ===== verification/Refcount.v ===== *)
(** * Reference counts

    The same ownership as in Lifetime, as the program does it: each [Stream] has a count,
    copying a [std::shared_ptr] raises it, destroying or overwriting one lowers it, and the
    object is destroyed when it reaches zero; local pointers of the functions of
    src/session.cpp count like those in the table, in messages and in coroutine frames.
    Using an object that was destroyed, or a pointer whose object has no count any more,
    is an outcome of its own, [UseAfterFree].  The pointers that one message or one frame
    has to a stream are created and destroyed together and counted once. *)

From S2P Require Import Prelude Capy Nghttp2 Charconv Stream StreamRead StreamWrite StreamSys StreamProps.
From S2P Require Import Session SessionSys SessionProps SessionHeaders Lifetime LifetimeProps.

Inductive verdict (A : Type) :=
| Fine (x : A)
| UseAfterFree
| NotNow.               (* nobody is in a position to do it *)
Arguments Fine {A} _.
Arguments UseAfterFree {A}.
Arguments NotNow {A}.

#[export] Instance verdict_bind : MBind verdict := fun A B k r =>
  match r with Fine x => k x | UseAfterFree => UseAfterFree | NotNow => NotNow end.

Section Refcount.
Context {C : CapyOps} {G : NgConsts}.

Record counted := mkCounted {
  rlife : life;
  refs : gmap addr nat;     (* the count of each object that has not been destroyed *)
}.

#[export] Instance counted_eta : Eta counted := {| eta := fun c => mkCounted (rlife c) (refs c) |}.

Definition counted_new (role : Role) (handler : bool) (n : nat) : counted :=
  mkCounted (life_new role handler n) ∅.

Definition rsess (c : counted) : Session := lsess (rlife c).

Definition with_life (f : life -> life) (c : counted) : counted := mkCounted (f (rlife c)) (refs c).

Definition with_sess (f : Session -> Session) : counted -> counted :=
  with_life (fun l => l <| lsess := f (lsess l) |>).

(** ** [std::shared_ptr] *)

(** [*stream], [stream->...]. *)
Definition touch (a : addr) (c : counted) : verdict counted :=
  match heap (rsess c) !! a with Some _ => Fine c | None => UseAfterFree end.

(** A pointer is copied. *)
Definition copy_ptr (a : addr) (c : counted) : verdict counted :=
  match refs c !! a with
  | Some n => Fine (mkCounted (rlife c) (<[a := S n]> (refs c)))
  | None => UseAfterFree
  end.

(** A pointer is destroyed, and the object with the last one. *)
Definition release (a : addr) (c : counted) : verdict counted :=
  match refs c !! a with
  | Some (S (S n)) => Fine (mkCounted (rlife c) (<[a := S n]> (refs c)))
  | Some (S O) =>
      Fine (mkCounted (rlife (with_sess (fun x => x <| heap := delete a (heap x) |>) c)) (delete a (refs c)))
  | _ => UseAfterFree
  end.

(** [std::make_shared<Stream>(shared_from_this(), id)]. *)
Definition make_shared (id : Z) (c : counted) : addr * counted :=
  let a := next_addr (rsess c) in
  (a, mkCounted (rlife (with_sess (fun x => (new_stream id x).2) c)) (<[a := 1]> (refs c))).

(** ** The functions of session.cpp *)

(** [if (auto stream = find_stream(id)) stream->f();] *)
Definition found (id : Z) (f : Stream -> Stream) (c : counted) : verdict counted :=
  match find_stream id (rsess c) with
  | Some a => c ← copy_ptr a c; c ← touch a c; release a (with_sess (upd f a) c)
  | None => Fine c
  end.

(** [streams_.emplace(id, stream)] copies the pointer if the key is free. *)
Definition emplace_ptr (id : Z) (a : addr) (c : counted) : verdict counted :=
  match streams_ (rsess c) !! id with
  | Some _ => Fine c
  | None => c ← copy_ptr a c; Fine (with_sess (emplace id a) c)
  end.

(** [on_begin_headers_callback]: [create_stream] returns its pointer, which is dropped. *)
Definition rc_begin_headers (f : frame) (c : counted) : verdict counted :=
  if is_request_headers f then
    let '(a, c) := make_shared (hd_stream_id f) c in
    c ← emplace_ptr (hd_stream_id f) a c;
    release a (with_sess (fun x =>
      x <| request_counter_ := (request_counter_ x + 1) mod (SIZE_MAX + 1) |>%N) c)
  else Fine c.

Definition rc_header (f : frame) (name value : string) (c : counted) : verdict counted :=
  let id := hd_stream_id f in
  if bool_decide (name = ":path") then found id (set_path value) c
  else if bool_decide (name = ":status") then
    let r := from_chars UINT_MAX value in
    found id (set_status (default 0%N (fc_value r))) c
  else if is_pseudo name then Fine c
  else
    c ← (if bool_decide (name = "content-length") then
           let r := from_chars SIZE_MAX value in
           match fc_ec r, fc_value r with
           | None, Some content_length =>
               if fc_ptr r =? String.length value
               then found id (set_content_length content_length) c
               else Fine c
           | _, _ => Fine c
           end
         else Fine c);
    found id (add_header name value) c.

(** [on_frame_recv_callback]: the pointer [find_stream] returned moves through
    [dispatch_request] into the frame [m] of [handle_request]. *)
Definition rc_frame_recv (m : hid) (f : frame) (c : counted) : verdict counted :=
  c ← (if is_request_headers f then
         match find_stream (hd_stream_id f) (rsess c) with
         | Some a =>
             c ← copy_ptr a c; c ← touch a c;
             Fine (with_life (adopt m KOther a) (with_sess (dispatch_request a) c))
         | None => Fine c
         end
       else Fine c);
  if end_stream f then found (hd_stream_id f) on_read_eof c else Fine c.

Definition rc_data_chunk (id : Z) (data : bytes) (c : counted) : verdict counted :=
  found id (on_data data) (with_sess (fun x => perform x (nghttp2_session_consume_connection (length data))) c).

(** [close_stream]: [erase] destroys the pointer of the table. *)
Definition rc_close_stream (id : Z) (c : counted) : verdict counted :=
  match streams_ (rsess c) !! id with
  | None => Fine c
  | Some a =>
      c ← touch a c;
      release a (with_sess (fun x => (upd on_close a x) <| streams_ := delete id (streams_ x) |>) c)
  end.

Fixpoint touch_all (l : list addr) (c : counted) : verdict counted :=
  match l with [] => Fine c | a :: l => c ← touch a c; touch_all l c end.

Fixpoint release_all (l : list addr) (c : counted) : verdict counted :=
  match l with [] => Fine c | a :: l => c ← release a c; release_all l c end.

(** The end of run(): the table that was exchanged away is destroyed after the loop. *)
Definition rc_end (c : counted) : verdict counted :=
  let l := (map_to_list (streams_ (rsess c))).*2 in
  c ← touch_all l c;
  release_all l (with_life (fun l => l <| running := false |>) (with_sess close_all c)).

(** A turn of a coroutine, or of nghttp2's data provider, on the stream at [a]. *)
Definition rc_turn (a : addr) (e : sev) (c : counted) : verdict counted :=
  c ← touch a c;
  match xstep (XTurn a e) (rsess c) with
  | Some x => Fine (with_sess (fun _ => x) c)
  | None => NotNow
  end.

Definition rc_submit_response (a : addr) (status : N) (hs : Headers) (rv : Z) (c : counted) : verdict counted :=
  c ← touch a c;
  Fine (with_sess (fun x => (submit_response a status hs rv x).2) c).

(** [submit_request]: the [ClientRequest] [m] gets its own pointer, the local one goes. *)
Definition rc_submit_request (m : hid) (path : string) (n : option N) (hs : Headers) (ret : Z)
    (c : counted) : verdict counted :=
  match role_ (rsess c) with
  | server => Fine c
  | client =>
      let '(a, c) := make_shared 0 c in
      let c := with_sess (fun x => perform x (nghttp2_submit_request2 (request_nva path n hs) a)) c in
      if (ret <? 0)%Z then release a c
      else
        c ← touch a c;
        c ← emplace_ptr ret a (with_sess (fun x => upd (set_id (log_prefix x) ret) a x) c);
        c ← copy_ptr a (with_sess do_start_write c);
        release a (with_life (adopt m KOther a) c)
  end.

(** ** Messages *)

Definition release_of (h : holder) (c : counted) : verdict counted :=
  match hold h with Some a => release a c | None => Fine c end.

Definition rc_construct (m : hid) (k : kind) (src : hid) (c : counted) : verdict counted :=
  match holders (rlife c) !! m, holders (rlife c) !! src with
  | None, Some (mkHolder _ (Some a)) => c ← copy_ptr a c; Fine (with_life (adopt m k a) c)
  | _, _ => NotNow
  end.

(** A moved pointer is not counted again. *)
Definition rc_move_construct (m src : hid) (c : counted) : verdict counted :=
  match holders (rlife c) !! m, holders (rlife c) !! src with
  | None, Some h =>
      Fine (with_life (fun l =>
        l <| holders := <[m := h]> (<[src := mkHolder (hkind h) None]> (holders l)) |>) c)
  | _, _ => NotNow
  end.

Definition rc_move_assign (m src : hid) (c : counted) : verdict counted :=
  match holders (rlife c) !! m, holders (rlife c) !! src with
  | Some h0, Some h =>
      if bool_decide (m = src) || negb (bool_decide (hkind h0 = hkind h)) then NotNow
      else release_of h0 (with_life (fun l =>
             l <| holders := <[m := h]> (<[src := mkHolder (hkind h) None]> (holders l)) |>) c)
  | _, _ => NotNow
  end.

Definition rc_destroy (m : hid) (c : counted) : verdict counted :=
  match holders (rlife c) !! m with
  | Some h =>
      release_of h (with_life (fun l =>
        l <| holders := delete m (holders l) |> <| lines := lines l ++ dtor_lines h |>) c)
  | None => NotNow
  end.

Definition rc_release_session (c : counted) : verdict counted :=
  match owners (rlife c) with
  | S n => Fine (with_life (fun l => l <| owners := n |>) c)
  | O => NotNow
  end.

(** ** Steps *)

Definition rc_event (e : xev) (c : counted) : verdict counted :=
  match e with
  | XBeginHeaders f => rc_begin_headers f c
  | XHeader f name value => rc_header f name value c
  | XDataChunk id data => rc_data_chunk id data c
  | XStreamClose id => rc_close_stream id c
  | XTurn a e => rc_turn a e c
  | XSubmitResponse a n hs rv => rc_submit_response a n hs rv c
  | XStartWrite => Fine (with_sess do_start_write c)
  | XClearReady => Fine (with_sess (fun x => x <| write_ready_ := event_clear (write_ready_ x) |>) c)
  | XEnd => rc_end c
  | XFrameRecv _ | XSubmitRequest _ _ _ _ => NotNow
  end.

(** Who is in a position to do what is as in Lifetime: it is a matter of the pointers there
    are, dangling or not. *)
Definition rc_step (e : lev) (c : counted) : verdict counted :=
  match e with
  | LEvent e => if lguard e (rlife c) then rc_event e c else NotNow
  | LSubmit m path n hs ret =>
      match holders (rlife c) !! m, owners (rlife c) with
      | None, S _ => rc_submit_request m path n hs ret c
      | _, _ => NotNow
      end
  | LRequest m f =>
      if running (rlife c) then
        match holders (rlife c) !! m with None => rc_frame_recv m f c | Some _ => NotNow end
      else NotNow
  | LNew m k src => rc_construct m k src c
  | LMove m src => rc_move_construct m src c
  | LAssign m src => rc_move_assign m src c
  | LDrop m => rc_destroy m c
  | LRelease => rc_release_session c
  end.

Inductive rc_reach (role : Role) (handler : bool) (n : nat) : list lev -> counted -> Prop :=
| rc_reach_new : rc_reach role handler n [] (counted_new role handler n)
| rc_reach_step evs c e c' :
    rc_reach role handler n evs c -> rc_step e c = Fine c' -> rc_reach role handler n (evs ++ [e]) c'.

Fixpoint rc_run (evs : list lev) (c : counted) : verdict counted :=
  match evs with
  | [] => Fine c
  | e :: evs => c ← rc_step e c; rc_run evs c
  end.

Lemma rc_run_reach role handler n evs0 evs c0 c :
  rc_reach role handler n evs0 c0 -> rc_run evs c0 = Fine c -> rc_reach role handler n (evs0 ++ evs) c.
Proof.
  revert evs0 c0; induction evs as [|e evs IH]; intros evs0 c0 Hr H; simpl in H.
  - injection H as <-. by rewrite app_nil_r.
  - destruct (rc_step e c0) as [c1| |] eqn:E; [|done..].
    replace (evs0 ++ e :: evs) with ((evs0 ++ [e]) ++ evs) by by rewrite <-app_assoc.
    eapply IH; [by eapply rc_reach_step | exact H].
Qed.

End Refcount.
