(* ===== verification/RefcountProps.v ===== *)
(** * The counts are right

    Theorems about Refcount: each count is the number of the pointers there are, so that
    nothing is used after its destruction, and an object goes exactly when Lifetime finds
    it without owners. *)

From S2P Require Import Prelude Capy Nghttp2 Charconv Stream StreamRead StreamWrite StreamSys StreamProps.
From S2P Require Import Session SessionSys SessionProps SessionHeaders Lifetime LifetimeProps Refcount.

(** ** Counting *)

(** The count of an object with [n] pointers. *)
Definition cnt (n : nat) : option nat := match n with O => None | S _ => Some n end.

Definition one (a b : addr) : nat := if decide (a = b) then 1 else 0.

Definition occurrences (l : list addr) (b : addr) : nat := length (filter (fun a => a = b) l).

(** Pointers in local variables, besides those in the state. *)
Abbreviation locals := (addr -> nat) (only parsing).
Definition none : locals := fun _ => 0.
Definition plus (x : locals) (a : addr) : locals := fun b => x b + one a b.

Lemma cnt_pos n : is_Some (cnt n) <-> 0 < n.
Proof. destruct n; simpl; split; intros H; [by destruct H | lia | lia | by eexists]. Qed.

Lemma cnt_lt n : 0 < n -> cnt n = Some n.
Proof. destruct n; [lia | done]. Qed.

Lemma one_same a : one a a = 1.
Proof. unfold one. by rewrite decide_True. Qed.

Lemma one_ne a b : a <> b -> one a b = 0.
Proof. intros H. unfold one. by rewrite decide_False. Qed.

Lemma occurrences_cons a l b : occurrences (a :: l) b = one a b + occurrences l b.
Proof. unfold occurrences, one. rewrite filter_cons. by case_decide. Qed.

Section FilterSize.
Context `{Countable K} {A : Type} (P : K * A -> Prop) `{!forall x, Decision (P x)}.

Lemma size_filter_fresh (m : gmap K A) i x :
  m !! i = None -> size (filter P (<[i := x]> m)) = (if decide (P (i, x)) then 1 else 0) + size (filter P m).
Proof.
  intros Hi. case_decide.
  - rewrite map_filter_insert_True by done. rewrite map_size_insert_None; [done|].
    apply map_lookup_filter_None. by left.
  - rewrite map_filter_insert_not'; [done | done|]. intros y. by rewrite Hi.
Qed.

Lemma size_filter_delete (m : gmap K A) i x :
  m !! i = Some x -> size (filter P m) = (if decide (P (i, x)) then 1 else 0) + size (filter P (delete i m)).
Proof.
  intros Hi. rewrite <-(insert_delete_id m i x Hi) at 1. apply size_filter_fresh, lookup_delete_eq.
Qed.

Lemma size_filter_list (m : gmap K A) : size (filter P m) = length (filter P (map_to_list m)).
Proof.
  induction m as [|i x m Hi IH] using map_ind;
    [by rewrite map_filter_empty, map_size_empty, map_to_list_empty|].
  rewrite size_filter_fresh, IH by done. rewrite (map_to_list_insert m i x Hi), filter_cons.
  by case_decide.
Qed.

End FilterSize.

Section RefcountProps.
Context {C : CapyOps} {G : NgConsts}.

(** The pointers of the table, listed. *)
Lemma table_refs_list a x : table_refs a x = occurrences (map_to_list (streams_ x)).*2 a.
Proof.
  unfold table_refs. rewrite size_filter_list. unfold occurrences.
  induction (map_to_list (streams_ x)) as [|[id b] l IH]; [done|].
  rewrite fmap_cons, !filter_cons. simpl. case_decide; simpl; by rewrite IH.
Qed.

Definition held (h : holder) (a : addr) : nat := if decide (hold h = Some a) then 1 else 0.

Lemma held_one k a b : held (mkHolder k (Some a)) b = one a b.
Proof. unfold held, one. simpl. repeat case_decide; congruence. Qed.

Lemma held_husk k b : held (mkHolder k None) b = 0.
Proof. done. Qed.

Lemma holder_refs_insert m h l hs b :
  holders l = <[m := h]> hs -> hs !! m = None ->
  forall l0, holders l0 = hs -> holder_refs b l = held h b + holder_refs b l0.
Proof.
  intros E Hm l0 E0. unfold holder_refs. rewrite E, E0, size_filter_fresh by done. done.
Qed.

Lemma adopt_count m k a l b :
  holders l !! m = None -> use_count b (adopt m k a l) = use_count b l + one a b.
Proof.
  intros Hm. unfold use_count. rewrite (holder_refs_insert m (mkHolder k (Some a)) (adopt m k a l) (holders l) b eq_refl Hm l eq_refl).
  rewrite held_one. simpl. lia.
Qed.

Lemma destroy_count m h l l' b :
  holders l !! m = Some h -> holders l' = delete m (holders l) -> lsess l' = lsess l ->
  use_count b l = use_count b l' + held h b.
Proof.
  intros Hm Eh Es. unfold use_count, holder_refs. rewrite (size_filter_delete _ _ _ _ Hm), Eh, Es.
  unfold held. simpl. lia.
Qed.

(** ** The invariant *)

(** The counts are those of the pointers in the state and in local variables; an object
    is there if and only if it is counted; addresses to come are free. *)
Record rc_inv (x : locals) (c : counted) : Prop := {
  ri_refs a : refs c !! a = cnt (use_count a (rlife c) + x a);
  ri_heap a : is_Some (heap (rsess c) !! a) <-> is_Some (refs c !! a);
  ri_next a : next_addr (rsess c) <= a -> heap (rsess c) !! a = None;
}.

(** The same objects, in whatever states. *)
Definition same_objects (x x' : Session) : Prop :=
  next_addr x' = next_addr x /\ forall a, is_Some (heap x' !! a) <-> is_Some (heap x !! a).

(** [l] is [u] with some objects destroyed. *)
Definition pruned (l u : life) : Prop :=
  exists h, h ⊆ heap (lsess u) /\ l = u <| lsess := (lsess u) <| heap := h |> |>.

Lemma pruned_refl l : pruned l l.
Proof. exists (heap (lsess l)). split; [done|]. by destruct l as [[] ? ? ? ?]. Qed.

Lemma pruned_trans l1 l2 l3 : pruned l1 l2 -> pruned l2 l3 -> pruned l1 l3.
Proof.
  intros (h1 & H1 & ->) (h2 & H2 & ->). exists h1. split; [|done]. by etrans.
Qed.

Lemma pruned_count l u a : pruned l u -> use_count a l = use_count a u.
Proof. by intros (h & _ & ->). Qed.

Lemma rc_inv_alive x c a : rc_inv x c -> is_Some (heap (rsess c) !! a) <-> 0 < use_count a (rlife c) + x a.
Proof. intros Hi. by rewrite (ri_heap _ _ Hi), (ri_refs _ _ Hi), cnt_pos. Qed.

(** What is left is what has owners. *)
Lemma sweep_of c u : rc_inv none c -> pruned (rlife c) u -> rlife c = sweep u.
Proof.
  intros Hi Hp. pose proof Hp as (h & Hh & E). rewrite E. unfold sweep.
  enough (Ef : h = filter (fun kv : addr * sys => 0 < use_count kv.1 u) (heap (lsess u))) by by rewrite Ef.
  apply map_eq. intros a. apply option_eq. intros y. rewrite map_lookup_filter_Some. simpl.
  assert (Hal : is_Some (h !! a) <-> 0 < use_count a u).
  { pose proof (rc_inv_alive none c a Hi) as H. unfold rsess in H. rewrite (pruned_count _ _ a Hp) in H.
    rewrite E in H. simpl in H. rewrite H. unfold none. by rewrite Nat.add_0_r. }
  split.
  - intros Hy. split; [by apply (lookup_weaken h) | apply Hal; by eexists].
  - intros [Hy Hc]. apply Hal in Hc as [y' Hy']. pose proof (lookup_weaken _ _ _ _ Hy' Hh). congruence.
Qed.

(** Pointers are moved around and objects change their states. *)
Lemma rc_inv_change x x' c l' :
  rc_inv x c -> same_objects (rsess c) (lsess l') ->
  (forall a, use_count a l' + x' a = use_count a (rlife c) + x a) -> rc_inv x' (mkCounted l' (refs c)).
Proof.
  intros [Hr Hh Hn] [En Ho] Hc. split; unfold rsess in *; simpl.
  - intros a. by rewrite Hr, Hc.
  - intros a. by rewrite Ho, Hh.
  - intros a Ha. rewrite En in Ha. apply eq_None_not_Some. rewrite Ho, (Hn a Ha). by intros [].
Qed.

Lemma rc_inv_ext x x' c : rc_inv x c -> (forall a, x a = x' a) -> rc_inv x' c.
Proof. intros [Hr Hh Hn] E. split; [|done..]. intros a. by rewrite <-E. Qed.

(** ** The operations of [std::shared_ptr] *)

Lemma touch_ok x c a : rc_inv x c -> 0 < use_count a (rlife c) + x a -> touch a c = Fine c.
Proof. intros Hi Ha. apply (rc_inv_alive x c a Hi) in Ha as [y Hy]. unfold touch. by rewrite Hy. Qed.

Lemma copy_ptr_ok x c a :
  rc_inv x c -> 0 < use_count a (rlife c) + x a ->
  exists c', copy_ptr a c = Fine c' /\ rlife c' = rlife c /\ rc_inv (plus x a) c'.
Proof.
  intros Hi Ha. unfold copy_ptr. rewrite (ri_refs _ _ Hi), cnt_lt by done.
  eexists. split; [done|]. split; [done|]. destruct Hi as [Hr Hh Hn].
  split; unfold rsess, plus in *; simpl; [..|done].
  - intros b. destruct (decide (a = b)) as [<-|Hne].
    + rewrite lookup_insert_eq, one_same, cnt_lt by lia. f_equal. lia.
    + rewrite lookup_insert_ne, one_ne by done. by rewrite Nat.add_0_r.
  - intros b. rewrite Hh. destruct (decide (a = b)) as [<-|Hne]; [|by rewrite lookup_insert_ne].
    rewrite lookup_insert_eq, Hr, cnt_pos. split; [by eexists | done].
Qed.

Lemma release_ok x c a :
  rc_inv (plus x a) c -> exists c', release a c = Fine c' /\ pruned (rlife c') (rlife c) /\ rc_inv x c'.
Proof.
  intros [Hr Hh Hn]. unfold release. pose proof (Hr a) as Ha. unfold plus in *. rewrite one_same, Nat.add_assoc, Nat.add_1_r in Ha.
  rewrite Ha. simpl. destruct (use_count a (rlife c) + x a) as [|n] eqn:En; eexists; (split; [done|]); simpl.
  - split.
    + eexists. split; [|done]. apply delete_subseteq.
    + split; unfold rsess in *; simpl.
      * intros b. change (use_count b _) with (use_count b (rlife c)).
        destruct (decide (a = b)) as [<-|Hne]; [by rewrite lookup_delete_eq, En|].
        rewrite lookup_delete_ne, Hr, one_ne by done. by rewrite Nat.add_0_r.
      * intros b. destruct (decide (a = b)) as [<-|Hne]; [by rewrite !lookup_delete_eq|].
        by rewrite !lookup_delete_ne.
      * intros b Hb. apply lookup_delete_None. auto.
  - split; [apply pruned_refl|]. split; unfold rsess in *; simpl; [..|done].
    + intros b. destruct (decide (a = b)) as [<-|Hne]; [by rewrite lookup_insert_eq, En|].
      rewrite lookup_insert_ne, Hr, one_ne by done. by rewrite Nat.add_0_r.
    + intros b. rewrite Hh. destruct (decide (a = b)) as [<-|Hne]; [|by rewrite lookup_insert_ne].
      rewrite lookup_insert_eq, Ha. split; by eexists.
Qed.

Lemma release_all_ok l x c :
  rc_inv (fun b => x b + occurrences l b) c ->
  exists c', release_all l c = Fine c' /\ pruned (rlife c') (rlife c) /\ rc_inv x c'.
Proof.
  revert c; induction l as [|a l IH]; intros c Hi; simpl.
  - exists c. split; [done|]. split; [apply pruned_refl|]. apply (rc_inv_ext _ _ _ Hi). intros b. apply Nat.add_0_r.
  - destruct (release_ok (fun b => x b + occurrences l b) c a) as (c1 & -> & Hp1 & Hi1).
    { apply (rc_inv_ext _ _ _ Hi). intros b. unfold plus. rewrite occurrences_cons. lia. }
    simpl. destruct (IH c1 Hi1) as (c2 & -> & Hp2 & Hi2). exists c2. split; [done|].
    split; [by apply (pruned_trans _ (rlife c1)) | done].
Qed.

Lemma touch_all_ok l x c :
  rc_inv x c -> Forall (fun a => 0 < use_count a (rlife c) + x a) l -> touch_all l c = Fine c.
Proof.
  intros Hi. induction 1 as [|a l Ha _ IH]; simpl; [done|]. by rewrite (touch_ok x c a Hi Ha).
Qed.

Lemma make_shared_ok id x c :
  rc_inv x c ->
  rc_inv (plus x (next_addr (rsess c))) (make_shared id c).2 /\
  rlife (make_shared id c).2 = (rlife c) <| lsess := (new_stream id (rsess c)).2 |>.
Proof.
  intros [Hr Hh Hn]. split; [|done]. set (a := next_addr (rsess c)) in *.
  assert (Ha : use_count a (rlife c) + x a = 0).
  { pose proof (Hn a ltac:(lia)) as Hna. destruct (use_count a (rlife c) + x a) eqn:E; [done|].
    assert (is_Some (heap (rsess c) !! a)) as [y Hy]; [|congruence].
    apply Hh. rewrite Hr, E. by eexists. }
  unfold make_shared, plus. split; unfold rsess in *; simpl; fold a.
  - intros b. change (use_count b _) with (use_count b (rlife c)).
    destruct (decide (a = b)) as [<-|Hne].
    + rewrite lookup_insert_eq, one_same, Nat.add_assoc, Ha. done.
    + rewrite lookup_insert_ne, Hr, one_ne by done. by rewrite Nat.add_0_r.
  - intros b. destruct (decide (a = b)) as [<-|Hne].
    + rewrite !lookup_insert_eq. split; by eexists.
    + rewrite !lookup_insert_ne by done. apply Hh.
  - intros b Hb. rewrite lookup_insert_ne by lia. apply Hn. unfold a in Hb. lia.
Qed.

(** ** The functions of session.cpp *)

Lemma same_refl x : same_objects x x.
Proof. by split. Qed.

Lemma same_trans x1 x2 x3 : same_objects x1 x2 -> same_objects x2 x3 -> same_objects x1 x3.
Proof. intros [E1 H1] [E2 H2]. split; [by rewrite E2 | intros a; by rewrite H2]. Qed.

Lemma upd_same f a x : same_objects x (upd f a x).
Proof. split; [done|]. intros b. rewrite lookup_upd. case_decide; [by rewrite fmap_is_Some | done]. Qed.

Lemma close_list_same l x : same_objects x (foldr (upd on_close) x l).
Proof. induction l; simpl; [apply same_refl | by eapply same_trans, upd_same]. Qed.

Lemma close_all_same x : same_objects x (close_all x).
Proof. unfold close_all. eapply same_trans; [|apply close_list_same]. by split. Qed.

Lemma close_all_refs a x : table_refs a (close_all x) = 0.
Proof.
  unfold table_refs, close_all. destruct (close_list_next (map_to_list (streams_ x)).*2 (x <| streams_ := ∅ |>)) as [_ ->].
  simpl. by rewrite map_filter_empty, map_size_empty.
Qed.

Lemma with_sess_id f c : f (rsess c) = rsess c -> with_sess f c = c.
Proof. destruct c as [[x ? ? ? ?] ?]. unfold with_sess, with_life, rsess. simpl. by intros ->. Qed.

(** Objects are updated, the table is not. *)
Lemma sess_change f x c :
  rc_inv x c -> same_objects (rsess c) (f (rsess c)) -> streams_ (f (rsess c)) = streams_ (rsess c) ->
  rc_inv x (with_sess f c).
Proof.
  intros Hi Hs Et. apply (rc_inv_change x x c); [done | done|]. intros a.
  unfold use_count, table_refs, rsess in *. simpl. by rewrite Et.
Qed.

Lemma table_counts x c id a : find_stream id (rsess c) = Some a -> 0 < use_count a (rlife c) + x a.
Proof. intros H. assert (0 < table_refs a (lsess (rlife c))) by (apply table_refs_pos; eauto). unfold use_count. lia. Qed.

(** The pointer of a lookup comes and goes. *)
Lemma found_ok id f x c :
  rc_inv x c -> found id f c = Fine (with_sess (with_stream id f) c) /\ rc_inv x (with_sess (with_stream id f) c).
Proof.
  intros Hi. split.
  - unfold found. destruct (find_stream id (rsess c)) as [a|] eqn:Ea.
    + pose proof (table_counts x c id a Ea) as Hc. pose proof (ri_refs _ _ Hi a) as Hr.
      rewrite cnt_lt in Hr by done. destruct (use_count a (rlife c) + x a) as [|n] eqn:En; [lia|].
      assert (is_Some (heap (rsess c) !! a)) as [y Hy] by (apply (ri_heap _ _ Hi); rewrite Hr; by eexists).
      unfold copy_ptr. rewrite Hr. simpl. unfold touch, rsess in *. simpl. rewrite Hy. simpl.
      unfold release. simpl. rewrite lookup_insert_eq, insert_insert_eq.
      unfold with_sess, with_life. simpl. unfold with_stream. rewrite Ea. rewrite insert_id by done. done.
    + rewrite with_sess_id; [done|]. unfold with_stream. by rewrite Ea.
  - apply sess_change; [done|..]; unfold with_stream; destruct (find_stream id (rsess c));
      [apply upd_same | apply same_refl | done | done].
Qed.

Lemma emplace_ptr_ok id a x c :
  rc_inv x c -> 0 < use_count a (rlife c) + x a ->
  exists c', emplace_ptr id a c = Fine c' /\ rlife c' = rlife (with_sess (emplace id a) c) /\ rc_inv x c'.
Proof.
  intros Hi Ha. unfold emplace_ptr. destruct (streams_ (rsess c) !! id) as [b|] eqn:Eb.
  - exists c. split; [done|]. split; [|done]. rewrite with_sess_id; [done|]. unfold emplace. by rewrite Eb.
  - destruct (copy_ptr_ok x c a Hi Ha) as (c1 & -> & E1 & Hi1). simpl. eexists. split; [done|].
    split; [unfold with_sess, with_life; simpl; by rewrite E1|].
    apply (rc_inv_change (plus x a)); [done| |].
    + unfold rsess, emplace. rewrite E1. unfold rsess in Eb. rewrite Eb. by split.
    + intros b. unfold use_count, table_refs, emplace, plus. rewrite E1. simpl. unfold rsess in Eb. rewrite Eb. simpl.
      rewrite size_filter_fresh by done. unfold holder_refs, one. simpl. lia.
Qed.

(** [r] goes well and leaves of [u] the objects that are owned. *)
Definition goes (r : verdict counted) (u : life) : Prop :=
  exists c', r = Fine c' /\ rc_inv none c' /\ pruned (rlife c') u.

Lemma goes_sweep r u : goes r u -> exists c', r = Fine c' /\ rlife c' = sweep u /\ rc_inv none c'.
Proof. intros (c' & -> & Hi & Hp). exists c'. split; [done|]. split; [by apply sweep_of | done]. Qed.

(** The last local pointer to [a] goes. *)
Lemma goes_release a c : rc_inv (plus none a) c -> goes (release a c) (rlife c).
Proof. intros Hi. destruct (release_ok none c a Hi) as (c' & -> & Hp & Hi'). by exists c'. Qed.

Lemma goes_fine c u : rc_inv none c -> rlife c = u -> goes (Fine c) u.
Proof. intros Hi <-. exists c. split; [done|]. split; [done | apply pruned_refl]. Qed.

Definition now_at (x : Session) (c : counted) : life := (rlife c) <| lsess := x |>.

Lemma goes_id c x : rc_inv none c -> x = rsess c -> goes (Fine c) (now_at x c).
Proof. intros Hi ->. apply goes_fine; [done|]. by destruct c as [[] ?]. Qed.

Lemma begin_headers_ok f c : rc_inv none c -> goes (rc_begin_headers f c) (now_at (on_begin_headers_callback f (rsess c)) c).
Proof.
  intros Hi. unfold rc_begin_headers, on_begin_headers_callback.
  destruct (is_request_headers f); [|by apply goes_id].
  destruct (make_shared_ok (hd_stream_id f) none c Hi) as [Hi1 E1].
  destruct (make_shared (hd_stream_id f) c) as [a c1] eqn:Em. injection Em as Ea _. simpl in Hi1, E1.
  rewrite Ea in Hi1.
  destruct (emplace_ptr_ok (hd_stream_id f) a _ c1 Hi1) as (c2 & -> & E2 & Hi2).
  { unfold plus. rewrite one_same. lia. }
  simpl. set (c3 := with_sess _ c2).
  replace (now_at _ c) with (rlife c3).
  - apply goes_release, sess_change; [done | by split | done].
  - unfold c3, now_at, with_sess, with_life. simpl. rewrite E2. simpl. rewrite E1, <-Ea. done.
Qed.

Lemma header_ok f name v c : rc_inv none c -> goes (rc_header f name v c) (now_at (on_header_callback f name v (rsess c)) c).
Proof.
  assert (Hf : forall g c, rc_inv none c -> goes (found (hd_stream_id f) g c) (now_at (with_stream (hd_stream_id f) g (rsess c)) c)).
  { intros g c0 Hi0. destruct (found_ok (hd_stream_id f) g none c0 Hi0) as [-> H]. by apply goes_fine. }
  intros Hi. unfold rc_header, on_header_callback.
  destruct (bool_decide (name = ":path")); [by apply Hf|].
  destruct (bool_decide (name = ":status")); [by apply Hf|].
  destruct (is_pseudo name); [by apply goes_id|].
  destruct (bool_decide (name = "content-length")); [|by apply Hf].
  destruct (fc_ec _); [by apply Hf|]. destruct (fc_value _) as [len|]; [|by apply Hf].
  destruct (_ =? _); [|by apply Hf].
  destruct (found_ok (hd_stream_id f) (set_content_length len) none c Hi) as [-> Hi1]. by apply (Hf _ _ Hi1).
Qed.

Lemma data_chunk_ok id d c : rc_inv none c -> goes (rc_data_chunk id d c) (now_at (on_data_chunk_recv_callback id d (rsess c)) c).
Proof.
  intros Hi. unfold rc_data_chunk.
  destruct (found_ok id (on_data d) none (with_sess (fun x => perform x (nghttp2_session_consume_connection (length d))) c))
    as [-> H]; [by apply sess_change|]. by apply goes_fine.
Qed.

Lemma close_stream_ok id c : rc_inv none c -> goes (rc_close_stream id c) (now_at (on_stream_close_callback id (rsess c)) c).
Proof.
  intros Hi. unfold rc_close_stream, on_stream_close_callback, close_stream.
  destruct (streams_ (rsess c) !! id) as [a|] eqn:Ea; [|by apply goes_id].
  rewrite (touch_ok none c a Hi (table_counts none c id a Ea)). simpl.
  apply goes_release. apply (rc_inv_change none); [done | apply (upd_same on_close a)|].
  intros b. unfold use_count, table_refs, plus, none. simpl.
  rewrite (size_filter_delete _ _ _ _ Ea). unfold holder_refs, one, rsess. simpl. lia.
Qed.

Lemma rc_end_ok c :
  rc_inv none c -> goes (rc_end c) ((now_at (close_all (rsess c)) c) <| running := false |>).
Proof.
  intros Hi. unfold rc_end. set (al := (map_to_list (streams_ (rsess c))).*2).
  assert (Hocc : forall b, occurrences al b = table_refs b (rsess c)) by (intros b; by rewrite table_refs_list).
  rewrite (touch_all_ok al none c Hi).
  - simpl. set (c1 := with_life _ _).
    destruct (release_all_ok al none c1) as (c2 & -> & Hp & Hi2); [|by exists c2].
    apply (rc_inv_change none _ c); [done | apply (close_all_same (rsess c))|].
    intros b. rewrite Hocc. unfold none, use_count.
    change (table_refs b (lsess ((rlife (with_sess close_all c)) <| running := false |>)))
      with (table_refs b (close_all (rsess c))).
    rewrite close_all_refs. unfold holder_refs, rsess. simpl. lia.
  - apply Forall_forall. intros a Ha. apply list_elem_of_fmap in Ha as ([id a'] & -> & Ha).
    apply elem_of_map_to_list in Ha. by apply (table_counts none c id).
Qed.

Lemma turn_same a e x x' : xstep (XTurn a e) x = Some x' -> same_objects x x'.
Proof.
  cbn [xstep]. destruct (is_turn e); [|done]. destruct (heap x !! a) as [y|] eqn:Ey; [|done].
  destruct (step e y) as [y'|]; [|done]. intros [= <-].
  destruct (perform_all_frame (drop (length (calls y)) (calls y')) (x <| heap := <[a := y']> (heap x) |>))
    as (E1 & _ & E3). split; [done|]. intros b. rewrite E1. simpl.
  destruct (decide (a = b)) as [<-|Hne]; [rewrite lookup_insert_eq, Ey; split; by eexists|].
  by rewrite lookup_insert_ne.
Qed.

Lemma rc_turn_ok a e c :
  rc_inv none c -> 0 < use_count a (rlife c) ->
  match xstep (XTurn a e) (rsess c) with
  | Some x' => goes (rc_turn a e c) (now_at x' c)
  | None => rc_turn a e c = NotNow
  end.
Proof.
  intros Hi Ha. unfold rc_turn. rewrite (touch_ok none c a Hi) by lia. unfold mbind, verdict_bind.
  destruct (xstep _ _) as [x'|] eqn:Ex; [|done].
  apply goes_fine; [|done]. apply (sess_change (fun _ => x')); [done | by eapply turn_same |].
  by apply (turn_table (XTurn a e)).
Qed.

Lemma submit_response_ok a status hs rv c :
  rc_inv none c -> 0 < use_count a (rlife c) ->
  goes (rc_submit_response a status hs rv c) (now_at (submit_response a status hs rv (rsess c)).2 c).
Proof.
  intros Hi Ha. unfold rc_submit_response. rewrite (touch_ok none c a Hi) by lia. unfold mbind, verdict_bind.
  apply goes_fine; [|done]. apply sess_change; [done|..]; unfold submit_response; by destruct (negb _).
Qed.

(** A pointer that was copied, or the local one, moves into the object [m]. *)
Lemma adopt_ok x m a c :
  rc_inv (plus x a) c -> holders (rlife c) !! m = None -> forall k, rc_inv x (with_life (adopt m k a) c).
Proof.
  intros Hi Hm k. apply (rc_inv_change (plus x a)); [done | by split|].
  intros b. rewrite adopt_count by done. unfold plus. lia.
Qed.

Lemma local_counts x a c : 0 < use_count a (rlife c) + plus x a a.
Proof. unfold plus. rewrite one_same. lia. Qed.

Lemma frame_recv_ok m f c :
  rc_inv none c -> holders (rlife c) !! m = None ->
  goes (rc_frame_recv m f c)
    (let l' := now_at (on_frame_recv_callback f (rsess c)) c in
     match is_request_headers f, find_stream (hd_stream_id f) (rsess c) with
     | true, Some a => adopt m KOther a l'
     | _, _ => l'
     end).
Proof.
  intros Hi Hm. cbv zeta. unfold rc_frame_recv, on_frame_recv_callback.
  set (id := hd_stream_id f).
  destruct (is_request_headers f); [destruct (find_stream id (rsess c)) as [a|] eqn:Ea|].
  2,3: unfold mbind, verdict_bind; destruct (end_stream f);
    [destruct (found_ok id on_read_eof none c Hi) as [-> H]; by apply goes_fine | by apply goes_id].
  destruct (copy_ptr_ok none c a Hi (table_counts none c id a Ea)) as (c1 & -> & E1 & Hi1).
  unfold mbind, verdict_bind. rewrite (touch_ok _ c1 a Hi1 (local_counts none a c1)).
  set (c2 := with_life _ _).
  assert (Hi2 : rc_inv none c2) by (apply adopt_ok; [by apply sess_change | by rewrite <-E1 in Hm]).
  assert (E2 : rlife c2 = adopt m KOther a (now_at (dispatch_request a (rsess c)) c)).
  { unfold c2, now_at, rsess, with_sess, with_life. simpl. by rewrite E1. }
  destruct (end_stream f); [|by apply goes_fine].
  destruct (found_ok id on_read_eof none c2 Hi2) as [-> H]. apply goes_fine; [done|].
  transitivity ((rlife c2) <| lsess := with_stream id on_read_eof (lsess (rlife c2)) |>); [done|]. by rewrite E2.
Qed.

(** A pruned state without [a] can do without [a]. *)
Lemma pruned_delete l u a :
  pruned l u -> heap (lsess l) !! a = None ->
  pruned l (u <| lsess := (lsess u) <| heap := delete a (heap (lsess u)) |> |>).
Proof.
  intros (h & Hh & ->) Ha. exists h. split; [|done]. simpl in *.
  rewrite <-(delete_id h a Ha). by apply delete_mono.
Qed.

Lemma fresh_count x c : rc_inv x c -> use_count (next_addr (rsess c)) (rlife c) = 0.
Proof.
  intros Hi. pose proof (ri_next _ _ Hi (next_addr (rsess c)) ltac:(lia)) as Hn.
  assert (H : ~ 0 < use_count (next_addr (rsess c)) (rlife c) + x (next_addr (rsess c))); [|lia].
  rewrite <-(rc_inv_alive x c _ Hi), Hn. by intros [].
Qed.

Lemma submit_request_goes m path n hs ret c :
  rc_inv none c -> holders (rlife c) !! m = None ->
  goes (rc_submit_request m path n hs ret c)
    (let '(r, x') := submit_request path n hs ret (rsess c) in
     match value r with Some a => adopt m KOther a (now_at x' c) | None => now_at x' c end).
Proof.
  intros Hi Hm. unfold rc_submit_request, submit_request.
  destruct (role_ (rsess c)); [by apply goes_id|]. pose proof (fresh_count none c Hi) as Hfr.
  destruct (make_shared_ok 0 none c Hi) as [Hi1 E1].
  set (a := next_addr (rsess c)) in *. cbn [make_shared new_stream fst snd] in *. fold a.
  set (c1 := mkCounted _ _) in *. set (cl := nghttp2_submit_request2 _ _).
  set (c2 := with_sess (fun x => perform x cl) c1).
  assert (Hi2 : rc_inv (plus none a) c2) by by apply sess_change.
  assert (E2 : rlife c2 = now_at (perform ((rsess c) <| heap := <[a := sys_new (log_prefix (rsess c)) 0]> (heap (rsess c)) |>
                                            <| next_addr := S a |>) cl) c) by done.
  destruct (ret <? 0)%Z; cbn [value].
  - destruct (release_ok none c2 a Hi2) as (c3 & -> & Hp & Hi3). exists c3. split; [done|]. split; [done|].
    rewrite E2 in Hp. apply (pruned_delete _ _ a Hp). apply eq_None_not_Some.
    rewrite (rc_inv_alive none c3 a Hi3), (pruned_count _ _ a Hp). unfold none.
    change (use_count a _) with (use_count a (rlife c)). lia.
  - unfold mbind, verdict_bind. rewrite (touch_ok _ c2 a Hi2 (local_counts none a c2)).
    set (c3 := with_sess _ c2).
    assert (Hi3 : rc_inv (plus none a) c3) by (apply sess_change; [done | apply upd_same | done]).
    destruct (emplace_ptr_ok ret a _ c3 Hi3 (local_counts none a c3)) as (c4 & -> & E4 & Hi4).
    set (c5 := with_sess do_start_write c4).
    assert (Hi5 : rc_inv (plus none a) c5) by by apply sess_change.
    destruct (copy_ptr_ok _ c5 a Hi5 (local_counts none a c5)) as (c6 & -> & E6 & Hi6).
    assert (E : with_life (adopt m KOther a) c6 = mkCounted (adopt m KOther a (rlife c5)) (refs c6))
      by (unfold with_life; by rewrite E6).
    assert (H5 : rlife c5 = now_at (do_start_write (emplace ret a (rsess c3))) c)
      by (unfold c5, with_sess, with_life; simpl; rewrite E4; done).
    assert (Hm6 : holders (rlife c6) !! m = None) by (by rewrite E6, H5).
    pose proof (goes_release a _ (adopt_ok _ m a c6 Hi6 Hm6 KOther)) as Hg.
    rewrite E in Hg at 2. cbn [rlife] in Hg. rewrite H5 in Hg. exact Hg.
Qed.

(** ** Messages *)

Lemma release_of_ok h c :
  rc_inv (held h) c -> goes (release_of h c) (rlife c).
Proof.
  intros Hi. unfold release_of. destruct h as [k [a|]]; simpl.
  - apply goes_release. apply (rc_inv_ext _ _ _ Hi). intros b. unfold plus, none. apply held_one.
  - apply goes_fine; [|done]. by apply (rc_inv_ext _ _ _ Hi).
Qed.

(** Moving from [src] to [m] gives [m]'s pointer up and leaves a husk. *)
Definition moved (m src : hid) (h : holder) (l : life) : life :=
  l <| holders := <[m := h]> (<[src := mkHolder (hkind h) None]> (holders l)) |>.

Lemma holder_refs_put m h l b :
  forall hs, holders l = hs ->
  holder_refs b (l <| holders := <[m := h]> hs |>) + default 0 ((fun h0 => held h0 b) <$> hs !! m) =
  holder_refs b l + held h b.
Proof.
  intros hs <-. unfold holder_refs. simpl. destruct (holders l !! m) as [h0|] eqn:E; simpl.
  - rewrite (size_filter_delete _ _ _ _ E), <-insert_delete_eq.
    rewrite size_filter_fresh by apply lookup_delete_eq. unfold held. simpl. lia.
  - rewrite size_filter_fresh by done. unfold held. simpl. lia.
Qed.

Lemma moved_count m src h l b :
  holders l !! src = Some h -> m <> src ->
  use_count b (moved m src h l) + default 0 ((fun h0 => held h0 b) <$> holders l !! m) = use_count b l.
Proof.
  intros Hs Hne. unfold use_count. change (lsess (moved m src h l)) with (lsess l).
  pose proof (holder_refs_put src (mkHolder (hkind h) None) l b _ eq_refl) as H1. rewrite Hs in H1. simpl in H1.
  set (l1 := l <| holders := <[src := mkHolder (hkind h) None]> (holders l) |>) in *.
  pose proof (holder_refs_put m h l1 b _ eq_refl) as H2. simpl in H2.
  rewrite lookup_insert_ne in H2 by done. rewrite held_husk in H1.
  change (holder_refs b (l1 <| holders := _ |>)) with (holder_refs b (moved m src h l)) in H2. lia.
Qed.

(** ** Steps *)

(** [r] answers as Lifetime does. *)
Definition agrees (r : verdict counted) (o : option life) : Prop :=
  match o with
  | Some l' => exists c', r = Fine c' /\ rlife c' = l' /\ rc_inv none c'
  | None => r = NotNow
  end.

Lemma goes_agrees r u u' : goes r u -> u = u' -> agrees r (Some (sweep u')).
Proof. intros H <-. by apply goes_sweep. Qed.

(** In the cases where run() goes on. *)
Lemma now_at_running x c : now_at x c = (now_at x c) <| running := running (rlife c) && negb false |>.
Proof. unfold now_at. destruct (rlife c) as [? ? ? r ?]. simpl. by rewrite andb_true_r. Qed.

Lemma event_ok e c :
  rc_inv none c -> lguard e (rlife c) = true -> agrees (rc_event e c) (lstep (LEvent e) (rlife c)).
Proof.
  intros Hi Hg. cbn [lstep]. rewrite Hg.
  assert (Hgo : forall r x', is_end e = false -> goes r (now_at x' c) ->
            agrees r (Some (sweep ((rlife c) <| lsess := x' |> <| running := running (rlife c) && negb (is_end e) |>)))).
  { intros r x' -> H. eapply goes_agrees; [exact H | apply (now_at_running x' c)]. }
  destruct e as [f|f n v|f|id d|id|a e|path n hs ret|a n hs rv| | |]; try done; cbn [xstep rc_event].
  - apply Hgo; [done | by apply begin_headers_ok].
  - apply Hgo; [done | by apply header_ok].
  - apply Hgo; [done | by apply data_chunk_ok].
  - apply Hgo; [done | by apply close_stream_ok].
  - assert (Ha : 0 < use_count a (rlife c)).
    { unfold use_count. unfold lguard in Hg. destruct e; try (apply andb_true_iff in Hg as [_ Hg]);
        apply Nat.ltb_lt in Hg; lia. }
    pose proof (rc_turn_ok a e c Hi Ha) as Ht. cbn [xstep] in Ht. unfold rsess in *.
    destruct (if is_turn e then _ else None) as [x'|]; [by apply Hgo | exact Ht].
  - apply Hgo; [done|]. apply submit_response_ok; [done|]. simpl in Hg. apply Nat.ltb_lt in Hg. unfold use_count. lia.
  - apply Hgo; [done|]. apply goes_fine; [by apply sess_change | done].
  - apply Hgo; [done|]. apply goes_fine; [by apply sess_change | done].
  - eapply goes_agrees; [by apply rc_end_ok|]. simpl. by rewrite andb_false_r.
Qed.

Lemma message_ok e c :
  rc_inv none c -> match e with LNew _ _ _ | LMove _ _ | LAssign _ _ | LDrop _ | LRelease => True | _ => False end ->
  agrees (rc_step e c) (lstep e (rlife c)).
Proof.
  intros Hi He. destruct e as [xe|m path n hs ret|m f|m k src|m src|m src|m|]; try done; cbn [rc_step lstep].
  - unfold rc_construct, construct. destruct (holders (rlife c) !! m) eqn:Em; [done|].
    destruct (holders (rlife c) !! src) as [[k' [a|]]|] eqn:Es; try done.
    destruct (copy_ptr_ok none c a Hi) as (c1 & -> & E1 & Hi1).
    { assert (0 < holder_refs a (rlife c)) by (apply holder_refs_pos; eauto). unfold use_count. lia. }
    unfold mbind, verdict_bind. eapply goes_agrees; [apply goes_fine; [|done]|].
    + apply adopt_ok; [done | by rewrite E1].
    + simpl. by rewrite E1.
  - unfold rc_move_construct, move_construct. destruct (holders (rlife c) !! m) eqn:Em; [done|].
    destruct (holders (rlife c) !! src) as [h|] eqn:Es; [|done].
    eapply goes_agrees; [apply goes_fine; [|done]|done].
    apply (rc_inv_change none none c (moved m src h (rlife c))); [done | by split|].
    intros b. pose proof (moved_count m src h (rlife c) b Es ltac:(congruence)) as H. rewrite Em in H. simpl in H.
    unfold none. lia.
  - unfold rc_move_assign, move_assign. destruct (holders (rlife c) !! m) as [h0|] eqn:Em; [|done].
    destruct (holders (rlife c) !! src) as [h|] eqn:Es; [|done].
    destruct (bool_decide (m = src)) eqn:Ems; [done|]. apply bool_decide_eq_false in Ems.
    destruct (negb _); [done|]. eapply goes_agrees; [apply release_of_ok|done].
    apply (rc_inv_change none (held h0) c (moved m src h (rlife c))); [done | by split|].
    intros b. pose proof (moved_count m src h (rlife c) b Es Ems) as H. rewrite Em in H. simpl in H.
    unfold none. lia.
  - unfold rc_destroy, destroy. destruct (holders (rlife c) !! m) as [h|] eqn:Em; [|done].
    eapply goes_agrees; [apply release_of_ok|done].
    apply (rc_inv_change none (held h) c); [done | by split|].
    intros b. rewrite <-(destroy_count m h (rlife c)) by done. unfold none. lia.
  - unfold rc_release_session, release_session. destruct (owners (rlife c)) as [|n]; [done|].
    eapply goes_agrees; [apply goes_fine; [|done]|done]. by apply (rc_inv_change none none c).
Qed.

Lemma rc_step_ok e c : rc_inv none c -> agrees (rc_step e c) (lstep e (rlife c)).
Proof.
  intros Hi. destruct e as [xe|m path n hs ret|m f|m k src|m src|m src|m|];
    try (by apply message_ok); cbn [rc_step].
  - destruct (lguard xe (rlife c)) eqn:Hg; [by apply event_ok|]. cbn [lstep]. by rewrite Hg.
  - cbn [lstep]. unfold new_client_request. destruct (holders (rlife c) !! m) eqn:Em; [done|].
    destruct (owners (rlife c)); [done|].
    pose proof (submit_request_goes m path n hs ret c Hi Em) as H. unfold rsess in H.
    destruct (submit_request path n hs ret (lsess (rlife c))) as [r x']. by eapply goes_agrees.
  - cbn [lstep]. unfold spawn_handler. destruct (running (rlife c)); [|done].
    destruct (holders (rlife c) !! m) eqn:Em; [done|].
    eapply goes_agrees; [by apply frame_recv_ok | done].
Qed.

Lemma rc_inv_new role handler n : rc_inv none (counted_new role handler n).
Proof.
  split; unfold rsess; simpl.
  - intros a. unfold use_count, holder_refs, table_refs. simpl.
    by rewrite !map_filter_empty, !map_size_empty, lookup_empty.
  - intros a. by rewrite !lookup_empty.
  - intros a _. apply lookup_empty.
Qed.

Lemma rc_reach_ok role handler n evs c :
  rc_reach role handler n evs c -> rc_inv none c /\ lreach role handler n evs (rlife c).
Proof.
  induction 1 as [|evs c e c' _ [Hi Hl] Hs]; [split; [apply rc_inv_new | constructor]|].
  pose proof (rc_step_ok e c Hi) as H. unfold agrees in H.
  destruct (lstep e (rlife c)) as [l'|] eqn:E; [|congruence].
  destruct H as (c1 & Hs1 & El & Hi1). rewrite Hs in Hs1. injection Hs1 as <-.
  split; [done|]. rewrite El. by eapply lreach_step.
Qed.

(** C24 Nothing is used after it was destroyed, and nothing outlives its owners: whatever a
    session, its coroutines, nghttp2 and the messages do, each stream's count is the number
    of the pointers the table, the messages and the coroutine frames have to it; the object
    is there exactly while that number is positive; no step that can be taken next, by
    anybody with a pointer, uses or releases an object that is gone; and the objects are
    those of Lifetime, where everything without an owner is collected after each event. *)
Theorem no_use_after_free role handler n evs c :
  rc_reach role handler n evs c ->
  (forall a, refs c !! a = cnt (use_count a (rlife c))) /\
  (forall a, is_Some (heap (rsess c) !! a) <-> 0 < use_count a (rlife c)) /\
  (forall e, rc_step e c <> UseAfterFree) /\
  (forall e, match lstep e (rlife c) with
             | Some l' => exists c', rc_step e c = Fine c' /\ rlife c' = l'
             | None => rc_step e c = NotNow
             end) /\
  lreach role handler n evs (rlife c).
Proof.
  intros Hr. destruct (rc_reach_ok _ _ _ _ _ Hr) as [Hi Hl].
  assert (Hst : forall e, agrees (rc_step e c) (lstep e (rlife c))) by (intros e; by apply rc_step_ok).
  split; [|split; [|split; [|split; [|done]]]].
  - intros a. rewrite (ri_refs _ _ Hi). unfold none. by rewrite Nat.add_0_r.
  - intros a. rewrite (rc_inv_alive none c a Hi). unfold none. by rewrite Nat.add_0_r.
  - intros e E. specialize (Hst e). unfold agrees in Hst.
    destruct (lstep e (rlife c)); [destruct Hst as (? & ? & _)|]; congruence.
  - intros e. specialize (Hst e). unfold agrees in Hst.
    destruct (lstep e (rlife c)); [destruct Hst as (c' & ? & ? & _); by exists c' | done].
Qed.

End RefcountProps.

(** ** A request served *)

Module RefcountDemo.
#[local] Existing Instance capy_ref.
#[local] Existing Instance ng_ref.
Import LifetimeDemo.

Definition counted_served : counted :=
  match rc_run serve (counted_new server true 0) with Fine c => c | _ => counted_new server true 0 end.

(** The stream has left the table; the Response and the frame of its handler hold it. *)
Lemma no_use_after_free_witness :
  refs counted_served !! 0 = Some 2 /\ is_Some (heap (rsess counted_served) !! 0) /\
  rc_step (LDrop 14) counted_served <> UseAfterFree.
Proof.
  destruct (no_use_after_free server true 0 serve counted_served) as (H1 & H2 & H3 & _).
  - apply (rc_run_reach server true 0 [] serve (counted_new server true 0)); [constructor | by vm_compute].
  - split; [rewrite H1; by vm_compute|]. split; [apply H2; vm_compute; lia | apply H3].
Defined.

End RefcountDemo.
